(* ===== verification/_CoqProject ===== *)
-Q . S2P
Prelude.v
StreamSpec.v
ByteStream.v
Transfer.v
Discard.v
Buffer.v
BufferList.v
BufferAlias.v
BufferViewList.v
BufferSpec.v
NetInt.v
Parser.v
Checksum.v
Kernel.v
FileDescriptor.v
Handles.v
EventLoop.v
LoopSafety.v
LoopGrowth.v
LoopResults.v
LoopWorklist.v
LoopLife.v
Pump.v
Address.v
AddressSafety.v
Socket.v
SocketSafety.v
Webget.v
WebgetSafety.v
Loopback.v
Machine.v
SocketExamples.v
WebLoopback.v
Tun.v
Util.v
Hexdump.v
Random.v
Harness.v
StreamTests.v
