(* ===== verification/Prelude.v ===== *)
(** * Sponge: a verification library for the CS144 "sponge" networking code

    The C++ program under src/ is a small networking library (libsponge), one
    application (apps/webget.cc), documentation examples (doctests/) and a
    test harness with five test programs (tests/).  This library models all of
    them in Rocq and proves what makes each part correct.

    ** The program's parts, and the files that model them

    - Prelude.v (this file): bytes, machine integers, C++ exceptions and
      undefined behaviour as values, the state and error monad [M], loops,
      the operations of [std::string], shared tactics and lemmas, and four
      small logics for monadic code: [follows] (two programs side by side),
      [keeps] (an invariant of the state), [sure] (an invariant, with nothing
      undefined) and [wp] (weakest preconditions).
    - StreamSpec.v, ByteStream.v: libsponge/byte_stream.hh, byte_stream.cc.
      StreamSpec has the abstract bounded queue, the interface
      [ByteStreamImpl] and its laws; ByteStream has the ring buffer, one
      definition per method, and shows that it refines the queue.
    - Transfer.v: a writer and a reader at the two ends of a stream.
    - Discard.v, Buffer.v, BufferList.v, BufferViewList.v: util/buffer.hh,
      buffer.cc.  Discard is the interface the three classes share: a text
      and the removal of a prefix of it.  A string object has an identity,
      so sharing, ownership and dangling views can be stated.  BufferSpec.v
      has a BufferList as the byte string it stands for, BufferAlias.v
      [append] on references, with the iterators of its loop.
    - NetInt.v, Parser.v: util/parser.hh, parser.cc.  Big-endian integers
      as mathematics; NetParser over Buffer, NetUnparser over a string; the
      program doctests/parser_dt.cc.
    - Checksum.v, Util.v, Hexdump.v, Random.v: util/util.hh, util.cc, the class
      [InternetChecksum] and the functions [timestamp_ms], [hexdump] and
      [get_random_generator], with [std::seed_seq] and [std::mt19937].
    - Kernel.v: [SystemCall] and [unix_error] of util.hh, util.cc, and the
      system calls: a record [kernel W] over a type [W] of worlds, which the
      components take as a parameter.  Socket.v has the record [net W] of
      socket calls, Tun.v takes open(2) and ioctl(2) as arguments.
    - FileDescriptor.v, Handles.v: util/file_descriptor.hh,
      file_descriptor.cc.  The FDWrapper objects live in a store ([fds])
      with their reference counts; a FileDescriptor is a pointer into it, null
      once moved from.  Handles.v has programs that create, duplicate, move,
      use and destroy FileDescriptor variables, as a step relation.
    - EventLoop.v, LoopSafety.v, LoopGrowth.v, LoopResults.v, LoopWorklist.v,
      LoopLife.v: util/eventloop.hh, eventloop.cc.  Rules whose closures are
      interpreted by the client (class [Closures]); [wait_next_event] with its two
      loops, erasures and caught exceptions; closures that use descriptors
      (LoopSafety) and that add rules (LoopGrowth: how many there can be,
      LoopResults: what goes wrong, LoopWorklist: a call on any closures, without
      iterators); LoopLife has a loop from its construction to its destruction.
      Pump.v is a client that reads a descriptor to its end.
    - Address.v, AddressSafety.v: util/address.hh, address.cc, addresses as
      bytes, and the public interface as types of calls; getaddrinfo(3) and
      getnameinfo(3) are parameters; the program doctests/address_dt.cc.
    - Socket.v, SocketSafety.v: util/socket.hh, socket.cc, every method, and the
      public interface of the descriptor classes as one type of calls.
    - Loopback.v, Machine.v, SocketExamples.v: what the examples of
      doctests/socket_dt.cc rely on of the operating system, as laws over a view
      of its sockets; a machine that has the laws; the examples.
    - Tun.v: util/tun.hh, tun.cc.
    - Webget.v, WebgetSafety.v: apps/webget.cc; WebLoopback.v runs it against a
      server made of the library's own sockets, on one machine.
    - Harness.v, StreamTests.v: tests/byte_stream_test_harness.hh and .cc, and
      tests/byte_stream_construction.cc, _one_write.cc, _two_writes.cc,
      _capacity.cc and _many_writes.cc, over any [ByteStreamImpl].

    A method is a definition of the same name (with a suffix where Rocq has
    the name already: [at_], [parse_u32], [new_fd], [from_ip]); a loop body is
    a definition of its own ([write_byte], [add_byte], [write_loop], ...).
    State is passed by [M S]: an exception leaves the object as it was when it
    was thrown.  Integers keep their width: [u8] to [u64] wrap, [to_int] and
    [to_ssize] convert, [int_arith] makes signed overflow an [Undef].  Reading
    out of bounds, using a null pointer and dividing by zero are [Undef] too.

    ** What the theorems show

    - ByteStream: for capacities up to 2^30 every sequence of calls behaves
      as the abstract queue, so bytes come out in the order they went in; the
      effect of larger capacities; that write ignores end_input; and that
      whatever a writer has to say reaches a reader, in any fair order of turns.
    - Buffers: removal of prefixes, concatenation and gathering keep exactly
      the right bytes, a BufferList refines a byte string, and a shared string
      is freed exactly when every buffer has discarded it; appending a list that
      is not empty to itself is undefined.
    - Parser: every sequence of calls of the public interface is total and equal
      to a specification over byte lists with a sticky error; round trips in both
      directions.
    - Checksum: equal to the one's-complement sum of RFC 1071 for messages up
      to 131074 bytes, a stored checksum verifies, termination; beyond that
      length a carry can be lost.
    - FileDescriptor: [read] and [write] on every branch, termination and
      delivery of [write] against any kernel, the O_NONBLOCK bit; reference
      counts of every reachable program; every descriptor closed exactly once.
    - EventLoop: the loops refine a specification without iterators or
      indices, rules keep their order, busy waiting is detected, memory
      safety; on any closures, rules they add included, a call is two passes over
      a worklist; it ends if its closures add finitely many rules; a closure that
      adds a rule while poll results are gone through makes the call read past its
      pollfds, and nothing else can go wrong; a loop that is destroyed leaves its
      client's objects and no others, whatever its closures do and throw, if they
      use descriptors that exist; a client that reads to the end of a descriptor
      gets everything and ends; what happens when poll fails.
    - Address, Socket, Tun: numeric round trips, equality; whatever the resolver
      answers, an address is whole and its methods return or throw; what is sent
      and received, accounting, and that a constructor that throws closes the
      descriptor it took over.  No method of a descriptor or socket can go wrong
      on a live handle, whatever the system calls return (those that fill a
      buffer fill no more than they are given).  The documentation's examples
      pass, and leave nothing behind.
    - Tests: on a lawful stream the harness passes exactly the tests that are true
      of the abstract queue, and reports the first wrong step of the others; every
      lawful stream passes the repository's tests.
    - Utilities: timestamps never go back and count from the first call; the
      layout of a dump, and what it leaves of standard output's state; the
      random generator is seeded by 624 draws, in order, or throws what a draw throws.
    - webget: the server gets the request and standard output gets its whole
      reply, however the kernel splits it, and a program over the library's
      sockets is such a server on every machine with reliable local sockets; on every command line and whatever
      the resolver and the system calls answer, the program ends with the right
      status and message and leaves no descriptor open.

    ** Fuel and bounds

    Loops that are not structural take fuel, and a theorem says how much is
    enough: [Checksum.fold_carries] two rounds of folding for a 32-bit sum
    ([value_terminates]); [FileDescriptor.write_loop] one round per byte and one
    more ([write_terminates]); [EventLoop.set_up] and [process] one round per
    rule and one more when closures add none ([wait_next_event_refines]),
    one more for every rule they can add ([wait_next_event_terminates]);
    [Pump.pump_loop] one turn per byte and two more ([event_loop_drains]);
    [Webget.print_loop] one round per byte of response and two more, or two more
    than the reads that can deliver something ([webget_ends_well]);
    [LoopLife.life] for each call the rules there are and can still be added;
    [BufferAlias.append_loop] one round per Buffer and one more;
    [Hexdump.dump_loop] one round per byte and one more.
    [string_max_size] is libstdc++'s on a 64-bit target.

    ** Not modelled, and why

    Threads (the code has none); what the closures of a rule hold, which goes with
    the rule; a read(2) that stores more than it is asked for, which is taken to
    lengthen the string; flags of standard output other than its base; a closure
    that calls [wait_next_event] of the loop that runs it; memory exhaustion; sockets that talk to other machines,
    beyond what webget's theorems ask of its connection; the macros of
    tests/test_err_if.hh and test_should_be.hh, which nothing includes (the
    second includes a header the repository does not have); the build files and
    the shell script of tests/.  Numeric constants are those of Linux on x86-64.

    ** Plan

    First the data path (streams, buffers, parser, checksum), then descriptors
    and the event loop, then addresses, sockets and webget, then the tests, the
    documentation examples, liveness, the public interfaces, closures that add
    rules, whole lives of objects and programs, and webget talking to a server
    over the library's own sockets: done. *)

From Stdlib Require Export Strings.Byte Strings.String.
From stdpp Require Export base list numbers sets strings pretty.

#[global] Open Scope Z_scope.

(** ** Bytes and C strings *)

Abbreviation byte := Byte.byte.

#[export] Instance byte_eq_dec : EqDecision byte := Byte.byte_eq_dec.
#[export] Instance byte_inhabited : Inhabited byte := populate Byte.x00.

(** The unsigned value of a byte, and the byte a [uint8_t] conversion makes. *)
Definition byte_val (b : byte) : Z := Z.of_N (Byte.to_N b).
Definition byte_of (z : Z) : byte :=
  match Byte.of_N (Z.to_N (z mod 256)) with Some b => b | None => Byte.x00 end.

(** A string literal as the bytes it holds. *)
Definition bytes (s : string) : list byte := String.list_byte_of_string s.

Definition lenZ {A} (l : list A) : Z := Z.of_nat (length l).

Lemma byte_val_range b : 0 <= byte_val b < 256.
Proof. unfold byte_val. pose proof (Byte.to_N_bounded b). lia. Qed.

Lemma byte_of_val b : byte_of (byte_val b) = b.
Proof.
  unfold byte_of. pose proof (byte_val_range b).
  rewrite Z.mod_small by lia. unfold byte_val.
  rewrite N2Z.id, Byte.of_to_N. done.
Qed.

Lemma byte_val_of z : byte_val (byte_of z) = z mod 256.
Proof.
  unfold byte_of. pose proof (Z.mod_pos_bound z 256 ltac:(lia)).
  destruct (Byte.of_N _) as [b|] eqn:E.
  - apply Byte.to_of_N in E. unfold byte_val. lia.
  - apply Byte.of_N_None_iff in E. lia.
Qed.

Lemma byte_val_inj b1 b2 : byte_val b1 = byte_val b2 -> b1 = b2.
Proof. intros H. rewrite <- (byte_of_val b1), <- (byte_of_val b2). congruence. Qed.

(** ** Machine integers

    An integer of the code is a [Z] in the range of its type.  Conversions to
    an unsigned type wrap; conversions to [int] wrap as well (the
    implementation-defined choice of every compiler the build accepts);
    arithmetic on [int] that leaves the range is undefined behaviour and is
    checked by [int_arith] below. *)

Definition u8 (z : Z) : Z := z mod 2 ^ 8.
Definition u16 (z : Z) : Z := z mod 2 ^ 16.
Definition u32 (z : Z) : Z := z mod 2 ^ 32.
Definition u64 (z : Z) : Z := z mod 2 ^ 64.
Definition int_min : Z := - 2 ^ 31.
Definition int_max : Z := 2 ^ 31 - 1.
Definition to_int (z : Z) : Z := let r := u32 z in if r <? 2 ^ 31 then r else r - 2 ^ 32.
(** [ssize_t] of a [size_t]. *)
Definition to_ssize (z : Z) : Z := let r := u64 z in if r <? 2 ^ 63 then r else r - 2 ^ 64.

(** [std::string::max_size()] is implementation-defined; libstdc++'s value on a
    64-bit target.  The theorems only use that it lies between [2^32] and
    [2^64 - 2^31]. *)
Definition string_max_size : Z := 2 ^ 62 - 1.

Lemma u64_small z : 0 <= z < 2 ^ 64 -> u64 z = z.
Proof. apply Z.mod_small. Qed.
Lemma u64_range z : 0 <= u64 z < 2 ^ 64.
Proof. apply Z.mod_pos_bound. lia. Qed.
Lemma u32_small z : 0 <= z < 2 ^ 32 -> u32 z = z.
Proof. apply Z.mod_small. Qed.
Lemma u32_range z : 0 <= u32 z < 2 ^ 32.
Proof. apply Z.mod_pos_bound. lia. Qed.
Lemma u16_range z : 0 <= u16 z < 2 ^ 16.
Proof. apply Z.mod_pos_bound. lia. Qed.

Lemma to_int_range z : int_min <= to_int z <= int_max.
Proof.
  unfold to_int, int_min, int_max. pose proof (u32_range z).
  destruct (Z.ltb_spec (u32 z) (2 ^ 31)); lia.
Qed.

Lemma to_ssize_small z : 0 <= z < 2 ^ 63 -> to_ssize z = z.
Proof.
  intros H. unfold to_ssize. rewrite u64_small by lia. destruct (Z.ltb_spec z (2 ^ 63)); lia.
Qed.

Lemma u64_negative z : - 2 ^ 64 <= z < 0 -> u64 z = z + 2 ^ 64.
Proof. intros. unfold u64. symmetry. apply Z.mod_unique with (-1); lia. Qed.

Lemma to_int_small z : 0 <= z < 2 ^ 31 -> to_int z = z.
Proof.
  intros H. unfold to_int. rewrite u32_small by lia.
  destruct (Z.ltb_spec z (2 ^ 31)); lia.
Qed.

(** ** Exceptions, undefined behaviour and results *)

(** The C++ exceptions the code throws or lets through. *)
Inductive exn :=
  | out_of_range (what : string)
  | length_error (what : string)
  | runtime_error (what : string)
  | expectation_violation (what : string)  (* ByteStreamExpectationViolation of the test harness *)
  | invalid_argument (what : string)
  | unix_error (attempt : string) (errno : Z)
  | gai_error (attempt : string) (code : Z).

(** The kinds of undefined behaviour the model detects. *)
Inductive undef :=
  | SignedOverflow
  | DivisionByZero
  | OutOfBounds
  | NullPointer
  | InvalidIterator.

(** The result of running code: a value, an exception, undefined behaviour,
    or a loop that used up the fuel it was given. *)
Inductive res (A : Type) :=
  | Ok (a : A)
  | Exc (e : exn)
  | Undef (u : undef)
  | NoFuel.
Arguments Ok {A} a.
Arguments Exc {A} e.
Arguments Undef {A} u.
Arguments NoFuel {A}.

#[export] Instance exn_eq_dec : EqDecision exn.
Proof. solve_decision. Defined.
#[export] Instance undef_eq_dec : EqDecision undef.
Proof. solve_decision. Defined.
#[export] Instance res_eq_dec {A} `{EqDecision A} : EqDecision (res A).
Proof. solve_decision. Defined.

#[export] Instance res_ret : MRet res := @Ok.
#[export] Instance res_bind : MBind res := fun A B f r =>
  match r with Ok a => f a | Exc e => Exc e | Undef u => Undef u | NoFuel => NoFuel end.

#[export] Instance res_fmap : FMap res := fun A B f r =>
  match r with Ok a => Ok (f a) | Exc e => Exc e | Undef u => Undef u | NoFuel => NoFuel end.

(** Code that reads and writes an object of type [S]: an exception leaves the
    object as it was when it was thrown. *)
Definition M (S A : Type) : Type := S -> res A * S.

#[export] Instance M_ret {S} : MRet (M S) := fun A a s => (Ok a, s).
#[export] Instance M_bind {S} : MBind (M S) := fun A B f m s =>
  match m s with
  | (Ok a, s') => f a s'
  | (Exc e, s') => (Exc e, s')
  | (Undef u, s') => (Undef u, s')
  | (NoFuel, s') => (NoFuel, s')
  end.

Definition get {S} : M S S := fun s => (Ok s, s).
Definition modify {S} (f : S -> S) : M S unit := fun s => (Ok tt, f s).
Definition throw {S A} (e : exn) : M S A := fun s => (Exc e, s).
(** A [const] method: it may fail, and leaves the object alone. *)
Definition query {S A} (f : S -> res A) : M S A := fun s => (f s, s).
Definition lift {S A} (r : res A) : M S A := fun s => (r, s).
(** A block over a local variable: its last value. *)
Definition local_var {S} (m : M S unit) (s : S) : res S :=
  match m s with
  | (Ok _, s') => Ok s'
  | (Exc e, _) => Exc e
  | (Undef u, _) => Undef u
  | (NoFuel, _) => NoFuel
  end.

(** [for (i = i0; i < i0 + n; i++) body(i)] *)
Fixpoint for_from {S} (n : nat) (i : Z) (body : Z -> M S unit) : M S unit :=
  match n with
  | O => mret tt
  | Datatypes.S n' => body i ;; for_from n' (i + 1) body
  end.

(** [int] arithmetic: the exact result, or undefined behaviour. *)
Definition int_arith (z : Z) : res Z :=
  if (int_min <=? z) && (z <=? int_max) then Ok z else Undef SignedOverflow.
(** [a % b] on [int]: truncated division. *)
Definition int_rem (a b : Z) : res Z :=
  if b =? 0 then Undef DivisionByZero
  else if (a =? int_min) && (b =? -1) then Undef SignedOverflow
  else Ok (Z.rem a b).
(** [a % b] on an unsigned type. *)
Definition uint_rem (a b : Z) : res Z :=
  if b =? 0 then Undef DivisionByZero else Ok (a mod b).

(** [std::string::operator[]]: reading the terminator at [size()] is allowed,
    writing anything but a null there is not. *)
Definition str_get (l : list byte) (i : Z) : res byte :=
  if (0 <=? i) && (i <? lenZ l) then
    match l !! Z.to_nat i with Some c => Ok c | None => Undef OutOfBounds end
  else if i =? lenZ l then Ok Byte.x00 else Undef OutOfBounds.
Definition str_set (i : Z) (c : byte) : M (list byte) unit := fun l =>
  if (0 <=? i) && (i <? lenZ l) then (Ok tt, <[Z.to_nat i := c]> l)
  else if (i =? lenZ l) && bool_decide (c = Byte.x00) then (Ok tt, l)
  else (Undef OutOfBounds, l).

(** [std::string(n, c)], [n] a [size_t]. *)
Definition str_fill (n : Z) (c : byte) : res (list byte) :=
  if n >? string_max_size then Exc (length_error "basic_string::_M_create")
  else Ok (replicate (Z.to_nat n) c).

(** [append], [push_back]: both throw beyond [max_size()]. *)
Definition str_append (v : list byte) : M (list byte) unit :=
  s ← get;
  if lenZ s + lenZ v >? string_max_size then throw (length_error "basic_string::append")
  else modify (fun s => s ++ v).
Definition str_push (c : byte) : M (list byte) unit := str_append [c].

(** [for (x : l) body(x)] *)
Fixpoint for_each {A S} (body : A -> M S unit) (l : list A) : M S unit :=
  match l with [] => mret tt | x :: l => body x ;; for_each body l end.

(** [v1 + v2 + ...] on strings. *)
Definition str_concat (vs : list (list byte)) : res (list byte) := local_var (for_each str_append vs) [].

(** Running code on one field of an object. *)
Definition on_field {S F A} (get_f : S -> F) (set_f : F -> S -> S) (m : M F A) : M S A := fun s =>
  let '(r, f) := m (get_f s) in (r, set_f f s).

(** Destructors of what a throwing constructor has built so far. *)
Definition unwinding {S A} (cleanup : M S unit) (m : M S A) : M S A := fun s =>
  match m s with
  | (Exc e, s) => match cleanup s with
                  | (Ok _, s) => (Exc e, s)
                  | (Exc _, s) => (Exc e, s)
                  | (Undef u, s) => (Undef u, s)
                  | (NoFuel, s) => (NoFuel, s)
                  end
  | r => r
  end.

(** [try { m } catch (e) { handler }] *)
Definition catch {S A} (m : M S A) (handler : exn -> M S A) : M S A := fun s =>
  match m s with (Exc e, s) => handler e s | r => r end.

(** Bytes stored at the start of a buffer. *)
Definition overwrite (d s : list byte) : list byte := d ++ drop (length d) s.

(** ** Tactics and shared lemmas *)

(** Case analysis on the boolean comparisons in sight. *)
Ltac case_cmp :=
  repeat match goal with
  | |- context [?a <=? ?b] => destruct (Z.leb_spec a b)
  | |- context [?a <? ?b] => destruct (Z.ltb_spec a b)
  | |- context [?a =? ?b] => destruct (Z.eqb_spec a b)
  | |- context [?a >? ?b] => rewrite (Z.gtb_ltb a b)
  | |- context [?a >=? ?b] => rewrite (Z.geb_leb a b)
  end; simpl.

(** Runs the monadic code of the goal as far as its results are known. *)
Ltac run :=
  cbv beta iota delta
    [mbind mret M_bind M_ret res_bind res_ret get modify throw query lift fst snd].
Tactic Notation "run" "in" hyp(H) :=
  cbv beta iota delta
    [mbind mret M_bind M_ret res_bind res_ret get modify throw query lift fst snd] in H.

Lemma lenZ_nil {A} : lenZ (@nil A) = 0.
Proof. done. Qed.
Lemma lenZ_cons {A} (x : A) l : lenZ (x :: l) = 1 + lenZ l.
Proof. unfold lenZ. simpl. lia. Qed.
Lemma lenZ_app {A} (l k : list A) : lenZ (l ++ k) = lenZ l + lenZ k.
Proof. unfold lenZ. rewrite length_app. lia. Qed.
Lemma lenZ_nonneg {A} (l : list A) : 0 <= lenZ l.
Proof. unfold lenZ. lia. Qed.
Lemma lenZ_insert {A} (l : list A) i x : lenZ (<[i := x]> l) = lenZ l.
Proof. unfold lenZ. by rewrite length_insert. Qed.
Lemma lenZ_take {A} (l : list A) n : 0 <= n -> lenZ (take (Z.to_nat n) l) = Z.min n (lenZ l).
Proof. unfold lenZ. rewrite length_take. lia. Qed.
Lemma lenZ_drop {A} (l : list A) n : 0 <= n -> lenZ (drop (Z.to_nat n) l) = Z.max 0 (lenZ l - n).
Proof. unfold lenZ. rewrite length_drop. lia. Qed.
Lemma lenZ_replicate {A} (x : A) n : 0 <= n -> lenZ (replicate (Z.to_nat n) x) = n.
Proof. unfold lenZ. rewrite length_replicate. lia. Qed.
Lemma lenZ_zero {A} (l : list A) : lenZ l = 0 -> l = [].
Proof. unfold lenZ. destruct l; simpl; [done|lia]. Qed.

Create HintDb sponge.
Create Rewrite HintDb lenZ.
#[export] Hint Rewrite @lenZ_nil @lenZ_cons @lenZ_app @lenZ_insert : lenZ.
#[export] Hint Resolve lenZ_nonneg byte_val_range u64_range u32_range u16_range : sponge.

Lemma int_arith_ok z : int_min <= z <= int_max -> int_arith z = Ok z.
Proof. intros. unfold int_arith. by case_cmp; try lia. Qed.
Lemma int_arith_overflow z : z < int_min \/ int_max < z -> int_arith z = Undef SignedOverflow.
Proof. intros. unfold int_arith. by case_cmp; try lia. Qed.
Lemma int_rem_ok a b : 0 < b -> int_rem a b = Ok (Z.rem a b).
Proof. intros. unfold int_rem. case_cmp; try lia; done. Qed.
Lemma uint_rem_ok a b : 0 < b -> uint_rem a b = Ok (a mod b).
Proof. intros. unfold uint_rem. case_cmp; [lia|done]. Qed.

Lemma lookupZ_lt {A} (l : list A) i : 0 <= i < lenZ l -> is_Some (l !! Z.to_nat i).
Proof. unfold lenZ. intros. apply lookup_lt_is_Some. lia. Qed.

Lemma str_get_ok l i c :
  0 <= i -> l !! Z.to_nat i = Some c -> str_get l i = Ok c.
Proof.
  intros Hi Hc. pose proof (lookup_lt_Some _ _ _ Hc).
  unfold str_get, lenZ. case_cmp; try lia. by rewrite Hc.
Qed.

Lemma str_set_ok l i c :
  0 <= i < lenZ l -> str_set i c l = (Ok tt, <[Z.to_nat i := c]> l).
Proof. intros. unfold str_set. case_cmp; try lia. done. Qed.

Lemma str_fill_ok n c : n <= string_max_size -> str_fill n c = Ok (replicate (Z.to_nat n) c).
Proof. intros. unfold str_fill. by case_cmp; try lia. Qed.

Lemma str_append_ok v s :
  lenZ s + lenZ v <= string_max_size -> str_append v s = (Ok tt, s ++ v).
Proof.
  intros. unfold str_append. run. rewrite Z.gtb_ltb.
  by destruct (Z.ltb_spec string_max_size (lenZ s + lenZ v)); [lia|].
Qed.

(** Everything joined, or an exception when that is too long. *)
Lemma str_concat_result vs :
  str_concat vs = if lenZ (concat vs) <=? string_max_size then Ok (concat vs)
                  else Exc (length_error "basic_string::append").
Proof.
  assert (H : forall s, lenZ s <= string_max_size -> local_var (for_each str_append vs) s =
    if lenZ (s ++ concat vs) <=? string_max_size then Ok (s ++ concat vs)
    else Exc (length_error "basic_string::append")); [|by apply H].
  induction vs as [|v vs IH]; intros s Hs; simpl.
  { rewrite app_nil_r. by destruct (Z.leb_spec (lenZ s) string_max_size); [|lia]. }
  rewrite (assoc_L (++)). unfold local_var. run.
  destruct (Z.leb_spec (lenZ (s ++ v)) string_max_size) as [Hv|Hv].
  - rewrite str_append_ok by (by rewrite <- lenZ_app). by apply IH.
  - unfold str_append. run. rewrite Z.gtb_ltb, <- lenZ_app.
    destruct (Z.ltb_spec string_max_size (lenZ (s ++ v))); [|lia].
    rewrite lenZ_app. pose proof (lenZ_nonneg (concat vs)). destruct (Z.leb_spec (lenZ (s ++ v) + lenZ (concat vs)) string_max_size); [lia|done].
Qed.

(** The rule for a [for] loop whose body never fails. *)
Lemma for_from_inv {S} (P : Z -> S -> Prop) (body : Z -> M S unit) n i s :
  P i s ->
  (forall k s1, i <= k < i + Z.of_nat n -> P k s1 ->
     exists s2, body k s1 = (Ok tt, s2) /\ P (k + 1) s2) ->
  exists s', for_from n i body s = (Ok tt, s') /\ P (i + Z.of_nat n) s'.
Proof.
  revert i s. induction n as [|n IH]; intros i s HP Hb; simpl.
  - exists s. by rewrite Z.add_0_r.
  - destruct (Hb i s) as (s1 & E & HP1); [lia|done|].
    destruct (IH (i + 1) s1) as (s2 & E2 & HP2); [done| |].
    + intros k s' Hk. apply Hb. lia.
    + exists s2. unfold mbind, M_bind. rewrite E. split; [done|].
      by replace (i + Z.of_nat (Datatypes.S n)) with (i + 1 + Z.of_nat n) by lia.
Qed.

Lemma catch_returns {S A} (m : M S A) handler s a s' :
  m s = (Ok a, s') -> catch m handler s = (Ok a, s').
Proof. unfold catch. by intros ->. Qed.

(** ** Two programs side by side

    [m] follows [m'] under a relation on their states: from related states it
    has the result of [m'], whatever that is, and leaves related states. *)

Definition follows {S S' A} (R : S -> S' -> Prop) (m : M S A) (m' : M S' A) : Prop :=
  forall s s', R s s' -> exists t, m s = (fst (m' s'), t) /\ R t (snd (m' s')).

Section follows.
Context {S S' : Type} (R : S -> S' -> Prop).

Lemma follows_ret {A} (a : A) : follows R (mret a) (mret a).
Proof. intros s s' H. by exists s. Qed.

Lemma follows_lift {A} (r : res A) : follows R (lift r) (lift r).
Proof. intros s s' H. by exists s. Qed.

Lemma follows_throw {A} e : follows R (throw (A := A) e) (throw e).
Proof. intros s s' H. by exists s. Qed.

Lemma follows_bind {A B} (m : M S A) (m' : M S' A) (f : A -> M S B) (f' : A -> M S' B) :
  follows R m m' -> (forall a, follows R (f a) (f' a)) -> follows R (m ≫= f) (m' ≫= f').
Proof.
  intros Hm Hf s s' H. destruct (Hm s s' H) as (t & E & Ht). unfold mbind, M_bind. rewrite E.
  destruct (m' s') as [[a|e|u|] t']; simpl in *; [|by eexists..]. exact (Hf a t t' Ht).
Qed.

Lemma follows_for_each {A} (l : list A) (body : A -> M S unit) (body' : A -> M S' unit) :
  Forall (fun x => follows R (body x) (body' x)) l -> follows R (for_each body l) (for_each body' l).
Proof. induction 1; simpl; [apply follows_ret|]. by apply follows_bind. Qed.
End follows.

#[export] Hint Resolve follows_ret follows_lift follows_throw : sponge.

(** ** Invariants of code

    [keeps P m Q]: from a state that satisfies [P], [m] leaves one that does,
    however it ends, and a value it returns satisfies [Q]. *)

Definition keeps {S A} (P : S -> Prop) (m : M S A) (Q : A -> Prop) : Prop :=
  forall s, P s -> P (snd (m s)) /\ match fst (m s) with Ok a => Q a | _ => True end.

Section keeps.
Context {S : Type} (P : S -> Prop).

Lemma keeps_ret {A} (a : A) (Q : A -> Prop) : Q a -> keeps P (mret a) Q.
Proof. by intros HQ s Hs. Qed.

Lemma keeps_throw {A} e (Q : A -> Prop) : keeps P (throw e) Q.
Proof. by intros s Hs. Qed.

Lemma keeps_lift {A} (r : res A) (Q : A -> Prop) :
  match r with Ok a => Q a | _ => True end -> keeps P (lift r) Q.
Proof. by intros HQ s Hs. Qed.

Lemma keeps_get : keeps P get P.
Proof. by intros s Hs. Qed.

Lemma keeps_query {A} (f : S -> res A) (Q : A -> Prop) :
  (forall s, P s -> match f s with Ok a => Q a | _ => True end) -> keeps P (query f) Q.
Proof. intros Hf s Hs. split; [done|]. by apply Hf. Qed.

Lemma keeps_modify f : (forall s, P s -> P (f s)) -> keeps P (modify f) (fun _ => True).
Proof. intros Hf s Hs. split; [by apply Hf|done]. Qed.

Lemma keeps_weaken {A} (m : M S A) (Q Q' : A -> Prop) :
  keeps P m Q -> (forall a, Q a -> Q' a) -> keeps P m Q'.
Proof. intros Hm HQ s Hs. destruct (Hm s Hs) as [Hp Hr]. split; [done|]. destruct (fst (m s)); auto. Qed.

Lemma keeps_bind {A B} (m : M S A) (f : A -> M S B) (Q : A -> Prop) (Q' : B -> Prop) :
  keeps P m Q -> (forall a, Q a -> keeps P (f a) Q') -> keeps P (m ≫= f) Q'.
Proof.
  intros Hm Hf s Hs. destruct (Hm s Hs) as [Hp Hr]. unfold mbind, M_bind.
  destruct (m s) as [[a|e|u|] s1]; simpl in *; auto. exact (Hf a Hr s1 Hp).
Qed.

Lemma keeps_for_from n i (body : Z -> M S unit) :
  (forall k, i <= k < i + Z.of_nat n -> keeps P (body k) (fun _ => True)) ->
  keeps P (for_from n i body) (fun _ => True).
Proof.
  revert i. induction n as [|n IH]; intros i Hb; simpl; [by apply keeps_ret|].
  eapply keeps_bind; [apply Hb; lia|]. intros _ _. apply IH. intros k Hk. apply Hb. lia.
Qed.
End keeps.

(** ** Code that cannot go wrong

    [sure P m]: from a state that satisfies [P], [m] returns or throws, with
    nothing undefined and fuel to spare, and leaves a state that satisfies [P]. *)

Definition returns {A} (r : res A) : Prop := match r with Ok _ | Exc _ => True | _ => False end.

Definition sure {S A} (P : S -> Prop) (m : M S A) : Prop :=
  forall s, P s -> P (snd (m s)) /\ returns (fst (m s)).

Section sure.
Context {S : Type} (P : S -> Prop).

Lemma sure_ret {A} (a : A) : sure P (mret a).
Proof. by intros s Hs. Qed.

Lemma sure_throw {A} e : sure (A := A) P (throw e).
Proof. by intros s Hs. Qed.

Lemma sure_lift {A} (r : res A) : returns r -> sure P (lift r).
Proof. by intros Hr s Hs. Qed.

Lemma sure_get : sure P get.
Proof. by intros s Hs. Qed.

Lemma sure_modify f : (forall s, P s -> P (f s)) -> sure P (modify f).
Proof. intros Hf s Hs. split; [by apply Hf|done]. Qed.

Lemma sure_bind {A B} (m : M S A) (f : A -> M S B) : sure P m -> (forall a, sure P (f a)) -> sure P (m ≫= f).
Proof.
  intros Hm Hf s Hs. destruct (Hm s Hs) as [Hp Hr]. unfold mbind, M_bind.
  destruct (m s) as [[a|e|u|] s1]; simpl in *; auto. exact (Hf a s1 Hp).
Qed.

Lemma sure_keeps {A} (m : M S A) : sure P m -> keeps P m (fun _ => True).
Proof. intros Hm s Hs. destruct (Hm s Hs). split; [done|]. by destruct (fst (m s)). Qed.

(** An invariant more. *)
Lemma sure_and {A} (R : S -> Prop) (m : M S A) (Q : A -> Prop) :
  sure P m -> keeps R m Q -> sure (fun s => P s /\ R s) m.
Proof. intros Hm Hk s [HP HR]. destruct (Hm s HP), (Hk s HR). done. Qed.

Lemma sure_on_field {F A} (get_f : S -> F) (set_f : F -> S -> S) (Q : F -> Prop) (m : M F A) :
  (forall s, P s -> Q (get_f s)) -> (forall s f, P s -> Q f -> P (set_f f s)) ->
  sure Q m -> sure P (on_field get_f set_f m).
Proof.
  intros Hget Hset Hm s Hs. destruct (Hm (get_f s) (Hget s Hs)) as [Hq Hr]. unfold on_field.
  destruct (m (get_f s)) as [r f]. split; [by apply Hset|done].
Qed.
End sure.
#[export] Hint Resolve sure_ret sure_throw sure_lift sure_get sure_modify sure_bind : sponge.

(** ** Weakest preconditions

    [wp m Q s]: run on [s], [m] has a result and leaves a state that satisfy [Q]. *)

Definition wp {S A} (m : M S A) (Q : res A -> S -> Prop) (s : S) : Prop := Q (fst (m s)) (snd (m s)).

Section wp.
Context {S : Type}.

Lemma wp_ret {A} (a : A) (Q : res A -> S -> Prop) s : Q (Ok a) s -> wp (mret a) Q s.
Proof. done. Qed.

Lemma wp_returns {A} (m : M S A) (Q : res A -> S -> Prop) a s s' : m s = (Ok a, s') -> Q (Ok a) s' -> wp m Q s.
Proof. unfold wp. by intros ->. Qed.

Lemma wp_mono {A} (m : M S A) (Q Q' : res A -> S -> Prop) s :
  wp m Q s -> (forall r s', Q r s' -> Q' r s') -> wp m Q' s.
Proof. unfold wp. auto. Qed.

Lemma wp_bind {A B} (m : M S A) (f : A -> M S B) (Q : res B -> S -> Prop) s :
  wp m (fun r s' => match r with
                    | Ok a => wp (f a) Q s'
                    | Exc e => Q (Exc e) s'
                    | Undef u => Q (Undef u) s'
                    | NoFuel => Q NoFuel s'
                    end) s ->
  wp (m ≫= f) Q s.
Proof. unfold wp, mbind, M_bind. by destruct (m s) as [[] ?]. Qed.
End wp.

(** ** Programs *)

(** The newline and tabulation characters. *)
Definition nl : string := String (Ascii.ascii_of_nat 10) EmptyString.
Definition tab : string := String (Ascii.ascii_of_nat 9) EmptyString.

#[export] Instance string_app_assoc : Assoc (=) String.append.
Proof. intros s1 s2 s3. induction s1 as [|c s1 IH]; [done|]. exact (f_equal (String c) IH). Qed.
#[export] Instance string_app_nil : RightId (=) EmptyString String.append.
Proof. intros s. induction s as [|c s IH]; [done|]. exact (f_equal (String c) IH). Qed.

Lemma string_concat_cons s l : String.concat EmptyString (s :: l) = (s ++ String.concat EmptyString l)%string.
Proof. destruct l; [|done]. symmetry. apply (right_id_L EmptyString String.append). Qed.

Definition EXIT_SUCCESS : Z := 0.
Definition EXIT_FAILURE : Z := 1.

(** [try { m } catch (e) { handler; return EXIT_FAILURE; } return EXIT_SUCCESS;],
    with what the handler writes on standard error. *)
Definition exit_status (m : res unit) (handler : exn -> string) : res (Z * string) :=
  match m with
  | Ok _ => Ok (EXIT_SUCCESS, EmptyString)
  | Exc e => Ok (EXIT_FAILURE, handler e)
  | Undef u => Undef u
  | NoFuel => NoFuel
  end.
