(* ===== verification/StreamSpec.v ===== *)
(** The contract of an in-order byte stream: an abstract bounded queue with
    its accounting, the operations a client can call, and the interface
    ([ByteStreamImpl] with [ByteStreamLaws]) under which a client is verified
    whatever the implementation.  What holds of every lawful implementation
    (in-order delivery of the accepted bytes) is proved here. *)

From S2P Require Import Prelude.

(** ** The abstract stream *)

Record astream := AStream {
  a_cap : Z;               (* the room for bytes in flight *)
  a_data : list byte;      (* accepted and not yet popped, oldest first *)
  a_pushed : Z;            (* bytes ever accepted, as a [size_t] *)
  a_popped : Z;            (* bytes ever popped, as a [size_t] *)
  a_ended : bool;          (* the writer has ended the input *)
  a_failed : bool          (* the error flag *)
}.

(** The public methods, with their arguments. *)
Inductive stream_op :=
  | OpWrite (data : list byte)
  | OpRemainingCapacity
  | OpEndInput
  | OpSetError
  | OpPeek (len : Z)
  | OpPop (len : Z)
  | OpRead (len : Z)
  | OpInputEnded
  | OpError
  | OpBufferSize
  | OpBufferEmpty
  | OpEof
  | OpBytesWritten
  | OpBytesRead.

(** What a call returns. *)
Inductive stream_obs :=
  | ObsVoid
  | ObsSize (n : Z)
  | ObsBool (b : bool)
  | ObsBytes (d : list byte).

#[export] Instance stream_obs_eq_dec : EqDecision stream_obs.
Proof. solve_decision. Defined.

(** A [size_t] argument is in range. *)
Definition op_ok (op : stream_op) : Prop :=
  match op with
  | OpPeek n | OpPop n | OpRead n => 0 <= n < 2 ^ 64
  | _ => True
  end.

Definition a_new (cap : Z) : astream := AStream cap [] 0 0 false false.

Definition a_room (a : astream) : Z := a_cap a - lenZ (a_data a).

Definition a_write (d : list byte) (a : astream) : astream :=
  let n := Z.min (lenZ d) (a_room a) in
  AStream (a_cap a) (a_data a ++ take (Z.to_nat n) d)
    (u64 (a_pushed a + n)) (a_popped a) (a_ended a) (a_failed a).

Definition a_pop (n : Z) (a : astream) : astream :=
  AStream (a_cap a) (drop (Z.to_nat n) (a_data a))
    (a_pushed a) (u64 (a_popped a + Z.min n (lenZ (a_data a)))) (a_ended a) (a_failed a).

Definition a_front (n : Z) (a : astream) : list byte := take (Z.to_nat n) (a_data a).

Definition a_empty (a : astream) : bool := match a_data a with [] => true | _ => false end.

(** What each method promises to return, and to do to the stream. *)
Definition a_step (op : stream_op) (a : astream) : stream_obs * astream :=
  match op with
  | OpWrite d => (ObsSize (Z.min (lenZ d) (a_room a)), a_write d a)
  | OpRemainingCapacity => (ObsSize (a_room a), a)
  | OpEndInput =>
      (ObsVoid, AStream (a_cap a) (a_data a) (a_pushed a) (a_popped a) true (a_failed a))
  | OpSetError =>
      (ObsVoid, AStream (a_cap a) (a_data a) (a_pushed a) (a_popped a) (a_ended a) true)
  | OpPeek n => (ObsBytes (a_front n a), a)
  | OpPop n => (ObsVoid, a_pop n a)
  | OpRead n => (ObsBytes (a_front n a), a_pop n a)
  | OpInputEnded => (ObsBool (a_ended a), a)
  | OpError => (ObsBool (a_failed a), a)
  | OpBufferSize => (ObsSize (lenZ (a_data a)), a)
  | OpBufferEmpty => (ObsBool (a_empty a), a)
  | OpEof => (ObsBool (a_ended a && a_empty a), a)
  | OpBytesWritten => (ObsSize (a_pushed a), a)
  | OpBytesRead => (ObsSize (a_popped a), a)
  end.

Fixpoint a_run (ops : list stream_op) (a : astream) : list stream_obs * astream :=
  match ops with
  | [] => ([], a)
  | op :: ops =>
      let '(o, a1) := a_step op a in
      let '(os, a2) := a_run ops a1 in (o :: os, a2)
  end.

(** ** The interface *)

Class ByteStreamImpl (T : Type) := {
  bs_new : Z -> res T;
  bs_do : stream_op -> M T stream_obs
}.

Fixpoint bs_run `{ByteStreamImpl T} (ops : list stream_op) : M T (list stream_obs) :=
  match ops with
  | [] => mret []
  | op :: ops => o ← bs_do op; os ← bs_run ops; mret (o :: os)
  end.

Class ByteStreamLaws (T : Type) `{ByteStreamImpl T} := {
  bs_max_cap : Z;
  bs_rep : T -> astream -> Prop;
  bs_new_ok c : 0 <= c <= bs_max_cap -> exists s, bs_new c = Ok s /\ bs_rep s (a_new c);
  bs_do_ok op s a : op_ok op -> bs_rep s a ->
    exists s', bs_do op s = (Ok (fst (a_step op a)), s') /\ bs_rep s' (snd (a_step op a))
}.

Section laws.
Context `{ByteStreamLaws T}.

Lemma bs_run_ok ops s a :
  Forall op_ok ops -> bs_rep s a ->
  exists s', bs_run ops s = (Ok (fst (a_run ops a)), s') /\ bs_rep s' (snd (a_run ops a)).
Proof.
  intros Hops. revert s a. induction Hops as [|op ops Hop Hops IH]; intros s a HR; simpl.
  { by exists s. }
  destruct (bs_do_ok op s a Hop HR) as (s1 & E1 & HR1).
  destruct (IH s1 _ HR1) as (s2 & E2 & HR2).
  exists s2. unfold mbind, M_bind. rewrite E1, E2.
  destruct (a_step op a) as [o a1]. simpl in *.
  by destruct (a_run ops a1) as [os a2].
Qed.
End laws.

(** The abstract queue is a stream itself, and a lawful one. *)
#[export] Instance queue_impl : ByteStreamImpl astream :=
  {| bs_new c := Ok (a_new c); bs_do op a := (Ok (fst (a_step op a)), snd (a_step op a)) |}.

#[export, refine] Instance queue_laws : ByteStreamLaws astream :=
  {| bs_max_cap := 2 ^ 63; bs_rep s a := s = a |}.
Proof.
  - intros c _. by eexists.
  - intros op s a _ ->. by eexists.
Defined.

(** ** Properties of every lawful stream *)

(** The stream never holds more than its capacity, and the two counters
    differ by the bytes in flight. *)
Definition a_wf (a : astream) : Prop :=
  lenZ (a_data a) <= a_cap a /\ u64 (a_pushed a) = u64 (a_popped a + lenZ (a_data a)).

(** The bytes a call put into the stream, and those a [read] took out, as the
    caller sees them. *)
Definition accepted1 (op : stream_op) (o : stream_obs) : list byte :=
  match op, o with OpWrite d, ObsSize n => take (Z.to_nat n) d | _, _ => [] end.
Definition delivered1 (op : stream_op) (o : stream_obs) : list byte :=
  match op, o with OpRead _, ObsBytes d => d | _, _ => [] end.
Definition accepted (ops : list stream_op) (os : list stream_obs) : list byte :=
  concat (zip_with accepted1 ops os).
Definition delivered (ops : list stream_op) (os : list stream_obs) : list byte :=
  concat (zip_with delivered1 ops os).
Definition is_pop (op : stream_op) : bool := match op with OpPop _ => true | _ => false end.

Lemma a_new_wf cap : 0 <= cap -> a_wf (a_new cap).
Proof. done. Qed.

Lemma a_step_cap op a : a_cap (snd (a_step op a)) = a_cap a.
Proof. by destruct op. Qed.

Lemma a_write_wf d a : a_wf a -> a_wf (a_write d a).
Proof.
  intros [Hlen Hcnt]. pose proof (lenZ_nonneg d).
  assert (0 <= Z.min (lenZ d) (a_room a)) by (unfold a_room; lia).
  split; simpl; rewrite lenZ_app, lenZ_take by done; unfold a_room in *.
  - lia.
  - unfold u64 in *. rewrite Z.mod_mod by lia.
    rewrite Zplus_mod, Hcnt, <- Zplus_mod. f_equal. lia.
Qed.

Lemma a_pop_wf n a : 0 <= n -> a_wf a -> a_wf (a_pop n a).
Proof.
  intros Hn [Hlen Hcnt]. pose proof (lenZ_nonneg (a_data a)).
  split; simpl; rewrite lenZ_drop by done.
  - lia.
  - unfold u64 in *. rewrite Hcnt, Zplus_mod_idemp_l. f_equal. lia.
Qed.

Lemma a_step_wf op a : op_ok op -> a_wf a -> a_wf (snd (a_step op a)).
Proof. destruct op; simpl; intros Hop Ha; eauto using a_write_wf; apply a_pop_wf; tauto || lia. Qed.

Lemma a_step_in_order op a :
  op_ok op -> is_pop op = false ->
  a_data a ++ accepted1 op (fst (a_step op a)) =
  delivered1 op (fst (a_step op a)) ++ a_data (snd (a_step op a)).
Proof.
  destruct op; simpl; intros Hop Hpop; try done; try apply app_nil_r.
  unfold a_front. by rewrite take_drop, app_nil_r.
Qed.

Lemma a_run_in_order ops a :
  Forall op_ok ops -> Forall (fun op => is_pop op = false) ops ->
  a_data a ++ accepted ops (fst (a_run ops a)) =
  delivered ops (fst (a_run ops a)) ++ a_data (snd (a_run ops a)).
Proof.
  intros Hok. revert a. induction Hok as [|op ops Hop Hok IH]; intros a Hpop; simpl.
  { apply app_nil_r. }
  inversion Hpop as [|? ? Hp Hps]; subst.
  pose proof (a_step_in_order op a Hop Hp) as Hs.
  destruct (a_step op a) as [o a1]. specialize (IH a1 Hps).
  destruct (a_run ops a1) as [os a2]. simpl in *.
  unfold accepted, delivered in *. simpl.
  by rewrite (assoc_L (++)), Hs, <- (assoc_L (++)), IH, (assoc_L (++)).
Qed.

Lemma a_run_wf ops a : Forall op_ok ops -> a_wf a -> a_wf (snd (a_run ops a)).
Proof.
  intros Hok. revert a. induction Hok as [|op ops Hop Hok IH]; intros a Ha; simpl; [done|].
  pose proof (a_step_wf op a Hop Ha). destruct (a_step op a) as [o a1].
  specialize (IH a1). destruct (a_run ops a1). auto.
Qed.

Lemma a_run_cap ops a : a_cap (snd (a_run ops a)) = a_cap a.
Proof.
  revert a. induction ops as [|op ops IH]; intros a; simpl; [done|].
  pose proof (a_step_cap op a). destruct (a_step op a) as [o a1].
  specialize (IH a1). destruct (a_run ops a1). simpl in *. congruence.
Qed.
