(* ===== verification/ByteStream.v ===== *)
(** [ByteStream] (libsponge/byte_stream.hh, byte_stream.cc): the circular
    buffer with its [int] indices, its [size_t] counters and every conversion
    between the two types; the refinement of the contract of StreamSpec for
    capacities up to 2^30, and what happens above. *)

From S2P Require Import Prelude StreamSpec.

(** ** State and operations *)

Record byte_stream := ByteStream {
  maxlen : Z;
  buffer : list byte;
  sind : Z;
  eind : Z;
  cnt_read : Z;
  cnt_write : Z;
  _error : bool;
  _input_active : bool
}.

Definition set_buffer b (s : byte_stream) :=
  ByteStream (maxlen s) b (sind s) (eind s) (cnt_read s) (cnt_write s) (_error s) (_input_active s).
Definition set_sind i (s : byte_stream) :=
  ByteStream (maxlen s) (buffer s) i (eind s) (cnt_read s) (cnt_write s) (_error s) (_input_active s).
Definition set_eind i (s : byte_stream) :=
  ByteStream (maxlen s) (buffer s) (sind s) i (cnt_read s) (cnt_write s) (_error s) (_input_active s).
Definition set_cnt_read n (s : byte_stream) :=
  ByteStream (maxlen s) (buffer s) (sind s) (eind s) n (cnt_write s) (_error s) (_input_active s).
Definition set_cnt_write n (s : byte_stream) :=
  ByteStream (maxlen s) (buffer s) (sind s) (eind s) (cnt_read s) n (_error s) (_input_active s).

(** The constructor: [maxlen] is an [int] made from a [size_t], and goes back
    to a [size_t] as the length of the buffer. *)
Definition new (capacity : Z) : res byte_stream :=
  let maxlen := to_int capacity in
  buffer ← str_fill (u64 maxlen) Byte.x20;
  mret (ByteStream maxlen buffer (-1) (-1) 0 0 false true).

Definition buffer_empty (s : byte_stream) : bool := sind s =? -1.

(** [(maxlen + (eind - sind) % maxlen) % maxlen + 1], on [int]. *)
Definition buffer_size (s : byte_stream) : res Z :=
  if buffer_empty s then Ok 0
  else
    d ← int_arith (eind s - sind s);
    r ← int_rem d (maxlen s);
    t ← int_arith (maxlen s + r);
    q ← int_rem t (maxlen s);
    n ← int_arith (q + 1);
    mret (u64 n).

(** [maxlen - buffer_size()], on [size_t]. *)
Definition remaining_capacity (s : byte_stream) : res Z :=
  n ← buffer_size s; mret (u64 (u64 (maxlen s) - n)).

(** The body of the copying loop of [write]. *)
Definition write_byte (data : list byte) (i : Z) : M byte_stream unit :=
  s ← get;
  e ← lift (int_arith (eind s + 1));
  e ← lift (int_rem e (maxlen s));
  modify (set_eind e) ;;
  c ← lift (str_get data i);
  s ← get;
  match str_set (u64 e) c (buffer s) with
  | (Ok _, b) => modify (set_buffer b)
  | (r, _) => lift r
  end.

Definition write (data : list byte) : M byte_stream Z :=
  room ← query remaining_capacity;
  let writenum := Z.min (lenZ data) room in
  if writenum =? 0 then mret 0
  else
    s ← get;
    (if buffer_empty s then modify (fun s => set_eind (-1) (set_sind 0 s)) else mret tt) ;;
    for_from (Z.to_nat writenum) 0 (write_byte data) ;;
    modify (fun s => set_cnt_write (u64 (cnt_write s + writenum)) s) ;;
    mret writenum.

(** The body of the copying loop of [peek_output]: [sind] and [maxlen] take
    part in [size_t] arithmetic. *)
Definition peek_byte (s : byte_stream) (i : Z) : M (list byte) unit :=
  k ← lift (uint_rem (u64 (u64 (sind s) + i)) (u64 (maxlen s)));
  c ← lift (str_get (buffer s) k);
  str_set i c.

Definition peek_output (len : Z) (s : byte_stream) : res (list byte) :=
  n ← buffer_size s;
  let readnum := Z.min n len in
  out ← str_fill readnum Byte.x20;
  local_var (for_from (Z.to_nat readnum) 0 (peek_byte s)) out.

Definition pop_output (len : Z) : M byte_stream unit :=
  n ← query buffer_size;
  if len >=? n then
    m ← query buffer_size;
    modify (fun s => set_sind (-1) (set_cnt_read (u64 (cnt_read s + m)) s))
  else
    modify (fun s => set_cnt_read (u64 (cnt_read s + len)) s) ;;
    s ← get;
    k ← lift (uint_rem (u64 (u64 (sind s) + len)) (u64 (maxlen s)));
    modify (set_sind (to_int k)).

Definition read (len : Z) : M byte_stream (list byte) :=
  out ← query (peek_output len);
  pop_output len ;;
  mret out.

Definition end_input (s : byte_stream) : byte_stream :=
  ByteStream (maxlen s) (buffer s) (sind s) (eind s) (cnt_read s) (cnt_write s) (_error s) false.
Definition set_error (s : byte_stream) : byte_stream :=
  ByteStream (maxlen s) (buffer s) (sind s) (eind s) (cnt_read s) (cnt_write s) true (_input_active s).

Definition input_ended (s : byte_stream) : bool := negb (_input_active s).
Definition error (s : byte_stream) : bool := _error s.
Definition eof (s : byte_stream) : bool := negb (_input_active s) && buffer_empty s.
Definition bytes_written (s : byte_stream) : Z := cnt_write s.
Definition bytes_read (s : byte_stream) : Z := cnt_read s.

(** The method call an operation of the interface stands for. *)
Definition do_op (op : stream_op) : M byte_stream stream_obs :=
  match op with
  | OpWrite d => n ← write d; mret (ObsSize n)
  | OpRemainingCapacity => n ← query remaining_capacity; mret (ObsSize n)
  | OpEndInput => modify end_input ;; mret ObsVoid
  | OpSetError => modify set_error ;; mret ObsVoid
  | OpPeek len => d ← query (peek_output len); mret (ObsBytes d)
  | OpPop len => pop_output len ;; mret ObsVoid
  | OpRead len => d ← read len; mret (ObsBytes d)
  | OpInputEnded => s ← get; mret (ObsBool (input_ended s))
  | OpError => s ← get; mret (ObsBool (error s))
  | OpBufferSize => n ← query buffer_size; mret (ObsSize n)
  | OpBufferEmpty => s ← get; mret (ObsBool (buffer_empty s))
  | OpEof => s ← get; mret (ObsBool (eof s))
  | OpBytesWritten => s ← get; mret (ObsSize (bytes_written s))
  | OpBytesRead => s ← get; mret (ObsSize (bytes_read s))
  end.

#[export] Instance byte_stream_impl : ByteStreamImpl byte_stream :=
  {| bs_new := new; bs_do := do_op |}.

Example demo :
  match new 5 with
  | Ok s => fst (bs_run [OpWrite (bytes "cat"); OpRead 2; OpWrite (bytes "abcdef"); OpPeek 9; OpPop 3; OpWrite (bytes "xy"); OpRead 10; OpBytesWritten; OpBufferSize; OpEof] s)
  | _ => NoFuel
  end = Ok [ObsSize 3; ObsBytes (bytes "ca"); ObsSize 4; ObsBytes (bytes "tabcd"); ObsVoid; ObsSize 2; ObsBytes (bytes "cdxy"); ObsSize 9; ObsSize 0; ObsBool false].
Proof. vm_compute. reflexivity. Qed.

(** ** Rings *)

(** The [n] bytes of a ring of [m] slots that start at slot [i]. *)
Definition ring (m : Z) (b : list byte) (i : Z) (n : nat) : list byte :=
  (fun k : nat => b !!! Z.to_nat ((i + Z.of_nat k) mod m)) <$> seq 0 n.

Section ring.
Context (m : Z) (Hm : 0 < m).

Lemma length_ring b i n : length (ring m b i n) = n.
Proof. unfold ring. by rewrite length_fmap, length_seq. Qed.

Lemma lenZ_ring b i n : 0 <= n -> lenZ (ring m b i (Z.to_nat n)) = n.
Proof. unfold lenZ. rewrite length_ring. lia. Qed.

Lemma ring_lookup b i n k :
  (k < n)%nat -> ring m b i n !! k = Some (b !!! Z.to_nat ((i + Z.of_nat k) mod m)).
Proof. intros. unfold ring. by rewrite list_lookup_fmap, lookup_seq_lt. Qed.

Lemma ring_S b i n :
  ring m b i (S n) = ring m b i n ++ [b !!! Z.to_nat ((i + Z.of_nat n) mod m)].
Proof. unfold ring. by rewrite seq_S, fmap_app. Qed.

Lemma ring_take b i n k : (k <= n)%nat -> take k (ring m b i n) = ring m b i k.
Proof.
  intros. apply list_eq. intros j. destruct (decide (j < k)%nat).
  - rewrite lookup_take_lt, !ring_lookup by lia. done.
  - rewrite lookup_take_ge by lia. symmetry. apply lookup_ge_None. rewrite length_ring. lia.
Qed.

Lemma ring_drop b i n k :
  (k <= n)%nat -> drop k (ring m b i n) = ring m b ((i + Z.of_nat k) mod m) (n - k).
Proof.
  intros. apply list_eq. intros j. rewrite lookup_drop. destruct (decide (j < n - k)%nat).
  - rewrite !ring_lookup by lia. rewrite Zplus_mod_idemp_l.
    do 4 f_equal. lia.
  - rewrite !lookup_ge_None_2; rewrite ?length_ring; [done|lia..].
Qed.

(** Distinct positions of a full turn are distinct slots. *)
Lemma mod_offset_inj i j k : 0 <= j < m -> 0 <= k < m -> (i + j) mod m = (i + k) mod m -> j = k.
Proof.
  intros Hj Hk E. assert (H : (j - k) mod m = 0).
  { replace (j - k) with ((i + j) - (i + k)) by lia.
    rewrite Zminus_mod, E, Z.sub_diag. apply Z.mod_0_l. lia. }
  apply Z.mod_divide in H; [|lia]. destruct H as [q Hq].
  assert (q = 0) by nia. lia.
Qed.

(** Writing the slot after the last byte appends it. *)
Lemma ring_snoc b i n c :
  lenZ b = m -> Z.of_nat n < m ->
  ring m (<[Z.to_nat ((i + Z.of_nat n) mod m) := c]> b) i (S n) = ring m b i n ++ [c].
Proof.
  intros Hb Hn. pose proof (Z.mod_pos_bound (i + Z.of_nat n) m Hm). unfold lenZ in Hb.
  rewrite ring_S. f_equal.
  - apply list_eq. intros j. destruct (decide (j < n)%nat).
    + rewrite !ring_lookup by done. f_equal. rewrite list_lookup_total_insert_ne; [done|].
      pose proof (Z.mod_pos_bound (i + Z.of_nat j) m Hm). intros E.
      assert (Z.of_nat n = Z.of_nat j); [|lia].
      apply (mod_offset_inj i); lia.
    + rewrite !lookup_ge_None_2; rewrite ?length_ring; [done|lia..].
  - rewrite list_lookup_total_insert_eq; [done|]. lia.
Qed.
End ring.

(** ** The invariant and the abstraction function *)

Definition max_capacity : Z := 2 ^ 30.

Record wf (s : byte_stream) : Prop := {
  wf_max : 0 <= maxlen s <= max_capacity;
  wf_len : lenZ (buffer s) = maxlen s;
  wf_idx : sind s = -1 \/ (0 <= sind s < maxlen s /\ 0 <= eind s < maxlen s);
  wf_read : 0 <= cnt_read s < 2 ^ 64;
  wf_write : 0 <= cnt_write s < 2 ^ 64
}.

(** The bytes in flight, as a number and as a list. *)
Definition size (s : byte_stream) : Z :=
  if buffer_empty s then 0 else (eind s - sind s) mod maxlen s + 1.
Definition contents (s : byte_stream) : list byte :=
  ring (maxlen s) (buffer s) (sind s) (Z.to_nat (size s)).

Definition abs (s : byte_stream) : astream :=
  AStream (maxlen s) (contents s) (cnt_write s) (cnt_read s) (input_ended s) (error s).

Definition rep (s : byte_stream) (a : astream) : Prop := wf s /\ a = abs s.

(** ** Each operation implements its contract *)

Section sizes.
Context (s : byte_stream) (Hwf : wf s).

Lemma size_range : 0 <= size s <= maxlen s.
Proof.
  destruct Hwf as [[? ?] _ Hidx _ _]. unfold size, buffer_empty.
  case_cmp; [lia|].
  pose proof (Z.mod_pos_bound (eind s - sind s) (maxlen s) ltac:(lia)). lia.
Qed.

Lemma size_empty : buffer_empty s = true <-> size s = 0.
Proof.
  destruct Hwf as [[? ?] _ Hidx _ _]. unfold size, buffer_empty.
  destruct (Z.eqb_spec (sind s) (-1)); [done|].
  pose proof (Z.mod_pos_bound (eind s - sind s) (maxlen s) ltac:(lia)). split; [done|lia].
Qed.

Lemma lenZ_contents : lenZ (contents s) = size s.
Proof. apply lenZ_ring. apply size_range. Qed.

Lemma a_empty_abs : a_empty (abs s) = buffer_empty s.
Proof.
  unfold a_empty. simpl. pose proof lenZ_contents as Hl. pose proof size_empty as He.
  destruct (contents s), (buffer_empty s); try done; autorewrite with lenZ in Hl.
  - symmetry. apply He. lia.
  - pose proof (lenZ_nonneg l). pose proof (proj1 He eq_refl). lia.
Qed.

Lemma buffer_size_ok : buffer_size s = Ok (size s).
Proof.
  destruct Hwf as [[Hm0 Hm] _ Hidx _ _]. unfold max_capacity in Hm.
  unfold buffer_size, size. destruct (buffer_empty s) eqn:He; [done|].
  unfold buffer_empty in He. apply Z.eqb_neq in He.
  destruct Hidx as [?|[Hs He']]; [lia|].
  set (m := maxlen s) in *. set (d := eind s - sind s).
  assert (Hd : Z.rem d m = d) by (apply Z.rem_small_iff; lia).
  pose proof (Z.mod_pos_bound d m ltac:(lia)) as Hb.
  assert (E : Z.rem (m + d) m = d mod m).
  { rewrite Z.rem_mod_nonneg by lia.
    replace (m + d) with (d + 1 * m) by lia. apply Z_mod_plus_full. }
  rewrite int_arith_ok by (unfold int_min, int_max; lia). run.
  rewrite int_rem_ok by lia. run. rewrite Hd.
  rewrite int_arith_ok by (unfold int_min, int_max; lia). run.
  rewrite int_rem_ok by lia. run. rewrite E.
  rewrite int_arith_ok by (unfold int_min, int_max; lia). run.
  by rewrite u64_small by lia.
Qed.

Lemma remaining_capacity_ok : remaining_capacity s = Ok (maxlen s - size s).
Proof.
  unfold remaining_capacity. rewrite buffer_size_ok. run.
  pose proof size_range. pose proof (wf_max s Hwf). unfold max_capacity in *.
  rewrite (u64_small (maxlen s)) by lia. by rewrite u64_small by lia.
Qed.
End sizes.

Lemma new_ok c : 0 <= c <= max_capacity -> exists s, new c = Ok s /\ rep s (a_new c).
Proof.
  unfold max_capacity. intros Hc. unfold new. rewrite to_int_small, u64_small by lia.
  rewrite str_fill_ok by (unfold string_max_size; lia). run.
  eexists. split; [done|]. split; [|done].
  constructor; simpl; unfold max_capacity; try lia. apply lenZ_replicate; lia.
Qed.

(** A stream as the constructor leaves it. *)
Definition fresh (c : Z) : byte_stream :=
  ByteStream c (replicate (Z.to_nat c) Byte.x20) (-1) (-1) 0 0 false true.

Lemma new_spec c :
  0 <= c < 2 ^ 64 ->
  new c = if to_int c <? 0 then Exc (length_error "basic_string::_M_create")
          else Ok (fresh (to_int c)).
Proof.
  intros Hc. unfold new. pose proof (to_int_range c). unfold int_min, int_max in *.
  destruct (Z.ltb_spec (to_int c) 0).
  - unfold str_fill, string_max_size.
    replace (u64 (to_int c)) with (to_int c + 2 ^ 64); [by case_cmp; try lia|].
    unfold u64. symmetry. rewrite <- (Z_mod_plus_full _ 1). apply Z.mod_small. lia.
  - rewrite u64_small by lia. by rewrite str_fill_ok by (unfold string_max_size; lia).
Qed.

Lemma remaining_capacity_fresh c : 0 <= c < 2 ^ 31 -> remaining_capacity (fresh c) = Ok c.
Proof.
  intros Hc. unfold remaining_capacity. simpl. run. rewrite Z.sub_0_r.
  by rewrite !(u64_small c) by lia.
Qed.

(** The state between two steps of [write]'s loop: [n] bytes from [sind] on,
    the last one at [eind] (or none yet, and [eind] just before [sind]). *)
Record linked (s : byte_stream) (n : Z) : Prop := {
  ln_max : 0 < maxlen s <= int_max;
  ln_len : lenZ (buffer s) = maxlen s;
  ln_n : 0 <= n <= maxlen s;
  ln_sind : 0 <= sind s < maxlen s;
  ln_eind : -1 <= eind s < maxlen s;
  ln_some : 0 < n -> 0 <= eind s;
  ln_next : (eind s + 1) mod maxlen s = (sind s + n) mod maxlen s
}.

Lemma linked_size s n : linked s n -> 0 < n -> size s = n.
Proof.
  intros [[Hm _] _ Hn Hs He Hsome Hnext] Hpos. specialize (Hsome Hpos).
  unfold size, buffer_empty. case_cmp; [lia|].
  enough ((eind s - sind s) mod maxlen s = n - 1) by lia.
  replace (eind s - sind s) with ((eind s + 1) - (sind s + 1)) by lia.
  rewrite Zminus_mod, Hnext, <- Zminus_mod.
  replace (sind s + n - (sind s + 1)) with (n - 1) by lia. apply Z.mod_small. lia.
Qed.

Lemma wf_linked s : wf s -> buffer_empty s = false -> linked s (size s).
Proof.
  intros Hwf He. pose proof (size_range s Hwf). destruct Hwf as [Hm Hl Hi _ _].
  unfold size in *. rewrite He in *.
  unfold buffer_empty in He. apply Z.eqb_neq in He. destruct Hi as [?|[? ?]]; [lia|].
  unfold max_capacity in Hm. constructor; unfold int_max; try done; try lia.
  rewrite (Z.add_comm ((_ - _) mod _)), Z.add_assoc, Zplus_mod_idemp_r. f_equal. lia.
Qed.

Definition write_at (p : Z) (c : byte) (s : byte_stream) : byte_stream :=
  set_buffer (<[Z.to_nat p := c]> (buffer s)) (set_eind p s).

Lemma write_byte_ok data s n i c :
  linked s n -> n < maxlen s -> 0 <= i -> data !! Z.to_nat i = Some c ->
  write_byte data i s = (Ok tt, write_at ((sind s + n) mod maxlen s) c s).
Proof.
  intros [[Hm0 Hm] Hl Hn Hs He _ Hnext] Hlt Hi Hc. unfold int_max in Hm.
  pose proof (Z.mod_pos_bound (sind s + n) (maxlen s) Hm0).
  unfold write_byte. run. rewrite int_arith_ok by (unfold int_min, int_max; lia). run.
  rewrite int_rem_ok by lia. run. rewrite Z.rem_mod_nonneg, Hnext by lia.
  rewrite (str_get_ok _ _ c) by done. run. simpl.
  rewrite u64_small by lia. rewrite str_set_ok by lia. done.
Qed.

Lemma write_at_linked s n c :
  linked s n -> n < maxlen s -> linked (write_at ((sind s + n) mod maxlen s) c s) (n + 1).
Proof.
  intros [[Hm0 Hm] Hl Hn Hs He Hsome Hnext] Hlt.
  pose proof (Z.mod_pos_bound (sind s + n) (maxlen s) Hm0).
  constructor; simpl; autorewrite with lenZ; try lia.
  by rewrite Zplus_mod_idemp_l, Z.add_assoc.
Qed.

(** Everything but the buffer and [eind] is as in [s0]. *)
Definition same_but_bytes (s0 s : byte_stream) : Prop :=
  s = set_buffer (buffer s) (set_eind (eind s) s0).

Lemma write_loop_ok data s0 n k :
  linked s0 n -> 0 <= k -> n + k <= maxlen s0 -> k <= lenZ data ->
  exists s, for_from (Z.to_nat k) 0 (write_byte data) s0 = (Ok tt, s) /\
    same_but_bytes s0 s /\ linked s (n + k) /\
    ring (maxlen s0) (buffer s) (sind s0) (Z.to_nat (n + k)) =
      ring (maxlen s0) (buffer s0) (sind s0) (Z.to_nat n) ++ take (Z.to_nat k) data.
Proof.
  intros Hlk Hk Hfit Hd.
  destruct (for_from_inv (fun i s => same_but_bytes s0 s /\ linked s (n + i) /\
    ring (maxlen s0) (buffer s) (sind s0) (Z.to_nat (n + i)) =
      ring (maxlen s0) (buffer s0) (sind s0) (Z.to_nat n) ++ take (Z.to_nat i) data)
    (write_byte data) (Z.to_nat k) 0 s0) as (s & E & H).
  - rewrite Z.add_0_r, app_nil_r. split; [by destruct s0|done].
  - intros i s [Hi0 Hi] (Hsame & Hl & Hr). rewrite Z2Nat.id in Hi by done.
    destruct (lookupZ_lt data i) as [c Hc]; [lia|].
    assert (Hmax : maxlen s = maxlen s0) by (by rewrite Hsame).
    assert (Hsind : sind s = sind s0) by (by rewrite Hsame).
    eexists. split; [apply (write_byte_ok _ _ (n + i) _ c); auto; lia|].
    split; [by rewrite Hsame|]. split; [replace (n + (i + 1)) with (n + i + 1) by lia; apply write_at_linked; [done|lia]|].
    simpl. rewrite Hmax, Hsind. pose proof (ln_len _ _ Hl). pose proof (ln_n _ _ Hl).
    replace (Z.to_nat (n + (i + 1))) with (S (Z.to_nat (n + i))) by lia.
    replace (Z.to_nat (i + 1)) with (S (Z.to_nat i)) by lia.
    rewrite (take_S_r _ _ c), (assoc_L (++)), <- Hr by done.
    rewrite <- (Z2Nat.id (n + i)) at 1 by lia. apply ring_snoc; lia.
  - exists s. by rewrite Z2Nat.id in H by done.
Qed.

Lemma linked_contents s n :
  linked s n -> 0 < n -> contents s = ring (maxlen s) (buffer s) (sind s) (Z.to_nat n).
Proof. intros Hl Hn. unfold contents. by rewrite (linked_size s n). Qed.

Lemma linked_wf s n :
  linked s n -> 0 < n -> maxlen s <= max_capacity ->
  0 <= cnt_read s < 2 ^ 64 -> 0 <= cnt_write s < 2 ^ 64 -> wf s.
Proof.
  intros [? ? ? ? ? Hsome _] Hn ? ? ?. specialize (Hsome Hn).
  constructor; try done; [lia|right; lia].
Qed.

(** The indices [write] starts its loop from. *)
Lemma write_start s :
  wf s -> 0 < maxlen s ->
  exists s0, (if buffer_empty s then modify (fun s => set_eind (-1) (set_sind 0 s)) else mret tt) s
             = (Ok tt, s0) /\ linked s0 (size s) /\
    maxlen s0 = maxlen s /\ cnt_read s0 = cnt_read s /\ cnt_write s0 = cnt_write s /\
    input_ended s0 = input_ended s /\ error s0 = error s /\
    ring (maxlen s0) (buffer s0) (sind s0) (Z.to_nat (size s)) = contents s.
Proof.
  intros Hwf Hm. destruct (buffer_empty s) eqn:He.
  - eexists. split; [reflexivity|]. rewrite (proj1 (size_empty s Hwf) He) in *.
    split; [|by unfold contents, size; rewrite He].
    destruct Hwf as [Hmax ? ? ? ?]. unfold max_capacity in Hmax.
    constructor; unfold int_max; simpl; try done; lia.
  - exists s. split; [done|]. by split; [apply wf_linked|].
Qed.

Lemma write_ok d s :
  wf s -> exists s', write d s = (Ok (Z.min (lenZ d) (a_room (abs s))), s') /\
                     rep s' (a_write d (abs s)).
Proof.
  intros Hwf. pose proof (size_range s Hwf). pose proof (lenZ_nonneg d).
  unfold write. run. rewrite remaining_capacity_ok by done.
  unfold a_write, a_room. simpl. rewrite lenZ_contents by done.
  set (k := Z.min (lenZ d) (maxlen s - size s)).
  destruct (Z.eqb_spec k 0) as [Hk|Hk].
  { exists s. split; [by rewrite Hk|]. split; [done|].
    unfold abs. by rewrite Hk, app_nil_r, Z.add_0_r, u64_small by apply Hwf. }
  destruct (write_start s Hwf) as (s0 & E0 & Hl0 & Hm0 & Hr0 & Hw0 & Hi0 & He0 & Hc0); [lia|].
  run in E0. rewrite E0. destruct (write_loop_ok d s0 (size s) k) as (s1 & E1 & Hsame & Hl1 & Hc1); try done; [lia..|].
  rewrite E1. eexists. split; [reflexivity|].
  rewrite Hsame in Hl1 |- *. simpl.
  split.
  - eapply (linked_wf _ (size s + k)); [|lia|simpl; rewrite Hm0; apply Hwf|simpl; rewrite Hr0; apply Hwf|apply u64_range].
    by destruct Hl1; constructor.
  - unfold abs, input_ended, error in *. simpl. f_equal; try congruence.
    rewrite (linked_contents (set_cnt_write _ _) (size s + k)); [|by destruct Hl1; constructor|lia].
    simpl. by rewrite Hc1, Hc0.
Qed.

Lemma peek_byte_ok s out i :
  wf s -> buffer_empty s = false -> 0 <= i < size s -> i < lenZ out ->
  peek_byte s i out = (Ok tt, <[Z.to_nat i := buffer s !!! Z.to_nat ((sind s + i) mod maxlen s)]> out).
Proof.
  intros Hwf He Hi Ho. pose proof (size_range s Hwf). destruct Hwf as [[Hm0 Hm] Hl Hidx _ _].
  unfold max_capacity in Hm. unfold buffer_empty in He. apply Z.eqb_neq in He.
  destruct Hidx as [?|[Hs _]]; [lia|].
  pose proof (Z.mod_pos_bound (sind s + i) (maxlen s) ltac:(lia)).
  unfold peek_byte. run.
  rewrite !(u64_small (sind s)), (u64_small (maxlen s)), u64_small, uint_rem_ok by lia.
  destruct (lookupZ_lt (buffer s) ((sind s + i) mod maxlen s)) as [c Hc]; [lia|].
  erewrite str_get_ok by (done || lia). rewrite str_set_ok by lia.
  by rewrite (list_lookup_total_correct _ _ _ Hc).
Qed.

Lemma peek_ok s n :
  wf s -> 0 <= n -> peek_output n s = Ok (take (Z.to_nat n) (contents s)).
Proof.
  intros Hwf Hn. pose proof (size_range s Hwf). pose proof (wf_max s Hwf) as Hmax.
  unfold max_capacity in Hmax.
  unfold peek_output. rewrite buffer_size_ok by done. run.
  set (k := Z.min (size s) n).
  rewrite str_fill_ok by (unfold string_max_size; lia).
  destruct (buffer_empty s) eqn:He.
  { pose proof (proj1 (size_empty s Hwf) He) as Hz. assert (Hk : k = 0) by lia.
    rewrite Hk. unfold contents. rewrite Hz. unfold ring. simpl. by rewrite take_nil. }
  assert (Hsz : take (Z.to_nat n) (contents s) = ring (maxlen s) (buffer s) (sind s) (Z.to_nat k)).
  { unfold contents. destruct (Z.le_ge_cases n (size s)).
    - replace k with n by lia. apply ring_take. lia.
    - replace k with (size s) by lia. rewrite take_ge; [done|]. rewrite length_ring. lia. }
  destruct (for_from_inv (fun i out => lenZ out = k /\
      take (Z.to_nat i) out = ring (maxlen s) (buffer s) (sind s) (Z.to_nat i))
    (peek_byte s) (Z.to_nat k) 0 (replicate (Z.to_nat k) Byte.x20)) as (out & E & Hl & Ht).
  - split; [apply lenZ_replicate; lia|done].
  - intros i out [Hi0 Hi] [Hl Ht]. rewrite Z2Nat.id in Hi by lia.
    eexists. split; [apply peek_byte_ok; auto; lia|].
    split; [by rewrite lenZ_insert|]. unfold lenZ in Hl.
    replace (Z.to_nat (i + 1)) with (S (Z.to_nat i)) by lia.
    erewrite take_S_r by (apply list_lookup_insert_eq; lia).
    rewrite take_insert_ge, Ht, ring_S by lia. by rewrite Z2Nat.id.
  - unfold local_var. rewrite E. rewrite Z2Nat.id in Ht by lia. rewrite Z.add_0_l in Ht.
    rewrite Hsz, <- Ht, take_ge; [done|]. unfold lenZ in Hl. lia.
Qed.

Lemma pop_ok n s :
  wf s -> 0 <= n < 2 ^ 64 ->
  exists s', pop_output n s = (Ok tt, s') /\ rep s' (a_pop n (abs s)).
Proof.
  intros Hwf Hn. pose proof (size_range s Hwf) as Hsz. pose proof (wf_max s Hwf) as Hmax.
  pose proof (lenZ_contents s Hwf) as Hlen. unfold max_capacity in Hmax.
  unfold pop_output. run. rewrite buffer_size_ok by done.
  rewrite Z.geb_leb. destruct (Z.leb_spec (size s) n) as [Hle|Hgt].
  - rewrite (buffer_size_ok s) by done. eexists. split; [reflexivity|]. split.
    + destruct Hwf. constructor; simpl; auto using u64_range.
    + unfold abs, a_pop. simpl. f_equal.
      * unfold contents at 2, size, ring. simpl. apply drop_ge. unfold lenZ in Hlen. lia.
      * by rewrite Hlen, Z.min_r by lia.
  - assert (He : buffer_empty s = false).
    { destruct (buffer_empty s) eqn:He; [|done]. apply size_empty in He; [lia|done]. }
    pose proof (wf_linked s Hwf He) as Hl. simpl.
    destruct (ln_max _ _ Hl) as [Hm _]. pose proof (ln_sind _ _ Hl) as Hs.
    pose proof (Z.mod_pos_bound (sind s + n) (maxlen s) Hm).
    rewrite (u64_small (sind s)), (u64_small (maxlen s)), (u64_small (sind s + n)), uint_rem_ok by lia.
    rewrite to_int_small by lia.
    eexists. split; [reflexivity|].
    set (s1 := set_cnt_read _ s).
    assert (Hl1 : linked (set_sind ((sind s + n) mod maxlen s) s1) (size s - n)).
    { destruct Hl as [? ? ? ? ? Hsome Hnext]. constructor; simpl; auto; [lia|lia|].
      rewrite Zplus_mod_idemp_l, Hnext. f_equal. lia. }
    split.
    + apply (linked_wf _ (size s - n)); simpl; auto using u64_range; [lia|apply Hwf|apply Hwf].
    + unfold abs, a_pop. rewrite (linked_contents _ _ Hl1) by lia. simpl. f_equal.
      * unfold contents. rewrite ring_drop by lia. f_equal; [f_equal; lia|lia].
      * by rewrite Hlen, Z.min_l by lia.
Qed.

Lemma read_ok n s :
  wf s -> 0 <= n < 2 ^ 64 ->
  exists s', read n s = (Ok (a_front n (abs s)), s') /\ rep s' (a_pop n (abs s)).
Proof.
  intros Hwf Hn. destruct (pop_ok n s Hwf Hn) as (s' & E & H). exists s'. split; [|done].
  unfold read. run. rewrite peek_ok by (done || lia). by rewrite E.
Qed.

Lemma do_op_ok op s a :
  op_ok op -> rep s a ->
  exists s', do_op op s = (Ok (fst (a_step op a)), s') /\ rep s' (snd (a_step op a)).
Proof.
  intros Hop [Hwf ->]. pose proof (lenZ_contents s Hwf) as Hlen.
  pose proof (a_empty_abs s Hwf) as Hemp. unfold do_op, a_step.
  destruct op as [d| | | |n|n|n| | | | | | |]; simpl in Hop; try (eexists; split; [reflexivity|done]).
  - destruct (write_ok d s Hwf) as (s' & E & H). exists s'. run. by rewrite E.
  - exists s. run. rewrite remaining_capacity_ok by done. simpl. unfold a_room. simpl. by rewrite Hlen.
  - eexists. split; [reflexivity|]. split; [by destruct Hwf; constructor|done].
  - eexists. split; [reflexivity|]. split; [by destruct Hwf; constructor|done].
  - exists s. run. by rewrite peek_ok by (done || lia).
  - destruct (pop_ok n s Hwf Hop) as (s' & E & H). exists s'. run. by rewrite E.
  - destruct (read_ok n s Hwf Hop) as (s' & E & H). exists s'. run. by rewrite E.
  - exists s. run. rewrite buffer_size_ok by done. simpl. by rewrite Hlen.
  - exists s. run. by rewrite Hemp.
  - exists s. run. by rewrite Hemp.
Qed.

#[export] Instance byte_stream_laws : ByteStreamLaws byte_stream :=
  {| bs_max_cap := max_capacity; bs_rep := rep; bs_new_ok := new_ok; bs_do_ok := do_op_ok |}.

(** A whole history, from the constructor on. *)
Lemma run_from_new c ops :
  0 <= c <= max_capacity -> Forall op_ok ops ->
  exists s s', new c = Ok s /\ bs_run ops s = (Ok (fst (a_run ops (a_new c))), s') /\
    rep s' (snd (a_run ops (a_new c))).
Proof.
  intros Hc Hops. destruct (new_ok c Hc) as (s & Es & HR).
  destruct (@bs_run_ok _ _ byte_stream_laws ops s (a_new c) Hops HR) as (s' & E & HR').
  by exists s, s'.
Qed.

(** ** Properties *)

(** C1: For every capacity up to 2^30, the constructor succeeds, every sequence of
    method calls runs without exception or undefined behaviour, returns at
    each call what the abstract bounded queue returns, and leaves the ring in
    a well-formed state that holds exactly the queue's bytes, counters and
    flags. *)
Theorem byte_stream_refines (c : Z) (ops : list stream_op) :
  0 <= c <= max_capacity -> Forall op_ok ops ->
  exists s s', new c = Ok s /\
    bs_run ops s = (Ok (fst (a_run ops (a_new c))), s') /\
    wf s' /\ abs s' = snd (a_run ops (a_new c)).
Proof.
  intros Hc Hops. destruct (run_from_new c ops Hc Hops) as (s & s' & Es & E & Hwf & Habs).
  by exists s, s'.
Qed.

Lemma byte_stream_refines_witness :
  exists s s', new 2 = Ok s /\
    bs_run [OpWrite (bytes "cat"); OpPop 1; OpWrite (bytes "tac"); OpPeek 2; OpEof] s
    = (Ok [ObsSize 2; ObsVoid; ObsSize 1; ObsBytes (bytes "at"); ObsBool false], s') /\
    wf s' /\ a_data (abs s') = bytes "at".
Proof.
  destruct (byte_stream_refines 2
    [OpWrite (bytes "cat"); OpPop 1; OpWrite (bytes "tac"); OpPeek 2; OpEof])
    as (s & s' & E & Er & Hwf & Ha).
  - unfold max_capacity. lia.
  - repeat constructor; simpl; lia.
  - exists s, s'. rewrite Ha. done.
Defined.

(** C2: In-order delivery, on a new stream of capacity up to 2^30.  Whatever calls
    are made, if the consumer takes bytes out with [read] only (a [pop_output] of
    its own would drop some), the bytes it has read followed by the bytes still in
    the buffer are the bytes accepted from the writer, in order, none lost,
    none duplicated; and no more than the capacity are in flight. *)
Theorem byte_stream_in_order (c : Z) (ops : list stream_op) :
  0 <= c <= max_capacity -> Forall op_ok ops -> Forall (fun op => is_pop op = false) ops ->
  exists s os s', new c = Ok s /\ bs_run ops s = (Ok os, s') /\
    accepted ops os = delivered ops os ++ contents s' /\ lenZ (contents s') <= c.
Proof.
  intros Hc Hops Hpop.
  destruct (run_from_new c ops Hc Hops) as (s & s' & Es & E & Hwf & Habs).
  eexists s, _, s'. split; [done|]. split; [exact E|].
  pose proof (a_run_in_order ops (a_new c) Hops Hpop) as Hord.
  pose proof (a_run_wf ops (a_new c) Hops (a_new_wf c ltac:(lia))) as [Hlen _].
  rewrite a_run_cap, Habs in Hlen. rewrite Habs in Hord. done.
Qed.

Lemma byte_stream_in_order_witness :
  exists s os s', new 3 = Ok s /\
    bs_run [OpWrite (bytes "abcd"); OpRead 2; OpWrite (bytes "xyz")] s = (Ok os, s') /\
    accepted [OpWrite (bytes "abcd"); OpRead 2; OpWrite (bytes "xyz")] os =
    delivered [OpWrite (bytes "abcd"); OpRead 2; OpWrite (bytes "xyz")] os ++ contents s' /\
    lenZ (contents s') <= 3.
Proof.
  apply (byte_stream_in_order 3).
  - unfold max_capacity. lia.
  - repeat constructor; simpl; lia.
  - repeat constructor.
Defined.

(** C39: The constructor on every [size_t] capacity: the capacity goes through
    [int], so a value whose low 32 bits make a negative [int] throws
    [std::length_error], and otherwise the stream has room for those low bits
    only: 2^32 + 5 makes a stream of 5 bytes. *)
Theorem constructor_truncates_capacity (c : Z) :
  0 <= c < 2 ^ 64 ->
  (to_int c < 0 -> new c = Exc (length_error "basic_string::_M_create")) /\
  (0 <= to_int c -> exists s, new c = Ok s /\ remaining_capacity s = Ok (c mod 2 ^ 32)).
Proof.
  intros Hc. rewrite new_spec by done. pose proof (to_int_range c). unfold int_max in *.
  split; intros H'; case_cmp; try lia; [done|].
  eexists. split; [reflexivity|]. rewrite remaining_capacity_fresh by lia.
  unfold to_int, u32 in *. pose proof (Z.mod_pos_bound c (2 ^ 32) ltac:(lia)).
  by destruct (Z.ltb_spec (c mod 2 ^ 32) (2 ^ 31)); [|lia].
Qed.

Lemma constructor_truncates_capacity_witness :
  exists s, new (2 ^ 32 + 5) = Ok s /\ remaining_capacity s = Ok 5.
Proof.
  apply (constructor_truncates_capacity (2 ^ 32 + 5)); [lia|]. by vm_compute.
Defined.

(** Ending the input does not stop the writer: on an ended, drained stream
    [eof] is true, yet [write] still accepts bytes, they are readable, and
    [eof] turns false again. *)
Theorem write_after_end_input_is_accepted (s : byte_stream) (d : list byte) :
  wf s -> input_ended s = true -> buffer_empty s = true -> 0 < maxlen s -> d <> [] ->
  eof s = true /\
  exists s', write d s = (Ok (Z.min (lenZ d) (maxlen s)), s') /\
    input_ended s' = true /\ eof s' = false /\
    contents s' = take (Z.to_nat (maxlen s)) d.
Proof.
  intros Hwf Hend Hemp Hm Hd. split.
  { unfold eof. unfold input_ended in Hend. by rewrite Hend, Hemp. }
  destruct (write_ok d s Hwf) as (s' & E & Hwf' & Ha).
  pose proof (lenZ_contents s Hwf) as Hl. pose proof (proj1 (size_empty s Hwf) Hemp) as Hsz.
  rewrite Hsz in Hl. apply lenZ_zero in Hl.
  unfold a_write, a_room in *. simpl in *. rewrite Hl in *. simpl in *.
  replace (maxlen s - lenZ (@nil byte)) with (maxlen s) in * by (rewrite lenZ_nil; lia).
  assert (Hc : contents s' = take (Z.to_nat (maxlen s)) d).
  { injection Ha as _ Hc _ _ _ _. rewrite <- Hc. unfold lenZ. rewrite Z2Nat.inj_min, Nat2Z.id.
    rewrite Nat.min_comm, <- take_take. by rewrite (take_ge d (length d)) by lia. }
  assert (He : input_ended s' = true) by (injection Ha; congruence).
  exists s'. repeat split; try done.
  unfold eof. unfold input_ended in He. rewrite He. simpl.
  rewrite <- (a_empty_abs s' Hwf'). unfold a_empty. simpl. rewrite Hc.
  destruct d; [done|]. by destruct (Z.to_nat (maxlen s)) eqn:?; [lia|].
Qed.

Lemma write_after_end_input_is_accepted_witness :
  let s := end_input (ByteStream 2 (bytes "  ") (-1) (-1) 0 0 false true) in
  eof s = true /\
  exists s', write (bytes "cat") s = (Ok 2, s') /\
    input_ended s' = true /\ eof s' = false /\ contents s' = bytes "ca".
Proof.
  apply (write_after_end_input_is_accepted
    (end_input (ByteStream 2 (bytes "  ") (-1) (-1) 0 0 false true)) (bytes "cat")); try done.
  constructor; simpl; unfold max_capacity; (reflexivity || lia).
Defined.

Lemma buffer_size_overflow s n :
  linked s n -> sind s = 0 -> 0 < n -> int_max < maxlen s + n - 1 ->
  buffer_size s = Undef SignedOverflow.
Proof.
  intros [[Hm0 Hm] _ Hn Hs He Hsome Hnext] Hz Hpos Hbig. specialize (Hsome Hpos).
  assert (Heq : eind s = n - 1).
  { rewrite Hz in Hnext. simpl in Hnext. destruct (Z.eq_dec n (maxlen s)) as [->|Hne].
    - rewrite Z_mod_same_full in Hnext. apply Z.mod_divide in Hnext as [q Hq]; [|lia].
      assert (q = 1) by nia. lia.
    - rewrite (Z.mod_small n) in Hnext by lia. destruct (Z.eq_dec (eind s + 1) (maxlen s)) as [E|?].
      + rewrite E, Z_mod_same_full in Hnext. lia.
      + rewrite Z.mod_small in Hnext by lia. lia. }
  unfold buffer_size, buffer_empty. rewrite Hz, Heq. simpl. rewrite Z.sub_0_r.
  rewrite int_arith_ok by (unfold int_min, int_max in *; lia). run.
  rewrite int_rem_ok by lia. rewrite Z.rem_small by lia.
  by rewrite int_arith_overflow by lia.
Qed.

(** C40: Above 2^30 the size computation overflows [int]: a stream of any
    capacity between 2^30 + 1 and 2^31 - 1 can be created and filled, and then
    [buffer_size], which every other method goes through, is undefined. *)
Theorem capacity_above_2_30_overflows (c : Z) (d : list byte) :
  2 ^ 30 < c < 2 ^ 31 -> lenZ d = c ->
  exists s s', new c = Ok s /\ write d s = (Ok c, s') /\
    buffer_size s' = Undef SignedOverflow.
Proof.
  intros Hc Hd. eexists. rewrite new_spec, to_int_small by lia. case_cmp; [lia|].
  set (b := replicate (Z.to_nat c) Byte.x20).
  pose (s0 := ByteStream c b 0 (-1) 0 0 false true).
  assert (Hl0 : linked s0 0).
  { constructor; simpl; unfold int_max; try done; try lia. apply lenZ_replicate. lia. }
  destruct (write_loop_ok d s0 0 c Hl0) as (s1 & E1 & Hsame & Hl1 & _); simpl; try lia.
  exists (set_cnt_write (u64 (cnt_write s1 + c)) s1). split; [reflexivity|]. split.
  - unfold write. run. rewrite remaining_capacity_fresh, Hd, Z.min_id by lia.
    case_cmp; [lia|]. change (set_eind _ _) with s0. by rewrite E1.
  - apply (buffer_size_overflow _ c).
    + by destruct Hl1; constructor.
    + by rewrite Hsame.
    + lia.
    + rewrite Hsame. simpl. unfold int_max. lia.
Qed.

Lemma capacity_above_2_30_overflows_witness :
  exists s s', new (2 ^ 30 + 1) = Ok s /\
    write (replicate (Z.to_nat (2 ^ 30 + 1)) Byte.x61) s = (Ok (2 ^ 30 + 1), s') /\
    buffer_size s' = Undef SignedOverflow.
Proof.
  apply (capacity_above_2_30_overflows (2 ^ 30 + 1)); [lia|].
  apply lenZ_replicate. lia.
Defined.
