(* ===== verification/Transfer.v ===== *)
(** A writer and a reader at the two ends of a byte stream, taking turns in any
    fair order: whatever the capacity and the lengths of the reads, everything
    the writer has to say reaches the reader, and then the end of the stream
    does.  Stated for every lawful implementation of StreamSpec.v. *)

From S2P Require Import Prelude StreamSpec ByteStream.

(** ** The two ends *)

Inductive turn := WriterTurn | ReaderTurn (len : Z).

(** The stream, what is still to be written, and what has been read. *)
Record transfer (T : Type) := Transfer { stream : T; pending : list byte; received : list byte }.
Arguments Transfer {T}.
Arguments stream {T}.
Arguments pending {T}.
Arguments received {T}.

Section turns.
Context {T : Type} `{ByteStreamImpl T}.

(** The writer offers all it has left, and ends the input when nothing is
    left; the reader reads up to [len] bytes. *)
Definition take_turn (t : turn) : M (transfer T) unit := fun s =>
  match t, pending s with
  | WriterTurn, [] =>
      let '(r, bs) := bs_do OpEndInput (stream s) in ((fun _ => tt) <$> r, Transfer bs [] (received s))
  | WriterTurn, d =>
      match bs_do (OpWrite d) (stream s) with
      | (Ok (ObsSize n), bs) => (Ok tt, Transfer bs (drop (Z.to_nat n) d) (received s))
      | (r, bs) => ((fun _ => tt) <$> r, Transfer bs d (received s))
      end
  | ReaderTurn len, d =>
      match bs_do (OpRead len) (stream s) with
      | (Ok (ObsBytes got), bs) => (Ok tt, Transfer bs d (received s ++ got))
      | (r, bs) => ((fun _ => tt) <$> r, Transfer bs d (received s))
      end
  end.

(** The first [n] turns of a schedule. *)
Fixpoint take_turns (schedule : nat -> turn) (n : nat) : M (transfer T) unit :=
  match n with
  | O => mret tt
  | S n => take_turns schedule n ;; take_turn (schedule n)
  end.

(** The reader sees the end of the stream. *)
Definition at_eof (s : transfer T) : bool :=
  match bs_do OpEof (stream s) with (Ok (ObsBool b), _) => b | _ => false end.

End turns.

(** Neither end waits for ever, and a reader's length is a [size_t]. *)
Definition fair (schedule : nat -> turn) : Prop :=
  (forall n, exists m, (n <= m)%nat /\ schedule m = WriterTurn) /\
  (forall n, exists m len, (n <= m)%nat /\ schedule m = ReaderTurn len /\ 1 <= len) /\
  forall n len, schedule n = ReaderTurn len -> 0 <= len < 2 ^ 64.

(** ** The same over the abstract queue *)

Definition a_turn (t : turn) (s : transfer astream) : transfer astream :=
  match t, pending s with
  | WriterTurn, [] => Transfer (snd (a_step OpEndInput (stream s))) [] (received s)
  | WriterTurn, d =>
      Transfer (a_write d (stream s)) (drop (Z.to_nat (Z.min (lenZ d) (a_room (stream s)))) d) (received s)
  | ReaderTurn len, d => Transfer (a_pop len (stream s)) d (received s ++ a_front len (stream s))
  end.
Fixpoint a_turns (schedule : nat -> turn) (n : nat) (s : transfer astream) : transfer astream :=
  match n with O => s | S n => a_turn (schedule n) (a_turns schedule n s) end.

(** Bytes count twice while they have two moves to make. *)
Definition to_do (s : transfer astream) : nat :=
  2 * length (pending s) + length (a_data (stream s)) + (if a_ended (stream s) then 0 else 1).

(** Nothing lost, nothing out of order, and room for at least one byte. *)
Record on_track (data : list byte) (s : transfer astream) : Prop := {
  tr_data : received s ++ a_data (stream s) ++ pending s = data;
  tr_cap : 1 <= a_cap (stream s);
  tr_fits : lenZ (a_data (stream s)) <= a_cap (stream s);
  tr_ended : a_ended (stream s) = true -> pending s = []
}.

Lemma on_track_turn data t s :
  (forall len, t = ReaderTurn len -> 0 <= len) -> on_track data s -> on_track data (a_turn t s).
Proof.
  intros Hlen [Hd Hc Hf He]. destruct t as [|len].
  - unfold a_turn. destruct (pending s) as [|b d] eqn:Ep; [split; simpl; auto|].
    set (n := Z.min _ _). pose proof (lenZ_nonneg (b :: d)).
    split; unfold a_write; cbn [stream pending received a_data a_cap a_ended]; fold n.
    + by rewrite <- (assoc_L (++)), take_drop.
    + done.
    + rewrite lenZ_app, lenZ_take by (unfold n, a_room; lia). unfold n, a_room. lia.
    + intros E. by specialize (He E).
  - specialize (Hlen len eq_refl). split; cbn; try done.
    + rewrite <- (assoc_L (++)). unfold a_front. by rewrite (assoc_L (++) (take _ _)), take_drop.
    + rewrite lenZ_drop by done. lia.
Qed.

(** A turn gets something done, or changes nothing that matters. *)
Definition idle (s s' : transfer astream) : Prop :=
  pending s' = pending s /\ a_data (stream s') = a_data (stream s) /\ a_ended (stream s') = a_ended (stream s).

Lemma turn_progress data t s :
  on_track data s -> (to_do (a_turn t s) < to_do s)%nat \/ idle s (a_turn t s).
Proof.
  intros [_ _ Hf He]. destruct t as [|len]; unfold a_turn, idle, to_do.
  - destruct (pending s) as [|b d] eqn:Ep.
    + simpl. destruct (a_ended (stream s)); [by right|left; lia].
    + set (n := Z.min _ _). pose proof (lenZ_cons b d). pose proof (lenZ_nonneg d).
      assert (Hn : 0 <= n) by (unfold n, a_room; lia).
      cbn [stream pending a_write a_data a_ended a_cap]. fold n.
      destruct (Z.eq_dec n 0) as [->|Hn0]; [right; cbn; by rewrite app_nil_r|left].
      rewrite length_app, length_take, length_drop. unfold lenZ in *. cbn [length] in *. lia.
  - cbn. destruct (Z.le_gt_cases len 0).
    { right. by replace (Z.to_nat len) with 0%nat by lia. }
    destruct (a_data (stream s)) as [|b d] eqn:Ed; [right; by rewrite drop_nil|left].
    rewrite length_drop. cbn [length]. lia.
Qed.

Lemma idle_refl s : idle s s.
Proof. done. Qed.
Lemma idle_trans s1 s2 s3 : idle s1 s2 -> idle s2 s3 -> idle s1 s3.
Proof. unfold idle. intuition congruence. Qed.
Lemma idle_to_do s s' : idle s s' -> to_do s' = to_do s.
Proof. unfold to_do. by intros (-> & -> & ->). Qed.

Lemma writer_effective data s :
  on_track data s -> a_data (stream s) = [] -> to_do s <> 0%nat -> (to_do (a_turn WriterTurn s) < to_do s)%nat.
Proof.
  intros Ht Hb Hne. destruct (turn_progress data WriterTurn s Ht) as [|Hidle]; [done|exfalso].
  destruct Ht as [_ Hc _ He]. unfold idle, a_turn, to_do in *. rewrite Hb in *.
  destruct (pending s) as [|b d] eqn:Ep.
  - destruct Hidle as (_ & _ & Hend). cbn in Hend. rewrite <- Hend in Hne. done.
  - destruct Hidle as (Hp & _). cbn [pending] in Hp. apply (f_equal length) in Hp.
    rewrite length_drop in Hp. unfold a_room in Hp. rewrite Hb, lenZ_nil in Hp.
    unfold lenZ in Hp. cbn [length] in Hp. lia.
Qed.

Lemma reader_effective len s :
  1 <= len -> a_data (stream s) <> [] -> (to_do (a_turn (ReaderTurn len) s) < to_do s)%nat.
Proof.
  intros Hlen Hb. unfold to_do, a_turn. cbn. rewrite length_drop.
  destruct (a_data (stream s)); [done|]. cbn [length]. lia.
Qed.

Section schedule.
Context (schedule : nat -> turn) (Hfair : fair schedule) (data : list byte) (s0 : transfer astream).
Hypothesis Hs0 : on_track data s0.

Lemma on_track_at n : on_track data (a_turns schedule n s0).
Proof.
  induction n as [|n IH]; [done|]. apply on_track_turn; [|done].
  intros len E. apply (proj2 (proj2 Hfair)) in E. lia.
Qed.

Lemma progress_between n m :
  (n <= m)%nat ->
  (to_do (a_turns schedule m s0) < to_do (a_turns schedule n s0))%nat \/
  idle (a_turns schedule n s0) (a_turns schedule m s0).
Proof.
  induction 1 as [|m Hnm IH]; [right; apply idle_refl|]. cbn [a_turns].
  destruct (turn_progress data (schedule m) _ (on_track_at m)) as [Hlt|Hi].
  - left. destruct IH as [|Hidle]; [lia|]. apply idle_to_do in Hidle. lia.
  - destruct IH as [|Hidle]; [left|right; by eapply idle_trans]. apply idle_to_do in Hi. lia.
Qed.

(** Somebody can always move, and will. *)
Lemma progress_later n :
  to_do (a_turns schedule n s0) <> 0%nat ->
  exists m, (n <= m)%nat /\ (to_do (a_turns schedule m s0) < to_do (a_turns schedule n s0))%nat.
Proof using Hfair Hs0.
  intros Hne. destruct Hfair as (Hw & Hr & _).
  destruct (decide (a_data (stream (a_turns schedule n s0)) = [])) as [Hb|Hb].
  - destruct (Hw n) as (m & Hnm & Em).
    destruct (progress_between n m Hnm) as [|Hidle]; [by exists m|].
    exists (S m). split; [lia|]. rewrite <- (idle_to_do _ _ Hidle) in *. cbn [a_turns]. rewrite Em.
    apply (writer_effective data); [apply on_track_at|by rewrite (proj1 (proj2 Hidle))|done].
  - destruct (Hr n) as (m & len & Hnm & Em & Hlen).
    destruct (progress_between n m Hnm) as [|Hidle]; [by exists m|].
    exists (S m). split; [lia|]. rewrite <- (idle_to_do _ _ Hidle) in *. cbn [a_turns]. rewrite Em.
    apply reader_effective; [done|by rewrite (proj1 (proj2 Hidle))].
Qed.

Lemma eventually_nothing_to_do n : exists m, (n <= m)%nat /\ to_do (a_turns schedule m s0) = 0%nat.
Proof using Hfair Hs0.
  remember (to_do (a_turns schedule n s0)) as k eqn:Ek. revert n Ek.
  induction k as [k IH] using lt_wf_ind. intros n ->.
  destruct (decide (to_do (a_turns schedule n s0) = 0%nat)) as [|Hne]; [by exists n|].
  destruct (progress_later n Hne) as (m & Hnm & Hlt).
  destruct (IH _ Hlt m eq_refl) as (m' & Hm' & E). exists m'. split; [lia|done].
Qed.

Lemma nothing_to_do_stays n m :
  (n <= m)%nat -> to_do (a_turns schedule n s0) = 0%nat -> to_do (a_turns schedule m s0) = 0%nat.
Proof using Hfair Hs0.
  intros Hnm E. destruct (progress_between n m Hnm) as [|Hi]; [lia|]. by rewrite (idle_to_do _ _ Hi).
Qed.

(** Nothing to do: the reader has it all. *)
Lemma nothing_to_do s :
  on_track data s -> to_do s = 0%nat ->
  received s = data /\ pending s = [] /\ a_empty (stream s) = true /\ a_ended (stream s) = true.
Proof using Type.
  intros [Hd _ _ _]. unfold to_do, a_empty. destruct (pending s); [|simpl; lia].
  destruct (a_data (stream s)); [|simpl; lia]. destruct (a_ended (stream s)); [|simpl; lia].
  by rewrite !app_nil_r in Hd.
Qed.
End schedule.

(** ** Lawful streams *)

Section lawful.
Context `{ByteStreamLaws T}.

Definition same_transfer (s : transfer T) (s' : transfer astream) : Prop :=
  bs_rep (stream s) (stream s') /\ pending s = pending s' /\ received s = received s'.

Lemma take_turn_ok t s s' :
  (forall len, t = ReaderTurn len -> 0 <= len < 2 ^ 64) -> same_transfer s s' ->
  exists s1, take_turn t s = (Ok tt, s1) /\ same_transfer s1 (a_turn t s').
Proof.
  intros Hlen (HR & Ep & Er). unfold take_turn, a_turn. rewrite Ep, Er.
  destruct t as [|len]; [destruct (pending s') as [|b d]|].
  - destruct (bs_do_ok OpEndInput _ _ I HR) as (t & -> & Ht). by eexists.
  - destruct (bs_do_ok (OpWrite (b :: d)) _ _ I HR) as (t & -> & Ht). by eexists.
  - destruct (bs_do_ok (OpRead len) _ _ (Hlen len eq_refl) HR) as (t & -> & Ht). by eexists.
Qed.

Lemma take_turns_ok schedule n s s' :
  (forall n len, schedule n = ReaderTurn len -> 0 <= len < 2 ^ 64) -> same_transfer s s' ->
  exists s1, take_turns schedule n s = (Ok tt, s1) /\ same_transfer s1 (a_turns schedule n s').
Proof.
  intros Hlen Hs. induction n as [|n IH]; [by exists s|]. destruct IH as (s1 & E & Hs1).
  destruct (take_turn_ok (schedule n) s1 _ (Hlen n) Hs1) as (s2 & E2 & Hs2).
  exists s2. cbn [take_turns]. run. by rewrite E, E2.
Qed.

(** C3: a writer and a reader that take turns in any fair order on a lawful
    stream of positive capacity, up to the largest the implementation is correct for
    ([bs_max_cap]: 2^30 for ByteStream), transfer everything: no turn ever fails, and from some
    turn on the reader has received all the writer's bytes, in order, and sees
    the end of the stream.  So the stream neither loses bytes nor lets the two
    ends wait for each other. *)
Theorem transfer_completes (schedule : nat -> turn) (cap : Z) (data : list byte) :
  fair schedule -> 1 <= cap <= bs_max_cap ->
  exists bs, bs_new (T := T) cap = Ok bs /\
    (forall n, exists s, take_turns schedule n (Transfer bs data []) = (Ok tt, s) /\ exists rest, data = received s ++ rest) /\
    exists n, forall m, (n <= m)%nat ->
      exists s, take_turns schedule m (Transfer bs data []) = (Ok tt, s) /\
        received s = data /\ pending s = [] /\ at_eof s = true.
Proof.
  intros Hfair Hcap. assert (0 <= cap <= bs_max_cap) as Hcap0 by (destruct Hcap; split; [lia|done]). destruct (bs_new_ok cap Hcap0) as (bs & E & HR). exists bs. split; [done|].
  set (s0 := Transfer (a_new cap) data []).
  assert (Hs0 : on_track data s0) by (split; simpl; rewrite ?lenZ_nil; auto; lia).
  assert (Hall : forall n, exists s, take_turns schedule n (Transfer bs data []) = (Ok tt, s) /\
    same_transfer s (a_turns schedule n s0)).
  { intros n. apply take_turns_ok; [apply Hfair|done]. }
  split.
  - intros n. destruct (Hall n) as (s & En & _ & _ & Hr). exists s. split; [done|].
    destruct (on_track_at schedule Hfair data s0 Hs0 n) as [Hd _ _ _]. rewrite Hr, <- Hd. by eexists.
  - destruct (eventually_nothing_to_do schedule Hfair data s0 Hs0 0) as (n & _ & Hn). exists n. intros m Hm.
    pose proof (nothing_to_do_stays schedule Hfair data s0 Hs0 n m Hm Hn) as Hm0.
    destruct (nothing_to_do data _ (on_track_at schedule Hfair data s0 Hs0 m) Hm0) as (Hd & Hp & Hemp & Hend).
    destruct (Hall m) as (s & Em & HRs & Hps & Hrs). exists s. rewrite Hrs, Hps. repeat split; try done.
    unfold at_eof. destruct (bs_do_ok OpEof _ _ I HRs) as (t & -> & _). cbn. by rewrite Hend, Hemp.
Qed.
End lawful.

(** Turns that alternate, the reader one byte at a time. *)
Definition alternating (n : nat) : turn := if Nat.even n then WriterTurn else ReaderTurn 1.

Lemma alternating_fair : fair alternating.
Proof.
  unfold alternating. split_and!.
  - intros n. exists (2 * n)%nat. split; [lia|]. by rewrite Nat.even_mul.
  - intros n. exists (2 * n + 1)%nat, 1. split; [lia|]. by rewrite Nat.even_add, Nat.even_mul.
  - intros n len. destruct (Nat.even n); [done|]. intros [= <-]. lia.
Qed.

Lemma transfer_completes_witness :
  exists bs, bs_new (T := byte_stream) 2 = Ok bs /\
    (forall n, exists s, take_turns alternating n (Transfer bs (bytes "hello") []) = (Ok tt, s) /\
       exists rest, bytes "hello" = received s ++ rest) /\
    exists n, forall m, (n <= m)%nat ->
      exists s, take_turns alternating m (Transfer bs (bytes "hello") []) = (Ok tt, s) /\
        received s = bytes "hello" /\ pending s = [] /\ at_eof s = true.
Proof.
  apply (transfer_completes (T := byte_stream) alternating 2 (bytes "hello") alternating_fair).
  split; vm_compute; discriminate.
Defined.
