(* ===== verification/Discard.v ===== *)
(** The contract shared by [Buffer], [BufferList] and [BufferViewList]: a byte
    string that can discard bytes from its front.  The clients (the packet
    parser, the write loop of a file descriptor) are verified against it. *)

From S2P Require Import Prelude.

Class Discardable (T : Type) := {
  text : T -> list byte;           (* the bytes still there *)
  intact : T -> Prop;              (* the representation invariant *)
  discard : Z -> M T unit          (* [remove_prefix(n)], [n] a [size_t] *)
}.

Class DiscardLaws (T : Type) `{Discardable T} := {
  discard_ok n t : intact t -> 0 <= n <= lenZ (text t) ->
    exists t', discard n t = (Ok tt, t') /\ intact t' /\ text t' = drop (Z.to_nat n) (text t);
  discard_too_much n t : intact t -> lenZ (text t) < n < 2 ^ 64 ->
    exists what t', discard n t = (Exc (out_of_range what), t') /\ intact t'
}.

Section laws.
Context `{DiscardLaws T}.

(** Discarding in two steps is discarding the sum. *)
Lemma discard_discard n m t t1 t2 :
  intact t -> 0 <= n -> 0 <= m -> n + m <= lenZ (text t) ->
  discard n t = (Ok tt, t1) -> discard m t1 = (Ok tt, t2) ->
  text t2 = drop (Z.to_nat (n + m)) (text t).
Proof.
  intros Hi Hn Hm Hle E1 E2.
  destruct (discard_ok n t Hi) as (t1' & E1' & Hi1 & Ht1); [lia|].
  assert (t1' = t1) as -> by congruence.
  destruct (discard_ok m t1 Hi1) as (t2' & E2' & _ & Ht2); [rewrite Ht1, lenZ_drop; lia|].
  assert (t2' = t2) as -> by congruence.
  rewrite Ht2, Ht1, drop_drop. f_equal. lia.
Qed.

(** A failed discard is the only failure. *)
Lemma discard_cases n t :
  intact t -> 0 <= n < 2 ^ 64 ->
  (exists t', discard n t = (Ok tt, t') /\ n <= lenZ (text t)) \/
  (exists what t', discard n t = (Exc (out_of_range what), t') /\ lenZ (text t) < n).
Proof.
  intros Hi Hn. destruct (Z.le_gt_cases n (lenZ (text t))).
  - left. destruct (discard_ok n t Hi) as (t' & E & _); [lia|]. eauto.
  - right. destruct (discard_too_much n t Hi) as (w & t' & E & _); [lia|]. eauto.
Qed.
End laws.
