(* ===== verification/Buffer.v ===== *)
(** [Buffer] (libsponge/util/buffer.hh, buffer.cc): a shared, read-only string
    that can discard bytes from its front.  The string is never changed once
    it is shared, so a [shared_ptr] to it is modelled by the identity of the
    string object together with its bytes; who keeps the string alive is the
    [owners] of its identity.  [string_view]s point into a string object and
    do not own it. *)

From S2P Require Import Prelude Discard.

(** ** String objects and views *)

Record storage := Storage { st_id : positive; st_text : list byte }.

#[export] Instance storage_eq_dec : EqDecision storage.
Proof. solve_decision. Defined.

(** [std::string_view]: a pointer into a string object (null for the default
    view) and a size. *)
Record string_view := StringView { sv_data : option (storage * Z); sv_size : Z }.

Definition view_text (v : string_view) : list byte :=
  match sv_data v with
  | Some (st, off) => take (Z.to_nat (sv_size v)) (drop (Z.to_nat off) (st_text st))
  | None => []
  end.

(** The pointer and the size stay inside the object. *)
Definition view_ok (v : string_view) : Prop :=
  match sv_data v with
  | Some (st, off) => 0 <= off /\ 0 <= sv_size v /\ off + sv_size v <= lenZ (st_text st)
  | None => sv_size v = 0
  end.

(** [string_view::remove_prefix]: no check, so more than the size is
    undefined. *)
Definition view_remove_prefix (n : Z) (v : string_view) : res string_view :=
  if sv_size v <? n then Undef OutOfBounds
  else match sv_data v with
       | Some (st, off) => Ok (StringView (Some (st, off + n)) (sv_size v - n))
       | None => Ok v
       end.

(** [string_view::at] *)
Definition view_at (n : Z) (v : string_view) : res byte :=
  if n >=? sv_size v then Exc (out_of_range "basic_string_view::at")
  else match view_text v !! Z.to_nat n with Some c => Ok c | None => Undef OutOfBounds end.

(** A view of a whole string object. *)
Definition view_of (st : storage) : string_view := StringView (Some (st, 0)) (lenZ (st_text st)).

(** ** Buffer *)

Record buffer := Buffer { _storage : option storage; _starting_offset : Z }.

Definition empty_buffer : buffer := Buffer None 0.

(** [Buffer(std::string &&)]: a new string object; [id] is the allocator's. *)
Definition from_string (id : positive) (s : list byte) : buffer :=
  Buffer (Some (Storage id s)) 0.

Definition str (b : buffer) : string_view :=
  match _storage b with
  | None => StringView None 0
  | Some st => StringView (Some (st, _starting_offset b)) (u64 (lenZ (st_text st) - _starting_offset b))
  end.

Definition at_ (n : Z) (b : buffer) : res Z :=
  c ← view_at n (str b); mret (byte_val c).

Definition size (b : buffer) : Z := sv_size (str b).

Definition copy (b : buffer) : list byte := view_text (str b).

Definition remove_prefix (n : Z) : M buffer unit :=
  b ← get;
  if n >? sv_size (str b) then throw (out_of_range "Buffer::remove_prefix")
  else
    modify (fun b => Buffer (_storage b) (u64 (_starting_offset b + n))) ;;
    b ← get;
    match _storage b with
    | Some st =>
        if _starting_offset b =? lenZ (st_text st)
        then modify (fun b => Buffer None (_starting_offset b)) else mret tt
    | None => mret tt
    end.

(** The offset is inside the string, which is a C++ string. *)
Definition wf_buffer (b : buffer) : Prop :=
  0 <= _starting_offset b < 2 ^ 64 /\
  match _storage b with
  | Some st => _starting_offset b <= lenZ (st_text st) < 2 ^ 64
  | None => True
  end.

#[export] Instance buffer_discardable : Discardable buffer :=
  {| text := copy; intact := wf_buffer; discard := remove_prefix |}.

(** ** Lemmas *)

Lemma lenZ_view v : view_ok v -> lenZ (view_text v) = sv_size v.
Proof.
  unfold view_ok, view_text. destruct (sv_data v) as [[st off]|]; [|intros ->; done].
  intros (? & ? & ?). rewrite lenZ_take, lenZ_drop by lia. lia.
Qed.

Lemma view_remove_prefix_ok n v :
  view_ok v -> 0 <= n <= sv_size v ->
  exists v', view_remove_prefix n v = Ok v' /\ view_ok v' /\
    sv_size v' = sv_size v - n /\ view_text v' = drop (Z.to_nat n) (view_text v).
Proof.
  unfold view_ok, view_remove_prefix, view_text. intros Hv Hn.
  destruct (Z.ltb_spec (sv_size v) n); [lia|].
  destruct (sv_data v) as [[st off]|] eqn:E.
  - eexists. split; [done|]. simpl. split; [lia|]. split; [done|].
    rewrite skipn_firstn_comm, drop_drop. f_equal; [lia|]. f_equal. lia.
  - exists v. rewrite E. split; [done|]. split; [done|]. split; [lia|]. by rewrite drop_nil.
Qed.

Lemma view_at_ok v n c :
  view_ok v -> 0 <= n -> view_text v !! Z.to_nat n = Some c -> view_at n v = Ok c.
Proof.
  intros Hv Hn Hc. pose proof (lookup_lt_Some _ _ _ Hc). pose proof (lenZ_view v Hv).
  unfold view_at, lenZ in *. rewrite Z.geb_leb, Hc. case_cmp; [lia|done].
Qed.

Lemma view_at_fails v n : sv_size v <= n -> view_at n v = Exc (out_of_range "basic_string_view::at").
Proof. intros. unfold view_at. rewrite Z.geb_leb. by case_cmp; [|lia]. Qed.

Lemma str_ok b : wf_buffer b -> view_ok (str b).
Proof.
  unfold wf_buffer, view_ok, str. intros [? Hs]. destruct (_storage b); simpl; [|done].
  rewrite u64_small; lia.
Qed.

Lemma lenZ_copy b : wf_buffer b -> lenZ (copy b) = size b.
Proof. intros. by apply lenZ_view, str_ok. Qed.

Lemma size_bound b : wf_buffer b -> 0 <= size b < 2 ^ 64.
Proof.
  unfold wf_buffer, size, str. intros [? Hs]. destruct (_storage b); simpl; [|lia].
  apply u64_range.
Qed.

Lemma at_ok b n c :
  wf_buffer b -> 0 <= n -> copy b !! Z.to_nat n = Some c -> at_ n b = Ok (byte_val c).
Proof. intros Hb Hn Hc. unfold at_. by rewrite (view_at_ok _ _ c (str_ok b Hb)). Qed.

(** The state [remove_prefix] leaves behind when it succeeds. *)
Definition after_discard (n : Z) (b : buffer) : buffer :=
  Buffer (match _storage b with
          | Some st => if _starting_offset b + n =? lenZ (st_text st) then None else Some st
          | None => None
          end) (_starting_offset b + n).

Lemma remove_prefix_ok n b :
  wf_buffer b -> 0 <= n <= size b -> remove_prefix n b = (Ok tt, after_discard n b).
Proof.
  unfold size, wf_buffer, str, remove_prefix. intros [Ho Hs] Hn. run.
  unfold str, after_discard. destruct b as [[st|] off]; simpl in *.
  - rewrite (u64_small (_ - _)) in * by lia. rewrite Z.gtb_ltb.
    destruct (Z.ltb_spec (lenZ (st_text st) - off) n); [lia|].
    simpl. rewrite (u64_small (off + n)) by lia. by case_cmp.
  - rewrite Z.gtb_ltb. destruct (Z.ltb_spec 0 n); [lia|].
    simpl. by rewrite (u64_small (off + n)) by lia.
Qed.

Lemma remove_prefix_fails n b :
  size b < n -> remove_prefix n b = (Exc (out_of_range "Buffer::remove_prefix"), b).
Proof. unfold size, remove_prefix. intros. run. by case_cmp; try lia. Qed.

Lemma after_discard_wf n b :
  wf_buffer b -> 0 <= n <= size b -> wf_buffer (after_discard n b).
Proof.
  unfold size, wf_buffer, str, after_discard. intros [Ho Hs] Hn.
  destruct b as [[st|] off]; simpl in *; [|lia].
  rewrite u64_small in Hn by lia. case_cmp; split; simpl; try done; lia.
Qed.

Lemma after_discard_text n b :
  wf_buffer b -> 0 <= n <= size b -> copy (after_discard n b) = drop (Z.to_nat n) (copy b).
Proof.
  unfold size, wf_buffer, copy, str, after_discard, view_text. intros [Ho Hs] Hn.
  destruct b as [[st|] off]; simpl in *; [|by rewrite drop_nil].
  rewrite u64_small in Hn by lia. rewrite (u64_small (lenZ (st_text st) - off)) by lia.
  rewrite skipn_firstn_comm, drop_drop. case_cmp.
  - replace (Z.to_nat (lenZ (st_text st) - off) - Z.to_nat n)%nat with 0%nat by lia. done.
  - rewrite u64_small by lia. f_equal; [lia|]. f_equal. lia.
Qed.

#[export] Instance buffer_laws : DiscardLaws buffer.
Proof.
  split; simpl.
  - intros n b Hb Hn. rewrite lenZ_copy in Hn by done. exists (after_discard n b).
    auto using remove_prefix_ok, after_discard_wf, after_discard_text.
  - intros n b Hb Hn. rewrite lenZ_copy in Hn by done. eexists _, b.
    by rewrite remove_prefix_fails by lia.
Qed.

(** ** Lifetime of the shared string *)

(** A [Buffer] holds a reference to a string object. *)
Definition holds (id : positive) (b : buffer) : Prop :=
  match _storage b with Some st => st_id st = id | None => False end.

#[export] Instance holds_dec id b : Decision (holds id b).
Proof. unfold holds. destruct (_storage b); apply _. Defined.

(** [shared_ptr::use_count] of a string object among the Buffers in existence;
    the object is freed when it is zero. *)
Definition use_count (id : positive) (owners : list buffer) : nat := length (filter (holds id) owners).

(** Each Buffer of a list discards its own number of bytes. *)
Definition discard_each (ns : list Z) (bs : list buffer) : list buffer :=
  zip_with (fun n b => snd (remove_prefix n b)) ns bs.

Lemma after_discard_holds id n b :
  wf_buffer b -> 0 <= n <= size b ->
  holds id (after_discard n b) <-> holds id b /\ n < size b.
Proof.
  unfold size, wf_buffer, holds, str, after_discard. intros [Ho Hs] Hn.
  destruct b as [[st|] off]; simpl in *; [|tauto].
  rewrite u64_small in * by lia. case_cmp; simpl; [|intuition lia].
  split; [done|]. lia.
Qed.

Lemma use_count_zero id bs : use_count id bs = 0%nat <-> Forall (fun b => ~ holds id b) bs.
Proof.
  unfold use_count. induction bs as [|b bs IH]; [done|].
  rewrite filter_cons, Forall_cons. case_decide; simpl; [|tauto]. split; [lia|tauto].
Qed.

(** C35: A shared string is freed exactly when it has been discarded entirely in
    every copy: after each Buffer in existence discards some of its bytes, the
    reference count of a string object is zero iff each Buffer that held it
    discarded all it had left; and each Buffer shows the rest of its own
    bytes, whatever the others did. *)
Theorem storage_freed_when_all_discarded (id : positive) (ns : list Z) (bs : list buffer) :
  Forall2 (fun n b => wf_buffer b /\ 0 <= n <= size b) ns bs ->
  (use_count id (discard_each ns bs) = 0%nat <->
     Forall2 (fun n b => holds id b -> n = size b) ns bs) /\
  map copy (discard_each ns bs) = zip_with (fun n b => drop (Z.to_nat n) (copy b)) ns bs.
Proof.
  intros H. rewrite use_count_zero. induction H as [|n b ns bs [Hb Hn] H [IH1 IH2]]; simpl.
  { by split. }
  rewrite remove_prefix_ok by done. simpl. split.
  - rewrite Forall_cons, Forall2_cons, IH1, after_discard_holds by done.
    apply and_iff_compat_r. destruct (decide (holds id b)); [|tauto].
    split; [intros Hh _|intros Hh [? ?]]; [|specialize (Hh ltac:(done)); lia].
    destruct (Z.eq_dec n (size b)); [done|]. exfalso. apply Hh. split; [done|lia].
  - by rewrite after_discard_text, IH2 by done.
Qed.

Lemma storage_freed_when_all_discarded_witness :
  let bs := [from_string 1 (bytes "abc"); from_string 1 (bytes "abc"); from_string 2 (bytes "z")] in
  (use_count 1 (discard_each [3; 2; 0] bs) = 0%nat <->
     Forall2 (fun n b => holds 1 b -> n = size b) [3; 2; 0] bs) /\
  map copy (discard_each [3; 2; 0] bs) = [bytes ""; bytes "c"; bytes "z"].
Proof.
  apply (storage_freed_when_all_discarded 1 [3; 2; 0]
    [from_string 1 (bytes "abc"); from_string 1 (bytes "abc"); from_string 2 (bytes "z")]).
  repeat constructor; simpl; vm_compute; intros; discriminate.
Defined.
