(* ===== verification/BufferList.v ===== *)
(** [BufferList] (libsponge/util/buffer.hh, buffer.cc): a discontiguous string
    kept as a queue of Buffers.  [append] is on values here, so the list appended
    is not the one appended to; BufferAlias.v has it on references. *)

From S2P Require Import Prelude Discard Buffer.

Abbreviation buffer_list := (list buffer).

(** ** Operations *)

Definition of_buffer (b : buffer) : buffer_list := [b].

(** Access to the queue itself. *)
Definition buffers (bufs : buffer_list) : list buffer := bufs.

Definition append (other : buffer_list) (bufs : buffer_list) : buffer_list :=
  fold_left (fun bufs buf => bufs ++ [buf]) other bufs.

Definition of_string (id : positive) (s : list byte) : buffer_list :=
  append (of_buffer (from_string id s)) [].

(** [operator Buffer()] *)
Definition to_buffer (bufs : buffer_list) : res buffer :=
  match bufs with
  | [] => Ok empty_buffer
  | [b] => Ok b
  | _ => Exc (runtime_error "BufferList: please use concatenate() to combine a multi-Buffer BufferList into one Buffer")
  end.

Definition size (bufs : buffer_list) : Z :=
  fold_left (fun ret buf => u64 (ret + Buffer.size buf)) bufs 0.

Definition concatenate (bufs : buffer_list) : res (list byte) :=
  if size bufs >? string_max_size then Exc (length_error "basic_string::reserve")
  else local_var (for_each (fun buf => str_append (view_text (str buf))) bufs) [].

(** The loop [while (n > 0)]: each round either stops or pops a Buffer, so the
    recursion is on the queue. *)
Fixpoint remove_prefix_loop (bufs : buffer_list) (n : Z) : res unit * buffer_list :=
  if n >? 0 then
    match bufs with
    | [] => (Exc (out_of_range "BufferList::remove_prefix"), [])
    | front :: rest =>
        if n <? sv_size (str front) then
          let '(r, front') := Buffer.remove_prefix n front in (r, front' :: rest)
        else remove_prefix_loop rest (u64 (n - sv_size (str front)))
    end
  else (Ok tt, bufs).

Definition remove_prefix (n : Z) : M buffer_list unit := fun bufs => remove_prefix_loop bufs n.

(** ** Invariant and contract *)

Definition list_text (bufs : buffer_list) : list byte := concat (map copy bufs).

(** Every Buffer is well formed and the whole fits a C++ string. *)
Definition wf_list (bufs : buffer_list) : Prop :=
  Forall wf_buffer bufs /\ lenZ (list_text bufs) <= string_max_size.

#[export] Instance buffer_list_discardable : Discardable buffer_list :=
  {| text := list_text; intact := wf_list; discard := remove_prefix |}.

Lemma list_text_nil : list_text [] = [].
Proof. done. Qed.

Lemma list_text_cons b bufs : list_text (b :: bufs) = copy b ++ list_text bufs.
Proof. done. Qed.

(** Pushing back the images of a queue, one by one. *)
Lemma fold_snoc {A B} (f : A -> B) l acc :
  fold_left (fun ret x => ret ++ [f x]) l acc = acc ++ map f l.
Proof.
  revert acc. induction l as [|x l IH]; intros acc; simpl.
  - by rewrite app_nil_r.
  - by rewrite IH, <- (assoc_L (++)).
Qed.

Lemma append_app other bufs : append other bufs = bufs ++ other.
Proof. unfold append. by rewrite (fold_snoc id), map_id. Qed.

Lemma size_acc bufs acc :
  Forall wf_buffer bufs ->
  fold_left (fun ret buf => u64 (ret + Buffer.size buf)) bufs (u64 acc) =
  u64 (acc + lenZ (list_text bufs)).
Proof.
  intros H. revert acc. induction H as [|b bufs Hb H IH]; intros acc; simpl.
  - by rewrite Z.add_0_r.
  - replace (u64 (u64 acc + Buffer.size b)) with (u64 (acc + Buffer.size b))
      by (unfold u64; by rewrite Zplus_mod_idemp_l).
    rewrite IH, list_text_cons, lenZ_app, lenZ_copy by done. f_equal. lia.
Qed.

Lemma wf_list_cons b bufs : wf_list (b :: bufs) -> wf_buffer b /\ wf_list bufs.
Proof.
  unfold wf_list. intros [[Hb H]%Forall_cons Hl].
  rewrite list_text_cons, lenZ_app in Hl. pose proof (lenZ_nonneg (copy b)).
  split; [done|]. split; [done|lia].
Qed.

Lemma size_ok bufs : wf_list bufs -> size bufs = lenZ (list_text bufs).
Proof.
  intros [H Hl]. unfold size. pose proof (lenZ_nonneg (list_text bufs)).
  unfold string_max_size in Hl.
  change 0 with (u64 0). rewrite size_acc by done. apply u64_small. lia.
Qed.

Lemma concat_loop bufs s :
  Forall wf_buffer bufs -> lenZ s + lenZ (list_text bufs) <= string_max_size ->
  for_each (fun buf => str_append (view_text (str buf))) bufs s = (Ok tt, s ++ list_text bufs).
Proof.
  intros H. revert s. induction H as [|b bufs Hb H IH]; intros s Hl; simpl.
  - unfold list_text. simpl. by rewrite app_nil_r.
  - rewrite list_text_cons, lenZ_app in Hl. pose proof (lenZ_nonneg (list_text bufs)).
    run. fold (copy b). rewrite str_append_ok by lia. rewrite IH by (rewrite lenZ_app; lia). by rewrite list_text_cons, (assoc_L (++)).
Qed.

Lemma concatenate_ok bufs : wf_list bufs -> concatenate bufs = Ok (list_text bufs).
Proof.
  intros Hwf. unfold concatenate, local_var. rewrite size_ok by done. destruct Hwf as [H Hl].
  rewrite Z.gtb_ltb. destruct (Z.ltb_spec string_max_size (lenZ (list_text bufs))); [lia|].
  by rewrite concat_loop.
Qed.

Lemma remove_prefix_loop_zero bufs : remove_prefix_loop bufs 0 = (Ok tt, bufs).
Proof. by destruct bufs. Qed.

(** One round of the loop. *)
Lemma remove_prefix_loop_cons b bufs n :
  wf_buffer b -> 0 < n < 2 ^ 64 ->
  remove_prefix_loop (b :: bufs) n =
  if n <? Buffer.size b then (Ok tt, after_discard n b :: bufs)
  else remove_prefix_loop bufs (n - Buffer.size b).
Proof.
  intros Hb Hn. pose proof (size_bound b Hb). cbn [remove_prefix_loop].
  rewrite Z.gtb_ltb. destruct (Z.ltb_spec 0 n); [|lia].
  change (sv_size (str b)) with (Buffer.size b). destruct (Z.ltb_spec n (Buffer.size b)).
  - by rewrite remove_prefix_ok by (done || lia).
  - by rewrite u64_small by lia.
Qed.

Lemma wf_list_discard n b bufs :
  wf_list (b :: bufs) -> 0 <= n <= Buffer.size b -> wf_list (after_discard n b :: bufs).
Proof.
  intros Hwf Hn. destruct (wf_list_cons _ _ Hwf) as [Hb [Hrest _]]. destruct Hwf as [_ Hl]. pose proof (lenZ_nonneg (copy b)).
  split; [by constructor; [apply after_discard_wf|]|].
  rewrite list_text_cons, lenZ_app in *. rewrite after_discard_text, lenZ_drop by (done || lia). lia.
Qed.

Lemma remove_prefix_loop_ok bufs n :
  wf_list bufs -> 0 <= n <= lenZ (list_text bufs) ->
  exists bufs', remove_prefix_loop bufs n = (Ok tt, bufs') /\ wf_list bufs' /\
    list_text bufs' = drop (Z.to_nat n) (list_text bufs).
Proof.
  revert n. induction bufs as [|b bufs IH]; intros n Hwf Hn.
  { exists []. change (lenZ (list_text [])) with 0 in Hn. by replace n with 0 by lia. }
  destruct (Z.eq_dec n 0) as [->|Hn0]; [by exists (b :: bufs)|].
  destruct (wf_list_cons _ _ Hwf) as [Hb Hrest]. pose proof (proj2 Hwf) as Hmax.
  unfold string_max_size in Hmax. pose proof (lenZ_copy b Hb).
  rewrite remove_prefix_loop_cons by (done || lia).
  rewrite list_text_cons, lenZ_app in *.
  destruct (Z.ltb_spec n (Buffer.size b)).
  - eexists. split; [done|]. split; [apply wf_list_discard; [done|lia]|].
    unfold lenZ in *. rewrite list_text_cons, after_discard_text, drop_app_le by (done || lia). done.
  - destruct (IH (n - Buffer.size b) Hrest) as (bufs' & E & Hwf' & Ht); [lia|].
    exists bufs'. split; [done|]. split; [done|]. unfold lenZ in *. rewrite Ht, drop_app_ge by lia.
    f_equal. lia.
Qed.

Lemma remove_prefix_loop_fails bufs n :
  wf_list bufs -> lenZ (list_text bufs) < n < 2 ^ 64 ->
  remove_prefix_loop bufs n = (Exc (out_of_range "BufferList::remove_prefix"), []).
Proof.
  revert n. induction bufs as [|b bufs IH]; intros n Hwf Hn.
  { change (lenZ (list_text [])) with 0 in Hn. simpl. rewrite Z.gtb_ltb.
    destruct (Z.ltb_spec 0 n); [done|lia]. }
  destruct (wf_list_cons _ _ Hwf) as [Hb Hrest]. pose proof (lenZ_copy b Hb).
  pose proof (lenZ_nonneg (list_text bufs)). pose proof (size_bound b Hb).
  rewrite list_text_cons, lenZ_app in Hn. rewrite remove_prefix_loop_cons by (done || lia).
  destruct (Z.ltb_spec n (Buffer.size b)); [lia|]. apply IH; [done|lia].
Qed.

#[export] Instance buffer_list_laws : DiscardLaws buffer_list.
Proof.
  split; simpl; unfold remove_prefix.
  - intros n bufs Hwf Hn. by apply remove_prefix_loop_ok.
  - intros n bufs Hwf Hn. eexists _, []. rewrite remove_prefix_loop_fails by done.
    split; [done|]. split; [by constructor|]. by vm_compute.
Qed.

Lemma to_buffer_text bufs b : to_buffer bufs = Ok b -> copy b = list_text bufs.
Proof.
  destruct bufs as [|b' [|? ?]]; simpl; intros [= <-]; unfold list_text; simpl; [done|].
  by rewrite app_nil_r.
Qed.

(** ** Properties *)

(** [remove_prefix] on a list of Buffers, on both branches: if the list has
    at least [n] bytes it drops exactly the first [n] bytes of the
    concatenation, whatever the split into Buffers, and stays well formed;
    otherwise it throws [std::out_of_range] and leaves the list empty. *)
Theorem list_remove_prefix_spec (bufs : buffer_list) (n : Z) :
  wf_list bufs -> 0 <= n < 2 ^ 64 ->
  (n <= lenZ (list_text bufs) ->
     exists bufs', remove_prefix n bufs = (Ok tt, bufs') /\ wf_list bufs' /\
       concatenate bufs' = Ok (drop (Z.to_nat n) (list_text bufs)) /\
       size bufs' = size bufs - n) /\
  (lenZ (list_text bufs) < n ->
     remove_prefix n bufs = (Exc (out_of_range "BufferList::remove_prefix"), [])).
Proof.
  intros Hwf Hn. split; intros H.
  - destruct (remove_prefix_loop_ok bufs n Hwf) as (bufs' & E & Hwf' & Ht); [lia|].
    exists bufs'. rewrite concatenate_ok, !size_ok, Ht by done. rewrite lenZ_drop by lia.
    repeat split; try done; try apply Hwf'. lia.
  - apply remove_prefix_loop_fails; [done|lia].
Qed.

Lemma list_remove_prefix_spec_witness :
  let bufs := append (of_string 2 (bytes "tac")) (of_string 1 (bytes "cat")) in
  (exists bufs', remove_prefix 4 bufs = (Ok tt, bufs') /\ wf_list bufs' /\
     concatenate bufs' = Ok (bytes "ac") /\ size bufs' = 2) /\
  remove_prefix 7 bufs = (Exc (out_of_range "BufferList::remove_prefix"), []).
Proof.
  assert (Hwf : wf_list (append (of_string 2 (bytes "tac")) (of_string 1 (bytes "cat")))).
  { split; [repeat constructor; vm_compute; intros; discriminate|vm_compute; discriminate]. }
  split.
  - apply (list_remove_prefix_spec _ 4 Hwf); [lia|vm_compute; discriminate].
  - apply (list_remove_prefix_spec _ 7 Hwf); [lia|by vm_compute].
Defined.

(** A BufferList is the concatenation of its Buffers: [append] concatenates,
    [size] counts the bytes, [concatenate] copies them in order, and the
    conversion to one Buffer succeeds for at most one Buffer, with the same
    bytes, and throws otherwise. *)
Theorem list_is_concatenation (l1 l2 : buffer_list) :
  wf_list (append l2 l1) ->
  concatenate (append l2 l1) = Ok (list_text l1 ++ list_text l2) /\
  size (append l2 l1) = lenZ (list_text l1) + lenZ (list_text l2) /\
  match to_buffer (append l2 l1) with
  | Ok b => (length (append l2 l1) <= 1)%nat /\ copy b = list_text l1 ++ list_text l2
  | Exc (runtime_error _) => (1 < length (append l2 l1))%nat
  | _ => False
  end.
Proof.
  intros Hwf. assert (Ht : list_text (append l2 l1) = list_text l1 ++ list_text l2).
  { rewrite append_app. unfold list_text. by rewrite map_app, concat_app. }
  rewrite concatenate_ok, size_ok, Ht, lenZ_app by done. split; [done|]. split; [done|].
  pose proof (to_buffer_text (append l2 l1)) as Hb.
  destruct (append l2 l1) as [|b [|? ?]]; simpl in *; try lia;
    (split; [lia|]; rewrite <- Ht; by apply Hb).
Qed.

Lemma list_is_concatenation_witness :
  concatenate (append (of_string 2 (bytes "tac")) (of_string 1 (bytes "cat"))) = Ok (bytes "cattac") /\
  size (append (of_string 2 (bytes "tac")) (of_string 1 (bytes "cat"))) = 6 /\
  to_buffer (append (of_string 2 (bytes "tac")) (of_string 1 (bytes "cat"))) <> Ok empty_buffer.
Proof.
  destruct (list_is_concatenation (of_string 1 (bytes "cat")) (of_string 2 (bytes "tac")))
    as (H1 & H2 & _).
  - split; [repeat constructor; vm_compute; intros; discriminate|vm_compute; discriminate].
  - split; [exact H1|]. split; [exact H2|discriminate].
Defined.
