(* ===== verification/BufferAlias.v ===== *)
(** [BufferList::append] (libsponge/util/buffer.cc) with its argument passed by
    reference, as in the code: the two lists are objects of a store, and may be
    the same one.  Appending a list to itself pushes to the queue that the loop
    goes through. *)

From stdpp Require Import gmap.
From S2P Require Import Prelude Discard Buffer BufferList.

(** ** Queues and their iterators *)

(** A [std::deque], and how often something has been pushed to it: a push
    invalidates every iterator made before it. *)
Record deque := Deque { items : list buffer; pushes : nat }.

Abbreviation store := (gmap positive deque).

Record iterator := Iterator { it_deque : positive; it_index : nat; it_pushes : nat }.

Definition the_deque (p : positive) : M store deque := fun s =>
  match s !! p with Some d => (Ok d, s) | None => (Undef NullPointer, s) end.

(** The queue of an iterator that is still valid. *)
Definition valid (it : iterator) : M store deque :=
  d ← the_deque (it_deque it);
  if bool_decide (it_pushes it = pushes d) then mret d else lift (Undef InvalidIterator).

Definition begin_of (p : positive) : M store iterator := d ← the_deque p; mret (Iterator p 0 (pushes d)).
Definition end_of (p : positive) : M store iterator := d ← the_deque p; mret (Iterator p (length (items d)) (pushes d)).

(** [it != last], [*it] and [++it] *)
Definition differs (it last : iterator) : M store bool :=
  valid it ;; valid last ;; mret (negb (it_index it =? it_index last)%nat).
Definition element (it : iterator) : M store buffer :=
  d ← valid it;
  match items d !! it_index it with Some b => mret b | None => lift (Undef OutOfBounds) end.
Definition advance (it : iterator) : M store iterator :=
  valid it ;; mret (Iterator (it_deque it) (it_index it + 1) (it_pushes it)).

Definition push_back (p : positive) (b : buffer) : M store unit :=
  d ← the_deque p;
  modify (fun s => <[p := Deque (items d ++ [b]) (pushes d + 1)]> s).

(** ** append *)

(** [for (const auto &buf : other._buffers) { _buffers.push_back(buf); }] *)
Fixpoint append_loop (fuel : nat) (this : positive) (it last : iterator) : M store unit :=
  match fuel with
  | O => lift NoFuel
  | S fuel =>
      more ← differs it last;
      if more : bool then
        buf ← element it;
        push_back this buf ;;
        it ← advance it;
        append_loop fuel this it last
      else mret tt
  end.

(** One round for each Buffer, and one to see the end. *)
Definition append_at (this other : positive) : M store unit :=
  d ← the_deque other;
  it ← begin_of other;
  last ← end_of other;
  append_loop (S (length (items d))) this it last.

(** ** Two objects, or one *)

Lemma the_deque_ok p d (s : store) : s !! p = Some d -> the_deque p s = (Ok d, s).
Proof. unfold the_deque. by intros ->. Qed.

Lemma valid_ok p i d (s : store) : s !! p = Some d -> valid (Iterator p i (pushes d)) s = (Ok d, s).
Proof. intros Hp. unfold valid. run. cbn [it_deque it_pushes]. by rewrite (the_deque_ok p d s Hp), bool_decide_eq_true_2. Qed.

Lemma append_loop_distinct todo : forall before p q dp dq (s : store) fuel,
  p <> q -> s !! p = Some dp -> s !! q = Some dq -> items dq = before ++ todo -> (length todo < fuel)%nat ->
  append_loop fuel p (Iterator q (length before) (pushes dq)) (Iterator q (length (items dq)) (pushes dq)) s =
  (Ok tt, <[p := Deque (append todo (items dp)) (pushes dp + length todo)]> s).
Proof.
  induction todo as [|b todo IH]; intros before p q dp dq s fuel Hne Hp Hq E Hf; (destruct fuel as [|fuel]; [simpl in Hf; lia|]);
    cbn [append_loop]; unfold differs; run; rewrite !(valid_ok q _ dq s Hq); cbn [it_index it_deque it_pushes].
  - rewrite E, app_nil_r, Nat.eqb_refl. cbn [negb length].
    change (append [] (items dp)) with (items dp). rewrite Nat.add_0_r. destruct dp. by rewrite insert_id.
  - replace (length before =? length (items dq))%nat with false
      by (symmetry; apply Nat.eqb_neq; rewrite E, length_app; simpl; lia).
    cbn [negb]. unfold element. run. rewrite (valid_ok q _ dq s Hq). cbn [it_index]. rewrite E, list_lookup_middle by done.
    unfold push_back, the_deque. run. rewrite Hp. set (s1 := <[p := _]> s).
    assert (Hq1 : s1 !! q = Some dq) by (unfold s1; by rewrite lookup_insert_ne).
    unfold advance. run. rewrite (valid_ok q _ dq s1 Hq1). cbn [it_deque it_index it_pushes].
    specialize (IH (before ++ [b]) p q (Deque (items dp ++ [b]) (pushes dp + 1)) dq s1 fuel Hne).
    rewrite length_app in IH. cbn [length] in IH, Hf. rewrite <- E. rewrite IH.
    + unfold s1. rewrite insert_insert_eq. cbn [items pushes length]. rewrite <- (assoc Nat.add). done.
    + apply lookup_insert_eq.
    + done.
    + by rewrite <- (assoc_L (++)).
    + lia.
Qed.

(** C23: [append] on the store of BufferLists: appending another list leaves that
    list as it was and puts its Buffers, shared and in order, at the end of this
    one; appending a list to itself does nothing when it is empty, and otherwise is
    undefined: after the first Buffer, the loop goes on with an iterator that
    [push_back] has invalidated. *)
Theorem append_aliasing (p q : positive) (dp dq : deque) (s : store) :
  s !! p = Some dp -> s !! q = Some dq ->
  append_at p q s =
    if decide (p = q) then
      match items dp with
      | [] => (Ok tt, s)
      | b :: _ => (Undef InvalidIterator, <[p := Deque (items dp ++ [b]) (pushes dp + 1)]> s)
      end
    else (Ok tt, <[p := Deque (append (items dq) (items dp)) (pushes dp + length (items dq))]> s).
Proof.
  intros Hp Hq. unfold append_at, begin_of, end_of. run. rewrite !(the_deque_ok q dq s Hq).
  destruct (decide (p = q)) as [<-|Hne]; [|apply (append_loop_distinct (items dq) [] p q dp dq s); done || lia].
  rewrite Hp in Hq. injection Hq as <-. cbn [append_loop]. unfold differs. run. rewrite !(valid_ok p _ dp s Hp).
  cbn [it_index]. destruct (items dp) as [|b l] eqn:E; [done|]. cbn [length Nat.eqb negb].
  unfold element. run. rewrite (valid_ok p _ dp s Hp). cbn [it_index]. rewrite E. cbn [lookup list_lookup].
  unfold push_back, the_deque. run. rewrite Hp. unfold advance, valid, the_deque. run. cbn [it_deque it_pushes].
  rewrite lookup_insert_eq, bool_decide_eq_false_2; [by rewrite E|]. cbn [pushes]. lia.
Qed.

(** A header and a payload. *)
Lemma append_aliasing_witness :
  let header := Deque (of_string 1 (bytes "head")) 1 in
  let payload := Deque (of_string 2 (bytes "payload")) 1 in
  let s : store := {[ 1%positive := header; 2%positive := payload ]} in
  append_at 1 2 s =
    (Ok tt, <[1%positive := Deque (append (items payload) (items header)) (pushes header + length (items payload))]> s) /\
  append_at 1 1 s =
    (Undef InvalidIterator, <[1%positive := Deque (items header ++ of_string 1 (bytes "head")) (pushes header + 1)]> s).
Proof.
  intros header payload s. split.
  - exact (append_aliasing 1 2 header payload s eq_refl eq_refl).
  - exact (append_aliasing 1 1 header header s eq_refl eq_refl).
Defined.
