(* ===== verification/BufferViewList.v ===== *)
(** [BufferViewList] (libsponge/util/buffer.hh, buffer.cc): a non-owning view
    of a discontiguous string, and the [iovec] array made of it for
    [writev] and [sendmsg]. *)

From S2P Require Import Prelude Discard Buffer BufferList.

Abbreviation view_list := (list string_view).

(** ** Operations *)

Definition of_view (v : string_view) : view_list := [StringView (sv_data v) (sv_size v)].

Definition of_string (s : storage) : view_list := of_view (view_of s).

(** The length of a null-terminated string. *)
Fixpoint strlen (s : list byte) : Z :=
  match s with
  | [] => 0
  | c :: s => if bool_decide (c = Byte.x00) then 0 else 1 + strlen s
  end.

(** From a [const char *] to the start of an array. *)
Definition of_c_string (s : storage) : view_list :=
  of_view (StringView (Some (s, 0)) (strlen (st_text s))).

Definition of_buffers (bufs : buffer_list) : view_list :=
  fold_left (fun views x => views ++ [str x]) bufs [].

Definition size (views : view_list) : Z :=
  fold_left (fun ret buf => u64 (ret + sv_size buf)) views 0.

Fixpoint remove_prefix_loop (views : view_list) (n : Z) : res unit * view_list :=
  if n >? 0 then
    match views with
    | [] => (Exc (out_of_range "BufferListView::remove_prefix"), [])
    | front :: rest =>
        if n <? sv_size front then
          match view_remove_prefix n front with
          | Ok front' => (Ok tt, front' :: rest)
          | Exc e => (Exc e, views)
          | Undef u => (Undef u, views)
          | NoFuel => (NoFuel, views)
          end
        else remove_prefix_loop rest (u64 (n - sv_size front))
    end
  else (Ok tt, views).

Definition remove_prefix (n : Z) : M view_list unit := fun views => remove_prefix_loop views n.

(** [struct iovec] *)
Record iovec := IoVec { iov_base : option (storage * Z); iov_len : Z }.

Definition as_iovecs (views : view_list) : list iovec :=
  fold_left (fun ret x => ret ++ [IoVec (sv_data x) (sv_size x)]) views [].

(** The bytes a gathering system call reads. *)
Definition iovec_text (v : iovec) : list byte := view_text (StringView (iov_base v) (iov_len v)).
Definition gather (iov : list iovec) : list byte := concat (map iovec_text iov).

(** ** Invariant and contract *)

Definition views_text (views : view_list) : list byte := concat (map view_text views).

Definition wf_views (views : view_list) : Prop :=
  Forall view_ok views /\ lenZ (views_text views) <= string_max_size.

#[export] Instance view_list_discardable : Discardable view_list :=
  {| text := views_text; intact := wf_views; discard := remove_prefix |}.

Lemma views_text_cons v views : views_text (v :: views) = view_text v ++ views_text views.
Proof. done. Qed.

Lemma of_buffers_map bufs : of_buffers bufs = map str bufs.
Proof. unfold of_buffers. by rewrite (fold_snoc str). Qed.

Lemma as_iovecs_map views : as_iovecs views = map (fun x => IoVec (sv_data x) (sv_size x)) views.
Proof. unfold as_iovecs. by rewrite fold_snoc. Qed.

Lemma gather_as_iovecs views : gather (as_iovecs views) = views_text views.
Proof.
  unfold gather, views_text. rewrite as_iovecs_map, map_map. f_equal.
Qed.

Lemma of_buffers_text bufs : views_text (of_buffers bufs) = list_text bufs.
Proof. unfold views_text, list_text. rewrite of_buffers_map, map_map. done. Qed.

Lemma of_buffers_wf bufs : wf_list bufs -> wf_views (of_buffers bufs).
Proof.
  intros [Hb Hl]. split; [|by rewrite of_buffers_text].
  rewrite of_buffers_map. induction Hb; simpl; constructor; auto using str_ok.
  apply IHHb. unfold list_text in *. simpl in Hl. rewrite lenZ_app in Hl.
  pose proof (lenZ_nonneg (copy x)). lia.
Qed.

Lemma views_size_acc views acc :
  Forall view_ok views ->
  fold_left (fun ret buf => u64 (ret + sv_size buf)) views (u64 acc) =
  u64 (acc + lenZ (views_text views)).
Proof.
  intros H. revert acc. induction H as [|v views Hv H IH]; intros acc; simpl.
  - by rewrite Z.add_0_r.
  - replace (u64 (u64 acc + sv_size v)) with (u64 (acc + sv_size v))
      by (unfold u64; by rewrite Zplus_mod_idemp_l).
    rewrite IH, views_text_cons, lenZ_app, lenZ_view by done. f_equal. lia.
Qed.

Lemma views_size_ok views : wf_views views -> size views = lenZ (views_text views).
Proof.
  intros [H Hl]. unfold size. pose proof (lenZ_nonneg (views_text views)).
  unfold string_max_size in Hl.
  change 0 with (u64 0). rewrite views_size_acc by done. apply u64_small. lia.
Qed.

Lemma wf_views_cons v views :
  wf_views (v :: views) <-> view_ok v /\ Forall view_ok views /\
    lenZ (view_text v) + lenZ (views_text views) <= string_max_size.
Proof. unfold wf_views. rewrite Forall_cons, views_text_cons, lenZ_app. tauto. Qed.

Lemma wf_views_tail v views : wf_views (v :: views) -> view_ok v /\ wf_views views.
Proof.
  rewrite wf_views_cons. pose proof (lenZ_nonneg (view_text v)).
  intros (? & ? & ?). split; [done|]. split; [done|lia].
Qed.

Lemma views_remove_prefix_loop_zero views : remove_prefix_loop views 0 = (Ok tt, views).
Proof. by destruct views. Qed.

Lemma views_remove_prefix_loop_ok views n :
  wf_views views -> 0 <= n <= lenZ (views_text views) ->
  exists views', remove_prefix_loop views n = (Ok tt, views') /\ wf_views views' /\
    views_text views' = drop (Z.to_nat n) (views_text views).
Proof.
  revert n. induction views as [|v views IH]; intros n Hwf Hn.
  { exists []. change (lenZ (views_text [])) with 0 in Hn. by replace n with 0 by lia. }
  destruct (Z.eq_dec n 0) as [->|Hn0]; [by exists (v :: views)|].
  destruct (wf_views_tail _ _ Hwf) as [Hv Hrest]. pose proof (proj2 Hwf) as Hmax.
  unfold string_max_size in Hmax. pose proof (lenZ_view v Hv) as Hlen.
  pose proof (lenZ_nonneg (view_text v)). pose proof (lenZ_nonneg (views_text views)).
  rewrite views_text_cons, lenZ_app in *. cbn [remove_prefix_loop]. rewrite Z.gtb_ltb.
  destruct (Z.ltb_spec 0 n); [|lia]. destruct (Z.ltb_spec n (sv_size v)).
  - destruct (view_remove_prefix_ok n v Hv) as (v' & E & Hv' & Hs & Ht); [lia|].
    rewrite E. eexists. split; [done|]. split.
    + apply wf_views_cons. apply wf_views_cons in Hwf as (_ & ? & ?).
      split; [done|]. split; [done|]. rewrite Ht, lenZ_drop by lia. lia.
    + unfold lenZ in *. rewrite views_text_cons, Ht, drop_app_le by lia. done.
  - rewrite u64_small by lia.
    destruct (IH (n - sv_size v) Hrest) as (views' & E & Hwf' & Ht); [lia|].
    exists views'. split; [done|]. split; [done|]. unfold lenZ in *. rewrite Ht, drop_app_ge by lia.
    f_equal. lia.
Qed.

Lemma views_remove_prefix_loop_fails views n :
  wf_views views -> lenZ (views_text views) < n < 2 ^ 64 ->
  remove_prefix_loop views n = (Exc (out_of_range "BufferListView::remove_prefix"), []).
Proof.
  revert n. induction views as [|v views IH]; intros n Hwf Hn.
  { change (lenZ (views_text [])) with 0 in Hn. simpl. rewrite Z.gtb_ltb.
    destruct (Z.ltb_spec 0 n); [done|lia]. }
  destruct (wf_views_tail _ _ Hwf) as [Hv Hrest]. pose proof (lenZ_view v Hv).
  pose proof (lenZ_nonneg (view_text v)). pose proof (lenZ_nonneg (views_text views)).
  rewrite views_text_cons, lenZ_app in Hn. cbn [remove_prefix_loop]. rewrite Z.gtb_ltb.
  destruct (Z.ltb_spec 0 n); [|lia]. destruct (Z.ltb_spec n (sv_size v)); [lia|].
  rewrite u64_small by lia. apply IH; [done|lia].
Qed.

#[export] Instance view_list_laws : DiscardLaws view_list.
Proof.
  split; simpl; unfold remove_prefix.
  - intros n views Hwf Hn. by apply views_remove_prefix_loop_ok.
  - intros n views Hwf Hn. eexists _, []. rewrite views_remove_prefix_loop_fails by done.
    split; [done|]. split; [by constructor|]. by vm_compute.
Qed.

(** ** Aliasing *)

(** The string objects a list of Buffers keeps alive, those a view points
    into, and those an [iovec] array points into. *)
Definition owned (bufs : buffer_list) : list storage := omap _storage bufs.
Definition viewed (views : view_list) : list storage := omap (fun v => fst <$> sv_data v) views.
Definition pointed (iov : list iovec) : list storage := omap (fun v => fst <$> iov_base v) iov.

Lemma pointed_as_iovecs views : pointed (as_iovecs views) = viewed views.
Proof.
  rewrite as_iovecs_map. unfold pointed, viewed.
  induction views as [|v views IH]; simpl; [done|]. destruct (sv_data v); simpl; [f_equal|]; exact IH.
Qed.

Lemma viewed_of_buffers bufs : viewed (of_buffers bufs) = owned bufs.
Proof.
  rewrite of_buffers_map. unfold viewed, owned, str.
  induction bufs as [|b bufs IH]; simpl; [done|]. destruct (_storage b); simpl; [f_equal|]; exact IH.
Qed.

Lemma view_remove_prefix_data n v v' :
  view_remove_prefix n v = Ok v' -> fst <$> sv_data v' = fst <$> sv_data v.
Proof.
  unfold view_remove_prefix. destruct (_ <? _); [done|].
  destruct (sv_data v) as [[st off]|] eqn:E; intros [= <-]; simpl; [done|]. by rewrite E.
Qed.

Lemma remove_prefix_loop_viewed views n views' :
  remove_prefix_loop views n = (Ok tt, views') -> viewed views' ⊆ viewed views.
Proof.
  revert n. induction views as [|v views IH]; intros n; simpl.
  { by destruct (n >? 0); intros [= <-]. }
  destruct (n >? 0); [|by intros [= <-]].
  destruct (n <? sv_size v).
  - destruct (view_remove_prefix n v) as [v'| | |] eqn:E; intros [= <-].
    unfold viewed. simpl. by rewrite (view_remove_prefix_data _ _ _ E).
  - intros E. apply IH in E. unfold viewed in *. simpl. destruct (fst <$> sv_data v); [|done].
    set_solver.
Qed.

(** ** Properties *)

(** C21: A view of a BufferList shows the same bytes without copying any: after
    the view has discarded [n] bytes, its [iovec]s gather exactly the bytes
    of the list from the [n]th on, [size] counts them, and every [iovec] points
    into a string object that some Buffer of the list keeps alive. *)
Theorem view_gathers_list_suffix (bufs : buffer_list) (n : Z) :
  wf_list bufs -> 0 <= n <= lenZ (list_text bufs) ->
  exists views, remove_prefix n (of_buffers bufs) = (Ok tt, views) /\
    gather (as_iovecs views) = drop (Z.to_nat n) (list_text bufs) /\
    size views = BufferList.size bufs - n /\
    pointed (as_iovecs views) ⊆ owned bufs.
Proof.
  intros Hwf Hn. pose proof (of_buffers_wf bufs Hwf) as Hv.
  destruct (views_remove_prefix_loop_ok (of_buffers bufs) n Hv) as (views & E & Hwf' & Ht).
  { by rewrite of_buffers_text. }
  exists views. split; [done|]. rewrite of_buffers_text in Ht.
  rewrite gather_as_iovecs, views_size_ok, Ht, lenZ_drop by (done || lia).
  rewrite BufferList.size_ok by done. split; [done|]. split; [lia|].
  rewrite pointed_as_iovecs, <- viewed_of_buffers. by apply (remove_prefix_loop_viewed _ n).
Qed.

Lemma view_gathers_list_suffix_witness :
  exists views, remove_prefix 4 (of_buffers [from_string 1 (bytes "cat"); from_string 2 (bytes "tac")])
                = (Ok tt, views) /\
    gather (as_iovecs views) = bytes "ac" /\ size views = 2 /\
    pointed (as_iovecs views) ⊆ [Storage 1 (bytes "cat"); Storage 2 (bytes "tac")].
Proof.
  apply (view_gathers_list_suffix [from_string 1 (bytes "cat"); from_string 2 (bytes "tac")] 4).
  - split; [repeat constructor; vm_compute; intros; discriminate|vm_compute; discriminate].
  - split; vm_compute; discriminate.
Defined.
