(* ===== verification/BufferSpec.v ===== *)
(** A BufferList (libsponge/util/buffer.hh, buffer.cc) seen from outside is a
    byte string: the abstract specification of its public interface, and the
    proof that every sequence of calls behaves as it says, however the bytes are
    split into Buffers. *)

From S2P Require Import Prelude Discard Buffer BufferList BufferViewList.

(** The public methods of BufferList, the view that a BufferViewList takes of it
    included. *)
Inductive list_op :=
  | Append (other : buffer_list)
  | RemovePrefix (n : Z)
  | Size
  | Concatenate
  | AsBuffer
  | AsIovecs.

Inductive list_obs :=
  | ObsNone
  | ObsNumber (n : Z)
  | ObsText (d : list byte).

(** The methods themselves; an exception is caught by the caller. *)
Definition do_list_op (op : list_op) : M buffer_list list_obs :=
  match op with
  | Append other => modify (append other) ;; mret ObsNone
  | RemovePrefix n => BufferList.remove_prefix n ;; mret ObsNone
  | Size => query (fun bufs => Ok (ObsNumber (BufferList.size bufs)))
  | Concatenate => query (fun bufs => ObsText <$> concatenate bufs)
  | AsBuffer => query (fun bufs => (fun b => ObsText (copy b)) <$> to_buffer bufs)
  | AsIovecs => query (fun bufs => Ok (ObsText (gather (as_iovecs (of_buffers bufs)))))
  end.

(** What they do to the text.  The conversion to one Buffer may throw, since it
    depends on how the text is split; if it does not, it gives the text. *)
Definition list_spec (op : list_op) (d : list byte) (r : res list_obs) (d' : list byte) : Prop :=
  match op with
  | Append other => r = Ok ObsNone /\ d' = d ++ list_text other
  | RemovePrefix n =>
      if n <=? lenZ d then r = Ok ObsNone /\ d' = drop (Z.to_nat n) d
      else r = Exc (out_of_range "BufferList::remove_prefix") /\ d' = []
  | Size => r = Ok (ObsNumber (lenZ d)) /\ d' = d
  | Concatenate | AsIovecs => r = Ok (ObsText d) /\ d' = d
  | AsBuffer => (r = Ok (ObsText d) \/ exists what, r = Exc (runtime_error what)) /\ d' = d
  end.

(** The results of a sequence of calls, and the list they leave. *)
Fixpoint run_list (ops : list list_op) (bufs : buffer_list) : list (res list_obs) * buffer_list :=
  match ops with
  | [] => ([], bufs)
  | op :: ops => let '(r, bufs) := do_list_op op bufs in
                 let '(rs, bufs) := run_list ops bufs in (r :: rs, bufs)
  end.

Fixpoint specified (ops : list list_op) (d : list byte) (rs : list (res list_obs)) (d' : list byte) : Prop :=
  match ops, rs with
  | [], [] => d' = d
  | op :: ops, r :: rs => exists d1, list_spec op d r d1 /\ specified ops d1 rs d'
  | _, _ => False
  end.

(** The arguments are of their types, and all there is to append fits a string
    together with the [used] bytes there are. *)
Fixpoint fits (ops : list list_op) (used : Z) : Prop :=
  match ops with
  | [] => used <= string_max_size
  | Append other :: ops => Forall wf_buffer other /\ fits ops (used + lenZ (list_text other))
  | RemovePrefix n :: ops => 0 <= n < 2 ^ 64 /\ fits ops used
  | _ :: ops => fits ops used
  end.

Lemma fits_used ops used : fits ops used -> used <= string_max_size.
Proof.
  revert used. induction ops as [|op ops IH]; intros used H; [done|].
  destruct op; simpl in H; try (by apply IH); destruct H as [_ H]; [|by apply IH].
  specialize (IH _ H). pose proof (lenZ_nonneg (list_text other)). lia.
Qed.

Lemma fits_less ops used used' : used' <= used -> fits ops used -> fits ops used'.
Proof.
  revert used used'. induction ops as [|op ops IH]; intros used used' Hle H; simpl in *; [lia|].
  destruct op; try (by apply (IH used)); (split; [apply H|]).
  - apply (IH (used + lenZ (list_text other))); [lia|apply H].
  - by apply (IH used); [|apply H].
Qed.

Lemma append_text other bufs : list_text (append other bufs) = list_text bufs ++ list_text other.
Proof. rewrite append_app. unfold list_text. by rewrite map_app, concat_app. Qed.

(** One call. *)
Lemma list_step op bufs ops :
  wf_list bufs -> fits (op :: ops) (lenZ (list_text bufs)) ->
  let '(r, bufs') := do_list_op op bufs in
  list_spec op (list_text bufs) r (list_text bufs') /\ wf_list bufs' /\ fits ops (lenZ (list_text bufs')).
Proof.
  intros Hwf Hfit. destruct op; simpl in Hfit.
  - destruct Hfit as [Ho Hfit]. unfold do_list_op. run. unfold list_spec. rewrite append_text.
    split; [done|]. rewrite <- lenZ_app in Hfit. split; [|done]. split; [|rewrite append_text; by eapply fits_used].
    rewrite append_app. apply Forall_app. by split; [apply Hwf|].
  - destruct Hfit as [Hn Hfit]. unfold do_list_op, BufferList.remove_prefix, list_spec. run.
    destruct (Z.leb_spec n (lenZ (list_text bufs))).
    + destruct (BufferList.remove_prefix_loop_ok bufs n Hwf ltac:(lia)) as (bufs' & -> & Hwf' & Ht). rewrite Ht.
      split; [done|]. split; [done|]. eapply fits_less; [|exact Hfit]. rewrite lenZ_drop by lia.
      pose proof (lenZ_nonneg (list_text bufs)). lia.
    + rewrite BufferList.remove_prefix_loop_fails by (done || lia). split; [done|]. split; [split; [by constructor|by vm_compute]|].
      eapply fits_less; [|exact Hfit]. apply lenZ_nonneg.
  - unfold do_list_op, list_spec. run. by rewrite BufferList.size_ok.
  - unfold do_list_op, list_spec. run. by rewrite concatenate_ok.
  - unfold do_list_op, list_spec. run. pose proof (to_buffer_text bufs) as Ht. split; [|done]. split; [|done].
    destruct bufs as [|b [|b' bufs]]; simpl in *; [by left|left; by rewrite (Ht b)|by right; eexists].
  - unfold do_list_op, list_spec. run. by rewrite gather_as_iovecs, of_buffers_text.
Qed.

(** C20: BufferList refines a byte string: every sequence of calls of its public
    methods on a well-formed list gives, at each call, exactly what the
    specification on the bytes gives (exceptions included, after which the
    caller goes on), and leaves a list with exactly the bytes the specification
    leaves: no byte is lost, repeated or reordered, however Buffers are cut. *)
Theorem buffer_list_refines (ops : list list_op) (bufs : buffer_list) :
  wf_list bufs -> fits ops (lenZ (list_text bufs)) ->
  let '(rs, bufs') := run_list ops bufs in
  specified ops (list_text bufs) rs (list_text bufs') /\ wf_list bufs'.
Proof.
  revert bufs. induction ops as [|op ops IH]; intros bufs Hwf Hfit; [done|]. cbn [run_list].
  pose proof (list_step op bufs ops Hwf Hfit) as H. destruct (do_list_op op bufs) as [r bufs1].
  destruct H as (Hspec & Hwf1 & Hfit1). specialize (IH bufs1 Hwf1 Hfit1).
  destruct (run_list ops bufs1) as [rs bufs2]. destruct IH as [Hs Hwf2]. split; [|done]. cbn [specified].
  by exists (list_text bufs1).
Qed.

(** A header put before a payload, and both cut at a place that is not where
    they meet. *)
Definition demo_list : buffer_list := BufferList.of_string 1 (bytes "head").
Definition demo_ops : list list_op :=
  [Append (BufferList.of_string 2 (bytes "payload")); Size; RemovePrefix 6; AsIovecs; AsBuffer; RemovePrefix 9; Size].

Example demo_run : fst (run_list demo_ops demo_list) =
  [Ok ObsNone; Ok (ObsNumber 11); Ok ObsNone; Ok (ObsText (bytes "yload")); Ok (ObsText (bytes "yload"));
   Exc (out_of_range "BufferList::remove_prefix"); Ok (ObsNumber 0)].
Proof. vm_compute. reflexivity. Qed.

Lemma buffer_list_refines_witness :
  let '(rs, bufs') := run_list demo_ops demo_list in
  specified demo_ops (bytes "head") rs (list_text bufs') /\ wf_list bufs'.
Proof.
  apply (buffer_list_refines demo_ops demo_list).
  - split; [repeat constructor; vm_compute; intros; discriminate|vm_compute; discriminate].
  - repeat split; try (repeat constructor; vm_compute; intros; discriminate); vm_compute; discriminate.
Defined.
