(* ===== verification/NetInt.v ===== *)
(** Integers in network byte order as mathematics: the value of a list of
    bytes and the bytes of a value, inverse to each other. *)

From S2P Require Import Prelude.

(** The value of bytes, most significant first, and the bytes of a value. *)
Definition be_val (l : list byte) : Z := fold_left (fun acc c => acc * 256 + byte_val c) l 0.
Fixpoint be_bytes (n : nat) (v : Z) : list byte :=
  match n with O => [] | S n => byte_of (v / 256 ^ Z.of_nat n) :: be_bytes n v end.

Lemma length_be_bytes n v : length (be_bytes n v) = n.
Proof. induction n; simpl; congruence. Qed.

Lemma be_val_acc l acc :
  fold_left (fun acc c => acc * 256 + byte_val c) l acc = acc * 256 ^ lenZ l + be_val l.
Proof.
  unfold be_val. revert acc. induction l as [|c l IH]; intros acc; cbn [fold_left].
  - rewrite lenZ_nil. lia.
  - rewrite (IH (acc * 256 + _)), (IH (0 * 256 + _)), lenZ_cons, Z.pow_add_r by (unfold lenZ; lia). lia.
Qed.

Lemma be_val_cons c l : be_val (c :: l) = byte_val c * 256 ^ lenZ l + be_val l.
Proof. unfold be_val at 1. simpl. by rewrite be_val_acc. Qed.

Lemma be_val_snoc l c : be_val (l ++ [c]) = be_val l * 256 + byte_val c.
Proof. unfold be_val. by rewrite fold_left_app. Qed.

Lemma pow256_pos n : 0 < 256 ^ Z.of_nat n.
Proof. apply Z.pow_pos_nonneg; lia. Qed.

Lemma be_val_range l : 0 <= be_val l < 256 ^ lenZ l.
Proof.
  induction l as [|c l IH]; [done|].
  rewrite be_val_cons, lenZ_cons, Z.pow_add_r by (unfold lenZ; lia).
  pose proof (byte_val_range c). nia.
Qed.

Lemma be_val_bytes n v : be_val (be_bytes n v) = v mod 256 ^ Z.of_nat n.
Proof.
  induction n as [|n IH]; [by rewrite Z.mod_1_r|].
  simpl be_bytes. rewrite be_val_cons, byte_val_of, IH.
  unfold lenZ. rewrite length_be_bytes, Nat2Z.inj_succ, Z.pow_succ_r by lia.
  pose proof (pow256_pos n). rewrite (Z.mul_comm 256), Z.rem_mul_r by lia. lia.
Qed.

Lemma be_val_inj l k : length l = length k -> be_val l = be_val k -> l = k.
Proof.
  revert k. induction l as [|c l IH]; intros [|d k]; try done. intros [= Hlen] E.
  rewrite !be_val_cons in E. unfold lenZ in E. rewrite Hlen in E.
  pose proof (be_val_range l) as Hl. pose proof (be_val_range k) as Hk.
  unfold lenZ in *. rewrite Hlen in Hl.
  assert (byte_val c = byte_val d) as Hc by nia.
  f_equal; [by apply byte_val_inj|]. apply IH; [done|]. rewrite Hc in E. lia.
Qed.

Lemma be_bytes_val l : be_bytes (length l) (be_val l) = l.
Proof.
  apply be_val_inj; [apply length_be_bytes|].
  rewrite be_val_bytes. apply Z.mod_small. apply be_val_range.
Qed.

Lemma be_bytes_lookup n v i :
  (i < n)%nat -> be_bytes n v !! i = Some (byte_of (v / 256 ^ (Z.of_nat n - Z.of_nat i - 1))).
Proof.
  revert i. induction n as [|n IH]; intros i Hi; [lia|]. destruct i as [|i]; simpl.
  - do 4 f_equal. lia.
  - rewrite IH by lia. do 4 f_equal. lia.
Qed.

Lemma byte_of_mod z : byte_of (z mod 256) = byte_of z.
Proof. apply byte_val_inj. rewrite !byte_val_of. apply Z.mod_mod. lia. Qed.

(** Selecting a byte by shift and mask. *)
Lemma byte_of_shift v k :
  0 <= k -> byte_of (Z.land (Z.shiftr v (k * 8)) 255) = byte_of (v / 256 ^ k).
Proof.
  intros Hk. change 255 with (Z.ones 8). rewrite Z.land_ones by lia.
  change (2 ^ 8) with 256. rewrite byte_of_mod, Z.shiftr_div_pow2 by lia.
  do 2 f_equal. change 256 with (2 ^ 8). rewrite <- Z.pow_mul_r by lia. f_equal. lia.
Qed.

(** The values of [n] bytes are the [8n]-bit numbers. *)
Lemma pow256 n : 256 ^ Z.of_nat n = 2 ^ (8 * Z.of_nat n).
Proof. change 256 with (2 ^ 8). rewrite <- Z.pow_mul_r by lia. done. Qed.
