(* ===== verification/Parser.v ===== *)
(** [NetParser] and [NetUnparser] (libsponge/util/parser.hh, parser.cc):
    integers in network byte order read from a Buffer, with a sticky error
    code instead of exceptions, and written to a string. *)

From S2P Require Import Prelude Discard Buffer NetInt.

(** ** Results *)

Inductive parse_result :=
  | NoError
  | BadChecksum
  | PacketTooShort
  | WrongIPVersion
  | HeaderTooShort
  | TruncatedPacket
  | Unsupported.

#[export] Instance parse_result_eq_dec : EqDecision parse_result.
Proof. solve_decision. Defined.

(** [static_cast<size_t>(r)] *)
Definition parse_result_index (r : parse_result) : nat :=
  match r with
  | NoError => 0 | BadChecksum => 1 | PacketTooShort => 2 | WrongIPVersion => 3
  | HeaderTooShort => 4 | TruncatedPacket => 5 | Unsupported => 6
  end.

Definition _names : list string :=
  ["NoError"; "BadChecksum"; "PacketTooShort"; "WrongIPVersion"; "HeaderTooShort"; "TruncatedPacket"]%string.

(** Indexing an array past its end is undefined. *)
Definition as_string (r : parse_result) : res string :=
  match _names !! parse_result_index r with
  | Some s => Ok s
  | None => Undef OutOfBounds
  end.

(** ** NetParser *)

Record net_parser := NetParser { _buffer : buffer; _error : parse_result }.

Definition new_parser (b : buffer) : net_parser := NetParser b NoError.
(** [buffer()]: a copy of the Buffer, that shares its string. *)
Definition get_buffer (p : net_parser) : buffer := _buffer p.
Definition get_error (p : net_parser) : parse_result := _error p.
Definition set_error (r : parse_result) (p : net_parser) : net_parser := NetParser (_buffer p) r.
Definition error (p : net_parser) : bool := negb (bool_decide (get_error p = NoError)).

Definition _check_size (size : Z) : M net_parser unit :=
  p ← get;
  if size >? Buffer.size (_buffer p) then modify (set_error PacketTooShort) else mret tt.

(** A method of the Buffer inside the parser. *)
Definition on_buffer {A} (m : M buffer A) : M net_parser A :=
  on_field _buffer (fun b p => NetParser b (_error p)) m.

(** The body of the loop of [_parse_int<T>] over the local variable [ret], [T]
    an unsigned type of [w] bits. *)
Definition parse_byte (w : Z) (b : buffer) (i : Z) : M Z unit :=
  modify (fun ret => (Z.shiftl ret 8) mod 2 ^ w) ;;
  c ← lift (at_ i b);
  modify (fun ret => (ret + c) mod 2 ^ w).

(** [_parse_int<T>] for a [T] of [len] bytes. *)
Definition _parse_int (len : nat) : M net_parser Z :=
  _check_size (Z.of_nat len) ;;
  p ← get;
  if error p then mret 0
  else
    ret ← lift (local_var (for_from len 0 (parse_byte (8 * Z.of_nat len) (_buffer p))) 0);
    on_buffer (Buffer.remove_prefix (Z.of_nat len)) ;;
    mret ret.

Definition remove_prefix (n : Z) : M net_parser unit :=
  _check_size n ;;
  p ← get;
  if error p then mret tt else on_buffer (Buffer.remove_prefix n).

Definition parse_u32 : M net_parser Z := _parse_int 4.
Definition parse_u16 : M net_parser Z := _parse_int 2.
Definition parse_u8 : M net_parser Z := _parse_int 1.

(** ** NetUnparser *)

Definition unparse_byte (len : nat) (val : Z) (i : Z) : M (list byte) unit :=
  let the_byte := Z.land (Z.shiftr val ((Z.of_nat len - i - 1) * 8)) 255 in
  str_push (byte_of the_byte).

Definition _unparse_int (len : nat) (val : Z) : M (list byte) unit :=
  for_from len 0 (unparse_byte len val).

Definition unparse_u32 (val : Z) : M (list byte) unit := _unparse_int 4 val.
Definition unparse_u16 (val : Z) : M (list byte) unit := _unparse_int 2 val.
Definition unparse_u8 (val : Z) : M (list byte) unit := _unparse_int 1 val.

(** ** What each method does *)

Lemma check_size_enough n p : n <= size (_buffer p) -> _check_size n p = (Ok tt, p).
Proof.
  intros. unfold _check_size. run. rewrite Z.gtb_ltb.
  by destruct (Z.ltb_spec (size (_buffer p)) n); [lia|].
Qed.

Lemma check_size_short n p :
  size (_buffer p) < n -> _check_size n p = (Ok tt, set_error PacketTooShort p).
Proof.
  intros. unfold _check_size. run. rewrite Z.gtb_ltb.
  by destruct (Z.ltb_spec (size (_buffer p)) n); [|lia].
Qed.

Lemma error_true p : error p = true <-> _error p <> NoError.
Proof. unfold error, get_error. case_bool_decide; naive_solver. Qed.

Lemma parse_byte_ok w b i ret c :
  wf_buffer b -> 0 <= i -> copy b !! Z.to_nat i = Some c ->
  parse_byte w b i ret = (Ok tt, ((ret * 256) mod 2 ^ w + byte_val c) mod 2 ^ w).
Proof.
  intros Hb Hi Hc. unfold parse_byte. run. rewrite (at_ok b i c) by done.
  by rewrite Z.shiftl_mul_pow2 by lia.
Qed.

(** The loop computes the big-endian value without wrapping. *)
Lemma parse_loop_ok b len :
  wf_buffer b -> Z.of_nat len <= size b ->
  local_var (for_from len 0 (parse_byte (8 * Z.of_nat len) b)) 0 = Ok (be_val (take len (copy b))).
Proof.
  intros Hb Hlen. rewrite <- lenZ_copy in Hlen by done.
  destruct (for_from_inv (fun i ret => ret = be_val (take (Z.to_nat i) (copy b)))
    (parse_byte (8 * Z.of_nat len) b) len 0 0) as (ret & E & Hr); [done| |].
  - intros i ret [Hi0 Hi] ->. destruct (lookupZ_lt (copy b) i) as [c Hc]; [lia|].
    eexists. split; [by apply parse_byte_ok|].
    replace (Z.to_nat (i + 1)) with (S (Z.to_nat i)) by lia.
    rewrite (take_S_r _ _ c), be_val_snoc by done.
    set (l := take (Z.to_nat i) (copy b)).
    pose proof (be_val_range l) as Hl. pose proof (byte_val_range c) as Hc'.
    assert (Hlen' : lenZ l = i) by (unfold l; rewrite lenZ_take; lia). rewrite Hlen' in Hl.
    assert (Hpow : 256 ^ i * 256 <= 2 ^ (8 * Z.of_nat len)).
    { change 256 with (2 ^ 8) at 1. rewrite <- Z.pow_mul_r by lia.
      change 256 with (2 ^ 8). rewrite <- Z.pow_add_r by lia. apply Z.pow_le_mono_r; lia. }
    rewrite (Z.mod_small (be_val l * 256)), Z.mod_small by nia. done.
  - unfold local_var. rewrite E, Hr. do 3 f_equal. lia.
Qed.

Lemma parse_int_ok len p :
  wf_buffer (_buffer p) -> _error p = NoError -> Z.of_nat len <= size (_buffer p) ->
  _parse_int len p =
    (Ok (be_val (take len (copy (_buffer p)))),
     NetParser (after_discard (Z.of_nat len) (_buffer p)) NoError).
Proof.
  intros Hb He Hlen. unfold _parse_int. run. rewrite check_size_enough by done.
  assert (error p = false) as -> by (unfold error, get_error; by rewrite He).
  rewrite parse_loop_ok by done. unfold on_buffer, on_field.
  rewrite remove_prefix_ok by (done || lia). by rewrite He.
Qed.

Lemma parse_int_fails len p :
  _error p <> NoError \/ size (_buffer p) < Z.of_nat len ->
  _parse_int len p =
    (Ok 0, if size (_buffer p) <? Z.of_nat len then set_error PacketTooShort p else p).
Proof.
  intros H. unfold _parse_int. run.
  destruct (Z.ltb_spec (size (_buffer p)) (Z.of_nat len)).
  - by rewrite check_size_short.
  - rewrite check_size_enough by done.
    assert (error p = true) as -> by (apply error_true; destruct H; [done|lia]). done.
Qed.

Lemma remove_prefix_parser_ok n p :
  wf_buffer (_buffer p) -> _error p = NoError -> 0 <= n <= size (_buffer p) ->
  remove_prefix n p = (Ok tt, NetParser (after_discard n (_buffer p)) NoError).
Proof.
  intros Hb He Hn. unfold remove_prefix. run. rewrite check_size_enough by lia.
  assert (error p = false) as -> by (unfold error, get_error; by rewrite He).
  unfold on_buffer, on_field. rewrite remove_prefix_ok by (done || lia). by rewrite He.
Qed.

Lemma remove_prefix_parser_fails n p :
  _error p <> NoError \/ size (_buffer p) < n ->
  remove_prefix n p = (Ok tt, if size (_buffer p) <? n then set_error PacketTooShort p else p).
Proof.
  intros H. unfold remove_prefix. run. destruct (Z.ltb_spec (size (_buffer p)) n).
  - by rewrite check_size_short.
  - rewrite check_size_enough by done.
    assert (error p = true) as -> by (apply error_true; destruct H; [done|lia]). done.
Qed.

Lemma unparse_int_ok len val s :
  lenZ s + Z.of_nat len <= string_max_size ->
  _unparse_int len val s = (Ok tt, s ++ be_bytes len val).
Proof.
  intros Hs. unfold _unparse_int.
  destruct (for_from_inv (fun i s1 => s1 = s ++ take (Z.to_nat i) (be_bytes len val))
    (unparse_byte len val) len 0 s) as (s1 & E & ->).
  - by rewrite app_nil_r.
  - intros i s1 [Hi0 Hi] ->. eexists. split.
    { unfold unparse_byte, str_push. apply str_append_ok.
      rewrite lenZ_app, lenZ_take by lia. unfold lenZ in *. simpl. lia. }
    rewrite byte_of_shift by lia.
    replace (Z.to_nat (i + 1)) with (S (Z.to_nat i)) by lia.
    erewrite (take_S_r (be_bytes len val)) by (apply be_bytes_lookup; lia).
    rewrite (assoc_L (++)). do 6 f_equal. lia.
  - rewrite E. do 3 f_equal. apply take_ge. rewrite length_be_bytes. lia.
Qed.

(** ** Sequences of reads, and their specification *)

(** What a client asks of a parser. *)
Inductive parse_op := ReadU8 | ReadU16 | ReadU32 | Skip (n : Z).

Definition parse_do (op : parse_op) : M net_parser Z :=
  match op with
  | ReadU8 => parse_u8
  | ReadU16 => parse_u16
  | ReadU32 => parse_u32
  | Skip n => remove_prefix n ;; mret 0
  end.

Fixpoint parse_run (ops : list parse_op) : M net_parser (list Z) :=
  match ops with
  | [] => mret []
  | op :: ops => v ← parse_do op; vs ← parse_run ops; mret (v :: vs)
  end.

(** The specification works on the bytes left and the error code. *)
Definition op_width (op : parse_op) : Z :=
  match op with ReadU8 => 1 | ReadU16 => 2 | ReadU32 => 4 | Skip n => n end.
Definition op_value (op : parse_op) (d : list byte) : Z :=
  match op with Skip _ => 0 | _ => be_val (take (Z.to_nat (op_width op)) d) end.

Definition spec_step (w : Z) (val : list byte -> Z) (st : list byte * parse_result)
  : Z * (list byte * parse_result) :=
  let '(d, err) := st in
  if lenZ d <? w then (0, (d, PacketTooShort))
  else if bool_decide (err = NoError) then (val d, (drop (Z.to_nat w) d, err))
  else (0, (d, err)).

Definition spec_do (op : parse_op) : list byte * parse_result -> Z * (list byte * parse_result) :=
  spec_step (op_width op) (op_value op).

Fixpoint spec_run (ops : list parse_op) (st : list byte * parse_result)
  : list Z * (list byte * parse_result) :=
  match ops with
  | [] => ([], st)
  | op :: ops =>
      let '(v, st1) := spec_do op st in
      let '(vs, st2) := spec_run ops st1 in (v :: vs, st2)
  end.

Definition view (p : net_parser) : list byte * parse_result := (copy (_buffer p), _error p).

Lemma parse_int_spec len p :
  wf_buffer (_buffer p) ->
  let r := spec_step (Z.of_nat len) (fun d => be_val (take len d)) (view p) in
  exists p', _parse_int len p = (Ok (fst r), p') /\ wf_buffer (_buffer p') /\ view p' = snd r.
Proof.
  intros Hb. unfold spec_step, view. simpl. rewrite lenZ_copy by done.
  destruct (Z.ltb_spec (size (_buffer p)) (Z.of_nat len)) as [Hlt|Hge]; simpl.
  { rewrite parse_int_fails by (by right). eexists. split; [done|].
    by destruct (Z.ltb_spec (size (_buffer p)) (Z.of_nat len)); [|lia]. }
  case_bool_decide as He; simpl.
  - rewrite parse_int_ok by done. eexists. split; [done|]. simpl.
    split; [by apply after_discard_wf; [|lia]|].
    by rewrite after_discard_text, Nat2Z.id, He by (done || lia).
  - rewrite parse_int_fails by (by left). eexists. split; [done|].
    by destruct (Z.ltb_spec (size (_buffer p)) (Z.of_nat len)); [lia|].
Qed.

Lemma skip_spec n p :
  wf_buffer (_buffer p) -> 0 <= n ->
  let r := spec_step n (fun _ => 0) (view p) in
  exists p', remove_prefix n p = (Ok tt, p') /\ wf_buffer (_buffer p') /\ view p' = snd r /\ fst r = 0.
Proof.
  intros Hb Hn. unfold spec_step, view. simpl. rewrite lenZ_copy by done.
  destruct (Z.ltb_spec (size (_buffer p)) n) as [Hlt|Hge]; simpl.
  { rewrite remove_prefix_parser_fails by (by right). eexists. split; [done|].
    by destruct (Z.ltb_spec (size (_buffer p)) n); [|lia]. }
  case_bool_decide as He; simpl.
  - rewrite remove_prefix_parser_ok by done. eexists. split; [done|]. simpl.
    split; [by apply after_discard_wf|].
    by rewrite after_discard_text, He by (done || lia).
  - rewrite remove_prefix_parser_fails by (by left). eexists. split; [done|].
    by destruct (Z.ltb_spec (size (_buffer p)) n); [lia|].
Qed.

Lemma parse_do_spec op p :
  wf_buffer (_buffer p) -> 0 <= op_width op ->
  exists p', parse_do op p = (Ok (fst (spec_do op (view p))), p') /\
    wf_buffer (_buffer p') /\ view p' = snd (spec_do op (view p)).
Proof.
  intros Hb Hw. destruct op as [| | |n].
  - exact (parse_int_spec 1 p Hb).
  - exact (parse_int_spec 2 p Hb).
  - exact (parse_int_spec 4 p Hb).
  - destruct (skip_spec n p Hb Hw) as (p' & E & Hb' & Hv & H0). exists p'.
    cbn [parse_do]. run. rewrite E. split; [|done].
    exact (f_equal (fun v => (Ok v, p')) (eq_sym H0)).
Qed.

Lemma parse_run_spec ops p :
  wf_buffer (_buffer p) -> Forall (fun op => 0 <= op_width op) ops ->
  exists p', parse_run ops p = (Ok (fst (spec_run ops (view p))), p') /\
    wf_buffer (_buffer p') /\ view p' = snd (spec_run ops (view p)).
Proof.
  intros Hb Hops. revert p Hb. induction Hops as [|op ops Hop Hops IH]; intros p Hb;
    cbn [parse_run spec_run].
  { by exists p. }
  destruct (parse_do_spec op p Hb Hop) as (p1 & E1 & Hb1 & Hv1).
  destruct (IH p1 Hb1) as (p2 & E2 & Hb2 & Hv2).
  rewrite Hv1 in E2, Hv2. exists p2. unfold mbind, M_bind. rewrite E1, E2.
  destruct (spec_do op (view p)) as [v st1]. simpl in *. by destruct (spec_run ops st1).
Qed.

(** The whole public interface: the reads, the error code, and the buffer. *)
Inductive parser_call :=
  | Parse (op : parse_op)
  | SetError (r : parse_result)
  | GetError
  | HasError
  | GetBuffer.

(** What the calls return; a Buffer as the bytes its [copy()] gives. *)
Inductive parser_answer :=
  | Number (v : Z)
  | Code (r : parse_result)
  | Flag (b : bool)
  | Contents (d : list byte)
  | Nothing.

Definition call_do (x : parser_call) : M net_parser parser_answer :=
  match x with
  | Parse op => v ← parse_do op; mret (match op with Skip _ => Nothing | _ => Number v end)
  | SetError r => modify (set_error r) ;; mret Nothing
  | GetError => p ← get; mret (Code (get_error p))
  | HasError => p ← get; mret (Flag (error p))
  | GetBuffer => p ← get; mret (Contents (copy (get_buffer p)))
  end.

Fixpoint call_run (xs : list parser_call) : M net_parser (list parser_answer) :=
  match xs with
  | [] => mret []
  | x :: xs => v ← call_do x; vs ← call_run xs; mret (v :: vs)
  end.

Definition call_width (x : parser_call) : Z := match x with Parse op => op_width op | _ => 0 end.

Definition spec_call (x : parser_call) (st : list byte * parse_result) : parser_answer * (list byte * parse_result) :=
  match x with
  | Parse op => let '(v, st) := spec_do op st in (match op with Skip _ => Nothing | _ => Number v end, st)
  | SetError r => (Nothing, (fst st, r))
  | GetError => (Code (snd st), st)
  | HasError => (Flag (negb (bool_decide (snd st = NoError))), st)
  | GetBuffer => (Contents (fst st), st)
  end.

Fixpoint spec_calls (xs : list parser_call) (st : list byte * parse_result)
  : list parser_answer * (list byte * parse_result) :=
  match xs with
  | [] => ([], st)
  | x :: xs =>
      let '(v, st1) := spec_call x st in
      let '(vs, st2) := spec_calls xs st1 in (v :: vs, st2)
  end.

Lemma call_do_spec x p :
  wf_buffer (_buffer p) -> 0 <= call_width x ->
  exists p', call_do x p = (Ok (fst (spec_call x (view p))), p') /\
    wf_buffer (_buffer p') /\ view p' = snd (spec_call x (view p)).
Proof.
  intros Hb Hw. destruct x as [op|r| | |]; [|by eexists..].
  destruct (parse_do_spec op p Hb Hw) as (p' & E & Hb' & Hv). exists p'. cbn [call_do spec_call]. run. rewrite E, Hv.
  by destruct (spec_do op (view p)).
Qed.

Lemma call_run_spec xs p :
  wf_buffer (_buffer p) -> Forall (fun x => 0 <= call_width x) xs ->
  exists p', call_run xs p = (Ok (fst (spec_calls xs (view p))), p') /\
    wf_buffer (_buffer p') /\ view p' = snd (spec_calls xs (view p)).
Proof.
  intros Hb Hxs. revert p Hb. induction Hxs as [|x xs Hx Hxs IH]; intros p Hb; cbn [call_run spec_calls].
  { by exists p. }
  destruct (call_do_spec x p Hb Hx) as (p1 & E1 & Hb1 & Hv1).
  destruct (IH p1 Hb1) as (p2 & E2 & Hb2 & Hv2).
  rewrite Hv1 in E2, Hv2. exists p2. unfold mbind, M_bind. rewrite E1, E2.
  destruct (spec_call x (view p)) as [v st1]. simpl in *. by destruct (spec_calls xs st1).
Qed.

(** ** Messages *)

(** A field to serialize: its width in bytes and its value. *)
Inductive net_field := U8 (v : Z) | U16 (v : Z) | U32 (v : Z).

Definition field_value (f : net_field) : Z := match f with U8 v | U16 v | U32 v => v end.
Definition field_width (f : net_field) : nat := match f with U8 _ => 1 | U16 _ => 2 | U32 _ => 4 end.
Definition field_ok (f : net_field) : Prop := 0 <= field_value f < 256 ^ Z.of_nat (field_width f).
Definition field_read (f : net_field) : parse_op :=
  match f with U8 _ => ReadU8 | U16 _ => ReadU16 | U32 _ => ReadU32 end.

Definition unparse_field (f : net_field) : M (list byte) unit :=
  match f with U8 v => unparse_u8 v | U16 v => unparse_u16 v | U32 v => unparse_u32 v end.

Definition encode (fs : list net_field) : list byte :=
  concat (map (fun f => be_bytes (field_width f) (field_value f)) fs).

Lemma unparse_field_ok f s :
  lenZ s + Z.of_nat (field_width f) <= string_max_size ->
  unparse_field f s = (Ok tt, s ++ be_bytes (field_width f) (field_value f)).
Proof. destruct f; simpl; apply unparse_int_ok. Qed.

Lemma encode_cons f fs : encode (f :: fs) = be_bytes (field_width f) (field_value f) ++ encode fs.
Proof. done. Qed.

Lemma unparse_fields_ok fs s :
  lenZ s + lenZ (encode fs) <= string_max_size ->
  for_each unparse_field fs s = (Ok tt, s ++ encode fs).
Proof.
  revert s. induction fs as [|f fs IH]; intros s Hs; simpl.
  - unfold encode. simpl. by rewrite app_nil_r.
  - rewrite encode_cons, lenZ_app in Hs. pose proof (lenZ_nonneg (encode fs)).
    assert (Hw : lenZ (be_bytes (field_width f) (field_value f)) = Z.of_nat (field_width f))
      by (unfold lenZ; by rewrite length_be_bytes).
    run. rewrite unparse_field_ok by lia.
    rewrite IH by (rewrite lenZ_app; lia). by rewrite encode_cons, (assoc_L (++)).
Qed.

(** Reading what was written, at the level of the specification. *)
Lemma spec_run_encode fs rest :
  Forall field_ok fs ->
  spec_run (map field_read fs) (encode fs ++ rest, NoError) = (map field_value fs, (rest, NoError)).
Proof.
  induction 1 as [|f fs Hf H IH]; [done|]. cbn [map spec_run]. rewrite encode_cons, <- (assoc_L (++)).
  assert (E : spec_do (field_read f)
                (be_bytes (field_width f) (field_value f) ++ encode fs ++ rest, NoError) =
              (field_value f, (encode fs ++ rest, NoError))).
  { unfold spec_do, spec_step.
    assert (Hw : op_width (field_read f) = Z.of_nat (field_width f)) by (by destruct f).
    assert (Hv : forall d, op_value (field_read f) d = be_val (take (field_width f) d)) by (by destruct f).
    rewrite Hw, Hv, lenZ_app. unfold lenZ at 1. rewrite length_be_bytes.
    pose proof (lenZ_nonneg (encode fs ++ rest)).
    destruct (Z.ltb_spec (Z.of_nat (field_width f) + lenZ (encode fs ++ rest)) (Z.of_nat (field_width f))); [lia|].
    rewrite bool_decide_eq_true_2 by done. rewrite Nat2Z.id.
    rewrite take_app_length', drop_app_length' by (by rewrite length_be_bytes).
    by rewrite be_val_bytes, Z.mod_small by exact Hf. }
  by rewrite E, IH.
Qed.

(** ** Properties *)

(** C22: The parser never throws and never reads out of bounds, whatever the
    packet and whatever is asked of it: every sequence of calls of its public
    interface returns normally, with the answers, the bytes left and the error code
    of the specification (a read or skip that finds too few bytes sets
    PacketTooShort, whatever the code was, and consumes nothing; one that finds an
    error consumes nothing either; such a read returns 0). *)
Theorem parser_total (b : buffer) (xs : list parser_call) :
  wf_buffer b -> Forall (fun x => 0 <= call_width x) xs ->
  exists p', call_run xs (new_parser b) = (Ok (fst (spec_calls xs (copy b, NoError))), p') /\
    wf_buffer (_buffer p') /\ view p' = snd (spec_calls xs (copy b, NoError)).
Proof. intros Hb Hxs. exact (call_run_spec xs (new_parser b) Hb Hxs). Qed.

Lemma parser_total_witness :
  exists p', call_run [Parse ReadU16; SetError BadChecksum; Parse (Skip 1); Parse ReadU32; GetError; SetError NoError;
                       Parse ReadU8; HasError; GetBuffer] (new_parser (from_string 1 (bytes "abcde")))
             = (Ok [Number 24930; Nothing; Nothing; Number 0; Code PacketTooShort; Nothing; Number 99; Flag false;
                    Contents (bytes "de")], p') /\
    wf_buffer (_buffer p') /\ view p' = (bytes "de", NoError).
Proof.
  apply (parser_total (from_string 1 (bytes "abcde"))
    [Parse ReadU16; SetError BadChecksum; Parse (Skip 1); Parse ReadU32; GetError; SetError NoError;
     Parse ReadU8; HasError; GetBuffer]).
  - vm_compute. intuition discriminate.
  - repeat constructor; simpl; lia.
Defined.

(** Errors are sticky: once the error code is set, every integer read is 0
    and consumes nothing, skipping consumes nothing, and the code stays set. *)
Theorem parser_error_sticky (p : net_parser) (op : parse_op) :
  wf_buffer (_buffer p) -> 0 <= op_width op -> error p = true ->
  exists p', parse_do op p = (Ok 0, p') /\ _buffer p' = _buffer p /\ error p' = true.
Proof.
  intros Hb Hw He. pose proof (proj1 (error_true p) He) as He'.
  assert (Hset : error (set_error PacketTooShort p) = true) by done.
  destruct op as [| | |n]; cbn [parse_do]; unfold parse_u8, parse_u16, parse_u32.
  all: try (rewrite parse_int_fails by (by left); eexists; split; [reflexivity|]; by case_cmp).
  run. rewrite remove_prefix_parser_fails by (by left). eexists. split; [reflexivity|].
  by case_cmp.
Qed.

Lemma parser_error_sticky_witness :
  exists p', parse_do ReadU8 (set_error BadChecksum (new_parser (from_string 1 (bytes "a"))))
             = (Ok 0, p') /\ _buffer p' = from_string 1 (bytes "a") /\ error p' = true.
Proof.
  apply (parser_error_sticky (set_error BadChecksum (new_parser (from_string 1 (bytes "a")))) ReadU8).
  - vm_compute. intuition discriminate.
  - simpl. lia.
  - reflexivity.
Defined.

(** C24: Round trip: parsing back any sequence of 8, 16 and 32-bit fields that
    was unparsed to a string, followed by anything, returns the values, leaves
    the rest, and reports no error. *)
Theorem unparse_parse_roundtrip (id : positive) (fs : list net_field) (rest : list byte) :
  Forall field_ok fs -> lenZ (encode fs) + lenZ rest <= string_max_size ->
  exists s p', for_each unparse_field fs [] = (Ok tt, s) /\
    parse_run (map field_read fs) (new_parser (from_string id (s ++ rest))) =
      (Ok (map field_value fs), p') /\
    view p' = (rest, NoError).
Proof.
  intros Hf Hlen. pose proof (lenZ_nonneg rest). pose proof (lenZ_nonneg (encode fs)).
  exists (encode fs). rewrite unparse_fields_ok by (rewrite lenZ_nil; lia).
  set (b := from_string id (encode fs ++ rest)).
  assert (Hb : wf_buffer b).
  { unfold wf_buffer, b. simpl. rewrite lenZ_app. unfold string_max_size in *. lia. }
  assert (Hc : copy b = encode fs ++ rest).
  { unfold copy, b, str, view_text. simpl. rewrite Z.sub_0_r, u64_small.
    - unfold lenZ. rewrite Nat2Z.id. by rewrite take_ge.
    - destruct Hb as [_ Hb]. simpl in Hb. lia. }
  destruct (parse_run_spec (map field_read fs) (new_parser b) Hb) as (p' & E & _ & Hv).
  { apply Forall_map. by apply Forall_forall; intros [] _. }
  unfold view in *. simpl in *. rewrite Hc, spec_run_encode in * by done. by exists p'.
Qed.

Lemma unparse_parse_roundtrip_witness :
  let fs := [U8 50; U32 3735928559; U16 49344; U8 255; U32 201719550] in
  exists s p', for_each unparse_field fs [] = (Ok tt, s) /\
    parse_run (map field_read fs) (new_parser (from_string 7 (s ++ bytes "tail"))) =
      (Ok [50; 3735928559; 49344; 255; 201719550], p') /\
    view p' = (bytes "tail", NoError).
Proof.
  apply (unparse_parse_roundtrip 7 [U8 50; U32 3735928559; U16 49344; U8 255; U32 201719550] (bytes "tail")).
  - repeat constructor; unfold field_ok; simpl; lia.
  - vm_compute. discriminate.
Defined.

(** The other direction: unparsing the integer parsed from the front of a
    packet writes back exactly the bytes that were consumed. *)
Theorem parse_unparse_roundtrip (len : nat) (b : buffer) (s : list byte) :
  wf_buffer b -> Z.of_nat len <= size b -> lenZ s + Z.of_nat len <= string_max_size ->
  exists v p', _parse_int len (new_parser b) = (Ok v, p') /\
    0 <= v < 2 ^ (8 * Z.of_nat len) /\
    _unparse_int len v s = (Ok tt, s ++ take len (copy b)) /\
    copy (_buffer p') = drop len (copy b).
Proof.
  intros Hb Hlen Hs. eexists _, _. split; [by apply parse_int_ok|].
  assert (Hl : length (take len (copy b)) = len).
  { rewrite <- lenZ_copy in Hlen by done. unfold lenZ in Hlen. rewrite length_take. lia. }
  split; [|split].
  - rewrite <- pow256. rewrite <- Hl at 3. apply be_val_range.
  - rewrite unparse_int_ok by done. do 2 f_equal. rewrite <- Hl at 1. apply be_bytes_val.
  - simpl. by rewrite after_discard_text, Nat2Z.id by (done || lia).
Qed.

Lemma parse_unparse_roundtrip_witness :
  exists v p', _parse_int 4 (new_parser (from_string 1 (bytes "abcde"))) = (Ok v, p') /\
    0 <= v < 2 ^ 32 /\ _unparse_int 4 v (bytes "x") = (Ok tt, bytes "xabcd") /\
    copy (_buffer p') = bytes "e".
Proof.
  apply (parse_unparse_roundtrip 4 (from_string 1 (bytes "abcde")) (bytes "x")).
  - vm_compute. intuition discriminate.
  - vm_compute. discriminate.
  - vm_compute. discriminate.
Defined.

(** [as_string] names every result but [Unsupported]: the table has six
    entries for seven results, and the seventh is read past its end. *)
Theorem as_string_unsupported_out_of_bounds (r : parse_result) :
  as_string r =
    match r with
    | NoError => Ok "NoError" | BadChecksum => Ok "BadChecksum"
    | PacketTooShort => Ok "PacketTooShort" | WrongIPVersion => Ok "WrongIPVersion"
    | HeaderTooShort => Ok "HeaderTooShort" | TruncatedPacket => Ok "TruncatedPacket"
    | Unsupported => Undef OutOfBounds
    end%string.
Proof. by destruct r. Qed.

(** ** doctests/parser_example.cc *)

Definition parser_example (id : positive) : res unit :=
  let val1 := 0xdeadbeef in let val2 := 0xc0c0 in let val3 := 0xff in let val4 := 0x0c05fefe in
  buffer ← local_var (str_push (byte_of 0x32) ;;
    unparse_u32 val1 ;; unparse_u16 val2 ;; unparse_u8 val3 ;; unparse_u32 val4) [];
  outs ← fst ((out0 ← parse_u8; out1 ← parse_u32; out2 ← parse_u16; out3 ← parse_u8; out4 ← parse_u32;
               mret [out0; out1; out2; out3; out4]) (new_parser (from_string id buffer)));
  if decide (outs = [0x32; val1; val2; val3; val4]) then Ok tt else Exc (runtime_error "bad parse").

(** doctests/parser_dt.cc *)
Definition parser_dt (id : positive) : res (Z * string) := exit_status (parser_example id) (fun _ => EmptyString).

Example parser_example_passes : parser_example 1 = Ok tt.
Proof. vm_compute. reflexivity. Qed.
