(* ===== verification/Checksum.v ===== *)
(** [InternetChecksum] (libsponge/util/util.hh, util.cc): the one's-complement
    checksum of IP and TCP, with its deferred carries in a 32-bit sum and the
    byte parity kept between calls. *)

From S2P Require Import Prelude NetInt.

(** ** State and operations *)

Record internet_checksum := InternetChecksum { _sum : Z; _parity : bool }.

Definition new (initial_sum : Z) : internet_checksum := InternetChecksum initial_sum false.

(** The body of the loop of [add]: [val] is a [uint16_t], [_sum] a [uint32_t]. *)
Definition add_byte (c : byte) : M internet_checksum unit :=
  s ← get;
  let val := u16 (byte_val c) in
  let val := if negb (_parity s) then u16 (Z.shiftl val 8) else val in
  modify (fun s => InternetChecksum (u32 (_sum s + val)) (_parity s)) ;;
  modify (fun s => InternetChecksum (_sum s) (negb (_parity s))).

Definition add (data : list byte) : M internet_checksum unit := for_each add_byte data.

(** [while (ret > 0xffff)], with fuel. *)
Fixpoint fold_carries (fuel : nat) (ret : Z) : res Z :=
  if ret >? 65535 then
    match fuel with
    | O => NoFuel
    | S fuel => fold_carries fuel (u32 (Z.shiftr ret 16 + Z.land ret 65535))
    end
  else Ok ret.

(** Two rounds are enough for any [uint32_t] ([value_terminates] below). *)
Definition value (s : internet_checksum) : res Z :=
  ret ← fold_carries 2 (_sum s);
  mret (u16 (Z.lnot ret)).

(** ** The sum of the bytes *)

(** What the bytes add to the sum, by parity, and as 16-bit words. *)
Fixpoint weight (parity : bool) (data : list byte) : Z :=
  match data with
  | [] => 0
  | c :: data => (if parity then byte_val c else byte_val c * 256) + weight (negb parity) data
  end.

Fixpoint words (data : list byte) : list Z :=
  match data with
  | a :: b :: data => (byte_val a * 256 + byte_val b) :: words data
  | [a] => [byte_val a * 256]
  | [] => []
  end.

Fixpoint parity_after (parity : bool) (data : list byte) : bool :=
  match data with [] => parity | _ :: data => parity_after (negb parity) data end.

(** The representative of a sum modulo 65535 that end-around carries reach:
    0 for 0 only. *)
Definition canon (z : Z) : Z := if z =? 0 then 0 else (z - 1) mod 65535 + 1.

Lemma add_byte_ok c s :
  add_byte c s =
    (Ok tt, InternetChecksum (u32 (_sum s + (if _parity s then byte_val c else byte_val c * 256)))
                             (negb (_parity s))).
Proof.
  unfold add_byte. run. pose proof (byte_val_range c).
  assert (u16 (byte_val c) = byte_val c) as -> by (unfold u16; apply Z.mod_small; lia).
  rewrite Z.shiftl_mul_pow2 by lia. change (2 ^ 8) with 256.
  assert (u16 (byte_val c * 256) = byte_val c * 256) as -> by (unfold u16; apply Z.mod_small; lia).
  by destruct (_parity s).
Qed.

Lemma add_ok data s :
  add data s =
    (Ok tt, InternetChecksum (if decide (data = []) then _sum s else u32 (_sum s + weight (_parity s) data))
                             (parity_after (_parity s) data)).
Proof.
  unfold add. revert s. induction data as [|c data IH]; intros s; simpl; [by destruct s|].
  unfold mbind, M_bind. rewrite add_byte_ok, IH. simpl. f_equal. f_equal.
  case_decide as Hd; [subst; simpl; f_equal; lia|].
  unfold u32. rewrite Zplus_mod_idemp_l. f_equal. lia.
Qed.

Lemma weight_app p d1 d2 : weight p (d1 ++ d2) = weight p d1 + weight (parity_after p d1) d2.
Proof. revert p. induction d1 as [|c d1 IH]; intros p; simpl; [done|]. rewrite IH. lia. Qed.

Lemma parity_after_even p d : Nat.even (length d) = true -> parity_after p d = p.
Proof.
  assert (H : forall n d p, (length d <= n)%nat -> Nat.even (length d) = true -> parity_after p d = p).
  { clear. induction n as [|n IH]; intros [|a [|b d]] p Hn He; simpl in *; try done; [lia|].
    rewrite negb_involutive. apply IH; [lia|done]. }
  intros. by apply (H (length d)).
Qed.

Lemma weight_range p d : 0 <= weight p d <= (if p then 255 else 0) + 65535 * ((lenZ d + (if p then 0 else 1)) / 2).
Proof.
  revert p. induction d as [|c d IH]; intros p; simpl; [by destruct p|].
  pose proof (byte_val_range c). specialize (IH (negb p)). pose proof (lenZ_nonneg d).
  rewrite lenZ_cons. destruct p; simpl in *.
  - replace (1 + lenZ d + 0) with (lenZ d + 1) by lia. lia.
  - replace (1 + lenZ d + 1) with ((lenZ d + 0) + 1 * 2) by lia. rewrite Z.div_add by lia. lia.
Qed.

Lemma weight_words d : weight false d = foldr Z.add 0 (words d).
Proof.
  assert (H : forall n d, (length d <= n)%nat -> weight false d = foldr Z.add 0 (words d)).
  { clear. induction n as [|n IH]; intros [|a [|b d]] Hn; simpl in *; try done; try lia.
    rewrite IH by lia. lia. }
  by apply (H (length d)).
Qed.

(** ** Folding the carries *)

Lemma canon_range z : 0 <= z -> 0 <= canon z <= 65535.
Proof.
  unfold canon. intros. case_cmp; [lia|].
  pose proof (Z.mod_pos_bound (z - 1) 65535 ltac:(lia)). lia.
Qed.

Lemma canon_small z : 0 <= z <= 65535 -> canon z = z.
Proof. unfold canon. intros. case_cmp; [lia|]. rewrite Z.mod_small by lia. lia. Qed.

Lemma canon_cong y z : 0 < y -> 0 < z -> y mod 65535 = z mod 65535 -> canon y = canon z.
Proof.
  unfold canon. intros Hy Hz E. case_cmp; try lia.
  by rewrite Zminus_mod, E, <- Zminus_mod.
Qed.

(** One round of folding keeps the representative. *)
Lemma fold_round z :
  0 <= z -> Z.shiftr z 16 + Z.land z 65535 = z / 65536 + z mod 65536.
Proof.
  intros. rewrite Z.shiftr_div_pow2 by lia. change 65535 with (Z.ones 16).
  by rewrite Z.land_ones by lia.
Qed.

Lemma fold_canon z : 65535 < z -> canon (z / 65536 + z mod 65536) = canon z.
Proof.
  intros Hz. pose proof (Z.div_mod z 65536 ltac:(lia)) as Hdm.
  pose proof (Z.mod_pos_bound z 65536 ltac:(lia)).
  assert (0 < z / 65536) by (apply Z.div_str_pos; lia).
  apply canon_cong; [lia..|]. rewrite Hdm at 3.
  replace (65536 * (z / 65536) + z mod 65536) with ((z / 65536 + z mod 65536) + (z / 65536) * 65535) by lia.
  by rewrite Z_mod_plus_full.
Qed.

(** Each round shrinks the sum: 32 bits, then 17, then 16. *)
Lemma fold_carries_ok z : 0 <= z < 2 ^ 32 -> fold_carries 2 z = Ok (canon z).
Proof.
  assert (Hstep : forall fuel z, 65535 < z < 2 ^ 32 ->
            fold_carries (S fuel) z = fold_carries fuel (z / 65536 + z mod 65536)).
  { intros fuel y Hy. cbn [fold_carries]. rewrite fold_round by lia.
    pose proof (Z.mod_pos_bound y 65536 ltac:(lia)).
    assert (y / 65536 < 65536) by (apply Z.div_lt_upper_bound; lia).
    assert (0 <= y / 65536) by (apply Z.div_pos; lia).
    rewrite u32_small by lia. rewrite Z.gtb_ltb. by destruct (Z.ltb_spec 65535 y); [|lia]. }
  assert (Hdone : forall fuel z, 0 <= z <= 65535 -> fold_carries fuel z = Ok (canon z)).
  { intros fuel y Hy. rewrite canon_small by done.
    destruct fuel; simpl; rewrite Z.gtb_ltb; by destruct (Z.ltb_spec 65535 y); [lia|]. }
  intros Hz. destruct (Z.le_gt_cases z 65535); [apply Hdone; lia|].
  rewrite Hstep, <- fold_canon by lia. set (y := z / 65536 + z mod 65536).
  assert (Hy : 0 <= y <= 131070).
  { unfold y. pose proof (Z.mod_pos_bound z 65536 ltac:(lia)).
    assert (z / 65536 < 65536) by (apply Z.div_lt_upper_bound; lia).
    assert (0 <= z / 65536) by (apply Z.div_pos; lia). lia. }
  destruct (Z.le_gt_cases y 65535); [apply Hdone; lia|].
  rewrite Hstep, <- fold_canon by lia. apply Hdone.
  assert (y / 65536 = 1) as -> by (symmetry; apply Z.div_unique with (y - 65536); lia).
  assert (y mod 65536 = y - 65536) as -> by (symmetry; apply Z.mod_unique with 1; lia). lia.
Qed.

Lemma value_ok s : 0 <= _sum s < 2 ^ 32 -> value s = Ok (65535 - canon (_sum s)).
Proof.
  intros Hs. unfold value. rewrite fold_carries_ok by done. run.
  pose proof (canon_range (_sum s) ltac:(lia)). f_equal. unfold u16, Z.lnot.
  symmetry. apply Z.mod_unique with (-1); lia.
Qed.

(** ** Reference definition: end-around carry at every word *)

Definition onec_add (a b : Z) : Z := let s := a + b in s / 65536 + s mod 65536.
Definition onec_sum (init : Z) (ws : list Z) : Z := fold_left onec_add ws init.

Lemma onec_add_canon z w : 0 <= z -> 0 <= w <= 65535 -> onec_add (canon z) w = canon (z + w).
Proof.
  intros Hz Hw. pose proof (canon_range z Hz). unfold onec_add.
  assert (Hc : canon (canon z + w) = canon (z + w)).
  { destruct (Z.eq_dec z 0) as [->|Hz0]; [done|].
    assert (0 < canon z) by (unfold canon; case_cmp; [lia|]; pose proof (Z.mod_pos_bound (z - 1) 65535 ltac:(lia)); lia).
    apply canon_cong; [lia..|]. unfold canon. case_cmp; [lia|].
    rewrite <- Z.add_assoc, Zplus_mod_idemp_l. f_equal. lia. }
  rewrite <- Hc. destruct (Z.le_gt_cases (canon z + w) 65535) as [Hle|Hgt].
  - rewrite Z.div_small, Z.mod_small, (canon_small (canon z + w)) by lia. lia.
  - assert ((canon z + w) / 65536 = 1) as Hd by (symmetry; apply Z.div_unique with (canon z + w - 65536); lia).
    assert ((canon z + w) mod 65536 = canon z + w - 65536) as Hm by (symmetry; apply Z.mod_unique with 1; lia).
    rewrite <- (fold_canon (canon z + w)), Hd, Hm by lia. rewrite (canon_small (1 + _)); lia.
Qed.

Lemma words_range d : Forall (fun w => 0 <= w <= 65535) (words d).
Proof.
  assert (H : forall n d, (length d <= n)%nat -> Forall (fun w => 0 <= w <= 65535) (words d)).
  { clear. induction n as [|n IH]; intros [|a [|b d]] Hn; simpl in *; try lia; try by constructor.
    - pose proof (byte_val_range a). constructor; [lia|constructor].
    - pose proof (byte_val_range a). pose proof (byte_val_range b).
      constructor; [lia|]. apply IH. lia. }
  by apply (H (length d)).
Qed.

Lemma onec_sum_canon z ws :
  0 <= z -> Forall (fun w => 0 <= w <= 65535) ws ->
  onec_sum (canon z) ws = canon (z + foldr Z.add 0 ws).
Proof.
  intros Hz H. revert z Hz. unfold onec_sum. induction H as [|w ws Hw H IH]; intros z Hz; simpl.
  - f_equal. lia.
  - rewrite onec_add_canon, IH by lia. f_equal. lia.
Qed.

(** The longest message whose sum cannot overflow 32 bits, from zero. *)
Definition max_len : Z := 131074.

Lemma sum_no_overflow data : lenZ data <= max_len -> 0 <= weight false data < 2 ^ 32.
Proof.
  unfold max_len. intros Hl. pose proof (weight_range false data) as Hw. cbv iota in Hw.
  pose proof (lenZ_nonneg data).
  assert ((lenZ data + 1) / 2 < 65538) by (apply Z.div_lt_upper_bound; lia). lia.
Qed.

Lemma add_from_new data :
  lenZ data <= max_len -> add data (new 0) = (Ok tt, InternetChecksum (weight false data) (parity_after false data)).
Proof.
  intros Hl. rewrite add_ok. simpl. f_equal. f_equal.
  case_decide; [by subst|]. apply u32_small. by apply sum_no_overflow.
Qed.

(** Storing a 16-bit value in a zero field at an even offset adds it. *)
Lemma weight_stored pre post v :
  Nat.even (length pre) = true -> 0 <= v <= 65535 ->
  weight false (pre ++ be_bytes 2 v ++ post) =
  weight false (pre ++ [Byte.x00; Byte.x00] ++ post) + v.
Proof.
  intros He Hv. rewrite !weight_app, !parity_after_even by done. simpl.
  rewrite !byte_val_of. rewrite Z.div_1_r, (Z.mod_small (v / 256)).
  - pose proof (Z.div_mod v 256 ltac:(lia)). change (byte_val Byte.x00) with 0. lia.
  - split; [apply Z.div_pos; lia|apply Z.div_lt_upper_bound; lia].
Qed.

(** A sum and the complement of its representative make the other zero. *)
Lemma canon_complement z : 0 <= z -> canon (z + (65535 - canon z)) = 65535.
Proof.
  intros Hz. unfold canon. destruct (Z.eqb_spec z 0) as [->|Hz0]; [done|].
  pose proof (Z.mod_pos_bound (z - 1) 65535 ltac:(lia)).
  destruct (Z.eqb_spec (z + (65535 - ((z - 1) mod 65535 + 1))) 0); [lia|].
  replace (z + (65535 - ((z - 1) mod 65535 + 1)) - 1)
    with ((z - 1) - (z - 1) mod 65535 + 65534) by lia.
  by rewrite <- Zplus_mod_idemp_l, Zminus_mod_idemp_r, Z.sub_diag.
Qed.

(** The sum of [2n] bytes of 255. *)
Lemma words_ff n : foldr Z.add 0 (words (replicate (2 * n) Byte.xff)) = Z.of_nat n * 65535.
Proof.
  induction n as [|n IH]; [done|]. replace (2 * S n)%nat with (S (S (2 * n))) by lia.
  cbn [replicate words foldr]. rewrite IH. change (byte_val Byte.xff) with 255. lia.
Qed.

(** ** Properties *)

(** The loop that folds the carries ends within two rounds for every 32-bit
    sum, so [value] always returns, and returns a 16-bit number. *)
Theorem value_terminates (s : internet_checksum) :
  0 <= _sum s < 2 ^ 32 -> exists v, value s = Ok v /\ 0 <= v < 2 ^ 16.
Proof.
  intros Hs. rewrite value_ok by done. pose proof (canon_range (_sum s)). eexists. split; [done|]. lia.
Qed.

Lemma value_terminates_witness :
  exists v, value (InternetChecksum (2 ^ 32 - 1) false) = Ok v /\ 0 <= v < 2 ^ 16.
Proof. apply (value_terminates (InternetChecksum (2 ^ 32 - 1) false)). simpl. lia. Defined.

(** C26: The deferred-carry checksum equals its definition (RFC 1071): the
    complement of the one's-complement sum of the 16-bit words, an odd last
    byte padded with zero, with the carry added back at every step; for every
    message of at most 131074 bytes. *)
Theorem checksum_is_ones_complement_sum (data : list byte) :
  lenZ data <= max_len ->
  exists s, add data (new 0) = (Ok tt, s) /\ value s = Ok (65535 - onec_sum 0 (words data)).
Proof.
  intros Hl. eexists. split; [by apply add_from_new|]. pose proof (sum_no_overflow data Hl).
  rewrite value_ok by done. simpl. rewrite weight_words.
  change 0 with (canon 0) at 2. rewrite onec_sum_canon by (done || apply words_range). done.
Qed.

Lemma checksum_is_ones_complement_sum_witness :
  exists s, add (bytes "abcde") (new 0) = (Ok tt, s) /\
    value s = Ok (65535 - onec_sum 0 (words (bytes "abcde"))).
Proof. apply checksum_is_ones_complement_sum. vm_compute. discriminate. Defined.

(** The bytes may arrive in pieces of any lengths, odd ones included: adding
    two pieces one after the other is adding their concatenation. *)
Theorem add_in_pieces (d1 d2 : list byte) (s : internet_checksum) :
  0 <= _sum s < 2 ^ 32 ->
  (add d1 ;; add d2) s = add (d1 ++ d2) s.
Proof.
  intros Hs. unfold mbind, M_bind. rewrite !add_ok. simpl. f_equal.
  assert (Hp : parity_after (_parity s) (d1 ++ d2) = parity_after (parity_after (_parity s) d1) d2).
  { generalize (_parity s). clear. induction d1; intros p; simpl; [done|]. apply IHd1. }
  rewrite Hp, weight_app. f_equal.
  destruct d1 as [|a d1]; [done|]. destruct d2 as [|b d2].
  - rewrite app_nil_r. simpl. rewrite Z.add_0_r. done.
  - rewrite !decide_False by done. unfold u32. rewrite Zplus_mod_idemp_l. f_equal. lia.
Qed.

Lemma add_in_pieces_witness :
  (add (bytes "abc") ;; add (bytes "de")) (new 7) = add (bytes "abcde") (new 7).
Proof. apply (add_in_pieces (bytes "abc") (bytes "de") (new 7)). simpl. lia. Defined.

(** C33: A message that carries its checksum checks to zero: compute the value
    over a message whose two-byte checksum field, at an even offset, is zero,
    store it there in network byte order, and the value over the result is 0. *)
Theorem stored_checksum_verifies (pre post : list byte) :
  Nat.even (length pre) = true -> lenZ pre + 2 + lenZ post <= max_len ->
  exists s v s', add (pre ++ [Byte.x00; Byte.x00] ++ post) (new 0) = (Ok tt, s) /\
    value s = Ok v /\
    add (pre ++ be_bytes 2 v ++ post) (new 0) = (Ok tt, s') /\ value s' = Ok 0.
Proof.
  intros He Hl. set (zeros := [Byte.x00; Byte.x00]).
  assert (Hl0 : lenZ (pre ++ zeros ++ post) <= max_len)
    by (rewrite !lenZ_app; unfold zeros, lenZ in *; simpl; lia).
  pose proof (sum_no_overflow _ Hl0) as Hs0.
  set (z := weight false (pre ++ zeros ++ post)) in *. set (v := 65535 - canon z).
  assert (Hlv : lenZ (pre ++ be_bytes 2 v ++ post) <= max_len)
    by (rewrite !lenZ_app; unfold lenZ in *; simpl; lia).
  pose proof (sum_no_overflow _ Hlv) as Hsv. pose proof (canon_range z ltac:(lia)).
  eexists _, v, _. split; [by apply add_from_new|]. split; [by rewrite value_ok|].
  split; [by apply add_from_new|]. rewrite value_ok by done. cbn [_sum].
  rewrite weight_stored by (done || lia). fold zeros z.
  unfold v. rewrite canon_complement by lia. done.
Qed.

Lemma stored_checksum_verifies_witness :
  exists s v s', add (bytes "IPv4" ++ [Byte.x00; Byte.x00] ++ bytes "payload") (new 0) = (Ok tt, s) /\
    value s = Ok v /\
    add (bytes "IPv4" ++ be_bytes 2 v ++ bytes "payload") (new 0) = (Ok tt, s') /\ value s' = Ok 0.
Proof. apply stored_checksum_verifies; [reflexivity|vm_compute; discriminate]. Defined.

(** Beyond that length the 32-bit sum can wrap and a carry is lost: on
    65538 words of two bytes 255 each, 131076 bytes, the value is 1, where the
    definition gives 0. *)
Theorem long_message_loses_carry (n : nat) :
  Z.of_nat n = 65538 ->
  exists s, add (replicate (2 * n) Byte.xff) (new 0) = (Ok tt, s) /\ value s = Ok 1 /\
    65535 - onec_sum 0 (words (replicate (2 * n) Byte.xff)) = 0.
Proof.
  intros Hn. pose proof (words_ff n) as Hsum. rewrite Hn in Hsum.
  eexists. split; [apply add_ok|]. cbn [_sum _parity new]. split.
  - rewrite weight_words, Hsum, decide_False; [by rewrite value_ok|].
    intros H. apply (f_equal length) in H. rewrite length_replicate in H. simpl in H. lia.
  - change 0 with (canon 0) at 1. rewrite onec_sum_canon by (done || apply words_range).
    by rewrite Hsum.
Qed.

Lemma long_message_loses_carry_witness :
  exists s, add (replicate (2 * Z.to_nat 65538) Byte.xff) (new 0) = (Ok tt, s) /\ value s = Ok 1 /\
    65535 - onec_sum 0 (words (replicate (2 * Z.to_nat 65538) Byte.xff)) = 0.
Proof. apply long_message_loses_carry. apply Z2Nat.id. lia. Defined.
