(* ===== verification/Kernel.v ===== *)
(** The operating system as the code sees it: every system call is a field of
    a record the other components take as a parameter, over an arbitrary type
    [W] of states of the outside world; [SystemCall] and [unix_error]
    (libsponge/util/util.hh, util.cc) turn their results into exceptions.
    The numeric constants are those of Linux on x86-64. *)

From S2P Require Import Prelude Buffer BufferViewList.

(** ** System calls *)

(** What a system call leaves behind: its return value, and [errno]. *)
Record sysret := SysRet { ret : Z; errno : Z }.

(** [struct pollfd], before and after the call. *)
Record pollfd := PollFd { pfd_fd : Z; pfd_events : Z; pfd_revents : Z }.

Record kernel (W : Type) := Kernel {
  k_close : Z -> W -> sysret * W;
  k_read : Z -> Z -> W -> sysret * list byte * W;
  k_writev : Z -> list iovec -> W -> sysret * W;
  k_getfl : Z -> W -> sysret * W;
  k_setfl : Z -> Z -> W -> sysret * W;
  k_poll : list pollfd -> Z -> W -> sysret * list Z * W;
  k_cerr : string -> W -> W;                 (* writing to standard error *)
  k_strerror : Z -> string;
  k_gai_strerror : Z -> string
}.
Arguments k_close {W}.
Arguments k_read {W}.
Arguments k_writev {W}.
Arguments k_getfl {W}.
Arguments k_setfl {W}.
Arguments k_poll {W}.
Arguments k_cerr {W}.
Arguments k_strerror {W}.
Arguments k_gai_strerror {W}.

Definition O_NONBLOCK : Z := 2048.
Definition POLLIN : Z := 1.
Definition POLLOUT : Z := 4.
Definition POLLERR : Z := 8.
Definition POLLHUP : Z := 16.
Definition POLLNVAL : Z := 32.
Definition EINTR : Z := 4.

(** ** SystemCall *)

(** [SystemCall(attempt, return_value, errno_mask)], with [errno] as the call
    left it; the [return_value] parameter is an [int]. *)
Definition SystemCall (attempt : string) (r : sysret) (errno_mask : Z) : res Z :=
  let return_value := to_int (ret r) in
  if (return_value >=? 0) || (errno r =? errno_mask) then Ok return_value
  else Exc (unix_error attempt (errno r)).

(** [std::error_category]: its name, and the message of each error code. *)
Record error_category := ErrorCategory { category_name : string; message : Z -> string }.

(** [gai_error_category] (libsponge/util/address.cc), over gai_strerror(3), and
    the standard library's [std::system_category()], over strerror(3). *)
Definition gai_error_category (gai_strerror : Z -> string) : error_category :=
  ErrorCategory "gai_error_category" gai_strerror.
Definition system_category (strerror : Z -> string) : error_category := ErrorCategory "system" strerror.

(** [tagged_error(category, attempt, error_code)]: what was attempted, and what
    [std::system_error::what()] says of the code. *)
Definition tagged_error (category : error_category) (attempt : string) (error_code : Z) : string :=
  (attempt ++ ": " ++ message category error_code)%string.

(** [what()] of the exceptions of the code. *)
Definition what (strerror gai_strerror : Z -> string) (e : exn) : string :=
  match e with
  | out_of_range w | length_error w | runtime_error w | expectation_violation w | invalid_argument w => w
  | unix_error attempt code => tagged_error (system_category strerror) attempt code
  | gai_error attempt code => tagged_error (gai_error_category gai_strerror) attempt code
  end.

Lemma SystemCall_ok attempt r mask :
  0 <= ret r <= int_max -> SystemCall attempt r mask = Ok (ret r).
Proof.
  unfold int_max. intros. unfold SystemCall. rewrite to_int_small, Z.geb_leb by lia.
  by destruct (Z.leb_spec 0 (ret r)); [|lia].
Qed.

Lemma SystemCall_fails attempt r mask :
  ret r = -1 -> errno r <> mask -> SystemCall attempt r mask = Exc (unix_error attempt (errno r)).
Proof.
  intros Hr He. unfold SystemCall. rewrite Hr. change (to_int (-1)) with (-1). simpl.
  by destruct (Z.eqb_spec (errno r) mask).
Qed.

(** It returns or throws. *)
Lemma SystemCall_total attempt r mask :
  match SystemCall attempt r mask with Ok _ | Exc _ => True | _ => False end.
Proof. unfold SystemCall. by destruct (_ || _). Qed.

(** What [SystemCall] lets through is an [int], and negative only if masked. *)
Lemma SystemCall_Ok attempt r mask v :
  SystemCall attempt r mask = Ok v ->
  v = to_int (ret r) /\ int_min <= v <= int_max /\ (0 <= v \/ errno r = mask).
Proof.
  unfold SystemCall. pose proof (to_int_range (ret r)). rewrite Z.geb_leb.
  destruct (Z.leb_spec 0 (to_int (ret r))), (Z.eqb_spec (errno r) mask); simpl; intros [= <-]; auto.
Qed.

(** [SystemCall] on every branch: a non-negative result is passed through
    whatever [errno] holds; a negative one is passed through when [errno] is
    the accepted value (0 by default), and otherwise becomes a [unix_error]
    whose message names the attempt and the error. *)
Theorem SystemCall_spec (strerror gai_strerror : Z -> string) (attempt : string) (r : sysret) (mask : Z) :
  match SystemCall attempt r mask with
  | Ok v => v = to_int (ret r) /\ (0 <= v \/ errno r = mask)
  | Exc e => to_int (ret r) < 0 /\ errno r <> mask /\ e = unix_error attempt (errno r) /\
             what strerror gai_strerror e = (attempt ++ ": " ++ strerror (errno r))%string
  | _ => False
  end.
Proof.
  unfold SystemCall. rewrite Z.geb_leb.
  destruct (Z.leb_spec 0 (to_int (ret r))); simpl; [auto|].
  destruct (Z.eqb_spec (errno r) mask); auto.
Qed.
