(* ===== verification/FileDescriptor.v ===== *)
(** [FileDescriptor] (libsponge/util/file_descriptor.hh, file_descriptor.cc):
    reference-counted handles on FDWrapper objects that several handles share,
    the end-of-file, closed and read/write accounting EventLoop relies on, and
    the [read] and [write] loops over the kernel of Kernel.v. *)

From stdpp Require Import gmap.
From S2P Require Import Prelude Discard Buffer BufferList BufferViewList Kernel.

(** ** State *)

Record fd_wrapper := FDWrapper {
  _fd : Z;
  _eof : bool;
  _closed : bool;
  _read_count : Z;
  _write_count : Z
}.

(** A FDWrapper object and the number of handles that share it. *)
Record fd_cell := FDCell { fd_obj : fd_wrapper; fd_uses : nat }.

(** The FDWrapper objects in existence, and the outside world. *)
Record sys (W : Type) := Sys { fds : gmap positive fd_cell; world : W }.
Arguments Sys {W}.
Arguments fds {W}.
Arguments world {W}.

(** A FileDescriptor is a [shared_ptr]: null once it has been moved from. *)
Definition handle : Type := option positive.

Section fd.
Context {W : Type} (k : kernel W).

(** ** Access to the shared object *)

(** [*_internal_fd]: undefined on a null pointer or a freed object. *)
Definition deref (h : handle) : M (sys W) fd_wrapper := fun s =>
  match h with
  | Some p => match fds s !! p with
              | Some c => (Ok (fd_obj c), s)
              | None => (Undef NullPointer, s)
              end
  | None => (Undef NullPointer, s)
  end.

Definition update (h : handle) (f : fd_wrapper -> fd_wrapper) : M (sys W) unit := fun s =>
  match h with
  | Some p => match fds s !! p with
              | Some c => (Ok tt, Sys (<[p := FDCell (f (fd_obj c)) (fd_uses c)]> (fds s)) (world s))
              | None => (Undef NullPointer, s)
              end
  | None => (Undef NullPointer, s)
  end.

(** A system call. *)
Definition call {A} (f : W -> A * W) : M (sys W) A := fun s =>
  let '(a, w) := f (world s) in (Ok a, Sys (fds s) w).

(** A system call whose result goes through [SystemCall]. *)
Definition checked (attempt : string) (f : W -> sysret * W) : M (sys W) Z :=
  r ← call f; lift (SystemCall attempt r 0).

Definition set_eof (w : fd_wrapper) := FDWrapper (_fd w) true (_closed w) (_read_count w) (_write_count w).
Definition set_closed (w : fd_wrapper) := FDWrapper (_fd w) true true (_read_count w) (_write_count w).

Definition register_read (h : handle) : M (sys W) unit :=
  update h (fun w => FDWrapper (_fd w) (_eof w) (_closed w) (u32 (_read_count w + 1)) (_write_count w)).
Definition register_write (h : handle) : M (sys W) unit :=
  update h (fun w => FDWrapper (_fd w) (_eof w) (_closed w) (_read_count w) (u32 (_write_count w + 1))).

Definition fd_num (h : handle) : M (sys W) Z := w ← deref h; mret (_fd w).
Definition eof (h : handle) : M (sys W) bool := w ← deref h; mret (_eof w).
Definition closed (h : handle) : M (sys W) bool := w ← deref h; mret (_closed w).
Definition read_count (h : handle) : M (sys W) Z := w ← deref h; mret (_read_count w).
Definition write_count (h : handle) : M (sys W) Z := w ← deref h; mret (_write_count w).

(** ** Construction, sharing and destruction *)

(** [FileDescriptor(const int fd)]: the FDWrapper constructor checks the
    number before the object exists. *)
Definition new_fd (fd : Z) : M (sys W) handle := fun s =>
  if fd <? 0 then (Exc (runtime_error ("invalid fd number:" ++ pretty fd)), s)
  else
    let p := fresh (dom (fds s)) in
    (Ok (Some p), Sys (<[p := FDCell (FDWrapper fd false false 0 0) 1]> (fds s)) (world s)).

(** [FDWrapper::close], which [FileDescriptor::close] calls. *)
Definition close (h : handle) : M (sys W) unit :=
  fd ← fd_num h;
  r ← call (k_close k fd);
  lift (SystemCall "close" r 0) ;;
  update h set_closed.

Definition duplicate (h : handle) : M (sys W) handle := fun s =>
  match h with
  | Some p =>
      (Ok h, Sys (alter (fun c => FDCell (fd_obj c) (fd_uses c + 1)) p (fds s)) (world s))
  | None => (Ok h, s)
  end.

(** What [~FDWrapper] says on standard error of an exception it swallows. *)
Definition destructor_message (e : exn) : string :=
  ("Exception destructing FDWrapper: " ++ what (k_strerror k) (k_gai_strerror k) e ++ nl)%string.

(** [~FDWrapper]: closes unless closed already, and swallows the exception. *)
Definition destroy_wrapper (p : positive) : M (sys W) unit := fun s =>
  match fds s !! p with
  | Some c =>
      let s1 := if _closed (fd_obj c) then s
                else match close (Some p) s with
                     | (Exc e, s1) => Sys (fds s1) (k_cerr k (destructor_message e) (world s1))
                     | (_, s1) => s1
                     end in
      (Ok tt, Sys (delete p (fds s1)) (world s1))
  | None => (Undef NullPointer, s)
  end.

(** [~FileDescriptor]: the last handle destroys the object. *)
Definition release (h : handle) : M (sys W) unit := fun s =>
  match h with
  | Some p =>
      match fds s !! p with
      | Some c =>
          if bool_decide (fd_uses c <= 1)%nat then destroy_wrapper p s
          else (Ok tt, Sys (<[p := FDCell (fd_obj c) (fd_uses c - 1)]> (fds s)) (world s))
      | None => (Undef NullPointer, s)
      end
  | None => (Ok tt, s)
  end.

(** ** Reading *)

Definition BUFFER_SIZE : Z := 1024 * 1024.

(** [std::string::resize] *)
Definition str_resize (n : Z) (s : list byte) : res (list byte) :=
  if n >? string_max_size then Exc (length_error "basic_string::_M_replace_aux")
  else Ok (resize (Z.to_nat n) Byte.x00 s).

(** [read(std::string &str, limit)], over the caller's [str]: an exception
    leaves it as it was when it was thrown. *)
Definition on_sys {A} (m : M (sys W) A) : M (sys W * list byte) A := on_field fst (fun s p => (s, snd p)) m.
Definition set_str (str : list byte) : M (sys W * list byte) unit := modify (fun p => (fst p, str)).

Definition read_into (h : handle) (limit : Z) : M (sys W * list byte) unit :=
  let size_to_read := Z.min BUFFER_SIZE limit in
  p ← get;
  str ← lift (str_resize size_to_read (snd p));
  set_str str ;;
  fd ← on_sys (fd_num h);
  '(r, d) ← on_sys (call (k_read k fd size_to_read));
  let str := overwrite d str in
  set_str str ;;
  bytes_read ← lift (SystemCall "read" r 0);
  (if (limit >? 0) && (bytes_read =? 0) then on_sys (update h set_eof) else mret tt) ;;
  if bytes_read >? to_ssize size_to_read
  then throw (runtime_error "read() read more than requested")
  else
    str ← lift (str_resize (u64 bytes_read) str);
    set_str str ;;
    on_sys (register_read h).

(** [std::numeric_limits<size_t>::max()], the default [limit]. *)
Definition no_limit : Z := 2 ^ 64 - 1.

(** [read(limit)]: the same on a local string. *)
Definition read (h : handle) (limit : Z) : M (sys W) (list byte) := fun s =>
  match read_into h limit (s, []) with
  | (Ok _, (s, ret)) => (Ok ret, s)
  | (Exc e, (s, _)) => (Exc e, s)
  | (Undef u, (s, _)) => (Undef u, s)
  | (NoFuel, (s, _)) => (NoFuel, s)
  end.

(** ** Writing *)

(** The [do ... while (write_all and buffer.size())] loop, with fuel. *)
Fixpoint write_loop (fuel : nat) (h : handle) (write_all : bool)
    (buffer : view_list) (total : Z) : M (sys W) Z :=
  match fuel with
  | O => lift NoFuel
  | S fuel =>
      let iovecs := as_iovecs buffer in
      fd ← fd_num h;
      r ← call (k_writev k fd iovecs);
      bytes_written ← lift (SystemCall "writev" r 0);
      if (bytes_written =? 0) && negb (BufferViewList.size buffer =? 0)
      then throw (runtime_error "write returned 0 given non-empty input buffer")
      else if bytes_written >? to_ssize (BufferViewList.size buffer)
      then throw (runtime_error "write wrote more than length of input buffer")
      else
        register_write h ;;
        match BufferViewList.remove_prefix (u64 bytes_written) buffer with
        | (Ok _, buffer) =>
            let total := u64 (total + u64 bytes_written) in
            if write_all && negb (BufferViewList.size buffer =? 0) then write_loop fuel h write_all buffer total
            else mret total
        | (Exc e, _) => throw e
        | (Undef u, _) => lift (Undef u)
        | (NoFuel, _) => lift NoFuel
        end
  end.

(** Every round writes at least one byte, so one round per byte is enough
    ([write_terminates] below). *)
Definition write (h : handle) (buffer : view_list) (write_all : bool) : M (sys W) Z :=
  write_loop (S (Z.to_nat (BufferViewList.size buffer))) h write_all buffer 0.

(** The overloads for a [const char *] and a [const std::string &]. *)
Definition write_chars (h : handle) (s : storage) (write_all : bool) : M (sys W) Z :=
  write h (of_c_string s) write_all.
Definition write_string (h : handle) (s : storage) (write_all : bool) : M (sys W) Z :=
  write h (of_string s) write_all.

(** ** Blocking mode *)

Definition set_blocking (h : handle) (blocking_state : bool) : M (sys W) unit :=
  fd ← fd_num h;
  r ← call (k_getfl k fd);
  flags ← lift (SystemCall "fcntl" r 0);
  let flags := if blocking_state then Z.lxor flags (Z.land flags O_NONBLOCK)
               else Z.lor flags O_NONBLOCK in
  fd ← fd_num h;
  r ← call (k_setfl k fd flags);
  lift (SystemCall "fcntl" r 0) ;;
  mret tt.

(** ** Lemmas *)

(** A handle on an object that exists. *)
Definition live (h : handle) (c : fd_cell) (s : sys W) : Prop :=
  exists p, h = Some p /\ fds s !! p = Some c.

Lemma deref_ok h c s : live h c s -> deref h s = (Ok (fd_obj c), s).
Proof. intros (p & -> & Hp). unfold deref. by rewrite Hp. Qed.

Lemma fd_num_ok h c s : live h c s -> fd_num h s = (Ok (_fd (fd_obj c)), s).
Proof. intros H. unfold fd_num. run. by rewrite (deref_ok _ c). Qed.

(** The state after an update of the object of a handle, in a world. *)
Definition put (h : handle) (c : fd_cell) (w : W) (s : sys W) : sys W :=
  match h with Some p => Sys (<[p := c]> (fds s)) w | None => Sys (fds s) w end.

Definition map_obj (f : fd_wrapper -> fd_wrapper) (c : fd_cell) : fd_cell := FDCell (f (fd_obj c)) (fd_uses c).

Lemma update_ok h c f s :
  live h c s -> update h f s = (Ok tt, put h (map_obj f c) (world s) s).
Proof. intros (p & -> & Hp). unfold update. by rewrite Hp. Qed.

Lemma put_live h c c' w s : live h c s -> live h c' (put h c' w s).
Proof. intros (p & -> & Hp). exists p. split; [done|]. apply lookup_insert_eq. Qed.

Lemma put_put h c1 c2 w1 w2 s : put h c2 w2 (put h c1 w1 s) = put h c2 w2 s.
Proof. destruct h; unfold put; simpl; [|done]. by rewrite insert_insert_eq. Qed.

Lemma put_same h c s : live h c s -> put h c (world s) s = s.
Proof. intros (p & -> & Hp). destruct s. unfold put. simpl in *. by rewrite insert_id. Qed.

(** ** Closing and releasing *)

(** The world after [~FDWrapper] has tried to close a descriptor. *)
Definition destroyed (fd : Z) (w : W) : W :=
  let '(r, w) := k_close k fd w in
  match SystemCall "close" r 0 with
  | Exc e => k_cerr k (destructor_message e) w
  | _ => w
  end.

Lemma destroyed_ok fd w : 0 <= ret (fst (k_close k fd w)) <= int_max -> destroyed fd w = snd (k_close k fd w).
Proof. unfold destroyed. destruct (k_close k fd w) as [r w']. intros Hr. by rewrite SystemCall_ok. Qed.

Lemma close_ok h c s :
  live h c s ->
  let '(r, w) := k_close k (_fd (fd_obj c)) (world s) in
  close h s = match SystemCall "close" r 0 with
              | Ok _ => (Ok tt, put h (map_obj set_closed c) w s)
              | Exc e => (Exc e, Sys (fds s) w)
              | Undef u => (Undef u, Sys (fds s) w)
              | NoFuel => (NoFuel, Sys (fds s) w)
              end.
Proof.
  intros Hl. unfold close. run. rewrite (fd_num_ok _ c s Hl). unfold call. destruct (k_close _ _ _) as [r w].
  destruct (SystemCall "close" r 0); try done. rewrite (update_ok _ c) by exact Hl. by destruct h.
Qed.

(** What closing and printing both keep. *)
Lemma destroyed_keeps (P : W -> Prop) fd w :
  P (snd (k_close k fd w)) -> (forall m w', P w' -> P (k_cerr k m w')) -> P (destroyed fd w).
Proof.
  intros Hc Hm. unfold destroyed. destruct (k_close k fd w) as [r w']. simpl in Hc.
  destruct (SystemCall _ _ _); auto.
Qed.

Lemma release_ok p c s :
  live (Some p) c s ->
  exists s', release (Some p) s = (Ok tt, s') /\
    fds s' = (if decide (fd_uses c <= 1)%nat then delete p (fds s)
              else <[p := FDCell (fd_obj c) (fd_uses c - 1)]> (fds s)) /\
    world s' = if decide (fd_uses c <= 1)%nat
               then if _closed (fd_obj c) then world s else destroyed (_fd (fd_obj c)) (world s)
               else world s.
Proof.
  intros Hl. pose proof (close_ok (Some p) c s Hl) as Hc. destruct Hl as (p' & [= <-] & Hp).
  unfold release. rewrite Hp. case_bool_decide as Hn.
  - rewrite !decide_True by done. unfold destroy_wrapper. rewrite Hp. eexists. split; [done|].
    destruct (_closed (fd_obj c)); [done|]. unfold destroyed. destruct (k_close _ _ _) as [r w]. rewrite Hc.
    pose proof (SystemCall_total "close" r 0). destruct (SystemCall "close" r 0); try done. simpl.
    by rewrite delete_insert_eq.
  - rewrite !decide_False by done. by eexists.
Qed.

(** ** One round of the write loop *)

Definition count_write (w : fd_wrapper) : fd_wrapper :=
  FDWrapper (_fd w) (_eof w) (_closed w) (_read_count w) (u32 (_write_count w + 1)).

Lemma write_round fuel h c write_all buffer total s :
  live h c s -> wf_views buffer ->
  let '(r, w) := k_writev k (_fd (fd_obj c)) (as_iovecs buffer) (world s) in
  (exists e s', write_loop (S fuel) h write_all buffer total s = (Exc e, s') /\ world s' = w /\
     (0 < to_int (ret r) <= lenZ (views_text buffer) -> False)) \/
  exists buffer', 0 <= to_int (ret r) <= lenZ (views_text buffer) /\
    (to_int (ret r) = 0 -> lenZ (views_text buffer) = 0) /\
    wf_views buffer' /\ views_text buffer' = drop (Z.to_nat (to_int (ret r))) (views_text buffer) /\
    write_loop (S fuel) h write_all buffer total s =
      let s' := put h (map_obj count_write c) w s in
      let total' := u64 (total + to_int (ret r)) in
      if write_all && negb (lenZ (views_text buffer') =? 0)
      then write_loop fuel h write_all buffer' total' s'
      else (Ok total', s').
Proof.
  intros Hl Hwf. pose proof (views_size_ok buffer Hwf) as Hsz. pose proof (proj2 Hwf) as Hmax.
  unfold string_max_size in Hmax. pose proof (lenZ_nonneg (views_text buffer)) as Hnn.
  destruct (k_writev k _ _ _) as [r w] eqn:Ek.
  assert (Hl1 : live h c (Sys (fds s) w)) by exact Hl.
  cbn [write_loop]. run. rewrite (fd_num_ok h c s Hl). unfold call. rewrite Ek.
  destruct (SystemCall "writev" r 0) as [v|e| |] eqn:Es; [|left..].
  2: { unfold SystemCall in Es. rewrite Z.geb_leb in Es.
       destruct (Z.leb_spec 0 (to_int (ret r))); [done|]. eexists _, _. repeat split; lia. }
  2,3: unfold SystemCall in Es; by destruct (_ || _).
  apply SystemCall_Ok in Es as (Hv & Hr & _). unfold int_min, int_max in Hr. rewrite Hsz, <- Hv.
  destruct (Z.eqb_spec v 0) as [Hv0|Hv0], (Z.eqb_spec (lenZ (views_text buffer)) 0) as [Hz|Hz]; simpl.
  2: { left. eexists _, _. split; [reflexivity|]. simpl. split; [done|lia]. }
  all: rewrite to_ssize_small, Z.gtb_ltb by lia.
  all: destruct (Z.ltb_spec (lenZ (views_text buffer)) v) as [Hgt|Hle];
    [left; eexists _, _; split; [reflexivity|]; split; [done|lia]|].
  all: unfold register_write; rewrite (update_ok h c _ _ Hl1); fold count_write.
  all: destruct (Z.le_gt_cases 0 v) as [Hpos|Hneg].
  2,4,6: left; rewrite u64_negative by lia; unfold remove_prefix;
    rewrite views_remove_prefix_loop_fails by (done || lia);
    eexists _, _; split; [reflexivity|]; split; [by destruct Hl as (p & -> & _)|lia].
  all: right; rewrite u64_small by lia; unfold remove_prefix.
  all: destruct (views_remove_prefix_loop_ok buffer v Hwf ltac:(lia)) as (b' & E & Hwf' & Ht).
  all: exists b'; rewrite E, views_size_ok by done; repeat split; try done; try lia; try apply Hwf'.
  all: destruct Hl as (p & -> & _); destruct (write_all && _); reflexivity.
Qed.

(** What the calls of a round keep, the loop keeps. *)
Lemma write_loop_keeps (P : sys W -> Prop) fuel h write_all buffer total :
  keeps P (fd_num h) (fun _ => True) ->
  (forall fd iov, keeps P (call (k_writev k fd iov)) (fun _ => True)) ->
  keeps P (register_write h) (fun _ => True) ->
  keeps P (write_loop fuel h write_all buffer total) (fun _ => True).
Proof.
  intros Hfd Hcall Hcount. revert buffer total.
  induction fuel as [|fuel IH]; intros buffer total; cbn [write_loop]; [by apply keeps_lift|].
  eapply keeps_bind; [exact Hfd|intros fd _]. eapply keeps_bind; [apply Hcall|intros r _].
  eapply (keeps_bind _ _ _ (fun _ => True)); [apply keeps_lift; by case_match|intros n _].
  do 2 (case_match; [apply keeps_throw|]). eapply keeps_bind; [exact Hcount|intros _ _].
  destruct (BufferViewList.remove_prefix _ _) as [[[]|e|u|] b']; auto using keeps_throw.
  - case_match; [apply IH|by apply keeps_ret].
  - by apply keeps_lift.
  - by apply keeps_lift.
Qed.

(** The loop returns or throws, given one round per byte and one more. *)
Lemma write_loop_result fuel h c write_all buffer total s :
  live h c s -> wf_views buffer -> lenZ (views_text buffer) < Z.of_nat fuel ->
  0 <= total -> total + lenZ (views_text buffer) < 2 ^ 64 ->
  match fst (write_loop fuel h write_all buffer total s) with
  | Ok n => total <= n <= total + lenZ (views_text buffer) /\
            (write_all = true -> n = total + lenZ (views_text buffer))
  | Exc _ => True
  | _ => False
  end.
Proof.
  revert c buffer total s. induction fuel as [|fuel IH]; intros c buffer total s Hl Hwf Hf H0 Ht.
  { pose proof (lenZ_nonneg (views_text buffer)). lia. }
  pose proof (write_round fuel h c write_all buffer total s Hl Hwf) as H.
  destruct (k_writev k _ _ _) as [r w].
  destruct H as [(e & s' & -> & _)|(b' & Hr & Hz & Hwf' & Htext & ->)]; [done|].
  assert (Hlen : lenZ (views_text b') = lenZ (views_text buffer) - to_int (ret r))
    by (rewrite Htext, lenZ_drop; lia).
  cbv zeta. rewrite (u64_small (total + _)) by lia. destruct (Z.eqb_spec (lenZ (views_text b')) 0) as [Hb|Hb].
  - rewrite andb_false_r. simpl. split; [lia|]. intros _. lia.
  - destruct write_all; simpl; [|split; [lia|done]].
    assert (0 < to_int (ret r)) by (destruct (Z.eq_dec (to_int (ret r)) 0); lia).
    specialize (IH _ b' (total + to_int (ret r)) _ (put_live h c (map_obj count_write c) w s Hl)
      Hwf' ltac:(lia) ltac:(lia) ltac:(lia)).
    destruct (fst (write_loop _ _ _ _ _ _)); try done.
    destruct IH as [_ Hn]. specialize (Hn eq_refl). split; [lia|]. intros _. lia.
Qed.

(** ** What the kernel has accepted *)

(** [writev(2)] on [fd], in the worlds where it is [ready]: takes a prefix of the
    gathered bytes, at most 0x7ffff000 at once on Linux, or fails with an error
    and takes nothing; [sent] is what a world has accepted on it so far. *)
Definition writev_accepts (ready : W -> Prop) (fd : Z) (sent : W -> list byte) : Prop :=
  forall iov w, ready w -> let '(r, w') := k_writev k fd iov w in
    -1 <= ret r <= Z.min (lenZ (gather iov)) 0x7ffff000 /\
    sent w' = sent w ++ take (Z.to_nat (ret r)) (gather iov) /\
    (0 <= ret r -> ready w').

Lemma write_loop_sent ready sent fuel h c write_all buffer total s :
  writev_accepts ready (_fd (fd_obj c)) sent -> ready (world s) ->
  live h c s -> wf_views buffer -> 0 <= total -> total + lenZ (views_text buffer) < 2 ^ 64 ->
  exists m, 0 <= m <= lenZ (views_text buffer) /\
    sent (world (snd (write_loop fuel h write_all buffer total s))) =
      sent (world s) ++ take (Z.to_nat m) (views_text buffer) /\
    match fst (write_loop fuel h write_all buffer total s) with
    | Ok n => n = total + m
    | _ => True
    end.
Proof.
  revert c buffer total s. induction fuel as [|fuel IH]; intros c buffer total s Hsent Hready Hl Hwf H0 Ht.
  { exists 0. pose proof (lenZ_nonneg (views_text buffer)). simpl. rewrite app_nil_r. repeat split; lia. }
  pose proof (write_round fuel h c write_all buffer total s Hl Hwf) as H.
  pose proof (Hsent (as_iovecs buffer) (world s) Hready) as Hk.
  destruct (k_writev k _ _ _) as [r w]. rewrite gather_as_iovecs in Hk. destruct Hk as (Hr & Hs & Hready').
  pose proof (lenZ_nonneg (views_text buffer)).
  destruct H as [(e & s' & -> & Hw & Hno)|(b' & Hpos & _ & Hwf' & Htext & ->)].
  - exists 0. simpl. rewrite Hw, Hs. split; [lia|]. split; [|done]. f_equal.
    replace (Z.to_nat (ret r)) with 0%nat; [done|].
    destruct (Z.le_gt_cases (ret r) 0); [lia|]. exfalso. apply Hno. rewrite to_int_small; lia.
  - destruct (Z.eq_dec (ret r) (-1)) as [E|E].
    { rewrite E in Hpos. change (to_int (-1)) with (-1) in Hpos. lia. }
    assert (Hint : to_int (ret r) = ret r) by (apply to_int_small; lia). rewrite Hint in *.
    assert (Hlen : lenZ (views_text b') = lenZ (views_text buffer) - ret r)
      by (rewrite Htext, lenZ_drop; lia).
    assert (Hw : world (put h (map_obj count_write c) w s) = w) by (by destruct h).
    cbv zeta. rewrite (u64_small (total + _)) by lia. destruct (write_all && _).
    + destruct (IH (map_obj count_write c) b' (total + ret r) (put h (map_obj count_write c) w s))
        as (m & Hm & Hs2 & Hn); [done|rewrite Hw; apply Hready'; lia|by eapply put_live|done|lia|lia|].
      exists (ret r + m). split; [lia|]. split.
      * rewrite Hs2, Hw, Hs, Htext, <- (assoc_L (++)), Z2Nat.inj_add by lia. by rewrite take_take_drop.
      * destruct (fst (write_loop _ _ _ _ _ _)); try done. lia.
    + exists (ret r). simpl. rewrite Hw. split; [lia|]. split; [done|lia].
Qed.

(** [write] returns or throws, whatever the kernel answers. *)
Lemma write_ends h c s buffer write_all :
  live h c s -> wf_views buffer ->
  match fst (write h buffer write_all s) with
  | Ok n => 0 <= n <= lenZ (views_text buffer) /\ (write_all = true -> n = lenZ (views_text buffer))
  | Exc _ => True
  | _ => False
  end.
Proof.
  intros Hl Hwf. unfold write. rewrite views_size_ok by done. pose proof (proj2 Hwf) as Hmax.
  unfold string_max_size in Hmax. pose proof (lenZ_nonneg (views_text buffer)).
  apply (write_loop_result _ h c write_all buffer 0 s Hl Hwf); lia.
Qed.
End fd.

(** ** Properties *)

(** C27: Whatever the kernel answers, [write] terminates: on a live descriptor
    and a well-formed buffer it returns or throws, its loop never runs out
    of rounds and nothing is undefined; if it returns, it has written no more
    than the buffer, and all of it when [write_all] is set. *)
Theorem write_terminates {W : Type} (k : kernel W) (h : handle) (c : fd_cell) (s : sys W)
    (buffer : view_list) (write_all : bool) :
  live h c s -> wf_views buffer ->
  match fst (write k h buffer write_all s) with
  | Ok n => 0 <= n <= lenZ (views_text buffer) /\ (write_all = true -> n = lenZ (views_text buffer))
  | Exc _ => True
  | _ => False
  end.
Proof. intros Hl Hwf. by apply (write_ends k h c s). Qed.

(** A kernel that takes at most three bytes at a time; the world is what it
    has been given. *)
Definition slow_kernel : kernel (list byte) := {|
  k_close := fun _ w => (SysRet 0 0, w);
  k_read := fun _ n w => let m := Z.min n (Z.min 3 (lenZ w)) in
              (SysRet m 0, take (Z.to_nat m) w, drop (Z.to_nat m) w);
  k_writev := fun _ iov w => let m := Z.min 3 (lenZ (gather iov)) in
                (SysRet m 0, w ++ take (Z.to_nat m) (gather iov));
  k_getfl := fun _ w => (SysRet 2 0, w);
  k_setfl := fun _ _ w => (SysRet 0 0, w);
  k_poll := fun fds _ w => (SysRet 0 0, map (fun _ => 0) fds, w);
  k_cerr := fun _ w => w;
  k_strerror := fun _ => EmptyString;
  k_gai_strerror := fun _ => EmptyString
|}.

Definition one_fd : sys (list byte) := Sys {[ 1%positive := FDCell (FDWrapper 5 false false 0 0) 1 ]} [].

Lemma one_fd_live : live (Some 1%positive) (FDCell (FDWrapper 5 false false 0 0) 1) one_fd.
Proof. by exists 1%positive. Qed.

Lemma write_terminates_witness :
  fst (write slow_kernel (Some 1%positive) (of_string (Storage 9 (bytes "hi there"))) true one_fd) = Ok 8 /\
  match fst (write slow_kernel (Some 1%positive) (of_string (Storage 9 (bytes "hi there"))) true one_fd) with
  | Ok n => 0 <= n <= lenZ (views_text (of_string (Storage 9 (bytes "hi there")))) /\
            (true = true -> n = lenZ (views_text (of_string (Storage 9 (bytes "hi there")))))
  | Exc _ => True
  | _ => False
  end.
Proof.
  split; [by vm_compute|].
  apply (write_terminates slow_kernel _ _ _ _ true one_fd_live).
  split; [repeat constructor; vm_compute; intuition discriminate|by vm_compute].
Defined.

(** C25: Delivery: while the descriptor is in a state in which [writev] accepts a
    prefix of what it is given, the kernel ends up having accepted a prefix of the buffer, in
    order, whether [write] returns or throws; if it returns [n], exactly the
    first [n] bytes, and all of them when [write_all] is set. *)
Theorem write_delivers {W : Type} (k : kernel W) (ready : W -> Prop) (sent : W -> list byte) (h : handle) (c : fd_cell)
    (s : sys W) (buffer : view_list) (write_all : bool) :
  writev_accepts k ready (_fd (fd_obj c)) sent -> ready (world s) -> live h c s -> wf_views buffer ->
  exists m, 0 <= m <= lenZ (views_text buffer) /\
    sent (world (snd (write k h buffer write_all s))) =
      sent (world s) ++ take (Z.to_nat m) (views_text buffer) /\
    match fst (write k h buffer write_all s) with
    | Ok n => n = m /\ (write_all = true -> m = lenZ (views_text buffer))
    | _ => True
    end.
Proof.
  intros Hsent Hready Hl Hwf. pose proof (write_ends k h c s buffer write_all Hl Hwf) as Hterm.
  revert Hterm. unfold write. pose proof (proj2 Hwf) as Hmax. unfold string_max_size in Hmax.
  destruct (write_loop_sent k ready sent (S (Z.to_nat (BufferViewList.size buffer))) h c write_all buffer 0 s)
    as (m & Hm & Hs & Hn); try done; [lia|].
  exists m. split; [done|]. split; [done|].
  destruct (fst (write_loop _ _ _ _ _ _ _)); try done. subst. intuition.
Qed.

Lemma slow_kernel_accepts fd : writev_accepts slow_kernel (fun _ => True) fd id.
Proof.
  intros iov w _. simpl. pose proof (lenZ_nonneg (gather iov)). split; [lia|done].
Qed.

Lemma write_delivers_witness :
  exists m, 0 <= m <= lenZ (views_text (of_string (Storage 9 (bytes "hi there")))) /\
    id (world (snd (write slow_kernel (Some 1%positive) (of_string (Storage 9 (bytes "hi there"))) true one_fd)))
      = id (world one_fd) ++ take (Z.to_nat m) (views_text (of_string (Storage 9 (bytes "hi there")))) /\
    match fst (write slow_kernel (Some 1%positive) (of_string (Storage 9 (bytes "hi there"))) true one_fd) with
    | Ok n => n = m /\ (true = true -> m = lenZ (views_text (of_string (Storage 9 (bytes "hi there")))))
    | _ => True
    end.
Proof.
  apply (write_delivers slow_kernel (fun _ => True) id _ _ _ _ true (slow_kernel_accepts 5) I one_fd_live).
  split; [repeat constructor; vm_compute; intuition discriminate|by vm_compute].
Defined.

(** ** Writing it all *)

(** What an operation that only counts leaves of an object. *)
Definition same_but_counts (c c' : fd_cell) : Prop :=
  fd_uses c' = fd_uses c /\ _fd (fd_obj c') = _fd (fd_obj c) /\
  _eof (fd_obj c') = _eof (fd_obj c) /\ _closed (fd_obj c') = _closed (fd_obj c).

(** [writev] always takes something, when [fd] is [ready]. *)
Definition writev_progresses {W} (k : kernel W) (ready : W -> Prop) (fd : Z) : Prop :=
  forall iov w, ready w -> 0 < lenZ (gather iov) -> 0 < ret (fst (k_writev k fd iov w)).

Lemma write_loop_all {W} (k : kernel W) (R : W -> W -> Prop) `{!PreOrder R} ready sent fuel h c buffer total s :
  writev_accepts k ready (_fd (fd_obj c)) sent -> writev_progresses k ready (_fd (fd_obj c)) ->
  (forall iov w, ready w -> R w (snd (k_writev k (_fd (fd_obj c)) iov w))) -> ready (world s) ->
  live h c s -> wf_views buffer -> 0 < lenZ (views_text buffer) < Z.of_nat fuel ->
  0 <= total -> total + lenZ (views_text buffer) < 2 ^ 64 ->
  exists c' s', write_loop k fuel h true buffer total s = (Ok (total + lenZ (views_text buffer)), s') /\
    live h c' s' /\ same_but_counts c c' /\
    sent (world s') = sent (world s) ++ views_text buffer /\ R (world s) (world s') /\ ready (world s').
Proof.
  revert c buffer total s.
  induction fuel as [|fuel IH]; intros c buffer total s Hsent Hprog HR Hready Hl Hwf Hf H0 Ht; [lia|].
  pose proof (write_round k fuel h c true buffer total s Hl Hwf) as H.
  pose proof (Hsent (as_iovecs buffer) (world s) Hready) as Hk.
  pose proof (Hprog (as_iovecs buffer) (world s) Hready) as Hp.
  pose proof (HR (as_iovecs buffer) (world s) Hready) as Hw.
  destruct (k_writev k _ _ _) as [r w]. rewrite gather_as_iovecs in Hk, Hp. destruct Hk as (Hr & Hs & Hready').
  simpl in Hp, Hw. specialize (Hp ltac:(lia)).
  assert (Hint : to_int (ret r) = ret r) by (apply to_int_small; lia).
  destruct H as [(e & s' & _ & _ & Hno)|(b' & _ & _ & Hwf' & Htext & ->)]; [exfalso; apply Hno; lia|].
  rewrite Hint in Htext. rewrite Hint.
  assert (Hlen : lenZ (views_text b') = lenZ (views_text buffer) - ret r) by (rewrite Htext, lenZ_drop; lia).
  set (c1 := map_obj count_write c). assert (Hsame : same_but_counts c c1) by done.
  assert (Hl1 : live h c1 (put h c1 w s)) by (by eapply put_live).
  assert (Hw1 : world (put h c1 w s) = w) by (by destruct h).
  cbv zeta. rewrite (u64_small (total + _)) by lia.
  destruct (Z.eqb_spec (lenZ (views_text b')) 0) as [Hb|Hb]; simpl.
  - exists c1, (put h c1 w s). rewrite Hw1, Hs, take_ge by (unfold lenZ in *; lia).
    split; [do 2 f_equal; lia|]. split_and!; try done. apply Hready'. lia.
  - destruct (IH c1 b' (total + ret r) (put h c1 w s) Hsent Hprog HR) as (c' & s' & E & Hl' & Hc' & Hs' & HR' & Hy');
      try (done || (pose proof (lenZ_nonneg (views_text b')); lia)); [rewrite Hw1; apply Hready'; lia|].
    exists c', s'. rewrite E. split; [do 2 f_equal; lia|]. split; [done|]. split; [|split].
    + unfold same_but_counts in *. intuition congruence.
    + by rewrite Hs', Hw1, Hs, Htext, <- (assoc_L (++)), take_drop.
    + rewrite Hw1 in HR'. split; [by etrans|done].
Qed.

(** [read(2)] on [fd]: stores at most the requested number of bytes and returns how
    many, or -1 with an error. *)
Definition read_fills {W : Type} (k : kernel W) (fd : Z) : Prop :=
  forall n w, 0 <= n -> let '(r, d, _) := k_read k fd n w in
    -1 <= ret r <= n /\ lenZ d = Z.max 0 (ret r) /\ (ret r = -1 -> errno r <> 0).

(** The object after a successful read. *)
Definition count_read (at_eof : bool) (w : fd_wrapper) : fd_wrapper :=
  FDWrapper (_fd w) (_eof w || at_eof) (_closed w) (u32 (_read_count w + 1)) (_write_count w).

Lemma put_world {W} h c w w' (s : sys W) : put h c w (Sys (fds s) w') = put h c w s.
Proof. by destruct h. Qed.
Lemma world_put {W} h c w (s : sys W) : world (put h c w s) = w.
Proof. by destruct h. Qed.

Lemma read_into_result {W : Type} (k : kernel W) (h : handle) (c : fd_cell) (s : sys W)
    (str : list byte) (limit : Z) :
  read_fills k (_fd (fd_obj c)) -> live h c s -> 0 <= limit < 2 ^ 64 ->
  let n := Z.min BUFFER_SIZE limit in
  let '(r, d, w) := k_read k (_fd (fd_obj c)) n (world s) in
  read_into k h limit (s, str) =
    if ret r =? -1
    then (Exc (unix_error "read" (errno r)), (Sys (fds s) w, resize (Z.to_nat n) Byte.x00 str))
    else (Ok tt, (put h (map_obj (count_read ((0 <? limit) && (ret r =? 0))) c) w s, d)).
Proof.
  intros Hk Hl Hlim n.
  assert (Hn : 0 <= n <= 1048576) by (unfold n, BUFFER_SIZE; lia).
  specialize (Hk n (world s) ltac:(lia)).
  destruct (k_read k _ _ _) as [[r d] w] eqn:Ek. destruct Hk as (Hr & Hd & Herr).
  unfold read_into. fold n. unfold on_sys, on_field, set_str. run. unfold str_resize at 1. rewrite Z.gtb_ltb.
  destruct (Z.ltb_spec string_max_size n); [unfold string_max_size in *; lia|].
  rewrite (fd_num_ok h c s Hl). unfold call. rewrite Ek.
  assert (Hl1 : live h c (Sys (fds s) w)) by exact Hl.
  destruct (Z.eqb_spec (ret r) (-1)) as [Em|Em].
  { rewrite SystemCall_fails by auto. rewrite (lenZ_zero d) by lia. done. }
  rewrite SystemCall_ok by (unfold int_max; lia). rewrite to_ssize_small, !Z.gtb_ltb by lia.
  assert (Hstr : str_resize (u64 (ret r)) (overwrite d (resize (Z.to_nat n) Byte.x00 str)) = Ok d).
  { unfold str_resize. rewrite u64_small, Z.gtb_ltb by lia.
    destruct (Z.ltb_spec string_max_size (ret r)); [unfold string_max_size in *; lia|].
    f_equal. unfold overwrite, lenZ in *. rewrite resize_app_le, resize_all_alt by lia. done. }
  destruct (Z.ltb_spec n (ret r)) as [?|_]; [lia|].
  destruct (_ && _) eqn:Eeof.
  - rewrite (update_ok h c _ _ Hl1), Hstr. unfold register_read.
    rewrite (update_ok h (map_obj set_eof c)) by (by eapply put_live). simpl.
    rewrite !put_put, put_world, world_put. do 3 f_equal.
    destruct c as [[] ?]. unfold map_obj, count_read. simpl. by rewrite orb_true_r.
  - rewrite Hstr. unfold register_read. rewrite (update_ok h c _ _ Hl1). simpl.
    rewrite put_world. do 3 f_equal.
    destruct c as [[] ?]. unfold map_obj, count_read. simpl. by rewrite orb_false_r.
Qed.

(** C28: [read] on every branch: one system call for at most 1 MiB and at most
    [limit] bytes; on failure a [unix_error], no accounting and the caller's
    string resized to the request; on success the string is exactly the bytes
    the kernel stored, the read count goes up by one, and the end-of-file
    flag is set exactly when some bytes were asked for and none came. *)
Theorem read_spec {W : Type} (k : kernel W) (h : handle) (c : fd_cell) (s : sys W)
    (str : list byte) (limit : Z) :
  read_fills k (_fd (fd_obj c)) -> live h c s -> 0 <= limit < 2 ^ 64 ->
  let n := Z.min BUFFER_SIZE limit in
  let '(r, d, w) := k_read k (_fd (fd_obj c)) n (world s) in
  read_into k h limit (s, str) =
    if ret r =? -1
    then (Exc (unix_error "read" (errno r)), (Sys (fds s) w, resize (Z.to_nat n) Byte.x00 str))
    else (Ok tt, (put h (map_obj (count_read ((0 <? limit) && (ret r =? 0))) c) w s, d)).
Proof. apply read_into_result. Qed.

(** [read] on a local string, when the kernel reports no error. *)
Lemma read_result {W : Type} (k : kernel W) (h : handle) (c : fd_cell) (s : sys W) (limit : Z) :
  read_fills k (_fd (fd_obj c)) -> live h c s -> 0 <= limit < 2 ^ 64 ->
  let '(r, d, w) := k_read k (_fd (fd_obj c)) (Z.min BUFFER_SIZE limit) (world s) in
  ret r <> -1 ->
  read k h limit s = (Ok d, put h (map_obj (count_read ((0 <? limit) && (ret r =? 0))) c) w s).
Proof.
  intros Hk Hl Hlim. pose proof (read_into_result k h c s [] limit Hk Hl Hlim) as E. cbv zeta in E.
  destruct (k_read k _ _ _) as [[r d] w]. intros Hr. unfold read. rewrite E.
  by destruct (Z.eqb_spec (ret r) (-1)).
Qed.

Lemma slow_kernel_fills fd : read_fills slow_kernel fd.
Proof.
  intros n w Hn. simpl. pose proof (lenZ_nonneg w). rewrite lenZ_take by lia. lia.
Qed.

Lemma read_spec_witness :
  let n := Z.min BUFFER_SIZE 100 in
  let '(r, d, w) := k_read slow_kernel 5 n (world one_fd) in
  read_into slow_kernel (Some 1%positive) 100 (one_fd, bytes "junk") =
    if ret r =? -1
    then (Exc (unix_error "read" (errno r)), (Sys (fds one_fd) w, resize (Z.to_nat n) Byte.x00 (bytes "junk")))
    else (Ok tt, (put (Some 1%positive)
      (map_obj (count_read ((0 <? 100) && (ret r =? 0))) (FDCell (FDWrapper 5 false false 0 0) 1)) w one_fd, d)).
Proof.
  apply (read_spec slow_kernel _ _ one_fd (bytes "junk") 100 (slow_kernel_fills 5) one_fd_live). lia.
Defined.

(** The flag arithmetic of [set_blocking], bit by bit. *)
Definition blocking_flags (flags : Z) (blocking_state : bool) : Z :=
  if blocking_state then Z.lxor flags (Z.land flags O_NONBLOCK) else Z.lor flags O_NONBLOCK.

Lemma blocking_flags_bit flags b i :
  0 <= i -> Z.testbit (blocking_flags flags b) i = if i =? 11 then negb b else Z.testbit flags i.
Proof.
  intros Hi. unfold blocking_flags. change O_NONBLOCK with (2 ^ 11).
  destruct b; rewrite ?Z.lxor_spec, ?Z.land_spec, ?Z.lor_spec, Z.pow2_bits_eqb by lia;
    rewrite (Z.eqb_sym 11); destruct (Z.eqb_spec i 11); subst;
    by rewrite ?andb_true_r, ?andb_false_r, ?orb_true_r, ?orb_false_r, ?xorb_false_r, ?xorb_nilpotent.
Qed.

(** [set_blocking] reads the descriptor's flags and stores them back with
    O_NONBLOCK set or cleared as asked and every other bit as it was; a
    failure of either call is thrown, and the first one stores nothing. *)
Theorem set_blocking_spec {W : Type} (k : kernel W) (h : handle) (c : fd_cell) (s : sys W) (b : bool) :
  live h c s ->
  let '(r, w) := k_getfl k (_fd (fd_obj c)) (world s) in
  match SystemCall "fcntl" r 0 with
  | Ok flags => exists flags',
      (forall i, 0 <= i -> Z.testbit flags' i = if i =? 11 then negb b else Z.testbit flags i) /\
      let '(r2, w2) := k_setfl k (_fd (fd_obj c)) flags' w in
      set_blocking k h b s = (if SystemCall "fcntl" r2 0 is Exc e then Exc e else Ok tt, Sys (fds s) w2)
  | Exc e => set_blocking k h b s = (Exc e, Sys (fds s) w)
  | _ => False
  end.
Proof.
  intros Hl. destruct (k_getfl _ _ _) as [r w] eqn:Eg. unfold set_blocking. run.
  rewrite (fd_num_ok h c s Hl). unfold call. rewrite Eg.
  assert (Hl1 : live h c (Sys (fds s) w)) by exact Hl.
  destruct (SystemCall "fcntl" r 0) as [flags|e| |] eqn:E; try done.
  2,3: unfold SystemCall in E; by destruct (_ || _).
  exists (blocking_flags flags b). split; [apply blocking_flags_bit|].
  rewrite (fd_num_ok h c _ Hl1). fold (blocking_flags flags b). simpl.
  destruct (k_setfl _ _ _) as [r2 w2]. unfold SystemCall. by destruct (_ || _).
Qed.

Lemma set_blocking_spec_witness :
  let '(r, w) := k_getfl slow_kernel 5 (world one_fd) in
  match SystemCall "fcntl" r 0 with
  | Ok flags => exists flags',
      (forall i, 0 <= i -> Z.testbit flags' i = if i =? 11 then negb false else Z.testbit flags i) /\
      let '(r2, w2) := k_setfl slow_kernel 5 flags' w in
      set_blocking slow_kernel (Some 1%positive) false one_fd =
        (if SystemCall "fcntl" r2 0 is Exc e then Exc e else Ok tt, Sys (fds one_fd) w2)
  | Exc e => set_blocking slow_kernel (Some 1%positive) false one_fd = (Exc e, Sys (fds one_fd) w)
  | _ => False
  end.
Proof. apply (set_blocking_spec slow_kernel _ _ one_fd false one_fd_live). Defined.

(** The destructor of the last handle closes the descriptor exactly when
    it has not been closed, never throws even if that [close(2)] fails, and
    frees the object and no other; any other handle's destructor only counts
    down. *)
Theorem release_spec {W : Type} (k : kernel W) (p : positive) (c : fd_cell) (s : sys W) :
  live (Some p) c s ->
  let '(r, s') := release k (Some p) s in
  r = Ok tt /\
  if decide (fd_uses c <= 1)%nat then
    fds s' = delete p (fds s) /\
    world s' = if _closed (fd_obj c) then world s else destroyed k (_fd (fd_obj c)) (world s)
  else
    fds s' = <[p := FDCell (fd_obj c) (fd_uses c - 1)]> (fds s) /\ world s' = world s.
Proof.
  intros Hl. destruct (release_ok k p c s Hl) as (s' & -> & Hf & Hw). split; [done|].
  rewrite Hf, Hw. by destruct (decide _).
Qed.

Lemma release_spec_witness :
  let '(r, s') := release slow_kernel (Some 1%positive) one_fd in
  r = Ok tt /\
  if decide (1 <= 1)%nat then
    fds s' = delete 1%positive (fds one_fd) /\ world s' = []
  else
    fds s' = <[1%positive := FDCell (FDWrapper 5 false false 0 0) (1 - 1)]> (fds one_fd) /\ world s' = [].
Proof. apply (release_spec slow_kernel 1 _ one_fd one_fd_live). Defined.
