(* ===== verification/Handles.v ===== *)
(** Sharing of descriptors (libsponge/util/file_descriptor.hh,
    file_descriptor.cc): programs that create, duplicate, move, use and destroy
    [FileDescriptor] variables, as a step relation; the reference counts that
    keep the shared FDWrapper objects alive; and the account of which kernel
    descriptors have been closed, and how often. *)

From stdpp Require Import gmap.
From S2P Require Import Prelude Discard Buffer BufferList BufferViewList Kernel FileDescriptor.

(** ** Keys: what sharing and closing depend on *)

(** Uses, descriptor number, closed flag. *)
Abbreviation key := (nat * Z * bool)%type.
Definition key_of (c : fd_cell) : key := (fd_uses c, _fd (fd_obj c), _closed (fd_obj c)).
Definition keys {W} (s : sys W) : gmap positive key := key_of <$> fds s.

(** The descriptor numbers that are open: those of objects not closed. *)
Definition open_key (v : key) : option Z := let '(_, f, cl) := v in if cl : bool then None else Some f.
Definition open_in (m : gmap positive key) : list Z := omap (fun pv => open_key (snd pv)) (map_to_list m).

Lemma open_in_insert m p v : m !! p = None -> open_in (<[p := v]> m) ≡ₚ option_list (open_key v) ++ open_in m.
Proof.
  intros Hp. unfold open_in. rewrite map_to_list_insert by done. simpl. by destruct (open_key v).
Qed.

Lemma open_in_delete m p v : m !! p = Some v -> open_in m ≡ₚ option_list (open_key v) ++ open_in (delete p m).
Proof.
  intros Hp. rewrite <- (insert_id m p v Hp) at 1. rewrite <- insert_delete_eq.
  apply open_in_insert, lookup_delete_eq.
Qed.

Lemma open_in_replace m p v v' :
  m !! p = Some v -> open_key v = open_key v' -> open_in (<[p := v']> m) ≡ₚ open_in m.
Proof.
  intros Hp Hv. rewrite (open_in_delete m p v Hp), Hv, <- insert_delete_eq.
  apply open_in_insert, lookup_delete_eq.
Qed.

(** ** Variables *)

(** How many variables of a program hold a handle on [p]. *)
Definition refs (p : positive) (vars : gmap nat handle) : nat :=
  base.size (filter (fun xh => snd xh = Some p) vars).

Lemma refs_insert p vars x h :
  vars !! x = None ->
  refs p (<[x := h]> vars) = ((if decide (h = Some p) then 1 else 0) + refs p vars)%nat.
Proof.
  intros Hx. unfold refs. destruct (decide (h = Some p)).
  - rewrite map_filter_insert_True by done. rewrite map_size_insert_None; [done|].
    rewrite map_lookup_filter, Hx. done.
  - rewrite map_filter_insert_False, delete_id by done. done.
Qed.

Lemma refs_delete p vars x h :
  vars !! x = Some h ->
  refs p vars = ((if decide (h = Some p) then 1 else 0) + refs p (delete x vars))%nat.
Proof.
  intros Hx. rewrite <- (insert_id vars x h Hx) at 1. rewrite <- insert_delete_eq.
  apply refs_insert, lookup_delete_eq.
Qed.

(** The reference counts are right: an object exists exactly while some
    variable holds a handle on it, and it knows how many do. *)
Definition counts (m : gmap positive key) (vars : gmap nat handle) : Prop :=
  forall p, match m !! p with
            | Some (n, _, _) => n = refs p vars /\ (0 < n)%nat
            | None => refs p vars = 0%nat
            end.

Lemma counts_bound (m : gmap positive key) (vars : gmap nat handle) x p :
  counts m vars -> vars !! x = Some (Some p) -> exists n f cl, m !! p = Some (n, f, cl) /\ (0 < n)%nat.
Proof.
  intros Hc Hx. specialize (Hc p). rewrite (refs_delete p vars x _ Hx), decide_True in Hc by done.
  destruct (m !! p) as [[[n f] cl]|]; [|lia]. exists n, f, cl. split; [done|lia].
Qed.

Lemma counts_new (m : gmap positive key) (vars : gmap nat handle) x p f cl :
  counts m vars -> m !! p = None -> vars !! x = None ->
  counts (<[p := (1%nat, f, cl)]> m) (<[x := Some p]> vars).
Proof.
  intros Hc Hp Hx q. rewrite refs_insert by done. pose proof (Hc q) as Hq.
  destruct (decide (p = q)) as [->|Hne].
  - rewrite lookup_insert_eq, decide_True by done. rewrite Hp in Hq. lia.
  - rewrite lookup_insert_ne, decide_False by congruence. exact Hq.
Qed.

Lemma counts_up (m : gmap positive key) (vars : gmap nat handle) y p n f cl :
  counts m vars -> m !! p = Some (n, f, cl) -> vars !! y = None ->
  counts (<[p := ((n + 1)%nat, f, cl)]> m) (<[y := Some p]> vars).
Proof.
  intros Hc Hp Hy q. rewrite refs_insert by done. pose proof (Hc q) as Hq.
  destruct (decide (p = q)) as [->|Hne].
  - rewrite lookup_insert_eq, decide_True by done. rewrite Hp in Hq. lia.
  - rewrite lookup_insert_ne, decide_False by congruence. exact Hq.
Qed.

Lemma counts_null (m : gmap positive key) (vars : gmap nat handle) y : counts m vars -> vars !! y = None -> counts m (<[y := None]> vars).
Proof. intros Hc Hy q. rewrite refs_insert, decide_False by done. exact (Hc q). Qed.

Lemma counts_drop_null (m : gmap positive key) (vars : gmap nat handle) x : counts m vars -> vars !! x = Some None -> counts m (delete x vars).
Proof.
  intros Hc Hx q. specialize (Hc q). by rewrite (refs_delete q vars x _ Hx), decide_False in Hc.
Qed.

Lemma counts_down (m : gmap positive key) (vars : gmap nat handle) x p n f cl :
  counts m vars -> m !! p = Some (n, f, cl) -> vars !! x = Some (Some p) ->
  counts (if decide (n <= 1)%nat then delete p m else <[p := ((n - 1)%nat, f, cl)]> m) (delete x vars).
Proof.
  intros Hc Hp Hx q. specialize (Hc q). rewrite (refs_delete q vars x _ Hx) in Hc.
  destruct (decide (p = q)) as [->|Hne].
  - rewrite decide_True, Hp in Hc by done. destruct (decide _).
    + rewrite lookup_delete_eq. lia.
    + rewrite lookup_insert_eq. lia.
  - rewrite decide_False in Hc by congruence. destruct (decide _).
    + by rewrite lookup_delete_ne.
    + by rewrite lookup_insert_ne.
Qed.

Lemma counts_move (m : gmap positive key) (vars : gmap nat handle) x y h :
  counts m vars -> vars !! x = Some h -> vars !! y = None -> counts m (<[y := h]> (<[x := None]> vars)).
Proof.
  intros Hc Hx Hy q. specialize (Hc q). rewrite (refs_delete q vars x _ Hx) in Hc.
  assert (x <> y) by congruence.
  rewrite refs_insert by (by rewrite lookup_insert_ne).
  rewrite <- insert_delete_eq, refs_insert by apply lookup_delete_eq.
  rewrite (decide_False (P := None = Some q)) by done. exact Hc.
Qed.

Lemma counts_key (m : gmap positive key) (vars : gmap nat handle) p n f cl f' cl' :
  counts m vars -> m !! p = Some (n, f, cl) -> counts (<[p := (n, f', cl')]> m) vars.
Proof.
  intros Hc Hp q. specialize (Hc q). destruct (decide (p = q)) as [->|Hne].
  - rewrite lookup_insert_eq. by rewrite Hp in Hc.
  - by rewrite lookup_insert_ne.
Qed.

(** ** Effects of the operations on the keys *)

Lemma keys_lookup {W} (s : sys W) p v :
  keys s !! p = Some v -> exists c, v = key_of c /\ live (Some p) c s.
Proof.
  unfold keys. rewrite lookup_fmap. destruct (fds s !! p) as [c|] eqn:E; simpl; [|done].
  intros [= <-]. exists c. split; [done|]. by exists p.
Qed.

Lemma keys_put {W} (s : sys W) p c w : keys (put (Some p) c w s) = <[p := key_of c]> (keys s).
Proof. unfold keys. simpl. by rewrite fmap_insert. Qed.

Lemma new_fd_result {W} f (s : sys W) :
  match new_fd f s with
  | (Ok h, s') => exists p, h = Some p /\ 0 <= f /\ keys s !! p = None /\
                   keys s' = <[p := (1%nat, f, false)]> (keys s) /\ world s' = world s
  | (Exc e, s') => f < 0 /\ s' = s
  | _ => False
  end.
Proof.
  unfold new_fd. destruct (Z.ltb_spec f 0); [done|]. eexists. split; [done|]. split; [done|]. split.
  - unfold keys. rewrite lookup_fmap, fmap_None. apply not_elem_of_dom, is_fresh.
  - split; [|done]. unfold keys. simpl. by rewrite fmap_insert.
Qed.

Lemma duplicate_result {W} p n f cl (s : sys W) :
  keys s !! p = Some (n, f, cl) ->
  exists s', duplicate (Some p) s = (Ok (Some p), s') /\
    keys s' = <[p := ((n + 1)%nat, f, cl)]> (keys s) /\ world s' = world s.
Proof.
  intros (c & [= -> -> ->] & p' & [= <-] & Hp)%keys_lookup. eexists. split; [done|]. split; [|done].
  unfold keys. simpl. apply map_eq. intros q. rewrite lookup_fmap.
  destruct (decide (p = q)) as [<-|Hne].
  - by rewrite lookup_alter_eq, lookup_insert_eq, Hp.
  - by rewrite lookup_alter_ne, lookup_insert_ne, lookup_fmap.
Qed.

Lemma close_result {W} (k : kernel W) p n f cl s :
  keys s !! p = Some (n, f, cl) ->
  let '(r, w) := k_close k f (world s) in
  exists s', close k (Some p) s = (if SystemCall "close" r 0 is Exc e then Exc e else Ok tt, s') /\ world s' = w /\
    keys s' = if SystemCall "close" r 0 is Ok _ then <[p := (n, f, true)]> (keys s) else keys s.
Proof.
  intros (c & [= -> -> ->] & Hl)%keys_lookup. pose proof (close_ok k (Some p) c s Hl) as H.
  destruct (k_close _ _ _) as [r w]. rewrite H. pose proof (SystemCall_total "close" r 0).
  destruct (SystemCall "close" r 0); try done; eexists; (split; [done|]); (split; [done|]); by rewrite ?keys_put.
Qed.

Lemma release_result {W} (k : kernel W) p n f cl s :
  keys s !! p = Some (n, f, cl) ->
  exists s', release k (Some p) s = (Ok tt, s') /\
    keys s' = (if decide (n <= 1)%nat then delete p (keys s) else <[p := ((n - 1)%nat, f, cl)]> (keys s)) /\
    world s' = if decide (n <= 1)%nat
               then if cl : bool then world s else destroyed k f (world s) else world s.
Proof.
  intros (c & [= -> -> ->] & Hl)%keys_lookup. destruct (release_ok k p c s Hl) as (s' & E & Hf & Hw).
  exists s'. split; [done|]. split; [|done]. unfold keys. rewrite Hf.
  destruct (decide _); [by rewrite fmap_delete|by rewrite fmap_insert].
Qed.

Section program.
Context {W : Type} (k : kernel W).

(** ** Programs *)

(** The input and output operations of a handle. *)
Inductive io :=
  | IoRead (limit : Z)
  | IoReadInto (str : list byte) (limit : Z)
  | IoWrite (buffer : view_list) (write_all : bool)
  | IoBlocking (state : bool).

Definition do_io (h : handle) (o : io) : M (sys W) unit :=
  match o with
  | IoRead limit => read k h limit ;; mret tt
  | IoReadInto str limit => fun s => let '(r, (s, _)) := read_into k h limit (s, str) in (r, s)
  | IoWrite buffer all => write k h buffer all ;; mret tt
  | IoBlocking b => set_blocking k h b
  end.

(** A program's variables, the system, and the numbers it has wrapped. *)
Record program := Program { vars : gmap nat handle; psys : sys W; opened : list Z }.

(** One statement; a statement that throws leaves the variables alone.  With
    [tidy], [close()] is only called on a descriptor not yet closed. *)
Inductive prog_step (tidy : bool) : program -> program -> Prop :=
  | St_new vars s o x fd h s' :
      vars !! x = None -> new_fd fd s = (Ok h, s') ->
      prog_step tidy (Program vars s o) (Program (<[x := h]> vars) s' (o ++ [fd]))
  | St_new_throws vars s o fd e s' :
      new_fd fd s = (Exc e, s') ->
      prog_step tidy (Program vars s o) (Program vars s' o)
  | St_duplicate vars s o x y h h' s' :
      vars !! x = Some h -> vars !! y = None -> duplicate h s = (Ok h', s') ->
      prog_step tidy (Program vars s o) (Program (<[y := h']> vars) s' o)
  | St_move vars s o x y h :
      vars !! x = Some h -> vars !! y = None ->
      prog_step tidy (Program vars s o) (Program (<[y := h]> (<[x := None]> vars)) s o)
  | St_move_assign vars s o x y h h' s' :
      x <> y -> vars !! x = Some h -> vars !! y = Some h' -> release k h' s = (Ok tt, s') ->
      prog_step tidy (Program vars s o) (Program (<[y := h]> (<[x := None]> vars)) s' o)
  | St_destroy vars s o x h s' :
      vars !! x = Some h -> release k h s = (Ok tt, s') ->
      prog_step tidy (Program vars s o) (Program (delete x vars) s' o)
  | St_close vars s o x h r s' :
      vars !! x = Some h -> (tidy = true -> fst (closed h s) = Ok false) -> close k h s = (r, s') ->
      prog_step tidy (Program vars s o) (Program vars s' o)
  | St_io vars s o x h i r s' :
      vars !! x = Some h -> do_io h i s = (r, s') ->
      prog_step tidy (Program vars s o) (Program vars s' o).

Definition reachable (tidy : bool) (w : W) : program -> Prop :=
  rtc (prog_step tidy) (Program ∅ (Sys ∅ w) []).

(** A kernel whose [close] succeeds and logs the number; nothing else logs. *)
Record closes_logged (log : W -> list Z) : Prop := {
  cl_close fd w : let '(r, w') := k_close k fd w in ret r = 0 /\ log w' = log w ++ [fd];
  cl_read fd n w : let '(_, _, w') := k_read k fd n w in log w' = log w;
  cl_writev fd iov w : let '(_, w') := k_writev k fd iov w in log w' = log w;
  cl_getfl fd w : let '(_, w') := k_getfl k fd w in log w' = log w;
  cl_setfl fd fl w : let '(_, w') := k_setfl k fd fl w in log w' = log w
}.

(** ** Input and output neither share nor close *)

(** [m] keeps every key, and the world related by [R]. *)
Definition quiet (R : W -> W -> Prop) {A} (m : M (sys W) A) : Prop :=
  forall s, keys (snd (m s)) = keys s /\ R (world s) (world (snd (m s))).

Context (R : W -> W -> Prop) `{!PreOrder R}.

Lemma quiet_bind {A B} (m : M (sys W) A) (f : A -> M (sys W) B) :
  quiet R m -> (forall a, quiet R (f a)) -> quiet R (m ≫= f).
Proof.
  intros Hm Hf s. unfold mbind, M_bind. specialize (Hm s). destruct (m s) as [[a| | |] s1]; simpl in *; try done.
  destruct (Hf a s1) as [E1 E2], Hm as [E3 E4]. split; [congruence|by etrans].
Qed.

Lemma quiet_pure {A} (r : res A) : quiet R (lift r).
Proof. intros s. done. Qed.

Lemma quiet_deref h : quiet R (deref h).
Proof. intros s. unfold deref. destruct h; [case_match|]; done. Qed.

Lemma quiet_update h f : (forall w, _fd (f w) = _fd w /\ _closed (f w) = _closed w) -> quiet R (update h f).
Proof.
  intros Hf s. unfold update. destruct h as [p|]; [|done]. destruct (fds s !! p) as [c|] eqn:E; [|done].
  split; [|done]. unfold keys. simpl. rewrite fmap_insert. apply insert_id.
  rewrite lookup_fmap, E. unfold key_of. simpl. by destruct (Hf (fd_obj c)) as [-> ->].
Qed.

Lemma quiet_call {A} (f : W -> A * W) : (forall w, R w (snd (f w))) -> quiet R (call f).
Proof. intros Hf s. unfold call. specialize (Hf (world s)). by destruct (f (world s)). Qed.

(** ** Every kernel call of a handle's operations stays within [R] *)

Context (Rread : forall fd n w, R w (snd (k_read k fd n w)))
        (Rwritev : forall fd iov w, R w (snd (k_writev k fd iov w)))
        (Rgetfl : forall fd w, R w (snd (k_getfl k fd w)))
        (Rsetfl : forall fd fl w, R w (snd (k_setfl k fd fl w))).

Lemma quiet_fd_num h : quiet R (fd_num h).
Proof. apply quiet_bind; [apply quiet_deref|]. intros w. apply quiet_pure. Qed.

Lemma quiet_register_write h : quiet R (register_write h).
Proof. by apply quiet_update. Qed.

Lemma quiet_write_loop fuel h all buffer total : quiet R (write_loop k fuel h all buffer total).
Proof.
  revert buffer total. induction fuel as [|fuel IH]; intros buffer total; [apply quiet_pure|].
  cbn [write_loop]. apply quiet_bind; [apply quiet_fd_num|intros fd].
  apply quiet_bind; [apply quiet_call, Rwritev|intros r].
  apply quiet_bind; [apply quiet_pure|intros v].
  case_match; [apply quiet_pure|]. case_match; [apply quiet_pure|].
  apply quiet_bind; [apply quiet_register_write|intros _].
  destruct (BufferViewList.remove_prefix _ _) as [[?|?|?|] ?]; try apply quiet_pure.
  cbv zeta. case_match; [apply IH|apply quiet_pure].
Qed.

Lemma quiet_write h buffer all : quiet R (write k h buffer all).
Proof. apply quiet_write_loop. Qed.

Lemma quiet_set_blocking h b : quiet R (set_blocking k h b).
Proof.
  repeat (apply quiet_bind; [first [apply quiet_fd_num|apply quiet_call, Rgetfl|apply quiet_call, Rsetfl
    |apply quiet_pure]|intros ?]); apply quiet_pure.
Qed.

(** The same for code that also has the caller's string. *)
Definition quiet_str {A} (m : M (sys W * list byte) A) : Prop :=
  forall s, keys (fst (snd (m s))) = keys (fst s) /\ R (world (fst s)) (world (fst (snd (m s)))).

Lemma quiet_str_bind {A B} (m : M (sys W * list byte) A) (f : A -> M (sys W * list byte) B) :
  quiet_str m -> (forall a, quiet_str (f a)) -> quiet_str (m ≫= f).
Proof.
  intros Hm Hf s. unfold mbind, M_bind. specialize (Hm s).
  destruct (m s) as [[a| | |] s1]; simpl in *; try done.
  destruct (Hf a s1) as [E1 E2], Hm as [E3 E4]. split; [congruence|by etrans].
Qed.

Lemma quiet_str_pure {A} (r : res A) : quiet_str (lift r).
Proof. intros s. done. Qed.

Lemma quiet_on_sys {A} (m : M (sys W) A) : quiet R m -> quiet_str (on_sys m).
Proof. intros Hm s. unfold on_sys, on_field. specialize (Hm (fst s)). by destruct (m (fst s)). Qed.

Ltac quiet_read := repeat first
  [ apply quiet_str_pure
  | by intros ?
  | apply quiet_on_sys; first [apply quiet_fd_num | apply quiet_call; intros ?; by apply Rread | by apply quiet_update]
  | apply quiet_str_bind; [|intros ?]
  | case_match ].

Lemma quiet_read_into h limit : quiet_str (read_into k h limit).
Proof. unfold read_into, register_read. quiet_read. Qed.

Lemma quiet_read h limit : quiet R (read k h limit).
Proof.
  intros s. unfold read. pose proof (quiet_read_into h limit (s, [])) as H.
  by destruct (read_into k h limit (s, [])) as [[?|?|?|] [s' ?]].
Qed.

Lemma quiet_io h o : quiet R (do_io h o).
Proof.
  destruct o; simpl.
  - apply quiet_bind; [apply quiet_read|intros ?; apply quiet_pure].
  - intros s. pose proof (quiet_read_into h limit (s, str)) as H.
    by destruct (read_into k h limit (s, str)) as [? [? ?]].
  - apply quiet_bind; [apply quiet_write|intros ?; apply quiet_pure].
  - apply quiet_set_blocking.
Qed.

End program.

Arguments Program {W}.
Arguments vars {W}.
Arguments psys {W}.
Arguments opened {W}.

(** ** One statement keeps the counts and the account *)

Section steps.
Context {W : Type} (k : kernel W).

Lemma release_counts vars x h s s' :
  counts (keys s) vars -> vars !! x = Some h -> release k h s = (Ok tt, s') ->
  counts (keys s') (delete x vars).
Proof.
  intros Hc Hx Hr. destruct h as [p|].
  - destruct (counts_bound _ _ _ _ Hc Hx) as (n & f & cl & Hp & _).
    destruct (release_result k p n f cl s Hp) as (s1 & E & Hk & _).
    rewrite E in Hr. injection Hr as <-. rewrite Hk. by apply counts_down.
  - injection Hr as <-. by apply counts_drop_null.
Qed.

Lemma io_keys h o s : keys (snd (do_io k h o s)) = keys s.
Proof.
  refine (proj1 (quiet_io k (fun _ _ => True) _ _ _ _ h o s)); done.
Qed.

Lemma close_counts vars x h s :
  counts (keys s) vars -> vars !! x = Some h -> counts (keys (snd (close k h s))) vars.
Proof.
  intros Hc Hx. destruct h as [p|]; [|done].
  destruct (counts_bound _ _ _ _ Hc Hx) as (n & f & cl & Hp & _).
  pose proof (close_result k p n f cl s Hp) as H. destruct (k_close _ _ _).
  destruct H as (s' & -> & _ & Hs'). simpl. rewrite Hs'.
  destruct (SystemCall _ _ _); try done. by eapply counts_key.
Qed.

Lemma step_counts tidy a b :
  prog_step k tidy a b -> counts (keys (psys a)) (vars a) -> counts (keys (psys b)) (vars b).
Proof.
  destruct 1 as [vs s o x fd h s' Hx E|vs s o fd e s' E|vs s o x y h h' s' Hx Hy E|vs s o x y h Hx Hy
    |vs s o x y h h' s' Hne Hx Hy E|vs s o x h s' Hx E|vs s o x h r s' Hx Ht E|vs s o x h i r s' Hx E];
    simpl; intros Hc.
  - pose proof (new_fd_result fd s) as H. rewrite E in H. destruct H as (p & -> & _ & Hp & -> & _).
    by apply counts_new.
  - pose proof (new_fd_result fd s) as H. rewrite E in H. by destruct H as [_ ->].
  - destruct h as [p|]; [|injection E as <- <-; by apply counts_null].
    destruct (counts_bound _ _ _ _ Hc Hx) as (n & f & cl & Hp & _).
    destruct (duplicate_result p n f cl s Hp) as (s1 & E1 & Hs1 & _).
    rewrite E1 in E. injection E as <- <-. rewrite Hs1. by eapply counts_up.
  - by apply counts_move.
  - apply (release_counts _ _ _ _ _ Hc Hy) in E.
    rewrite <- insert_delete_eq, delete_insert_ne by done.
    apply counts_move; [done| |apply lookup_delete_eq]. by rewrite lookup_delete_ne.
  - by eapply release_counts.
  - replace s' with (snd (close k h s)) by (by rewrite E). by eapply close_counts.
  - replace s' with (snd (do_io k h i s)) by (by rewrite E). by rewrite io_keys.
Qed.

(** Every number wrapped is in the log, once, or open. *)
Definition account (log : W -> list Z) (a : program) : Prop :=
  opened a ≡ₚ log (world (psys a)) ++ open_in (keys (psys a)).

Context (log : W -> list Z) (Hlog : closes_logged k log).

Lemma io_log h o s : log (world (snd (do_io k h o s))) = log (world s).
Proof.
  refine (eq_sym (proj2 (quiet_io k (fun w w' => log w = log w') _ _ _ _ h o s))).
  - split; [by intros w|intros w1 w2 w3; apply eq_trans].
  - intros fd n w. pose proof (cl_read _ _ Hlog fd n w). by destruct (k_read k fd n w) as [[? ?] ?].
  - intros fd iov w. pose proof (cl_writev _ _ Hlog fd iov w). by destruct (k_writev k fd iov w).
  - intros fd w. pose proof (cl_getfl _ _ Hlog fd w). by destruct (k_getfl k fd w).
  - intros fd fl w. pose proof (cl_setfl _ _ Hlog fd fl w). by destruct (k_setfl k fd fl w).
Qed.

Lemma release_account vars x h s s' :
  counts (keys s) vars -> vars !! x = Some h -> release k h s = (Ok tt, s') ->
  log (world s') ++ open_in (keys s') ≡ₚ log (world s) ++ open_in (keys s).
Proof.
  intros Hc Hx Hr. destruct h as [p|]; [|by injection Hr as <-].
  destruct (counts_bound _ _ _ _ Hc Hx) as (n & f & cl & Hp & _).
  destruct (release_result k p n f cl s Hp) as (s1 & E & Hk & Hw).
  rewrite E in Hr. injection Hr as <-. rewrite Hk, Hw. destruct (decide _).
  - rewrite (open_in_delete (keys s) p _ Hp). destruct cl; simpl; [done|].
    pose proof (cl_close _ _ Hlog f (world s)) as H. unfold destroyed. destruct (k_close _ _ _) as [r w].
    destruct H as [Hr H]. rewrite SystemCall_ok by (unfold int_max; lia). simpl. rewrite H. by rewrite <- (assoc_L (++)).
  - by rewrite (open_in_replace _ p (n, f, cl)) by done.
Qed.

Lemma close_account vars x h s s' r :
  counts (keys s) vars -> vars !! x = Some h -> fst (closed h s) = Ok false -> close k h s = (r, s') ->
  log (world s') ++ open_in (keys s') ≡ₚ log (world s) ++ open_in (keys s).
Proof.
  intros Hc Hx Hcl Hr. destruct h as [p|]; [|done].
  destruct (counts_bound _ _ _ _ Hc Hx) as (n & f & cl & Hp & _).
  pose proof (keys_lookup s p _ Hp) as (c & [= -> -> ->] & Hl).
  unfold closed in Hcl. run in Hcl. rewrite (deref_ok _ c s Hl) in Hcl. injection Hcl as Hcl.
  pose proof (close_result k p _ _ _ s Hp) as H. pose proof (cl_close _ _ Hlog (_fd (fd_obj c)) (world s)) as Hk.
  destruct (k_close _ _ _) as [rr w]. destruct Hk as [Hret Hw], H as (s1 & E & Hw1 & Hk1).
  rewrite E in Hr. injection Hr as _ <-. unfold SystemCall in Hk1. rewrite Hret in Hk1. simpl in Hk1.
  rewrite Hw1, Hw, Hk1. rewrite (open_in_delete (keys s) p _ Hp), Hcl.
  rewrite <- insert_delete_eq, open_in_insert by apply lookup_delete_eq. simpl. by rewrite <- (assoc_L (++)).
Qed.

Lemma step_account a b :
  prog_step k true a b -> counts (keys (psys a)) (vars a) -> account log a -> account log b.
Proof.
  unfold account.
  destruct 1 as [vs s o x fd h s' Hx E|vs s o fd e s' E|vs s o x y h h' s' Hx Hy E|vs s o x y h Hx Hy
    |vs s o x y h h' s' Hne Hx Hy E|vs s o x h s' Hx E|vs s o x h r s' Hx Ht E|vs s o x h i r s' Hx E];
    simpl; intros Hc Ha.
  - pose proof (new_fd_result fd s) as H. rewrite E in H. destruct H as (p & -> & _ & Hp & -> & ->).
    rewrite Ha, open_in_insert by done. simpl. solve_Permutation.
  - pose proof (new_fd_result fd s) as H. rewrite E in H. by destruct H as [_ ->].
  - destruct h as [p|]; [|by injection E as <- <-].
    destruct (counts_bound _ _ _ _ Hc Hx) as (n & f & cl & Hp & _).
    destruct (duplicate_result p n f cl s Hp) as (s1 & E1 & Hs1 & Hw).
    rewrite E1 in E. injection E as <- <-. rewrite Hs1, Hw.
    by rewrite (open_in_replace _ p (n, f, cl)) by done.
  - done.
  - by rewrite Ha, (release_account _ _ _ _ _ Hc Hy E).
  - by rewrite Ha, (release_account _ _ _ _ _ Hc Hx E).
  - by rewrite Ha, (close_account _ _ _ _ _ _ Hc Hx (Ht eq_refl) E).
  - replace s' with (snd (do_io k h i s)) by (by rewrite E). by rewrite io_keys, io_log.
Qed.
End steps.

(** ** Properties *)

(** C14: Sharing is sound: in every state a program of handles can reach,
    whatever the kernel does, an object's reference count is the number of
    variables that hold a handle on it; so a handle that is not null always
    points at an object that exists, and an object that exists has a handle. *)
Theorem handles_counted {W : Type} (k : kernel W) (w : W) (a : program (W := W)) :
  reachable k false w a ->
  (forall x p, vars a !! x = Some (Some p) ->
     exists c, live (Some p) c (psys a) /\ fd_uses c = refs p (vars a)) /\
  (forall p c, fds (psys a) !! p = Some c -> exists x, vars a !! x = Some (Some p)).
Proof.
  intros Hr. assert (Hc : counts (keys (psys a)) (vars a)).
  { refine (rtc_ind_r (fun a => counts (keys (psys a)) (vars a)) _ _ _ a Hr); [done|].
    intros ? ? _ Hs. by eapply step_counts. }
  split.
  - intros x p Hx. destruct (counts_bound _ _ _ _ Hc Hx) as (n & f & cl & Hp & _).
    specialize (Hc p). rewrite Hp in Hc.
    apply keys_lookup in Hp as (c & [= -> -> ->] & Hl). exists c. intuition.
  - intros p c Hp. specialize (Hc p). unfold keys in Hc. rewrite lookup_fmap, Hp in Hc.
    destruct Hc as [Hn Hpos]. simpl in Hn. unfold refs in Hn.
    destruct (map_choose (filter (fun xh => snd xh = Some p) (vars a))) as (x & h & Hx).
    { intros E. rewrite E, map_size_empty in Hn. lia. }
    apply map_lookup_filter_Some in Hx as [Hx Hh]. simpl in Hh. subst h. by exists x.
Qed.

(** C4: Every descriptor is closed exactly once: with a kernel whose [close]
    succeeds, and a program that calls [close()] only on an object not yet closed, the
    numbers wrapped so far are, counted with multiplicity, the numbers closed
    and the numbers of the objects still open; once the last variable is gone,
    exactly the numbers closed. *)
Theorem closed_exactly_once {W : Type} (k : kernel W) (log : W -> list Z) (w : W) (a : program (W := W)) :
  closes_logged k log -> log w = [] -> reachable k true w a ->
  opened a ≡ₚ log (world (psys a)) ++ open_in (keys (psys a)) /\
  (vars a = ∅ -> opened a ≡ₚ log (world (psys a)) /\ fds (psys a) = ∅).
Proof.
  intros Hlog Hw Hr.
  assert (Ha : counts (keys (psys a)) (vars a) /\ account log a).
  { refine (rtc_ind_r (fun a => counts (keys (psys a)) (vars a) /\ account log a) _ _ _ a Hr).
    - split; [done|]. unfold account. simpl. by rewrite Hw.
    - intros b c _ Hs [Hc Hb]. split; [by eapply step_counts|by eapply step_account]. }
  destruct Ha as [Hc Ha]. split; [done|]. intros Hv.
  assert (He : keys (psys a) = ∅).
  { apply map_eq. intros p. rewrite lookup_empty. specialize (Hc p). rewrite Hv in Hc.
    destruct (keys (psys a) !! p) as [[[n f] cl]|]; [|done]. change (refs p ∅) with 0%nat in Hc. lia. }
  split; [|by apply fmap_empty_inv in He].
  unfold account in Ha. rewrite Ha, He. by rewrite app_nil_r.
Qed.

(** A kernel that only logs what is closed. *)
Definition log_kernel : kernel (list Z) := {|
  k_close := fun fd w => (SysRet 0 0, w ++ [fd]);
  k_read := fun _ _ w => (SysRet 0 0, [], w);
  k_writev := fun _ iov w => (SysRet (lenZ (gather iov)) 0, w);
  k_getfl := fun _ w => (SysRet 2 0, w);
  k_setfl := fun _ _ w => (SysRet 0 0, w);
  k_poll := fun fds _ w => (SysRet 0 0, map (fun _ => 0) fds, w);
  k_cerr := fun _ w => w;
  k_strerror := fun _ => EmptyString;
  k_gai_strerror := fun _ => EmptyString
|}.

Lemma log_kernel_logs : closes_logged log_kernel id.
Proof. by split. Qed.

(** Wrap 5, duplicate, read, drop the original, wrap 6 and close it. *)
Definition demo : program (W := list Z) :=
  Program {[ 1%nat := Some 1%positive; 2%nat := Some 2%positive ]}
    (Sys {[ 1%positive := FDCell (FDWrapper 5 true false 1 0) 1;
            2%positive := FDCell (FDWrapper 6 true true 0 0) 1 ]} [6])
    [5; 6].

Ltac step_with c := eapply rtc_l; [eapply c; try (vm_compute; reflexivity)|].

Lemma demo_reachable tidy : reachable log_kernel tidy [] demo.
Proof.
  step_with (St_new log_kernel tidy ∅ (Sys ∅ []) [] 0%nat 5).
  step_with (fun vs s o => St_duplicate log_kernel tidy vs s o 0%nat 1%nat).
  step_with (fun vs s o => St_io log_kernel tidy vs s o 0%nat (Some 1%positive) (IoRead 100)).
  step_with (fun vs s o => St_destroy log_kernel tidy vs s o 0%nat).
  step_with (fun vs s o => St_new log_kernel tidy vs s o 2%nat 6).
  step_with (fun vs s o => St_close log_kernel tidy vs s o 2%nat (Some 2%positive)).
  match goal with |- rtc _ ?a ?b => replace b with a by (vm_compute; reflexivity) end. constructor.
Qed.

Lemma handles_counted_witness :
  refs 1 (vars demo) = 1%nat /\
  (forall x p, vars demo !! x = Some (Some p) ->
     exists c, live (Some p) c (psys demo) /\ fd_uses c = refs p (vars demo)) /\
  (forall p c, fds (psys demo) !! p = Some c -> exists x, vars demo !! x = Some (Some p)).
Proof.
  split; [by vm_compute|]. apply (handles_counted log_kernel [] demo (demo_reachable false)).
Defined.

Lemma closed_exactly_once_witness :
  opened demo ≡ₚ id (world (psys demo)) ++ open_in (keys (psys demo)) /\
  (vars demo = ∅ -> opened demo ≡ₚ id (world (psys demo)) /\ fds (psys demo) = ∅).
Proof.
  apply (closed_exactly_once log_kernel id [] demo log_kernel_logs eq_refl (demo_reachable true)).
Defined.
