(* ===== verification/EventLoop.v ===== *)
(** [EventLoop] (libsponge/util/eventloop.hh, eventloop.cc): rules over shared
    descriptors, served by [wait_next_event] around one call of [poll(2)].

    The callbacks of a rule are closures of the client: a type [C] of closures
    and what running one does are parameters (class [Closures]).  A closure
    may do anything to the system, and add rules; it may not call
    [wait_next_event] of its own loop. *)

From stdpp Require Import gmap.
From S2P Require Import Prelude Discard Buffer BufferList BufferViewList Kernel FileDescriptor.

(** ** Rules *)

Inductive Direction := In | Out.

#[export] Instance Direction_eq_dec : EqDecision Direction.
Proof. solve_decision. Defined.

Definition direction_value (d : Direction) : Z := match d with In => POLLIN | Out => POLLOUT end.

Record Rule (C : Type) := MkRule {
  rule_fd : handle;
  direction : Direction;
  callback : C;
  interest : C;
  cancel : C
}.
Arguments MkRule {C}.
Arguments rule_fd {C}.
Arguments direction {C}.
Arguments callback {C}.
Arguments interest {C}.
Arguments cancel {C}.

Inductive Result := Success | Timeout | Exit.

(** The loop's [_rules], and the system around it. *)
Record loop (W C : Type) := Loop { _rules : list (Rule C); lsys : sys W }.
Arguments Loop {W C}.
Arguments _rules {W C}.
Arguments lsys {W C}.

(** What a closure works on: the system, and the rules it has added. *)
Definition env (W C : Type) : Type := sys W * list (Rule C).

Class Closures (W C : Type) := {
  exec : C -> M (env W C) unit;
  ask : C -> M (env W C) bool
}.

Section loop.
Context {W C : Type} `{!Closures W C} (k : kernel W).

(** A closure run by the loop: [push_back] leaves iterators and the other
    rules in place. *)
Definition invoke {A} (m : M (env W C) A) : M (loop W C) A := fun l =>
  let '(r, (s, added)) := m (lsys l, []) in (r, Loop (_rules l ++ added) s).

Definition in_sys {A} (m : M (sys W) A) : M (loop W C) A := on_field lsys (fun s l => Loop (_rules l) s) m.

Definition add_rule (fd : handle) (d : Direction) (cb it ca : C) : M (env W C) unit :=
  h ← on_field fst (fun s e => (s, snd e)) (duplicate fd);
  modify (fun e => (fst e, snd e ++ [MkRule h d cb it ca])).

(** [add_rule] with its default arguments: [[] { return true; }] and [[] {}]. *)
Class DefaultClosures := {
  always_interested : C;
  do_nothing : C;
  ask_always e : ask always_interested e = (Ok true, e);
  exec_nothing e : exec do_nothing e = (Ok tt, e)
}.
Definition add_rule_default `{!DefaultClosures} (fd : handle) (d : Direction) (cb : C) : M (env W C) unit :=
  add_rule fd d cb always_interested do_nothing.

Definition service_count (r : Rule C) : M (sys W) Z :=
  match direction r with In => read_count (rule_fd r) | Out => write_count (rule_fd r) end.

(** [_rules.erase(it)]: destroys the rule, and with it its handle. *)
Definition erase (it : nat) : M (loop W C) unit :=
  l ← get;
  match _rules l !! it with
  | Some r => in_sys (release k (rule_fd r)) ;; modify (fun l => Loop (delete it (_rules l)) (lsys l))
  | None => lift (Undef OutOfBounds)
  end.

(** ** wait_next_event

    An iterator is the number of rules before it: rules are erased at the
    iterator and added at the end only. *)

(** The loop that sets up the pollfds. *)
Fixpoint set_up (fuel : nat) (it : nat) (pollfds : list pollfd) (something_to_poll : bool) :
    M (loop W C) (list pollfd * bool) :=
  match fuel with
  | O => lift NoFuel
  | S fuel =>
      l ← get;
      match _rules l !! it with
      | None => mret (pollfds, something_to_poll)
      | Some this_rule =>
          at_eof ← match direction this_rule with
                   | In => in_sys (eof (rule_fd this_rule))
                   | Out => mret false
                   end;
          if at_eof : bool then invoke (exec (cancel this_rule)) ;; erase it ;; set_up fuel it pollfds something_to_poll
          else
            is_closed ← in_sys (closed (rule_fd this_rule));
            if is_closed : bool
            then invoke (exec (cancel this_rule)) ;; erase it ;; set_up fuel it pollfds something_to_poll
            else
              interested ← invoke (ask (interest this_rule));
              fd ← in_sys (fd_num (rule_fd this_rule));
              if interested : bool
              then set_up fuel (it + 1) (pollfds ++ [PollFd fd (direction_value (direction this_rule)) 0]) true
              else set_up fuel (it + 1) (pollfds ++ [PollFd fd 0 0]) something_to_poll
      end
  end.

(** The [revents] a call of [poll] leaves in the array. *)
Fixpoint store_revents (pollfds : list pollfd) (revents : list Z) : list pollfd :=
  match pollfds, revents with
  | p :: pollfds, r :: revents => PollFd (pfd_fd p) (pfd_events p) r :: store_revents pollfds revents
  | _, _ => pollfds
  end.

Definition has (mask bits : Z) : bool := negb (Z.land mask bits =? 0).

(** The loop that goes through the poll results. *)
Fixpoint process (fuel : nat) (it idx : nat) (pollfds : list pollfd) : M (loop W C) unit :=
  match fuel with
  | O => lift NoFuel
  | S fuel =>
      l ← get;
      match _rules l !! it with
      | None => mret tt
      | Some this_rule =>
          match pollfds !! idx with
          | None => lift (Undef OutOfBounds)
          | Some this_pollfd =>
              if has (pfd_revents this_pollfd) (Z.lor POLLERR POLLNVAL)
              then throw (runtime_error "EventLoop: error on polled file descriptor")
              else
                let poll_ready := has (pfd_revents this_pollfd) (pfd_events this_pollfd) in
                let poll_hup := has (pfd_revents this_pollfd) POLLHUP in
                if poll_hup && negb (pfd_events this_pollfd =? 0) && negb poll_ready
                then invoke (exec (cancel this_rule)) ;; erase it ;; process fuel it (idx + 1) pollfds
                else
                  (if poll_ready then
                     count_before ← in_sys (service_count this_rule);
                     invoke (exec (callback this_rule)) ;;
                     count_after ← in_sys (service_count this_rule);
                     if count_before =? count_after then
                       interested ← invoke (ask (interest this_rule));
                       if interested : bool
                       then throw (runtime_error "EventLoop: busy wait detected: callback did not read/write fd and is still interested")
                       else mret tt
                     else mret tt
                   else mret tt) ;;
                  process fuel (it + 1) (idx + 1) pollfds
          end
      end
  end.

(** One fuel for both loops: closures that keep adding rules keep them
    running. *)
Definition wait_next_event (fuel : nat) (timeout_ms : Z) : M (loop W C) Result :=
  '(pollfds, something_to_poll) ← set_up fuel 0 [] false;
  if negb something_to_poll then mret Exit
  else
    '(r, revents) ← in_sys (call (k_poll k pollfds timeout_ms));
    let pollfds := store_revents pollfds revents in
    match SystemCall "poll" r 0 with
    | Ok n => if n =? 0 then mret Timeout else process fuel 0 0 pollfds ;; mret Success
    | Exc (unix_error _ code) =>
        if code =? EINTR then mret Exit else process fuel 0 0 pollfds ;; mret Success
    | Exc e => throw e
    | Undef u => lift (Undef u)
    | NoFuel => lift NoFuel
    end.

End loop.

(** ** What the loop promises

    Seen from outside, one call treats each rule once, in order, with the
    pollfd that was made for it; the rules it does not cancel stay, in order. *)

Section spec.
Context {W C : Type} `{!Closures W C} (k : kernel W).

(** Treats the items in order; [f] answers [None] for an item that goes.  The
    items left are the ones kept, and on failure the ones not treated. *)
Fixpoint sweep {X B} (f : X -> M (sys W) (option B)) (l : list X) (s : sys W) :
    res (list B) * list X * sys W :=
  match l with
  | [] => (Ok [], [], s)
  | x :: l =>
      match f x s with
      | (Ok None, s) => sweep f l s
      | (Ok (Some b), s) => let '(r, stay, s) := sweep f l s in (cons b <$> r, x :: stay, s)
      | (Exc e, s) => (Exc e, x :: l, s)
      | (Undef u, s) => (Undef u, x :: l, s)
      | (NoFuel, s) => (NoFuel, x :: l, s)
      end
  end.

(** A closure, seen from the system. *)
Definition on_system {A} (m : M (env W C) A) : M (sys W) A := fun s =>
  let '(r, (s, _)) := m (s, []) in (r, s).

(** Cancelling a rule: its [cancel] closure runs, its handle goes. *)
Definition cancelled (r : Rule C) : M (sys W) unit :=
  on_system (exec (cancel r)) ;; release k (rule_fd r).

(** A rule at end of file (reading) or closed is cancelled; any other is
    polled, for its own direction if its client is interested. *)
Definition set_up_rule (r : Rule C) : M (sys W) (option pollfd) :=
  at_eof ← match direction r with In => eof (rule_fd r) | Out => mret false end;
  finished ← if at_eof : bool then mret true else closed (rule_fd r);
  if finished : bool then cancelled r ;; mret None
  else
    interested ← on_system (ask (interest r));
    fd ← fd_num (rule_fd r);
    mret (Some (PollFd fd (if interested : bool then direction_value (direction r) else 0) 0)).

(** A rule that is ready is called, and must make progress or lose interest; a
    rule whose only news is a hangup is cancelled. *)
Definition serve_rule (rp : Rule C * pollfd) : M (sys W) (option unit) :=
  let '(r, p) := rp in
  if has (pfd_revents p) (Z.lor POLLERR POLLNVAL)
  then throw (runtime_error "EventLoop: error on polled file descriptor")
  else
    let ready := has (pfd_revents p) (pfd_events p) in
    if has (pfd_revents p) POLLHUP && negb (pfd_events p =? 0) && negb ready
    then cancelled r ;; mret None
    else if ready then
      before ← service_count r;
      on_system (exec (callback r)) ;;
      after ← service_count r;
      stuck ← if before =? after then on_system (ask (interest r)) else mret false;
      if stuck : bool
      then throw (runtime_error "EventLoop: busy wait detected: callback did not read/write fd and is still interested")
      else mret (Some tt)
    else mret (Some tt).

Definition wait_spec (timeout_ms : Z) : M (loop W C) Result := fun l =>
  match sweep set_up_rule (_rules l) (lsys l) with
  | (Ok pollfds, kept, s) =>
      if negb (existsb (fun p => negb (pfd_events p =? 0)) pollfds) then (Ok Exit, Loop kept s)
      else
        let '(r, revents, w) := k_poll k pollfds timeout_ms (world s) in
        let s := Sys (fds s) w in
        let serve :=
          let '(r, stay, s) := sweep serve_rule (zip kept (store_revents pollfds revents)) s in
          ((fun _ => Success) <$> r, Loop (map fst stay) s) in
        match SystemCall "poll" r 0 with
        | Ok n => if n =? 0 then (Ok Timeout, Loop kept s) else serve
        | Exc (unix_error _ code) => if code =? EINTR then (Ok Exit, Loop kept s) else serve
        | Exc e => (Exc e, Loop kept s)
        | Undef u => (Undef u, Loop kept s)
        | NoFuel => (NoFuel, Loop kept s)
        end
  | (Exc e, stay, s) => (Exc e, Loop stay s)
  | (Undef u, stay, s) => (Undef u, Loop stay s)
  | (NoFuel, stay, s) => (NoFuel, Loop stay s)
  end.

(** ** The loops are sweeps *)

(** Closures that add no rules. *)
Record adds_nothing : Prop := {
  exec_adds c s : snd (snd (exec c (s, []))) = [];
  ask_adds c s : snd (snd (ask c (s, []))) = []
}.

Lemma invoke_on_system {A} (m : M (env W C) A) l :
  snd (snd (m (lsys l, []))) = [] ->
  invoke m l = let '(r, s) := on_system m (lsys l) in (r, Loop (_rules l) s).
Proof.
  unfold invoke, on_system. destruct (m (lsys l, [])) as [r [s added]]. simpl. intros ->. by rewrite app_nil_r.
Qed.

Lemma sweep_length {X B} (f : X -> M (sys W) (option B)) l s bs stay s' :
  sweep f l s = (Ok bs, stay, s') -> length stay = length bs.
Proof.
  revert s bs stay. induction l as [|x l IH]; intros s bs stay; simpl; [by intros [= <- <- _]|].
  destruct (f x s) as [[[b|]| | |] s1]; try done; [|apply IH].
  destruct (sweep f l s1) as [[[bs'| | |] stay'] s2] eqn:E; intros [= <- <- <-].
  simpl. f_equal. by eapply IH.
Qed.

Context (Hadds : adds_nothing).

(** One step of the loops, on the rule at the iterator. *)
Lemma cancel_erase {A} (r : Rule C) kept rest s (next : M (loop W C) A) :
  (invoke (exec (cancel r)) ;; erase k (length kept) ;; next) (Loop (kept ++ r :: rest) s) =
  match cancelled r s with
  | (Ok _, s') => next (Loop (kept ++ rest) s')
  | (Exc e, s') => (Exc e, Loop (kept ++ r :: rest) s')
  | (Undef u, s') => (Undef u, Loop (kept ++ r :: rest) s')
  | (NoFuel, s') => (NoFuel, Loop (kept ++ r :: rest) s')
  end.
Proof.
  unfold cancelled, erase, in_sys, on_field. run. rewrite invoke_on_system by apply Hadds. simpl.
  destruct (on_system (exec (cancel r)) s) as [[[]| | |] s1]; try done. simpl.
  rewrite list_lookup_middle by done. simpl.
  destruct (release k (rule_fd r) s1) as [[[]| | |] s2]; try done. simpl. by rewrite delete_middle.
Qed.

Lemma bind_pointwise {S A B} (m m' : M S A) (f : A -> M S B) s : m s = m' s -> (m ≫= f) s = (m' ≫= f) s.
Proof. unfold mbind, M_bind. by intros ->. Qed.

Lemma bind_in_sys {A B} (m : M (sys W) A) (f : A -> M (loop W C) B) rs s :
  (in_sys m ≫= f) (Loop rs s) =
  match m s with
  | (Ok a, s') => f a (Loop rs s')
  | (Exc e, s') => (Exc e, Loop rs s')
  | (Undef u, s') => (Undef u, Loop rs s')
  | (NoFuel, s') => (NoFuel, Loop rs s')
  end.
Proof. unfold in_sys, on_field. run. cbn. by destruct (m s) as [[?|?|?|] ?]. Qed.

Lemma bind_invoke {A B} (m : M (env W C) A) (f : A -> M (loop W C) B) rs s :
  snd (snd (m (s, []))) = [] ->
  (invoke m ≫= f) (Loop rs s) =
  match on_system m s with
  | (Ok a, s') => f a (Loop rs s')
  | (Exc e, s') => (Exc e, Loop rs s')
  | (Undef u, s') => (Undef u, Loop rs s')
  | (NoFuel, s') => (NoFuel, Loop rs s')
  end.
Proof.
  intros H. unfold mbind, M_bind. rewrite invoke_on_system by done. cbn.
  by destruct (on_system m s) as [[?|?|?|] ?].
Qed.

Lemma bind_sys {A B} (m : M (sys W) A) (f : A -> M (sys W) B) s :
  (m ≫= f) s =
  match m s with
  | (Ok a, s') => f a s'
  | (Exc e, s') => (Exc e, s')
  | (Undef u, s') => (Undef u, s')
  | (NoFuel, s') => (NoFuel, s')
  end.
Proof. done. Qed.

(** What one round of the first loop does to the rule at the iterator. *)
Lemma set_up_step fuel kept r rest s pollfds b :
  set_up k (S fuel) (length kept) pollfds b (Loop (kept ++ r :: rest) s) =
  match set_up_rule r s with
  | (Ok None, s') => set_up k fuel (length kept) pollfds b (Loop (kept ++ rest) s')
  | (Ok (Some p), s') =>
      set_up k fuel (length kept + 1) (pollfds ++ [p]) (b || negb (pfd_events p =? 0))
        (Loop (kept ++ r :: rest) s')
  | (Exc e, s') => (Exc e, Loop (kept ++ r :: rest) s')
  | (Undef u, s') => (Undef u, Loop (kept ++ r :: rest) s')
  | (NoFuel, s') => (NoFuel, Loop (kept ++ r :: rest) s')
  end.
Proof.
  cbn [set_up]. unfold set_up_rule.
  set (m := match direction r with In => eof (rule_fd r) | Out => mret false end).
  unfold get. unfold mbind at 1, M_bind at 1. cbn [_rules]. rewrite list_lookup_middle by done.
  rewrite (bind_pointwise _ (in_sys m)) by (unfold m; by destruct (direction r)).
  rewrite bind_in_sys, bind_sys. destruct (m s) as [[e| | |] s1]; try done.
  rewrite bind_sys. destruct e; cbn [mret M_ret].
  { rewrite cancel_erase, bind_sys. by destruct (cancelled r s1) as [[?| | |] s2]. }
  rewrite bind_in_sys. destruct (closed (rule_fd r) s1) as [[[]| | |] s2]; try done.
  { rewrite cancel_erase, bind_sys. by destruct (cancelled r s2) as [[?| | |] s3]. }
  rewrite bind_invoke, bind_sys by apply Hadds.
  destruct (on_system (ask (interest r)) s2) as [[i| | |] s3]; try done.
  rewrite bind_in_sys, bind_sys. destruct (fd_num (rule_fd r) s3) as [[fd| | |] s4]; try done.
  destruct i; cbn; [|by rewrite orb_false_r]. by destruct (direction r); rewrite orb_true_r.
Qed.

Lemma length_snoc {A} (l : list A) x : length (l ++ [x]) = (length l + 1)%nat.
Proof. apply length_app. Qed.

Lemma set_up_sweep fuel kept rest s pollfds b :
  (length rest < fuel)%nat ->
  set_up k fuel (length kept) pollfds b (Loop (kept ++ rest) s) =
  let '(r, stay, s') := sweep set_up_rule rest s in
  ((fun ps => (pollfds ++ ps, b || existsb (fun p => negb (pfd_events p =? 0)) ps)) <$> r,
   Loop (kept ++ stay) s').
Proof.
  revert kept rest s pollfds b. induction fuel as [|fuel IH]; intros kept rest s pollfds b Hf; [lia|].
  destruct rest as [|r rest].
  { cbn [set_up]. run. simpl. rewrite app_nil_r, lookup_ge_None_2 by lia. simpl.
    by rewrite !app_nil_r, orb_false_r. }
  simpl in Hf. rewrite set_up_step. cbn [sweep].
  destruct (set_up_rule r s) as [[[p|]| | |] s1]; try done; [|apply IH; lia].
  rewrite (cons_middle r kept rest), (assoc_L (++) kept), <- (length_snoc kept r).
  rewrite IH by lia. destruct (sweep set_up_rule rest s1) as [[[ps| | |] stay] s2]; simpl;
    rewrite <- ?(assoc_L (++)), <- ?orb_assoc; done.
Qed.

(** What one round of the second loop does to the rule at the iterator. *)
Lemma process_step fuel kept r rest s idx pollfds p :
  pollfds !! idx = Some p ->
  process k (S fuel) (length kept) idx pollfds (Loop (kept ++ r :: rest) s) =
  match serve_rule (r, p) s with
  | (Ok None, s') => process k fuel (length kept) (idx + 1) pollfds (Loop (kept ++ rest) s')
  | (Ok (Some _), s') => process k fuel (length kept + 1) (idx + 1) pollfds (Loop (kept ++ r :: rest) s')
  | (Exc e, s') => (Exc e, Loop (kept ++ r :: rest) s')
  | (Undef u, s') => (Undef u, Loop (kept ++ r :: rest) s')
  | (NoFuel, s') => (NoFuel, Loop (kept ++ r :: rest) s')
  end.
Proof.
  intros Hp. cbn [process]. unfold serve_rule.
  unfold get. unfold mbind at 1, M_bind at 1. cbn [_rules]. rewrite list_lookup_middle, Hp by done.
  destruct (has _ (Z.lor _ _)); [done|]. cbv zeta. destruct (_ && _ && _).
  { rewrite cancel_erase, bind_sys. by destruct (cancelled r s) as [[?| | |] s2]. }
  destruct (has (pfd_revents p) (pfd_events p)); [|done].
  unfold mbind at 1, M_bind at 1. rewrite bind_in_sys, bind_sys.
  destruct (service_count r s) as [[n| | |] s1]; try done.
  rewrite bind_invoke, bind_sys by apply Hadds.
  destruct (on_system (exec (callback r)) s1) as [[?| | |] s2]; try done.
  rewrite bind_in_sys, bind_sys. destruct (service_count r s2) as [[n2| | |] s3]; try done.
  rewrite bind_sys. destruct (n =? n2); [|done]. rewrite bind_invoke by apply Hadds.
  by destruct (on_system (ask (interest r)) s3) as [[[]| | |] s4].
Qed.

Lemma process_sweep fuel kept rest s idx pollfds :
  (length rest < fuel)%nat -> (idx + length rest = length pollfds)%nat ->
  process k fuel (length kept) idx pollfds (Loop (kept ++ rest) s) =
  let '(r, stay, s') := sweep serve_rule (zip rest (drop idx pollfds)) s in
  ((fun _ => tt) <$> r, Loop (kept ++ map fst stay) s').
Proof.
  revert kept rest s idx. induction fuel as [|fuel IH]; intros kept rest s idx Hf Hl; [lia|].
  destruct rest as [|r rest].
  { cbn [process]. run. simpl. by rewrite app_nil_r, lookup_ge_None_2 by lia. }
  simpl in Hf, Hl. destruct (lookup_lt_is_Some_2 pollfds idx) as [p Hp]; [lia|].
  rewrite (process_step fuel kept r rest s idx pollfds p Hp), (drop_S _ _ _ Hp).
  cbn [zip zip_with sweep].
  assert (Hz : map fst (zip rest (drop (S idx) pollfds)) = rest).
  { change (map fst ?x) with (fst <$> x). rewrite fst_zip; [done|]. rewrite length_drop. lia. }
  destruct (serve_rule (r, p) s) as [[[b|]| | |] s1]; simpl; try by rewrite Hz.
  - rewrite (cons_middle r kept rest), (assoc_L (++) kept), <- (length_snoc kept r).
    rewrite IH, Nat.add_1_r by lia.
    destruct (sweep serve_rule (zip rest _) s1) as [[[ps| | |] stay] s2]; simpl;
      by rewrite <- (assoc_L (++)).
  - rewrite IH, Nat.add_1_r by lia. done.
Qed.

Lemma store_revents_length pollfds revents : length (store_revents pollfds revents) = length pollfds.
Proof. revert revents. induction pollfds; intros [|? ?]; simpl; auto. Qed.

Lemma sweep_stay {X B} (f : X -> M (sys W) (option B)) l s :
  let '(_, stay, _) := sweep f l s in sublist stay l.
Proof.
  revert s. induction l as [|x l IH]; intros s; simpl; [constructor|].
  destruct (f x s) as [[[b|]| | |] s1]; try done.
  - specialize (IH s1). destruct (sweep f l s1) as [[? ?] ?]. by constructor.
  - specialize (IH s1). destruct (sweep f l s1) as [[? ?] ?]. by constructor.
Qed.

Lemma wait_is_spec fuel timeout_ms l :
  (length (_rules l) < fuel)%nat ->
  wait_next_event k fuel timeout_ms l = wait_spec timeout_ms l.
Proof.
  intros Hf. destruct l as [rules s]. cbn in Hf. unfold wait_next_event, wait_spec. run. cbn [_rules lsys].
  assert (Hs : set_up k fuel 0 [] false (Loop rules s) = _) by exact (set_up_sweep fuel [] rules s [] false Hf).
  rewrite Hs. simpl.
  pose proof (sweep_stay set_up_rule rules s) as Hsub.
  destruct (sweep set_up_rule rules s) as [[[ps|e|u|] stay] s1] eqn:Es; try done. simpl.
  apply sweep_length in Es. apply sublist_length in Hsub.
  destruct (existsb _ ps); [|done]. unfold in_sys, on_field, call. simpl.
  destruct (k_poll k ps timeout_ms (world s1)) as [[r revents] w]. cbn [fst snd].
  assert (Hp : forall s2, process k fuel 0 0 (store_revents ps revents) (Loop stay s2) = 
    let '(r, stay', s') := sweep serve_rule (zip stay (store_revents ps revents)) s2 in
    ((fun _ => tt) <$> r, Loop (map fst stay') s')).
  { intros s2. apply (process_sweep fuel [] stay s2 0); [lia|]. rewrite store_revents_length. lia. }
  destruct (SystemCall "poll" r 0) as [n|[]|u|]; try done; case_match; try done;
    rewrite Hp; by destruct (sweep serve_rule _ _) as [[[?|?|?|] ?] ?].
Qed.

End spec.

(** An item list on which [f] does nothing stays as it is. *)
Lemma sweep_idle {W X} (f : X -> M (sys W) (option unit)) (l : list X) s :
  Forall (fun x => f x s = (Ok (Some tt), s)) l -> sweep f l s = (Ok (map (fun _ => tt) l), l, s).
Proof. induction 1 as [|x l Hx _ IH]; simpl; [done|]. by rewrite Hx, IH. Qed.

Lemma store_revents_zero pollfds n : Forall (fun p => pfd_revents p = 0) pollfds ->
  Forall (fun p => pfd_revents p = 0) (store_revents pollfds (replicate n 0)).
Proof.
  intros H. revert n. induction H as [|p l Hp Hl IH]; intros [|n]; simpl; constructor; auto.
Qed.

Lemma serve_idle {W C} `{!Closures W C} (k : kernel W) r p s :
  pfd_revents p = 0 -> serve_rule k (r, p) s = (Ok (Some tt), s).
Proof. intros Hp. unfold serve_rule, has. by rewrite Hp. Qed.

(** ** Properties *)

(** C5: Refinement: when the client's closures add no rules, the erasing
    iterator loops and the pollfds matched by index do what [wait_spec] says:
    every rule is set up once and in order, every rule still there is served
    with the poll results of its own descriptor, and fuel for one round per
    rule is enough. *)
Theorem wait_next_event_refines {W C : Type} `{!Closures W C} (k : kernel W) (fuel : nat)
    (timeout_ms : Z) (l : loop W C) :
  adds_nothing (W := W) (C := C) -> (length (_rules l) < fuel)%nat ->
  wait_next_event k fuel timeout_ms l = wait_spec k timeout_ms l.
Proof. intros Ha Hf. exact (wait_is_spec k Ha fuel timeout_ms l Hf). Qed.

(** However a call ends, the rules left are some of the rules before it,
    in the same order, when the closures add none. *)
Theorem rules_left_in_order {W C : Type} `{!Closures W C} (k : kernel W) (fuel : nat)
    (timeout_ms : Z) (l : loop W C) :
  adds_nothing (W := W) (C := C) -> (length (_rules l) < fuel)%nat ->
  sublist (_rules (snd (wait_next_event k fuel timeout_ms l))) (_rules l).
Proof.
  intros Ha Hf. rewrite (wait_is_spec k Ha fuel timeout_ms l Hf). unfold wait_spec.
  pose proof (sweep_stay (set_up_rule k) (_rules l) (lsys l)) as H1.
  destruct (sweep (set_up_rule k) _ _) as [[[ps|e|u|] stay] s1] eqn:Es; try done.
  destruct (existsb _ ps); [|done]. cbn [negb]. destruct (k_poll _ _ _ _) as [[r revents] w].
  pose proof (sweep_stay (serve_rule k) (zip stay (store_revents ps revents)) (Sys (fds s1) w)) as H2.
  destruct (sweep (serve_rule k) _ _) as [[? stay2] s2].
  assert (H3 : sublist (map fst stay2) (_rules l)).
  { etrans; [apply (fmap_sublist fst), H2|]. rewrite fst_zip; [done|].
    rewrite store_revents_length. by erewrite sweep_length. }
  destruct (SystemCall _ _ _) as [n|[]|u|]; try done; by case_match.
Qed.

(** Busy waiting is detected: a ready rule whose callback returns with
    the rule's service count where it was, and which is still interested,
    makes the loop throw. *)
Theorem busy_wait_detected {W C : Type} `{!Closures W C} (k : kernel W) (fuel : nat)
    (kept rest : list (Rule C)) (r : Rule C) (idx : nat) (pollfds : list pollfd) (p : pollfd)
    (n : Z) (s s1 s2 : sys W) :
  adds_nothing (W := W) (C := C) ->
  pollfds !! idx = Some p ->
  has (pfd_revents p) (Z.lor POLLERR POLLNVAL) = false ->
  has (pfd_revents p) (pfd_events p) = true ->
  service_count r s = (Ok n, s) ->
  exec (callback r) (s, []) = (Ok tt, (s1, [])) ->
  service_count r s1 = (Ok n, s1) ->
  ask (interest r) (s1, []) = (Ok true, (s2, [])) ->
  process k (S fuel) (length kept) idx pollfds (Loop (kept ++ r :: rest) s) =
  (Exc (runtime_error "EventLoop: busy wait detected: callback did not read/write fd and is still interested"),
   Loop (kept ++ r :: rest) s2).
Proof.
  intros Ha Hp Herr Hready Hn Hcb Hn1 Hask. rewrite (process_step k Ha fuel kept r rest s idx pollfds p Hp).
  unfold serve_rule. rewrite Herr, Hready, andb_false_r. rewrite bind_sys, Hn, bind_sys.
  unfold on_system at 1. rewrite Hcb, bind_sys, Hn1, bind_sys, Z.eqb_refl. unfold on_system. by rewrite Hask.
Qed.

(** A [poll(2)] that fails for any reason but EINTR is not reported: the
    exception is caught and dropped, the loop goes on to results the call has
    not filled in, serves nothing and returns [Success]. *)
Theorem poll_failure_is_success {W C : Type} `{!Closures W C} (k : kernel W) (fuel : nat)
    (timeout_ms : Z) (l : loop W C) (kept : list (Rule C)) (pollfds : list pollfd) (s : sys W) (e : Z) (w : W) :
  adds_nothing (W := W) (C := C) -> (length (_rules l) < fuel)%nat ->
  sweep (set_up_rule k) (_rules l) (lsys l) = (Ok pollfds, kept, s) ->
  existsb (fun p => negb (pfd_events p =? 0)) pollfds = true ->
  Forall (fun p => pfd_revents p = 0) pollfds ->
  k_poll k pollfds timeout_ms (world s) = (SysRet (-1) e, replicate (length pollfds) 0, w) ->
  e <> EINTR -> e <> 0 ->
  wait_next_event k fuel timeout_ms l = (Ok Success, Loop kept (Sys (fds s) w)).
Proof.
  intros Ha Hf Hs Hany Hz Hk He He0. rewrite (wait_is_spec k Ha fuel timeout_ms l Hf). unfold wait_spec.
  rewrite Hs, Hany, Hk. cbn [negb]. rewrite SystemCall_fails by done. cbn [errno].
  destruct (Z.eqb_spec e EINTR) as [?|_]; [done|]. rewrite sweep_idle.
  - cbn. change (map fst ?x) with (fst <$> x). rewrite fst_zip; [done|].
    rewrite store_revents_length. by erewrite sweep_length.
  - apply Forall_forall. intros [r p] Hrp%elem_of_zip_r. apply serve_idle.
    revert p Hrp. apply Forall_forall. by apply store_revents_zero.
Qed.

(** A callback that adds a rule while the poll results are being gone
    through: the new rule has no pollfd, and the loop, on reaching it, reads
    past the end of the array. *)
Theorem added_rule_reads_past_pollfds {W C : Type} `{!Closures W C} (k : kernel W) (fuel : nat)
    (kept : list (Rule C)) (r new : Rule C) (more : list (Rule C)) (pollfds : list pollfd) (p : pollfd)
    (idx : nat) (n n' : Z) (s s1 : sys W) :
  length pollfds = (idx + 1)%nat -> pollfds !! idx = Some p ->
  has (pfd_revents p) (Z.lor POLLERR POLLNVAL) = false ->
  has (pfd_revents p) (pfd_events p) = true ->
  service_count r s = (Ok n, s) ->
  exec (callback r) (s, []) = (Ok tt, (s1, new :: more)) ->
  service_count r s1 = (Ok n', s1) -> n <> n' ->
  process k (S (S fuel)) (length kept) idx pollfds (Loop (kept ++ [r]) s) =
  (Undef OutOfBounds, Loop ((kept ++ [r]) ++ new :: more) s1).
Proof.
  intros Hlen Hp Herr Hready Hn Hcb Hn1 Hne. remember (S fuel) as fuel1 eqn:Ef. cbn [process].
  unfold get. unfold mbind at 1, M_bind at 1. cbn [_rules]. rewrite list_lookup_middle, Hp, Herr by done.
  cbv zeta. rewrite Hready, andb_false_r. unfold mbind at 1, M_bind at 1. rewrite bind_in_sys, Hn.
  unfold mbind at 1, M_bind at 1. unfold invoke. cbn [lsys _rules]. rewrite Hcb.
  rewrite bind_in_sys, Hn1. destruct (Z.eqb_spec n n') as [|_]; [done|]. cbn [mret M_ret].
  subst fuel1. cbn [process]. unfold get. unfold mbind at 1, M_bind at 1. cbn [_rules].
  rewrite <- (length_snoc kept r), list_lookup_middle by done.
  by rewrite (proj2 (lookup_ge_None pollfds (idx + 1))) by lia.
Qed.

(** ** Witnesses *)

(** Two clients: one whose closures read, do nothing, or are (not)
    interested; and one whose callback also adds a rule. *)
Inductive demo_closure := DRead (h : handle) | DNothing | DBored.
Inductive adder_closure := AReadAndAdd (h : handle) | ANothing.

(** Three bytes of input at most at a time; [poll] is a parameter. *)
Definition demo_kernel (poll : list pollfd -> Z -> list byte -> sysret * list Z * list byte) : kernel (list byte) := {|
  k_close := fun _ w => (SysRet 0 0, w);
  k_read := k_read slow_kernel;
  k_writev := k_writev slow_kernel;
  k_getfl := k_getfl slow_kernel;
  k_setfl := k_setfl slow_kernel;
  k_poll := poll;
  k_cerr := fun _ w => w;
  k_strerror := fun _ => EmptyString;
  k_gai_strerror := fun _ => EmptyString
|}.
Definition all_ready : kernel (list byte) :=
  demo_kernel (fun fds _ w => (SysRet (lenZ fds) 0, map pfd_events fds, w)).
Definition broken_poll : kernel (list byte) :=
  demo_kernel (fun fds _ w => (SysRet (-1) 22, replicate (length fds) 0, w)).

#[export] Instance demo_closures : Closures (list byte) demo_closure := {
  exec c := match c with
            | DRead h => on_field fst (fun s e => (s, snd e)) (read all_ready h 100 ;; mret tt)
            | _ => mret tt
            end;
  ask c := mret (match c with DBored => false | _ => true end)
}.
#[export] Instance adder_closures : Closures (list byte) adder_closure := {
  exec c := match c with
            | AReadAndAdd h =>
                on_field fst (fun s e => (s, snd e)) (read all_ready h 100 ;; mret tt) ;;
                add_rule h In ANothing ANothing ANothing
            | ANothing => mret tt
            end;
  ask c := mret true
}.

Lemma demo_adds_nothing : adds_nothing (W := list byte) (C := demo_closure).
Proof.
  split; intros c s; destruct c; simpl; try done.
  unfold on_field. cbn [fst snd]. by destruct (_ : res unit * sys (list byte)).
Qed.

(** A descriptor with input and two handles, and one that is closed. *)
Definition demo_sys : sys (list byte) :=
  Sys {[ 1%positive := FDCell (FDWrapper 5 false false 0 0) 2;
         2%positive := FDCell (FDWrapper 6 true true 0 0) 2 ]} (bytes "hello").
Definition reader : Rule demo_closure := MkRule (Some 1%positive) In (DRead (Some 1%positive)) DNothing DNothing.
Definition dead_rule : Rule demo_closure := MkRule (Some 2%positive) Out DNothing DNothing DNothing.
Definition spinner : Rule demo_closure := MkRule (Some 1%positive) In DNothing DNothing DNothing.
Definition demo_loop (rules : list (Rule demo_closure)) := Loop rules demo_sys.

Lemma wait_next_event_refines_witness :
  fst (wait_next_event all_ready 3 1000 (demo_loop [dead_rule; reader])) = Ok Success /\
  _rules (snd (wait_next_event all_ready 3 1000 (demo_loop [dead_rule; reader]))) = [reader] /\
  wait_next_event all_ready 3 1000 (demo_loop [dead_rule; reader]) =
  wait_spec all_ready 1000 (demo_loop [dead_rule; reader]).
Proof.
  split; [by vm_compute|]. split; [by vm_compute|].
  apply (wait_next_event_refines all_ready 3 1000 (demo_loop [dead_rule; reader]) demo_adds_nothing).
  simpl. lia.
Defined.

Lemma rules_left_in_order_witness :
  sublist (_rules (snd (wait_next_event all_ready 3 1000 (demo_loop [dead_rule; reader]))))
    [dead_rule; reader].
Proof.
  apply (rules_left_in_order all_ready 3 1000 (demo_loop [dead_rule; reader]) demo_adds_nothing).
  simpl. lia.
Defined.

Lemma busy_wait_detected_witness :
  process all_ready 2 0 0 [PollFd 5 1 1] (demo_loop [spinner]) =
  (Exc (runtime_error "EventLoop: busy wait detected: callback did not read/write fd and is still interested"),
   demo_loop [spinner]).
Proof.
  apply (busy_wait_detected all_ready 1 [] [] spinner 0 [PollFd 5 1 1] (PollFd 5 1 1) 0
    demo_sys demo_sys demo_sys demo_adds_nothing); reflexivity.
Defined.

Lemma poll_failure_is_success_witness :
  wait_next_event broken_poll 2 1000 (demo_loop [reader]) = (Ok Success, demo_loop [reader]).
Proof.
  apply (poll_failure_is_success broken_poll 2 1000 (demo_loop [reader]) [reader] [PollFd 5 1 0]
    demo_sys 22 (bytes "hello") demo_adds_nothing); try reflexivity; try discriminate.
  - simpl. lia.
  - repeat constructor.
Defined.

Definition adder : Rule adder_closure :=
  MkRule (Some 1%positive) In (AReadAndAdd (Some 1%positive)) ANothing ANothing.
Definition adder_sys : sys (list byte) := fst (snd (exec (callback adder) (demo_sys, []))).

Lemma added_rule_reads_past_pollfds_witness :
  fst (wait_next_event all_ready 9 1000 (Loop [adder] demo_sys)) = Undef OutOfBounds /\
  process all_ready 3 0 0 [PollFd 5 1 1] (Loop [adder] demo_sys) =
  (Undef OutOfBounds, Loop [adder; MkRule (Some 1%positive) In ANothing ANothing ANothing] adder_sys).
Proof.
  split; [by vm_compute|].
  apply (added_rule_reads_past_pollfds all_ready 1 [] adder
    (MkRule (Some 1%positive) In ANothing ANothing ANothing) [] [PollFd 5 1 1] (PollFd 5 1 1) 0 0 1
    demo_sys adder_sys); try reflexivity; discriminate.
Defined.
