(* ===== verification/LoopSafety.v ===== *)
(** Memory safety of the event loop (libsponge/util/eventloop.cc over
    file_descriptor.cc): the rules of a loop own handles like any variable
    does; the loop's own code keeps the reference counts right while it erases
    rules, and never touches a descriptor object that is gone. *)

From stdpp Require Import gmap.
From S2P Require Import Prelude Discard Buffer BufferList BufferViewList Kernel FileDescriptor EventLoop.

Definition uses {W} (s : sys W) : gmap positive nat := fd_uses <$> fds s.

(** How many rules hold a handle on [p]. *)
Definition rule_count {C} (p : positive) (rules : list (Rule C)) : nat :=
  length (filter (fun r => rule_fd r = Some p) rules).

(** The counts are right when [base] counts the handles held elsewhere, and
    every rule has a descriptor. *)
Definition owned {W C} (base : positive -> nat) (rules : list (Rule C)) (s : sys W) : Prop :=
  Forall (fun r => is_Some (rule_fd r)) rules /\
  forall p, match uses s !! p with
            | Some n => n = (base p + rule_count p rules)%nat /\ (0 < n)%nat
            | None => (base p + rule_count p rules)%nat = 0%nat
            end.

(** The objects the client holds handles on exist. *)
Definition alive {W} (base : positive -> nat) (s : sys W) : Prop :=
  forall p, (0 < base p)%nat -> is_Some (fds s !! p).

(** Closures that work on live descriptors, throw if they like, and neither
    make nor destroy handles. *)
Record gentle {W C} `{!Closures W C} (base : positive -> nat) : Prop := {
  g_exec c s : alive base s ->
    match exec (W := W) c (s, []) with (Ok _, (s', _)) | (Exc _, (s', _)) => uses s' = uses s | _ => False end;
  g_ask c s : alive base s ->
    match ask (W := W) c (s, []) with (Ok _, (s', _)) | (Exc _, (s', _)) => uses s' = uses s | _ => False end
}.
Arguments gentle W C {_} base.

Section safety.
Context {W C : Type} `{!Closures W C} (k : kernel W) (base : positive -> nat).

Lemma rule_count_app p (l1 l2 : list (Rule C)) : rule_count p (l1 ++ l2) = (rule_count p l1 + rule_count p l2)%nat.
Proof. unfold rule_count. by rewrite filter_app, length_app. Qed.

Lemma rule_count_cons p (r : Rule C) l :
  rule_count p (r :: l) = ((if decide (rule_fd r = Some p) then 1 else 0) + rule_count p l)%nat.
Proof. unfold rule_count. rewrite filter_cons. by destruct (decide (rule_fd r = Some p)). Qed.

Lemma owned_alive rules (s : sys W) : owned (W := W) (C := C) base rules s -> alive base s.
Proof.
  intros [_ H] p Hp. specialize (H p). unfold uses in H. rewrite lookup_fmap in H.
  destruct (fds s !! p); [by eexists|]. simpl in H. lia.
Qed.

Lemma owned_uses rules (s s' : sys W) : owned (C := C) base rules s -> uses s' = uses s -> owned (W := W) base rules s'.
Proof. unfold owned. intros H ->. exact H. Qed.

(** A rule of the loop has a live descriptor. *)
Lemma owned_live kept r rest s :
  owned (W := W) (C := C) base (kept ++ r :: rest) s -> exists c, live (rule_fd r) c s.
Proof.
  intros [Hf H]. apply Forall_app in Hf as [_ Hf]. apply Forall_cons in Hf as [[p Hr] _].
  specialize (H p). rewrite rule_count_app, rule_count_cons, decide_True in H by done.
  unfold uses in H. rewrite lookup_fmap in H. destruct (fds s !! p) as [c|] eqn:E; [|simpl in H; lia].
  exists c. exists p. done.
Qed.

Lemma owned_release kept r rest s :
  owned (W := W) (C := C) base (kept ++ r :: rest) s ->
  exists s', release k (rule_fd r) s = (Ok tt, s') /\ owned base (kept ++ rest) s'.
Proof.
  intros Ho. destruct (owned_live kept r rest s Ho) as (c & p & Hr & Hp).
  destruct (release_ok k p c s) as (s' & E & Hf & _); [by exists p|].
  exists s'. rewrite Hr. split; [exact E|]. destruct Ho as [Hall H]. split.
  { apply Forall_app in Hall as [H1 H2]. apply Forall_cons in H2 as [_ H2]. by apply Forall_app. }
  intros q. specialize (H q). unfold uses in *. rewrite lookup_fmap, Hf. rewrite lookup_fmap in H.
  rewrite rule_count_app, rule_count_cons in H. rewrite rule_count_app.
  destruct (decide (p = q)) as [<-|Hne].
  - rewrite decide_True, Hp in H by done. simpl in H. destruct (decide (fd_uses c <= 1)%nat).
    + rewrite lookup_delete_eq. simpl. lia.
    + rewrite lookup_insert_eq. simpl. lia.
  - rewrite decide_False in H by congruence. destruct (decide (fd_uses c <= 1)%nat).
    + by rewrite lookup_delete_ne.
    + by rewrite lookup_insert_ne.
Qed.

(** A sweep whose step keeps an invariant of the items keeps it, and fails
    only with an exception. *)
Lemma sweep_inv {X B} (I : list X -> sys W -> Prop) (f : X -> M (sys W) (option B)) :
  (forall kept x rest s, I (kept ++ x :: rest) s ->
     match f x s with
     | (Ok None, s') => I (kept ++ rest) s'
     | (Ok (Some _), s') | (Exc _, s') => I (kept ++ x :: rest) s'
     | _ => False
     end) ->
  forall l kept s, I (kept ++ l) s ->
    let '(r, stay, s') := sweep f l s in
    I (kept ++ stay) s' /\ match r with Ok _ | Exc _ => True | _ => False end.
Proof.
  intros Hf. induction l as [|x l IH]; intros kept s HI; [done|]. cbn [sweep].
  specialize (Hf kept x l s HI). destruct (f x s) as [[[b|]|e| |] s1]; try done; [|by apply IH].
  rewrite (cons_middle x kept l), (assoc_L (++) kept) in Hf. specialize (IH _ _ Hf).
  destruct (sweep f l s1) as [[r stay] s2]. rewrite <- (assoc_L (++)) in IH. destruct IH as [HI2 Hr].
  split; [exact HI2|]. by destruct r.
Qed.

Context (Hgentle : gentle W C base).

(** What a closure leaves, seen from the system. *)
Lemma exec_safe c rules s : owned (C := C) base rules s ->
  match on_system (exec c) s with (Ok _, s') | (Exc _, s') => owned base rules s' | _ => False end.
Proof.
  intros Ho. pose proof (g_exec _ Hgentle c s (owned_alive _ _ Ho)) as H. unfold on_system.
  destruct (exec c (s, [])) as [[| | |] [s' ?]]; try done; by eapply owned_uses.
Qed.

Lemma ask_safe c rules s : owned (C := C) base rules s ->
  match on_system (ask c) s with (Ok _, s') | (Exc _, s') => owned base rules s' | _ => False end.
Proof.
  intros Ho. pose proof (g_ask _ Hgentle c s (owned_alive _ _ Ho)) as H. unfold on_system.
  destruct (ask c (s, [])) as [[| | |] [s' ?]]; try done; by eapply owned_uses.
Qed.

Lemma cancelled_safe kept r rest s : owned base (kept ++ r :: rest) s ->
  match cancelled k r s with
  | (Ok _, s') => owned base (kept ++ rest) s'
  | (Exc _, s') => owned base (kept ++ r :: rest) s'
  | _ => False
  end.
Proof.
  intros Ho. unfold cancelled. rewrite bind_sys. pose proof (exec_safe (cancel r) _ s Ho) as H.
  destruct (on_system (exec (cancel r)) s) as [[| | |] s1]; try done.
  by destruct (owned_release kept r rest s1 H) as (s2 & -> & Ho2).
Qed.

(** Reading a field of a live descriptor. *)
Lemma query_live {A} (f : fd_wrapper -> A) h c (s : sys W) :
  live h c s -> (w ← deref h; mret (f w)) s = (Ok (f (fd_obj c)), s).
Proof. intros Hl. rewrite bind_sys. by rewrite (deref_ok h c s Hl). Qed.

Lemma service_count_live (r : Rule C) c (s : sys W) : live (rule_fd r) c s -> exists n, service_count (C := C) r s = (Ok n, s).
Proof.
  intros Hl. unfold service_count. destruct (direction r); unfold read_count, write_count;
    rewrite (query_live _ _ c) by done; by eexists.
Qed.

Lemma set_up_rule_safe kept r rest s : owned base (kept ++ r :: rest) s ->
  match set_up_rule k r s with
  | (Ok None, s') => owned base (kept ++ rest) s'
  | (Ok (Some _), s') | (Exc _, s') => owned base (kept ++ r :: rest) s'
  | _ => False
  end.
Proof.
  intros Ho. destruct (owned_live _ _ _ _ Ho) as [c Hl]. unfold set_up_rule. rewrite bind_sys.
  assert (He : exists e, match direction r with In => eof (rule_fd r) | Out => mret false end s = (Ok e, s)).
  { destruct (direction r); [|by eexists]. unfold eof. rewrite (query_live _ _ c) by done. by eexists. }
  destruct He as [e ->]. rewrite bind_sys.
  assert (Hfin : exists b, (if e then mret true else closed (rule_fd r)) s = (Ok b, s)).
  { destruct e; [by eexists|]. unfold closed. rewrite (query_live _ _ c) by done. by eexists. }
  destruct Hfin as [b ->]. destruct b.
  - rewrite bind_sys. pose proof (cancelled_safe _ _ _ _ Ho) as H.
    by destruct (cancelled k r s) as [[| | |] s1].
  - rewrite bind_sys. pose proof (ask_safe (interest r) _ s Ho) as H.
    destruct (on_system (ask (interest r)) s) as [[| | |] s1]; try done.
    destruct (owned_live _ _ _ _ H) as [c1 Hl1]. rewrite bind_sys. by rewrite (fd_num_ok _ c1 s1 Hl1).
Qed.

Lemma serve_rule_safe kept r p rest s : owned base (kept ++ r :: rest) s ->
  match serve_rule k (r, p) s with
  | (Ok None, s') => owned base (kept ++ rest) s'
  | (Ok (Some _), s') | (Exc _, s') => owned base (kept ++ r :: rest) s'
  | _ => False
  end.
Proof.
  intros Ho. unfold serve_rule. destruct (has _ (Z.lor _ _)); [done|]. cbv zeta. destruct (_ && _ && _).
  { rewrite bind_sys. pose proof (cancelled_safe _ _ _ _ Ho) as H. by destruct (cancelled k r s) as [[| | |] s1]. }
  destruct (has _ _); [|done]. destruct (owned_live _ _ _ _ Ho) as [c Hl].
  rewrite bind_sys. destruct (service_count_live r c s Hl) as [n ->].
  rewrite bind_sys. pose proof (exec_safe (callback r) _ s Ho) as H1.
  destruct (on_system (exec (callback r)) s) as [[| | |] s1]; try done.
  destruct (owned_live _ _ _ _ H1) as [c1 Hl1].
  rewrite bind_sys. destruct (service_count_live r c1 s1 Hl1) as [n1 ->].
  rewrite bind_sys. destruct (n =? n1); [|done]. pose proof (ask_safe (interest r) _ s1 H1) as H2.
  by destruct (on_system (ask (interest r)) s1) as [[[]| | |] s2].
Qed.

End safety.

(** ** Properties *)

(** Memory safety of the event loop: with reference counts that are right
    when the call starts, and closures that only use handles of the client,
    the call returns a result or throws an exception; it never dereferences an
    object that is gone and never reads past its pollfds, and the counts are
    right for the rules it leaves, so that the next call is as safe. *)
Theorem wait_next_event_safe {W C : Type} `{!Closures W C} (k : kernel W) (base : positive -> nat)
    (fuel : nat) (timeout_ms : Z) (l : loop W C) :
  adds_nothing (W := W) (C := C) -> gentle W C base ->
  owned base (_rules l) (lsys l) -> (length (_rules l) < fuel)%nat ->
  let '(r, l') := wait_next_event k fuel timeout_ms l in
  match r with Ok _ | Exc _ => True | _ => False end /\ owned base (_rules l') (lsys l').
Proof.
  intros Ha Hg Ho Hf. rewrite (wait_is_spec k Ha fuel timeout_ms l Hf). unfold wait_spec.
  pose proof (sweep_inv (owned base) (set_up_rule k)
    (fun kept x rest s => set_up_rule_safe k base Hg kept x rest s) (_rules l) [] (lsys l) Ho) as H1.
  destruct (sweep (set_up_rule k) _ _) as [[[ps|e|u|] stay] s1] eqn:Es; destruct H1 as [H1 Hr1]; try done.
  simpl in H1. destruct (existsb _ ps); [|done]. cbn [negb].
  destruct (k_poll k ps timeout_ms (world s1)) as [[r revents] w].
  assert (Hlen : length stay = length (store_revents ps revents))
    by (rewrite store_revents_length; by eapply sweep_length).
  assert (Hz : map fst (zip stay (store_revents ps revents)) = stay).
  { change (map fst ?x) with (fst <$> x). apply fst_zip. lia. }
  pose proof (sweep_inv (fun items s => owned base (map fst items) s) (serve_rule k)) as H2.
  specialize (H2 ltac:(intros kept [x p] rest s H; rewrite map_app in H; cbn in H;
    pose proof (serve_rule_safe k base Hg _ _ p _ _ H) as Hs; rewrite !map_app; exact Hs)).
  specialize (H2 (zip stay (store_revents ps revents)) [] (Sys (fds s1) w)). cbn [app] in H2.
  rewrite Hz in H2. specialize (H2 H1).
  destruct (sweep (serve_rule k) _ _) as [[r2 stay2] s2]. destruct H2 as [H2 Hr2].
  pose proof (SystemCall_total "poll" r 0).
  destruct (SystemCall "poll" r 0) as [n|[| | | | |a code|]|u|]; try done.
  - destruct (n =? 0); [done|]. by destruct r2.
  - destruct (code =? EINTR); [done|]. by destruct r2.
Qed.

(** The client of the witness holds one handle on each descriptor, and its
    closures read descriptor 1 or do nothing. *)
Inductive quiet_closure := QRead | QNothing.

#[export] Instance quiet_closures : Closures (list byte) quiet_closure := {
  exec c := match c with
            | QRead => on_field fst (fun s e => (s, snd e)) (register_read (Some 1%positive))
            | QNothing => mret tt
            end;
  ask c := mret true
}.

Definition quiet_base (p : positive) : nat := if bool_decide (p = 1 \/ p = 2)%positive then 1 else 0.

Lemma quiet_adds_nothing : adds_nothing (W := list byte) (C := quiet_closure).
Proof.
  split; intros c s; destruct c; try done. simpl. unfold on_field. cbn [fst snd].
  by destruct (register_read (Some 1%positive) s).
Qed.

Lemma quiet_gentle : gentle (list byte) quiet_closure quiet_base.
Proof.
  split; intros c s Hs; destruct c; try done. simpl. unfold on_field, register_read, update. cbn [fst snd].
  destruct (Hs 1%positive) as [cell Hc]; [vm_compute; lia|]. rewrite Hc.
  unfold uses. simpl. rewrite fmap_insert. apply insert_id. by rewrite lookup_fmap, Hc.
Qed.

Definition quiet_rules : list (Rule quiet_closure) :=
  [MkRule (Some 2%positive) Out QNothing QNothing QNothing; MkRule (Some 1%positive) In QRead QNothing QNothing].

Lemma quiet_owned : owned quiet_base quiet_rules demo_sys.
Proof.
  split; [repeat constructor; by eexists|]. intros p. unfold uses, demo_sys. cbn [fds]. rewrite lookup_fmap.
  destruct (decide (p = 1%positive)) as [->|H1]; [by vm_compute; auto|].
  destruct (decide (p = 2%positive)) as [->|H2]; [by vm_compute; auto|].
  rewrite lookup_insert_ne, lookup_singleton_ne by done. simpl.
  unfold quiet_base, rule_count, quiet_rules. rewrite bool_decide_eq_false_2 by (intros [?|?]; done).
  rewrite !filter_cons, !decide_False by (simpl; congruence). done.
Qed.

Lemma wait_next_event_safe_witness :
  fst (wait_next_event all_ready 3 1000 (Loop quiet_rules demo_sys)) = Ok Success /\
  let '(r, l') := wait_next_event all_ready 3 1000 (Loop quiet_rules demo_sys) in
  match r with Ok _ | Exc _ => True | _ => False end /\ owned quiet_base (_rules l') (lsys l').
Proof.
  split; [by vm_compute|].
  apply (wait_next_event_safe all_ready quiet_base 3 1000 (Loop quiet_rules demo_sys)
    quiet_adds_nothing quiet_gentle quiet_owned). simpl. lia.
Defined.
