(* ===== verification/LoopGrowth.v ===== *)
(** [EventLoop] with closures that add rules: what EventLoop.v's specification
    excludes.  Setting up keeps one pollfd per rule whatever the closures do;
    a call ends once the closures stop adding rules. *)

From stdpp Require Import gmap.
From S2P Require Import Prelude Discard Buffer BufferList BufferViewList Kernel FileDescriptor EventLoop.

Section growth.
Context {W C : Type} `{!Closures W C} (k : kernel W).

(** ** One pollfd per rule *)

(** A pollfd made for a rule: nothing has happened on it yet, and it asks for
    the rule's own direction or for nothing. *)
Definition made_for (r : Rule C) (p : pollfd) : Prop :=
  pfd_revents p = 0 /\ (pfd_events p = 0 \/ pfd_events p = direction_value (direction r)).

Definition wants (p : pollfd) : bool := negb (pfd_events p =? 0).

Lemma has_direction (d : Direction) : negb (direction_value d =? 0) = true.
Proof. by destruct d. Qed.

(** Reading a member of a descriptor changes nothing. *)
Lemma deref_state h (s : sys W) : snd (deref h s) = s.
Proof. unfold deref. repeat case_match; done. Qed.

Lemma bind_ok {S A B} (m : M S A) (f : A -> M S B) s b s' :
  (m ≫= f) s = (Ok b, s') -> exists a s1, m s = (Ok a, s1) /\ f a s1 = (Ok b, s').
Proof.
  unfold mbind, M_bind. destruct (m s) as [[a|e|u|] s1]; try discriminate. intros E. by exists a, s1.
Qed.

Lemma in_sys_ok {A} (m : M (sys W) A) (l l' : loop W C) a :
  (forall s, snd (m s) = s) -> in_sys m l = (Ok a, l') -> l' = l.
Proof.
  intros Hm. unfold in_sys, on_field. destruct l as [rs s]. cbn. specialize (Hm s).
  destruct (m s) as [r s1]. simpl in Hm. by intros [= _ <-]; subst.
Qed.

Lemma invoke_ok {A} (m : M (env W C) A) (l l' : loop W C) a :
  invoke m l = (Ok a, l') -> exists added, _rules l' = _rules l ++ added.
Proof. unfold invoke. destruct (m _) as [r [s added]]. intros [= _ <-]. by exists added. Qed.

Lemma erase_ok it (l l' : loop W C) :
  erase k it l = (Ok tt, l') -> _rules l' = delete it (_rules l).
Proof.
  unfold erase. run. destruct (_rules l !! it) as [r|]; [|done]. unfold in_sys, on_field. cbn.
  destruct (release k _ _) as [[[]| | |] s]; try done. by intros [= <-].
Qed.

Lemma at_eof_state (r : Rule C) (s : sys W) :
  snd ((match direction r with In => eof (rule_fd r) | Out => mret false end) s) = s.
Proof. destruct (direction r); [|done]. unfold eof. run. pose proof (deref_state (rule_fd r) s). by destruct (deref _ _) as [[] ?]. Qed.
Lemma closed_state h (s : sys W) : snd (closed h s) = s.
Proof. unfold closed. run. pose proof (deref_state h s). by destruct (deref _ _) as [[] ?]. Qed.
Lemma fd_num_state h (s : sys W) : snd (fd_num h s) = s.
Proof. unfold fd_num. run. pose proof (deref_state h s). by destruct (deref _ _) as [[] ?]. Qed.
Lemma service_count_state (r : Rule C) (s : sys W) : snd (service_count r s) = s.
Proof.
  unfold service_count, read_count, write_count. pose proof (deref_state (rule_fd r) s).
  destruct (direction r); run; by destruct (deref _ _) as [[] ?].
Qed.

(** What is known of the rules before the iterator. *)
Definition matched (it : nat) (pollfds : list pollfd) (b : bool) (l : loop W C) : Prop :=
  Forall2 made_for (take it (_rules l)) pollfds /\ (it <= length (_rules l))%nat /\ b = existsb wants pollfds.

Lemma matched_more it ps b l l' added :
  matched it ps b l -> _rules l' = _rules l ++ added -> matched it ps b l'.
Proof.
  intros (Hf & Hit & Hb) E. unfold matched. rewrite E, take_app_le, length_app by done. auto with lia.
Qed.

Lemma matched_erased it ps b l l' :
  matched it ps b l -> (it < length (_rules l))%nat -> _rules l' = delete it (_rules l) -> matched it ps b l'.
Proof.
  intros (Hf & Hit & Hb) Hlt E. unfold matched. rewrite E. split_and!; [|rewrite length_delete; [lia|]|done].
  - rewrite delete_take_drop, take_app_le by (rewrite length_take; lia). by rewrite take_take, Nat.min_id.
  - by apply lookup_lt_is_Some.
Qed.

Lemma matched_next it ps b l r p :
  matched it ps b l -> _rules l !! it = Some r -> made_for r p ->
  matched (it + 1) (ps ++ [p]) (b || wants p) l.
Proof.
  intros (Hf & Hit & Hb) Hr Hp. pose proof (lookup_lt_Some _ _ _ Hr).
  unfold matched. rewrite Nat.add_1_r, (take_S_r _ _ r) by done. split_and!; [|lia|].
  - apply Forall2_app; [done|]. by constructor.
  - rewrite existsb_app, Hb. simpl. by rewrite orb_false_r.
Qed.

Lemma set_up_matched fuel it ps b l ps' b' l' :
  matched it ps b l -> set_up k fuel it ps b l = (Ok (ps', b'), l') ->
  matched (length (_rules l')) ps' b' l'.
Proof.
  revert it ps b l. induction fuel as [|fuel IH]; intros it ps b l Hm; [done|].
  cbn [set_up]. intros (l0 & l0' & [= <- <-] & E)%bind_ok.
  destruct (_rules l !! it) as [r|] eqn:Hr.
  2: { injection E as <- <- <-. apply lookup_ge_None in Hr. destruct Hm as (Hf & Hit & Hb).
       split_and!; [|done..]. by replace (length (_rules l)) with it by lia. }
  pose proof (lookup_lt_Some _ _ _ Hr) as Hlt.
  assert (Hcancel : forall l1, _rules l1 = _rules l ->
    (invoke (exec (cancel r)) ;; erase k it ;; set_up k fuel it ps b) l1 = (Ok (ps', b'), l') ->
    matched (length (_rules l')) ps' b' l').
  { intros l1 E1 (u & l2 & Hi & E2)%bind_ok. apply bind_ok in E2 as ([] & l3 & He & E3).
    apply invoke_ok in Hi as [added Hi]. apply erase_ok in He. apply (IH it ps b l3); [|exact E3].
    apply (matched_erased it ps b l2); [|rewrite Hi, E1, length_app; lia|done].
    apply (matched_more it ps b l l2 added Hm). by rewrite Hi, E1. }
  apply bind_ok in E as (at_eof & l1 & He & E).
  assert (Hl1 : l1 = l).
  { revert He. pose proof (at_eof_state r) as Hs. destruct (direction r); [by apply in_sys_ok|by intros [= _ <-]]. }
  subst l1. destruct at_eof; [by apply (Hcancel l)|].
  apply bind_ok in E as (is_closed & l1 & Hc & E). apply in_sys_ok in Hc as ->; [|apply closed_state].
  destruct is_closed; [by apply (Hcancel l)|].
  apply bind_ok in E as (interested & l2 & Hi & E). apply invoke_ok in Hi as [added Hi].
  apply bind_ok in E as (fd & l3 & Hfd & E). apply in_sys_ok in Hfd as ->; [|apply fd_num_state].
  pose proof (matched_more it ps b l l2 added Hm Hi) as Hm2.
  assert (Hr2 : _rules l2 !! it = Some r) by (rewrite Hi, lookup_app_l by lia; done).
  destruct interested; refine (IH _ _ _ l2 _ E).
  - rewrite <- (orb_true_r b), <- (has_direction (direction r)).
    apply (matched_next it ps b l2 r (PollFd fd _ 0) Hm2 Hr2). split; simpl; auto.
  - rewrite <- (orb_false_r b). apply (matched_next it ps b l2 r (PollFd fd 0 0) Hm2 Hr2). split; simpl; auto.
Qed.

(** ** A budget of rules *)

(** Closures that add finitely many rules: [budget] bounds how many are still
    to come, and running a closure pays for those it adds.  Releasing a handle
    and waiting for events do not earn any. *)
Record budgeted (budget : sys W -> nat) : Prop := {
  bu_exec c s : let '(r, (s', added)) := exec c (s, []) in
                r <> NoFuel /\ (budget s' + length added <= budget s)%nat;
  bu_ask c s : let '(r, (s', added)) := ask c (s, []) in
               r <> NoFuel /\ (budget s' + length added <= budget s)%nat;
  bu_release h s : (budget (snd (release k h s)) <= budget s)%nat;
  bu_poll ps t s : (budget (Sys (fds s) (snd (k_poll k ps t (world s)))) <= budget s)%nat
}.

Context (budget : sys W -> nat) (Hb : budgeted budget).

(** The rules there are and may be. *)
Definition total (l : loop W C) : nat := length (_rules l) + budget (lsys l).

(** The code returns or throws, and the total stays within [n]. *)
Definition within {A} (n : nat) (rl : res A * loop W C) : Prop := fst rl <> NoFuel /\ (total (snd rl) <= n)%nat.

Lemma within_bind {A B} n (m : M (loop W C) A) (f : A -> M (loop W C) B) l :
  within n (m l) -> (forall a l', m l = (Ok a, l') -> within n (f a l')) -> within n ((m ≫= f) l).
Proof using Type.
  intros [Hf Ht] Hk. unfold mbind, M_bind. destruct (m l) as [[a|e|u|] l'] eqn:E; [by apply Hk|by split..|done].
Qed.

Lemma in_sys_within {A} (m : M (sys W) A) n l :
  (forall s, snd (m s) = s /\ fst (m s) <> NoFuel) -> (total l <= n)%nat -> within n (in_sys m l).
Proof using Type.
  intros Hm Hn. destruct l as [rs s]. destruct (Hm s) as [Hs Hf]. unfold within, in_sys, on_field, total in *. cbn in *.
  destruct (m s) as [r s1]. simpl in *. by subst.
Qed.

Lemma deref_total h (s : sys W) : snd (deref h s) = s /\ fst (deref h s) <> NoFuel.
Proof using Type. unfold deref. repeat case_match; done. Qed.

Lemma member_total {A} (f : fd_wrapper -> A) h (s : sys W) :
  snd ((w ← deref h; mret (f w)) s) = s /\ fst ((w ← deref h; mret (f w)) s) <> NoFuel.
Proof using Type. run. pose proof (deref_total h s) as [Hs Hf]. by destruct (deref h s) as [[] ?]. Qed.

Lemma service_total (r : Rule C) (s : sys W) : snd (service_count r s) = s /\ fst (service_count r s) <> NoFuel.
Proof using Type. unfold service_count. destruct (direction r); apply member_total. Qed.

Lemma invoke_within {A} (m : M (env W C) A) l n :
  (let '(r, (s', added)) := m (lsys l, []) in r <> NoFuel /\ (budget s' + length added <= budget (lsys l))%nat) ->
  (total l <= n)%nat -> within n (invoke m l).
Proof using Type.
  intros Hm Hn. unfold within, invoke, total in *. destruct (m _) as [r [s' added]]. simpl.
  rewrite length_app. split; [tauto|lia].
Qed.

Lemma release_total h (s : sys W) : fst (release k h s) <> NoFuel.
Proof using Type. unfold release, destroy_wrapper. repeat case_match; done. Qed.

Lemma erase_within it l n : (total l <= n)%nat -> within n (erase k it l).
Proof using Hb.
  intros Hn. unfold erase. run. destruct (_rules l !! it) as [r|] eqn:Hr; [|by split].
  unfold within, total, in_sys, on_field in *. destruct l as [rs s]. cbn in *.
  pose proof (bu_release _ Hb (rule_fd r) s) as Hrel. pose proof (release_total (rule_fd r) s) as Hf.
  destruct (release k (rule_fd r) s) as [[[]|e|u|] s1]; simpl in *; split; try done; try lia.
  rewrite length_delete by (by eapply lookup_lt_is_Some, lookup_lt_Some). lia.
Qed.

(** An erased rule is one less. *)
Lemma erase_less it l n :
  (it < length (_rules l))%nat -> (total l <= S n)%nat ->
  forall l', erase k it l = (Ok tt, l') -> (total l' <= n)%nat /\ length (_rules l') = (length (_rules l) - 1)%nat.
Proof using Hb.
  intros Hit Hn l' E. destruct (lookup_lt_is_Some_2 _ _ Hit) as [r Hr]. revert E. unfold erase. run.
  rewrite Hr. unfold total, in_sys, on_field in *. destruct l as [rs s]. cbn in *.
  pose proof (bu_release _ Hb (rule_fd r) s) as Hrel.
  destruct (release k (rule_fd r) s) as [[[]|e|u|] s1]; try done. simpl in *. intros [= <-]. simpl.
  rewrite length_delete by (by eexists). lia.
Qed.

Lemma exec_within c l n : (total l <= n)%nat -> within n (invoke (exec c) l).
Proof using Hb. apply invoke_within. apply (bu_exec _ Hb). Qed.
Lemma ask_within c l n : (total l <= n)%nat -> within n (invoke (ask c) l).
Proof using Hb. apply invoke_within. apply (bu_ask _ Hb). Qed.

(** What a closure run successfully leaves. *)
Lemma exec_total c l l' a :
  invoke (exec c) l = (Ok a, l') -> (total l' <= total l)%nat /\ exists added, _rules l' = _rules l ++ added.
Proof using Hb.
  intros E. destruct (exec_within c l _ (le_n _)) as [_ Ht]. rewrite E in Ht. split; [done|]. by eapply invoke_ok.
Qed.
Lemma ask_total c l l' a :
  invoke (ask c) l = (Ok a, l') -> (total l' <= total l)%nat /\ exists added, _rules l' = _rules l ++ added.
Proof using Hb.
  intros E. destruct (ask_within c l _ (le_n _)) as [_ Ht]. rewrite E in Ht. split; [done|]. by eapply invoke_ok.
Qed.

Lemma cancel_within {A} (r : Rule C) it n l (next : M (loop W C) A) :
  (it < length (_rules l))%nat -> (total l <= n)%nat ->
  (forall l', (S (total l') <= total l)%nat -> (it <= length (_rules l'))%nat -> within n (next l')) ->
  within n ((invoke (exec (cancel r)) ;; erase k it ;; next) l).
Proof using Hb.
  intros Hit Hn Hnext. apply within_bind; [by apply exec_within|]. intros [] l1 E1.
  apply exec_total in E1 as [Ht [added Hr]]. assert (it < length (_rules l1))%nat by (rewrite Hr, length_app; lia).
  apply within_bind; [apply erase_within; lia|]. intros [] l2 E2.
  assert (1 <= total l1)%nat by (unfold total; lia).
  apply (erase_less it l1 (total l1 - 1)) in E2 as [Ht2 Hl2]; [|done|lia].
  apply Hnext; lia.
Qed.

Lemma bind_assoc {S A B D} (m : M S A) (f : A -> M S B) (g : B -> M S D) s :
  ((m ≫= f) ≫= g) s = (m ≫= (fun a => f a ≫= g)) s.
Proof using Type. unfold mbind, M_bind. by destruct (m s) as [[?|?|?|] ?]. Qed.

(** Both loops, with fuel for the rules there are and may be. *)
Lemma set_up_within fuel it ps b n l :
  (it <= length (_rules l))%nat -> (total l < fuel + it)%nat -> (total l <= n)%nat ->
  within n (set_up k fuel it ps b l).
Proof using Hb.
  revert it ps b l. induction fuel as [|fuel IH]; intros it ps b l Hit Hf Hn.
  { unfold total in Hf. lia. }
  cbn [set_up]. apply within_bind; [by split|]. intros l0 l1 [= <- <-].
  destruct (_rules l !! it) as [r|] eqn:Hr; [|by split]. pose proof (lookup_lt_Some _ _ _ Hr) as Hlt.
  assert (Hc : within n ((invoke (exec (cancel r)) ;; erase k it ;; set_up k fuel it ps b) l)).
  { apply cancel_within; [done..|]. intros l' Ht Hl. apply IH; lia. }
  apply within_bind.
  { destruct (direction r); [|by split]. apply in_sys_within; [apply member_total|done]. }
  intros at_eof l1 E. assert (l1 = l) as ->.
  { revert E. pose proof (at_eof_state r). destruct (direction r); [by apply in_sys_ok|by intros [= _ <-]]. }
  destruct at_eof; [done|].
  apply within_bind; [apply in_sys_within; [apply member_total|done]|].
  intros is_closed l1 E1. apply in_sys_ok in E1 as ->; [|apply closed_state].
  destruct is_closed; [done|].
  apply within_bind; [by apply ask_within|]. intros interested l2 E2. apply ask_total in E2 as [Ht [added Hr2]].
  apply within_bind; [apply in_sys_within; [apply member_total|lia]|].
  intros fd l3 E3. apply in_sys_ok in E3 as ->; [|apply fd_num_state].
  assert (it + 1 <= length (_rules l2))%nat by (rewrite Hr2, length_app; lia).
  destruct interested; apply IH; lia.
Qed.

Lemma process_within fuel it idx ps n l :
  (it <= length (_rules l))%nat -> (total l < fuel + it)%nat -> (total l <= n)%nat ->
  within n (process k fuel it idx ps l).
Proof using Hb.
  revert it idx l. induction fuel as [|fuel IH]; intros it idx l Hit Hf Hn.
  { unfold total in Hf. lia. }
  cbn [process]. apply within_bind; [by split|]. intros l0 l1 [= <- <-].
  destruct (_rules l !! it) as [r|] eqn:Hr; [|by split]. pose proof (lookup_lt_Some _ _ _ Hr) as Hlt.
  destruct (ps !! idx) as [p|]; [|by split]. destruct (has _ (Z.lor _ _)); [by split|]. cbv zeta.
  destruct (_ && _ && _).
  { apply cancel_within; [done..|]. intros l' Ht Hl. apply IH; lia. }
  assert (Hnext : forall l', (total l' <= total l)%nat /\ (exists added, _rules l' = _rules l ++ added) ->
    within n (process k fuel (it + 1) (idx + 1) ps l')).
  { intros l' (Ht & added & E). assert (it + 1 <= length (_rules l'))%nat by (rewrite E, length_app; lia).
    apply IH; lia. }
  destruct (has _ _); [|apply Hnext; split; [lia|exists []; by rewrite app_nil_r]].
  rewrite bind_assoc. apply within_bind; [apply in_sys_within; [apply service_total|done]|].
  intros n1 l1 E1. apply in_sys_ok in E1 as ->; [|apply service_count_state].
  rewrite bind_assoc. apply within_bind; [by apply exec_within|].
  intros [] l2 E2. apply exec_total in E2 as H2.
  rewrite bind_assoc. apply within_bind; [apply in_sys_within; [apply service_total|lia]|].
  intros n2 l3 E3. apply in_sys_ok in E3 as ->; [|apply service_count_state].
  destruct (n1 =? n2); [|by apply Hnext].
  rewrite bind_assoc. apply within_bind; [apply ask_within; lia|].
  intros interested l4 E4. apply ask_total in E4 as (Ht4 & added4 & E4). destruct H2 as (Ht2 & added2 & E2').
  destruct interested.
  - apply within_bind; [split; [done|simpl; lia]|done].
  - apply Hnext. split; [lia|]. exists (added2 ++ added4). by rewrite E4, E2', (assoc_L (++)).
Qed.

(** A whole call. *)
Lemma wait_within fuel timeout_ms l :
  (total l < fuel)%nat -> within (total l) (wait_next_event k fuel timeout_ms l).
Proof using Hb.
  intros Hf.
  unfold wait_next_event. apply within_bind; [apply set_up_within; done || lia|].
  intros [ps b] l1 E1. assert (Ht1 : (total l1 <= total l)%nat).
  { destruct (set_up_within fuel 0 [] false (total l) l) as [_ Ht]; [lia..|]. by rewrite E1 in Ht. }
  destruct b; [|by split]. simpl negb. cbv iota.
  apply within_bind.
  { split; [unfold in_sys, on_field, call; by destruct (k_poll _ _ _ _) as [[??]?]|].
    pose proof (bu_poll _ Hb ps timeout_ms (lsys l1)) as Hp. unfold in_sys, on_field, call, total in *.
    destruct l1 as [rs s]. cbn in *. destruct (k_poll _ _ _ _) as [[??]?]. cbn in *. lia. }
  intros [r revents] l2 E2. assert (Ht2 : (total l2 <= total l)%nat).
  { pose proof (bu_poll _ Hb ps timeout_ms (lsys l1)) as Hp. revert E2. unfold in_sys, on_field, call, total in *.
    destruct l1 as [rs s]. cbn in *. destruct (k_poll _ _ _ _) as [[??]?]. intros [= _ _ <-]. cbn in *. lia. }
  cbv zeta. assert (Hp : within (total l)
    ((process k fuel 0 0 (store_revents ps revents) ;; mret Success) l2)).
  { apply within_bind; [apply process_within; done || lia|]. intros [] l3 E3. split; [done|].
    destruct (process_within fuel 0 0 (store_revents ps revents) (total l) l2) as [_ Ht]; [lia..|].
    by rewrite E3 in Ht. }
  destruct (SystemCall "poll" r 0) as [n|e|u|] eqn:Es.
  - destruct (n =? 0); [by split|done].
  - destruct e; try (by split). destruct (_ =? EINTR); [by split|done].
  - by split.
  - pose proof (SystemCall_total "poll" r 0). by rewrite Es in *.
Qed.

End growth.

(** ** Properties *)

(** C16: a call of [wait_next_event] whose closures add finitely many rules
    ends: fuel for the rules there are and those the closures can still add is
    enough, whatever the call ends in (a result, an exception, or the undefined
    behaviour of [results_loop_overruns] or of a closure), and afterwards there are
    no more rules than those, the ones still to come included. *)
Theorem wait_next_event_terminates {W C : Type} `{!Closures W C} (k : kernel W) (budget : sys W -> nat)
    (fuel : nat) (timeout_ms : Z) (l : loop W C) :
  budgeted k budget -> (length (_rules l) + budget (lsys l) < fuel)%nat ->
  let '(r, l') := wait_next_event k fuel timeout_ms l in
  r <> NoFuel /\ (length (_rules l') + budget (lsys l') <= length (_rules l) + budget (lsys l))%nat.
Proof.
  intros Hb Hf. change (length (_rules l) + budget (lsys l))%nat with (total budget l) in *.
  pose proof (wait_within k budget Hb fuel timeout_ms l Hf) as H. unfold within in H.
  by destruct (wait_next_event k fuel timeout_ms l).
Qed.

(** ** A client whose rules replace themselves

    The world holds how many more rules may be added; when a rule is cancelled
    its closure adds another on the same descriptor. *)

Inductive spawn_closure := Spawn (h : handle) | Idle.

#[export] Instance spawn_closures : Closures nat spawn_closure := {
  exec c := fun e =>
    match c, world (fst e) with
    | Spawn h, S n => add_rule h In Idle Idle (Spawn h) (Sys (fds (fst e)) n, snd e)
    | _, _ => (Ok tt, e)
    end;
  ask c := mret true
}.

Definition spawn_kernel : kernel nat := {|
  k_close := fun _ w => (SysRet 0 0, w);
  k_read := fun _ _ w => (SysRet 0 0, [], w);
  k_writev := fun _ _ w => (SysRet 0 0, w);
  k_getfl := fun _ w => (SysRet 0 0, w);
  k_setfl := fun _ _ w => (SysRet 0 0, w);
  k_poll := fun ps _ w => (SysRet 0 0, map (fun _ => 0) ps, w);
  k_cerr := fun _ w => w;
  k_strerror := fun _ => EmptyString;
  k_gai_strerror := fun _ => EmptyString
|}.

Lemma spawn_release h (s : sys nat) : world (snd (release spawn_kernel h s)) = world s.
Proof.
  unfold release, destroy_wrapper. destruct h as [p|]; [|done]. destruct (fds s !! p) as [c|] eqn:E; [|done].
  case_bool_decide; [|done]. destruct (_closed (fd_obj c)); [done|].
  unfold close, fd_num, deref, update, call. run. rewrite E. cbn. by rewrite E.
Qed.

Lemma spawn_budgeted : budgeted spawn_kernel (fun s => world s).
Proof.
  split.
  - intros c [fs n]. destruct c as [h|]; cbn; [|split; [done|lia]]. destruct n as [|n]; cbn; [split; [done|lia]|].
    destruct h; cbn; (split; [done|]); simpl; lia.
  - intros c s. cbn. split; [done|lia].
  - intros h s. by rewrite spawn_release.
  - done.
Qed.

(** Descriptor 6 is closed already; three more rules may be added. *)
Definition spawn_loop : loop nat spawn_closure :=
  Loop [MkRule (Some 1%positive) In Idle Idle (Spawn (Some 1%positive))]
    (Sys {[ 1%positive := FDCell (FDWrapper 6 true true 0 0) 2 ]} 3%nat).

Lemma wait_next_event_terminates_witness :
  fst (wait_next_event spawn_kernel 5 100 spawn_loop) = Ok Exit /\
  _rules (snd (wait_next_event spawn_kernel 5 100 spawn_loop)) = [] /\
  let '(r, l') := wait_next_event spawn_kernel 5 100 spawn_loop in
  r <> NoFuel /\ (length (_rules l') + world (lsys l') <= 4)%nat.
Proof.
  split; [reflexivity|]. split; [reflexivity|].
  apply (wait_next_event_terminates spawn_kernel (fun s => world s) 5 100 spawn_loop spawn_budgeted).
  simpl. lia.
Defined.
