(* ===== verification/LoopResults.v ===== *)
(** [EventLoop::wait_next_event] with closures that add rules
    (libsponge/util/eventloop.cc): adding one while the pollfds are set up is as
    safe as adding it between calls; adding one while the results are gone
    through is not, and this is the only thing that can go wrong. *)

From stdpp Require Import gmap.
From S2P Require Import Prelude Discard Buffer BufferList BufferViewList Kernel FileDescriptor EventLoop LoopSafety LoopGrowth.

(** Closures that work on live descriptors, throw if they like, and leave the
    counts right for the rules there are and those they add. *)
Record growing {W C} `{!Closures W C} (base : positive -> nat) : Prop := {
  gr_exec c rules s : owned base rules s ->
    match exec (W := W) (C := C) c (s, []) with
    | (Ok _, (s', added)) | (Exc _, (s', added)) => owned base (rules ++ added) s'
    | _ => False
    end;
  gr_ask c rules s : owned base rules s ->
    match ask (W := W) (C := C) c (s, []) with
    | (Ok _, (s', added)) | (Exc _, (s', added)) => owned base (rules ++ added) s'
    | _ => False
    end
}.
Arguments growing W C {_} base.

(** Those of LoopSafety.v, when they add nothing. *)
Lemma gentle_growing {W C} `{!Closures W C} base :
  gentle W C base -> adds_nothing (W := W) (C := C) -> growing W C base.
Proof.
  intros Hg Ha. split; intros c rules s Ho; pose proof (owned_alive base rules s Ho) as Hal.
  - pose proof (g_exec _ Hg c s Hal) as H. pose proof (exec_adds Ha c s) as E.
    destruct (exec c (s, [])) as [[| | |] [s' added]]; simpl in *; subst; try done; rewrite app_nil_r; by eapply owned_uses.
  - pose proof (g_ask _ Hg c s Hal) as H. pose proof (ask_adds Ha c s) as E.
    destruct (ask c (s, [])) as [[| | |] [s' added]]; simpl in *; subst; try done; rewrite app_nil_r; by eapply owned_uses.
Qed.

(** [add_rule] on a handle of the client: one owner more, and one rule. *)
Lemma add_rule_owned {W C} `{!Closures W C} base p d (cb it ca : C) rules (s : sys W) :
  owned base rules s -> (0 < base p)%nat ->
  exists s', add_rule (Some p) d cb it ca (s, []) = (Ok tt, (s', [MkRule (Some p) d cb it ca])) /\
    owned base (rules ++ [MkRule (Some p) d cb it ca]) s' /\ world s' = world s.
Proof.
  intros [Hall Ho] Hp.
  exists (Sys (alter (fun c => FDCell (fd_obj c) (fd_uses c + 1)) p (fds s)) (world s)). split; [done|]. split; [|done]. split.
  { apply Forall_app. split; [done|]. repeat constructor. by eexists. }
  intros q. specialize (Ho q). unfold uses in *. cbn [fds]. rewrite lookup_fmap in *. rewrite rule_count_app, rule_count_cons.
  cbn [rule_fd]. change (rule_count q []) with 0%nat. destruct (decide (p = q)) as [<-|Hne].
  - rewrite lookup_alter_eq, decide_True by done. destruct (fds s !! p); simpl in *; lia.
  - rewrite lookup_alter_ne, decide_False by congruence. destruct (fds s !! q); simpl in *; lia.
Qed.

Section results.
Context {W C : Type} `{!Closures W C} (k : kernel W) (base : positive -> nat) (Hg : growing W C base).

(** The counts of a loop are right. *)
Definition counted (l : loop W C) : Prop := owned base (_rules l) (lsys l).

(** [l'] has the rules of [l] and what closures have added. *)
Definition grown (l l' : loop W C) : Prop :=
  exists added, _rules l' = _rules l ++ added /\ counted l' /\ (adds_nothing (W := W) (C := C) -> added = []).

Definition ends_in {A} (Q : loop W C -> Prop) (r : res A) (l : loop W C) : Prop := returns r /\ Q l.

Lemma grown_refl l : counted l -> grown l l.
Proof using Type. intros Hc. exists []. by rewrite app_nil_r. Qed.

Lemma grown_trans l1 l2 l3 : grown l1 l2 -> grown l2 l3 -> grown l1 l3.
Proof using Type.
  intros (a1 & E1 & _ & H1) (a2 & E2 & Hc & H2). exists (a1 ++ a2). rewrite E2, E1, (assoc_L (++)).
  split_and!; [done|done|]. intros Ha. by rewrite H1, H2.
Qed.

Lemma exec_grows c l : counted l -> wp (invoke (exec c)) (ends_in (grown l)) l.
Proof using Hg.
  intros Hc. unfold wp, invoke, ends_in, grown. pose proof (gr_exec _ Hg c _ _ Hc) as H.
  assert (Ha : adds_nothing -> snd (snd (exec c (lsys l, []))) = []) by (intros Ha; apply (exec_adds Ha)).
  destruct (exec c (lsys l, [])) as [[| | |] [s' added]]; try done; (split; [done|]; by exists added).
Qed.

Lemma ask_grows c l : counted l -> wp (invoke (ask c)) (ends_in (grown l)) l.
Proof using Hg.
  intros Hc. unfold wp, invoke, ends_in, grown. pose proof (gr_ask _ Hg c _ _ Hc) as H.
  assert (Ha : adds_nothing -> snd (snd (ask c (lsys l, []))) = []) by (intros Ha; apply (ask_adds Ha)).
  destruct (ask c (lsys l, [])) as [[| | |] [s' added]]; try done; (split; [done|]; by exists added).
Qed.

(** Reading something of a rule that the loop has. *)
Lemma asks_live {A} (m : M (sys W) A) (l : loop W C) r (Q : res A -> loop W C -> Prop) :
  counted l -> r ∈ _rules l ->
  (forall c, live (rule_fd r) c (lsys l) -> exists a, m (lsys l) = (Ok a, lsys l)) ->
  (forall a, Q (Ok a) l) -> wp (in_sys m) Q l.
Proof using Type.
  intros Hc (kept & rest & E)%list_elem_of_split Hm HQ. unfold counted in Hc. rewrite E in Hc.
  destruct (owned_live base kept r rest (lsys l) Hc) as [c Hl]. destruct (Hm c Hl) as [a Ea].
  apply (wp_returns _ _ a l l); [|apply HQ]. unfold in_sys, on_field. rewrite Ea. by destruct l.
Qed.

(** Erasing the rule at the iterator. *)
Lemma erases kept r rest l (Q : res unit -> loop W C -> Prop) :
  counted l -> _rules l = kept ++ r :: rest ->
  (forall l', counted l' -> _rules l' = kept ++ rest -> Q (Ok tt) l') ->
  wp (erase k (length kept)) Q l.
Proof using Type.
  intros Hc E HQ. unfold counted in Hc. rewrite E in Hc.
  destruct (owned_release k base kept r rest (lsys l) Hc) as (s' & Er & Ho).
  apply (wp_returns _ _ tt l (Loop (kept ++ rest) s')); [|by apply HQ].
  unfold erase. run. rewrite E, list_lookup_middle by done. unfold in_sys, on_field. rewrite Er. cbn [_rules lsys].
  by rewrite E, delete_middle.
Qed.

(** Cancelling it first. *)
Lemma cancels {A} (next : M (loop W C) A) it kept r rest l (Q : res A -> loop W C -> Prop) :
  counted l -> _rules l = kept ++ r :: rest -> it = length kept ->
  (forall e l', grown l l' -> Q (Exc e) l') ->
  (forall l' added, counted l' -> _rules l' = kept ++ rest ++ added -> (adds_nothing (W := W) (C := C) -> added = []) ->
     wp next Q l') ->
  wp (invoke (exec (cancel r)) ;; erase k it ;; next) Q l.
Proof using Hg.
  intros Hc E -> He Hn. apply wp_bind. eapply wp_mono; [by apply exec_grows|].
  intros [u|e|u|] l1 [Hr Hgr]; try done; [|by apply He]. destruct Hgr as (added & E1 & Hc1 & Ha).
  apply wp_bind. apply (erases kept r (rest ++ added) l1); [done| |].
  - by rewrite E1, E, <- (assoc_L (++)).
  - intros l2 Hc2 E2. by apply (Hn l2 added).
Qed.

(** ** Setting up *)

Definition defined {A} (r : res A) : Prop := match r with Undef _ => False | _ => True end.

Lemma set_up_safe fuel it ps b l :
  counted l -> wp (set_up k fuel it ps b) (fun r l' => defined r /\ counted l') l.
Proof using Hg.
  revert it ps b l. induction fuel as [|fuel IH]; intros it ps b l Hc; [done|].
  cbn [set_up]. apply wp_bind. unfold wp at 1, get. cbn [fst snd].
  destruct (_rules l !! it) as [r|] eqn:Hr; [|by apply wp_ret].
  pose proof (list_elem_of_lookup_2 _ _ _ Hr) as Hin. pose proof (lookup_lt_Some _ _ _ Hr) as Hlt.
  assert (Hcancel : forall l1, _rules l1 = _rules l -> counted l1 ->
    wp (invoke (exec (cancel r)) ;; erase k it ;; set_up k fuel it ps b) (fun r l' => defined r /\ counted l') l1).
  { intros l1 E1 Hc1. apply (cancels _ it (take it (_rules l)) r (drop (S it) (_rules l)));
      [done|by rewrite E1, take_drop_middle|rewrite length_take; lia|..].
    - by intros e l' (added & _ & Hc' & _).
    - intros l' added Hc' _ _. by apply IH. }
  apply wp_bind.
  assert (Hread : forall m : M (sys W) bool, (forall c, live (rule_fd r) c (lsys l) -> exists a, m (lsys l) = (Ok a, lsys l)) ->
    forall Q, (forall a, Q (Ok a) l) -> wp (in_sys m) Q l) by (intros; by eapply asks_live).
  assert (He : forall Q, (forall a, Q (Ok a) l) ->
    wp (match direction r with In => in_sys (eof (rule_fd r)) | Out => mret false end) Q l).
  { intros Q HQ. destruct (direction r); [|by apply wp_ret]. apply Hread; [|done].
    intros c Hl. eexists. by apply (query_live (_eof)). }
  apply He. intros [|]; [by apply Hcancel|]. apply wp_bind, Hread.
  { intros c Hl. eexists. by apply (query_live (_closed)). }
  intros [|]; [by apply Hcancel|]. apply wp_bind. eapply wp_mono; [by apply ask_grows|].
  intros [interested|e|u|] l1 [Hret Hgr]; try done; [|by destruct Hgr as (? & _ & ? & _)].
  destruct Hgr as (added & E1 & Hc1 & _). apply wp_bind. apply (asks_live _ l1 r); [done| | |].
  - rewrite E1. by apply elem_of_app; left.
  - intros c Hl. eexists. by apply (query_live (_fd)).
  - intros fd. by destruct interested; apply IH.
Qed.

(** ** Going through the results *)

(** What a run from the rules [rules] may leave: some of them, in order, and the
    rules the closures have added; it ends well only if there are none of those,
    and badly only by running past the pollfds when there are some. *)
Definition swept (rules : list (Rule C)) (r : res unit) (l' : loop W C) : Prop :=
  counted l' /\
  exists stay added, _rules l' = stay ++ added /\ stay `sublist_of` rules /\
    (adds_nothing (W := W) (C := C) -> added = []) /\
    match r with
    | Ok _ => added = []
    | Exc _ => True
    | Undef u => u = OutOfBounds /\ added <> []
    | NoFuel => False
    end.

(** The rules at some point: those treated that stay, those to treat, those added. *)
Lemma process_swept fuel ps todo : forall stay added idx l rules,
  counted l -> _rules l = stay ++ todo ++ added -> length ps = (idx + length todo)%nat ->
  (length todo < fuel)%nat -> stay ++ todo `sublist_of` rules ->
  (adds_nothing (W := W) (C := C) -> added = []) ->
  wp (process k fuel (length stay) idx ps) (swept rules) l.
Proof using Hg.
  revert todo. induction fuel as [|fuel IH]; intros todo stay added idx l rules Hc E Hps Hf Hsub Ha; [lia|].
  cbn [process]. apply wp_bind. unfold wp at 1, get. cbn [fst snd]. rewrite E.
  destruct todo as [|r todo].
  { destruct added as [|x added].
    - rewrite !app_nil_r in *. rewrite (proj2 (lookup_ge_None _ _)) by done. apply wp_ret. split; [done|].
      exists stay, []. by rewrite app_nil_r.
    - cbn [app]. rewrite list_lookup_middle by done. cbn [length] in Hps.
      rewrite (proj2 (lookup_ge_None _ _)) by lia. split; [done|]. rewrite app_nil_r in Hsub.
      exists stay, (x :: added). cbn. split_and!; done. }
  cbn [app length] in *. rewrite list_lookup_middle by done.
  destruct (lookup_lt_is_Some_2 ps idx ltac:(lia)) as [p ->].
  assert (Hexc : forall e l', grown l l' -> swept rules (Exc e) l').
  { intros e l' (added' & E' & Hc' & Ha'). split; [done|]. exists (stay ++ r :: todo), (added ++ added').
    split_and!; [rewrite E', E; by list_simplifier|done| |done]. intros Hn. by rewrite Ha, Ha'. }
  destruct (has _ (Z.lor _ _)); [by eapply Hexc, grown_refl|]. cbv zeta.
  destruct (_ && _ && _).
  { apply (cancels _ _ stay r (todo ++ added)); [done..|].
    intros l' added' Hc' E' Ha'. apply (IH todo stay (added ++ added')); [done| |lia|lia| |].
    - rewrite E'. by list_simplifier.
    - etrans; [|exact Hsub]. by apply sublist_app, sublist_cons.
    - intros Hn. by rewrite Ha, Ha'. }
  assert (Hnext : forall l', grown l l' -> wp (process k fuel (length stay + 1) (idx + 1) ps) (swept rules) l').
  { intros l' (added' & E' & Hc' & Ha'). replace (length stay + 1)%nat with (length (stay ++ [r])) by (rewrite length_app; done).
    apply (IH todo (stay ++ [r]) (added ++ added')); [done| |lia|lia|by rewrite <- (assoc_L (++))|].
    - rewrite E', E. by list_simplifier.
    - intros Hn. by rewrite Ha, Ha'. }
  apply wp_bind. destruct (has _ _); [|by apply wp_ret, Hnext, grown_refl].
  assert (Hcount : forall l', grown l l' -> forall Q, (forall n, Q (Ok n) l') -> wp (in_sys (service_count r)) Q l').
  { intros l' (added' & E' & Hc' & _) Q HQ. apply (asks_live _ l' r); [done| |intros c Hl; by eapply service_count_live|done].
    rewrite E', E. set_solver. }
  apply wp_bind, (Hcount l); [by apply grown_refl|]. intros before. apply wp_bind.
  eapply wp_mono; [by apply exec_grows|]. intros [x|e|x|] l1 [Hret Hgr]; try done; [|by apply Hexc].
  apply wp_bind, (Hcount l1); [done|]. intros after. destruct (before =? after); [|by apply wp_ret, Hnext].
  apply wp_bind. eapply wp_mono; [apply ask_grows; by destruct Hgr as (? & _ & ? & _)|].
  intros [interested|e|u|] l2 [Hret2 Hgr2]; try done; [|by apply Hexc, (grown_trans l l1)].
  destruct interested; [apply Hexc|apply wp_ret, Hnext]; by apply (grown_trans l l1).
Qed.

(** With more rules to come than pollfds, the loop does not return: each round
    takes one of each. *)
Lemma process_outnumbered fuel it idx ps l l' :
  process k fuel it idx ps l = (Ok tt, l') -> (it <= length (_rules l))%nat -> (idx <= length ps)%nat ->
  (length (_rules l) + idx <= length ps + it)%nat.
Proof using Type.
  revert it idx l. induction fuel as [|fuel IH]; intros it idx l; [done|]. cbn [process].
  intros (l0 & l0' & [= <- <-] & E)%bind_ok Hit Hidx.
  destruct (_rules l !! it) as [r|] eqn:Hr; [|apply lookup_ge_None in Hr; lia].
  pose proof (lookup_lt_Some _ _ _ Hr) as Hlt.
  destruct (ps !! idx) as [p|] eqn:Hp; [|done]. pose proof (lookup_lt_Some _ _ _ Hp).
  destruct (has _ (Z.lor _ _)); [done|]. cbv zeta in E. destruct (_ && _ && _).
  { apply bind_ok in E as (x & l1 & [added1 E1]%invoke_ok & (y & l2 & E2 & E)%bind_ok). destruct y.
    apply erase_ok in E2. apply IH in E; [|rewrite E2, E1, length_delete, length_app by (rewrite lookup_app_l by done; by eexists); lia|lia].
    rewrite E2, E1, length_delete, length_app in E by (rewrite lookup_app_l by done; by eexists). lia. }
  apply bind_ok in E as (x & l1 & E1 & E). enough (exists added, _rules l1 = _rules l ++ added) as [added Ea].
  { apply IH in E; [rewrite Ea, length_app in E; lia|rewrite Ea, length_app; lia|lia]. }
  destruct (has _ _); [|injection E1 as _ <-; exists []; by rewrite app_nil_r].
  apply bind_ok in E1 as (n & l2 & E2%in_sys_ok & E1); [|apply service_count_state]. subst l2.
  apply bind_ok in E1 as (y & l2 & [added2 E2]%invoke_ok & E1).
  apply bind_ok in E1 as (n' & l3 & E3%in_sys_ok & E1); [|apply service_count_state]. subst l3.
  destruct (n =? n'); [|injection E1 as _ <-; by exists added2].
  apply bind_ok in E1 as ([] & l3 & [added3 E3]%invoke_ok & E1); [done|]. injection E1 as _ <-.
  exists (added2 ++ added3). by rewrite E3, E2, (assoc_L (++)).
Qed.

(** ** A whole call *)

Context (budget : sys W -> nat) (Hb : budgeted k budget).

(** What setting up leaves the results loop with. *)
Lemma set_up_result fuel l ps b l1 :
  counted l -> (length (_rules l) + budget (lsys l) < fuel)%nat -> set_up k fuel 0 [] false l = (Ok (ps, b), l1) ->
  counted l1 /\ length ps = length (_rules l1) /\ (length (_rules l1) < fuel)%nat /\
  (length (_rules l1) + budget (lsys l1) <= length (_rules l) + budget (lsys l))%nat.
Proof using Hb Hg.
  intros Hc Hf E. pose proof (set_up_safe fuel 0 [] false l Hc) as [_ Hc1]. rewrite E in Hc1. split; [exact Hc1|].
  pose proof (set_up_matched k fuel 0 [] false l ps b l1) as Hm. destruct Hm as (Hps & _ & _); [split_and!; [constructor|lia|done]|done|].
  rewrite firstn_all in Hps. split; [by erewrite <- Forall2_length|].
  destruct (set_up_within k budget Hb fuel 0 [] false (total budget l) l) as [_ Ht]; [lia|unfold total; lia|done|].
  rewrite E in Ht. unfold total in Ht. cbn [snd] in Ht. lia.
Qed.

Definition call_ends (fuel : nat) (l : loop W C) (r : res Result) (l' : loop W C) : Prop :=
  counted l' /\
  match r with
  | Ok Success | Undef _ =>
      exists ps b l1, set_up k fuel 0 [] false l = (Ok (ps, b), l1) /\ swept (_rules l1) ((fun _ => tt) <$> r) l'
  | NoFuel => False
  | _ => True
  end.

Lemma wait_ends fuel timeout_ms l :
  counted l -> (length (_rules l) + budget (lsys l) < fuel)%nat ->
  wp (wait_next_event k fuel timeout_ms) (call_ends fuel l) l.
Proof using Hb Hg.
  intros Hc Hf. unfold wait_next_event. apply wp_bind. unfold wp at 1.
  pose proof (set_up_safe fuel 0 [] false l Hc) as [Hd Hc0].
  destruct (set_up_within k budget Hb fuel 0 [] false (total budget l) l) as [Hn _]; [lia|unfold total; lia|done|].
  destruct (set_up k fuel 0 [] false l) as [[[ps b]|e|u|] l1] eqn:E; try done. cbn [fst snd].
  destruct (set_up_result fuel l ps b l1 Hc Hf E) as (Hc1 & Hlen & Hl1 & _).
  destruct b; [|by apply wp_ret]. simpl negb. cbv iota. apply wp_bind.
  assert (Hpoll : exists r revents l2, in_sys (call (k_poll k ps timeout_ms)) l1 = (Ok (r, revents), l2) /\
    _rules l2 = _rules l1 /\ counted l2).
  { unfold in_sys, on_field, call. destruct l1 as [rs s]. cbn. destruct (k_poll k ps timeout_ms (world s)) as [[r revents] w].
    by eexists _, _, _. }
  destruct Hpoll as (r & revents & l2 & Ep & E2 & Hc2). eapply wp_returns; [exact Ep|].
  cbv zeta beta iota.
  assert (Hserve : wp (process k fuel 0 0 (store_revents ps revents) ;; mret Success) (call_ends fuel l) l2).
  { apply wp_bind. eapply wp_mono.
    - apply (process_swept fuel _ (_rules l1) [] [] 0 l2 (_rules l1)); rewrite ?app_nil_r, ?store_revents_length; done.
    - intros r2 l3 Hs. pose proof Hs as (Hc3 & Hs2). destruct r2 as [[]|e|u|].
      + apply wp_ret. split; [done|]. by eexists _, _, _.
      + done.
      + split; [done|]. by eexists _, _, _.
      + by destruct Hs2 as (? & ? & _ & _ & _ & ?). }
  pose proof (SystemCall_total "poll" r 0) as Ht. destruct (SystemCall "poll" r 0) as [n|e|u|]; try done.
  - destruct (n =? 0); [by apply wp_ret|done].
  - destruct e as [| | | | |a code|]; try done. destruct (code =? EINTR); [by apply wp_ret|done].
Qed.
End results.


(** ** Witness: adding while setting up, and while serving

    A rule on descriptor 1 whose [interest] adds a rule, the first time, or whose
    callback does; the world holds how many may still be added. *)

Inductive adding_closure := AddOnAsk | AddOnCall | Serve | Rest.

Definition add_more : M (env nat adding_closure) unit := fun e =>
  match e with
  | (Sys f (S n), added) => add_rule (Some 1%positive) In Serve Rest Rest (Sys f n, added)
  | _ => (Ok tt, e)
  end.
Definition read_one : M (env nat adding_closure) unit := on_field fst (fun s e => (s, snd e)) (register_read (Some 1%positive)).

#[export] Instance adding_closures : Closures nat adding_closure := {
  exec c := match c with Rest => mret tt | AddOnCall => read_one ;; add_more | _ => read_one end;
  ask c := match c with AddOnAsk => add_more ;; mret true | _ => mret true end
}.

Definition one_base (p : positive) : nat := if bool_decide (p = 1%positive) then 1 else 0.
Definition ready_kernel : kernel nat := {|
  k_close := k_close spawn_kernel; k_read := k_read spawn_kernel; k_writev := k_writev spawn_kernel;
  k_getfl := k_getfl spawn_kernel; k_setfl := k_setfl spawn_kernel;
  k_poll := fun ps _ w => (SysRet (lenZ ps) 0, map pfd_events ps, w);
  k_cerr := fun _ w => w; k_strerror := fun _ => EmptyString; k_gai_strerror := fun _ => EmptyString
|}.
Definition adding_loop (cb it : adding_closure) : loop nat adding_closure :=
  Loop [MkRule (Some 1%positive) In cb it Rest] (Sys {[ 1%positive := FDCell (FDWrapper 5 false false 0 0) 2 ]} 2%nat).

Lemma adding_owned cb it : owned one_base (_rules (adding_loop cb it)) (lsys (adding_loop cb it)).
Proof.
  split; [repeat constructor; by eexists|]. intros p. unfold uses, one_base. cbn [adding_loop lsys fds _rules].
  rewrite lookup_fmap, rule_count_cons. cbn [rule_fd]. change (rule_count p []) with 0%nat.
  destruct (decide (p = 1%positive)) as [->|Hne].
  - rewrite lookup_singleton_eq, decide_True, bool_decide_eq_true_2 by done. simpl. lia.
  - by rewrite lookup_singleton_ne, decide_False, bool_decide_eq_false_2 by congruence.
Qed.

Lemma register_uses (s : sys nat) c : fds s !! 1%positive = Some c ->
  exists s', register_read (Some 1%positive) s = (Ok tt, s') /\ uses s' = uses s /\ world s' = world s.
Proof.
  intros Hc. unfold register_read. rewrite (update_ok _ c) by (by exists 1%positive).
  eexists. split; [done|]. split; [|done]. unfold uses. cbn [put fds]. rewrite fmap_insert. cbn [map_obj fd_uses].
  apply insert_id. by rewrite lookup_fmap, Hc.
Qed.

Lemma read_one_ok (rules : list (Rule adding_closure)) s : owned one_base rules s ->
  exists s', read_one (s, []) = (Ok tt, (s', [])) /\ owned one_base rules s' /\ world s' = world s.
Proof.
  intros Ho. destruct (owned_alive _ _ _ Ho 1%positive) as [cell Hc]; [vm_compute; lia|].
  destruct (register_uses s cell Hc) as (s1 & E & Hu & Hw). exists s1. unfold read_one, on_field. cbn [fst snd]. rewrite E.
  split; [done|]. split; [by eapply owned_uses|done].
Qed.

Lemma add_more_ok (rules : list (Rule adding_closure)) s : owned one_base rules s ->
  exists s' added, add_more (s, []) = (Ok tt, (s', added)) /\ owned one_base (rules ++ added) s' /\
    (world s' + length added <= world s)%nat.
Proof.
  intros Ho. destruct s as [f [|n]]; [exists (Sys f 0%nat), []; rewrite app_nil_r; split; [done|split; [done|simpl; lia]]|].
  destruct (add_rule_owned one_base 1%positive In Serve Rest Rest rules (Sys f n) Ho) as (s2 & E & Ho2 & Hw); [vm_compute; lia|].
  eexists _, _. split; [exact E|]. split; [exact Ho2|]. rewrite Hw. simpl. lia.
Qed.

Lemma adding_growing : growing nat adding_closure one_base.
Proof.
  split; intros c rules s Ho.
  - destruct (read_one_ok rules s Ho) as (s1 & E1 & Ho1 & _). destruct (add_more_ok rules s1 Ho1) as (s2 & added & E2 & Ho2 & _).
    destruct c; cbn [exec adding_closures]; run; rewrite ?E1, ?E2, ?app_nil_r; done.
  - destruct (add_more_ok rules s Ho) as (s2 & added & E2 & Ho2 & _).
    destruct c; cbn [ask adding_closures]; run; rewrite ?E2, ?app_nil_r; done.
Qed.

Lemma adding_budgeted : budgeted ready_kernel (fun s => world s).
Proof.
  split.
  - intros c [f n]. destruct c; simpl; unfold read_one, on_field, register_read, update, add_more; run; cbn [fst snd fds];
      destruct (f !! 1%positive); simpl; try destruct n; simpl; split; done || lia.
  - intros c [f [|n]]; destruct c; simpl; split; done || lia.
  - intros h s. unfold release, destroy_wrapper. destruct h as [p|]; [|done]. destruct (fds s !! p) as [c|] eqn:E; [|done].
    case_bool_decide; [|done]. destruct (_closed (fd_obj c)); [done|].
    unfold close, fd_num, deref, update, call. run. rewrite E. cbn. by rewrite E.
  - done.
Qed.

