(* ===== verification/LoopWorklist.v ===== *)
(** [EventLoop::wait_next_event] on any closures, rules they add included
    (libsponge/util/eventloop.cc), without its iterators: each of the two loops
    takes the rules from the front of a worklist, and the rules a closure adds go
    to the end of it. *)

From stdpp Require Import gmap.
From S2P Require Import Prelude Discard Buffer BufferList BufferViewList Kernel FileDescriptor EventLoop LoopSafety LoopGrowth LoopResults.

Section worklist.
Context {W C : Type} `{!Closures W C} (k : kernel W).

(** What treating one rule does: it works on the system, and says what it adds. *)

(** A closure starts with nothing added. *)
Definition calls {A} (m : M (env W C) A) : M (env W C) A := fun e =>
  let '(r, (s, added)) := m (fst e, []) in (r, (s, snd e ++ added)).
Definition does {A} (m : M (sys W) A) : M (env W C) A := on_field fst (fun s e => (s, snd e)) m.

(** The [cancel] closure runs, then the rule's handle goes. *)
Definition cancel_item (r : Rule C) : M (env W C) unit := calls (exec (cancel r)) ;; does (release k (rule_fd r)).

(** A rule whose descriptor is at its end (for reading) or closed is cancelled;
    another gets a pollfd of its own descriptor, for its direction or for nothing. *)
Definition set_up_item (r : Rule C) : M (env W C) (option pollfd) :=
  finished ← does (at_eof ← match direction r with In => eof (rule_fd r) | Out => mret false end;
                   if at_eof : bool then mret true else closed (rule_fd r));
  if finished : bool then cancel_item r ;; mret None
  else
    interested ← calls (ask (interest r));
    fd ← does (fd_num (rule_fd r));
    mret (Some (PollFd fd (if interested : bool then direction_value (direction r) else 0) 0)).

(** A rule with results [p]: an error is thrown; a mere hangup cancels it; if it
    is ready it is called, and must move on or lose interest. *)
Definition serve_item (p : pollfd) (r : Rule C) : M (env W C) (option unit) :=
  let ready := has (pfd_revents p) (pfd_events p) in
  if has (pfd_revents p) (Z.lor POLLERR POLLNVAL)
  then throw (runtime_error "EventLoop: error on polled file descriptor")
  else if has (pfd_revents p) POLLHUP && negb (pfd_events p =? 0) && negb ready then cancel_item r ;; mret None
  else if ready then
    before ← does (service_count r);
    calls (exec (callback r)) ;;
    after ← does (service_count r);
    stuck ← if before =? after then calls (ask (interest r)) else mret false;
    if stuck : bool
    then throw (runtime_error "EventLoop: busy wait detected: callback did not read/write fd and is still interested")
    else mret (Some tt)
  else mret (Some tt).

(** The rules from the [i]-th on; the answers for the rules that stay, the rules
    left, and the system. *)
Fixpoint work {B} (f : nat -> Rule C -> M (env W C) (option B)) (fuel i : nat) (todo : list (Rule C)) (s : sys W) :
    res (list B) * list (Rule C) * sys W :=
  match fuel, todo with
  | O, _ => (NoFuel, todo, s)
  | S _, [] => (Ok [], [], s)
  | S fuel, r :: todo =>
      let '(answer, (s, added)) := f i r (s, []) in
      match answer with
      | Ok None => work f fuel (S i) (todo ++ added) s
      | Ok (Some b) => let '(bs, stay, s) := work f fuel (S i) (todo ++ added) s in (cons b <$> bs, r :: stay, s)
      | Exc e => (Exc e, r :: todo ++ added, s)
      | Undef u => (Undef u, r :: todo ++ added, s)
      | NoFuel => (NoFuel, r :: todo ++ added, s)
      end
  end.

(** The [i]-th rule has the [i]-th pollfd. *)
Definition serve_nth (pollfds : list pollfd) (i : nat) (r : Rule C) : M (env W C) (option unit) :=
  match pollfds !! i with Some p => serve_item p r | None => lift (Undef OutOfBounds) end.

Definition wait_worklist (fuel : nat) (timeout_ms : Z) : M (loop W C) Result := fun l =>
  let '(r, stay, s) := work (fun _ => set_up_item) fuel 0 (_rules l) (lsys l) in
  match r with
  | Ok pollfds =>
      if negb (existsb wants pollfds) then (Ok Exit, Loop stay s)
      else
        let '(r, revents, w) := k_poll k pollfds timeout_ms (world s) in
        let serve :=
          let '(r, stay, s) := work (serve_nth (store_revents pollfds revents)) fuel 0 stay (Sys (fds s) w) in
          ((fun _ => Success) <$> r, Loop stay s) in
        match SystemCall "poll" r 0 with
        | Ok n => if n =? 0 then (Ok Timeout, Loop stay (Sys (fds s) w)) else serve
        | Exc (unix_error _ code) => if code =? EINTR then (Ok Exit, Loop stay (Sys (fds s) w)) else serve
        | Exc e => (Exc e, Loop stay (Sys (fds s) w))
        | Undef u => (Undef u, Loop stay (Sys (fds s) w))
        | NoFuel => (NoFuel, Loop stay (Sys (fds s) w))
        end
  | Exc e => (Exc e, Loop stay s)
  | Undef u => (Undef u, Loop stay s)
  | NoFuel => (NoFuel, Loop stay s)
  end.

(** ** The loops take the rules from a worklist *)

(** One rule treated, in the loop: the rules after it grow by what it adds. *)
Definition treated {A B} (kept : list (Rule C)) (r : Rule C) (todo : list (Rule C))
    (next : option A -> M (loop W C) B) (out : res (option A) * env W C) : res B * loop W C :=
  let '(answer, (s, added)) := out in
  match answer with
  | Ok None => next None (Loop (kept ++ todo ++ added) s)
  | Ok (Some a) => next (Some a) (Loop (kept ++ r :: todo ++ added) s)
  | Exc e => (Exc e, Loop (kept ++ r :: todo ++ added) s)
  | Undef u => (Undef u, Loop (kept ++ r :: todo ++ added) s)
  | NoFuel => (NoFuel, Loop (kept ++ r :: todo ++ added) s)
  end.

(** [cancel] and [erase], after closures have added [more]. *)
Lemma cancel_treated {A B} kept r todo more s (next : option A -> M (loop W C) B) :
  (invoke (exec (cancel r)) ;; erase k (length kept) ;; next None) (Loop (kept ++ r :: todo ++ more) s) =
  treated kept r todo next ((cancel_item r ;; mret None) (s, more)).
Proof.
  unfold treated, cancel_item, calls, does, erase, invoke, in_sys, on_field. run. cbn [fst snd lsys _rules].
  destruct (exec (cancel r) (s, [])) as [[[]|e|u|] [s1 added]]; cbn [fst snd lsys _rules];
    rewrite <- (assoc_L (++) kept), <- app_comm_cons, <- (assoc_L (++) todo); try done.
  rewrite list_lookup_middle by done. cbn [fst snd lsys _rules]. destruct (release k (rule_fd r) s1) as [[[]|e|u|] s2]; try done.
  cbn [fst snd lsys _rules]. by rewrite delete_middle.
Qed.

Lemma bind_calls {A B D} kept r todo more s (m : M (env W C) A) (f : A -> M (loop W C) B)
    (g : A -> M (env W C) (option D)) (next : option D -> M (loop W C) B) :
  (forall a s added, f a (Loop (kept ++ r :: todo ++ added) s) = treated kept r todo next (g a (s, added))) ->
  (invoke m ≫= f) (Loop (kept ++ r :: todo ++ more) s) = treated kept r todo next ((calls m ≫= g) (s, more)).
Proof.
  intros Hf. unfold mbind, M_bind, invoke, calls. cbn [fst snd lsys _rules].
  destruct (m (s, [])) as [[a|e|u|] [s1 added]]; cbn [treated];
    rewrite <- (assoc_L (++) kept), <- app_comm_cons, <- (assoc_L (++) todo); [apply Hf|done..].
Qed.

Lemma bind_does {A B D} kept r todo more s (m : M (sys W) A) (f : A -> M (loop W C) B)
    (g : A -> M (env W C) (option D)) (next : option D -> M (loop W C) B) :
  (forall a s, f a (Loop (kept ++ r :: todo ++ more) s) = treated kept r todo next (g a (s, more))) ->
  (in_sys m ≫= f) (Loop (kept ++ r :: todo ++ more) s) = treated kept r todo next ((does m ≫= g) (s, more)).
Proof.
  intros Hf. unfold mbind, M_bind, in_sys, does, on_field. cbn [fst snd lsys _rules].
  destruct (m s) as [[a|e|u|] s1]; cbn [treated]; [apply Hf|done..].
Qed.

(** The code asks [closed] only when the end of file has not been reached. *)
Lemma does_bind {A B D} (m : M (sys W) A) (f : A -> M (sys W) B) (g : B -> M (env W C) D) e :
  (does (m ≫= f) ≫= g) e = (does m ≫= (fun a => does (f a) ≫= g)) e.
Proof. destruct e as [s more]. unfold does, on_field. run. cbn [fst snd]. by destruct (m s) as [[a|?|?|] s1]. Qed.

Lemma set_up_treats fuel kept r todo s ps b :
  set_up k (S fuel) (length kept) ps b (Loop (kept ++ r :: todo) s) =
  treated kept r todo (fun answer =>
    match answer with
    | None => set_up k fuel (length kept) ps b
    | Some p => set_up k fuel (length kept + 1) (ps ++ [p]) (b || wants p)
    end) (set_up_item r (s, [])).
Proof.
  set (next := fun _ => _). unfold set_up_item. rewrite does_bind. cbn [set_up].
  set (m := match direction r with In => eof (rule_fd r) | Out => mret false end).
  unfold get. unfold mbind at 1, M_bind at 1. cbn [_rules]. rewrite list_lookup_middle by done.
  rewrite (bind_pointwise _ (in_sys m)) by (unfold m; by destruct (direction r)).
  rewrite <- (app_nil_r todo) at 1. apply bind_does. intros [] s1.
  { exact (cancel_treated kept r todo [] s1 next). }
  apply bind_does. intros [] s2; [exact (cancel_treated kept r todo [] s2 next)|].
  apply bind_calls. intros interested s3 more. apply bind_does. intros fd s4. unfold treated, next. run.
  destruct interested; unfold wants; cbn [pfd_events negb Z.eqb]; [|by rewrite orb_false_r].
  by rewrite has_direction, orb_true_r.
Qed.

Lemma set_up_works fuel i kept todo s ps b :
  set_up k fuel (length kept) ps b (Loop (kept ++ todo) s) =
  let '(r, stay, s') := work (fun _ => set_up_item) fuel i todo s in
  ((fun qs => (ps ++ qs, b || existsb wants qs)) <$> r, Loop (kept ++ stay) s').
Proof.
  revert i kept todo s ps b. induction fuel as [|fuel IH]; intros i kept todo s ps b; [done|].
  destruct todo as [|r todo].
  { cbn [set_up work]. run. cbn [_rules]. rewrite app_nil_r, lookup_ge_None_2 by done. cbn. by rewrite !app_nil_r, orb_false_r. }
  rewrite set_up_treats. cbn [work]. unfold treated. destruct (set_up_item r (s, [])) as [answer [s1 added]].
  destruct answer as [[p|]|e|u|]; try done.
  rewrite (cons_middle r kept), (assoc_L (++) kept), <- (length_snoc kept r), (IH (S i)).
  destruct (work _ fuel (S i) _ s1) as [[[qs| | |] stay] s2]; cbn; by rewrite <- ?(assoc_L (++)), <- ?orb_assoc.
Qed.

Lemma process_treats fuel kept r todo s idx ps :
  process k (S fuel) (length kept) idx ps (Loop (kept ++ r :: todo) s) =
  treated kept r todo (fun answer =>
    match answer with
    | None => process k fuel (length kept) (idx + 1) ps
    | Some _ => process k fuel (length kept + 1) (idx + 1) ps
    end) (serve_nth ps idx r (s, [])).
Proof.
  set (next := fun _ => _). unfold serve_nth. cbn [process]. unfold get. unfold mbind at 1, M_bind at 1. cbn [_rules].
  rewrite list_lookup_middle by done. rewrite <- (app_nil_r todo) at 1.
  destruct (ps !! idx) as [p|]; [|done]. unfold serve_item. destruct (has _ (Z.lor _ _)); [done|]. cbv zeta.
  destruct (_ && _ && _); [exact (cancel_treated kept r todo [] s next)|].
  destruct (has (pfd_revents p) (pfd_events p)); [|done].
  rewrite bind_assoc. apply bind_does. intros n s1. rewrite bind_assoc. apply bind_calls. intros [] s2 more.
  rewrite bind_assoc. apply bind_does. intros n2 s3. destruct (n =? n2); [|done].
  rewrite bind_assoc. apply bind_calls. by intros [] s4 more2.
Qed.

Lemma process_works fuel kept todo s idx ps :
  process k fuel (length kept) idx ps (Loop (kept ++ todo) s) =
  let '(r, stay, s') := work (serve_nth ps) fuel idx todo s in ((fun _ => tt) <$> r, Loop (kept ++ stay) s').
Proof.
  revert kept todo s idx. induction fuel as [|fuel IH]; intros kept todo s idx; [done|].
  destruct todo as [|r todo].
  { cbn [process work]. run. cbn [_rules]. by rewrite app_nil_r, lookup_ge_None_2 by done. }
  rewrite process_treats. cbn [work]. unfold treated. destruct (serve_nth ps idx r (s, [])) as [answer [s1 added]].
  destruct answer as [[[]|]|e|u|]; try done; rewrite (Nat.add_1_r idx); [|apply IH].
  rewrite (cons_middle r kept), (assoc_L (++) kept), <- (length_snoc kept r), IH.
  destruct (work _ fuel _ _ s1) as [[[qs| | |] stay] s2]; cbn; by rewrite <- (assoc_L (++)).
Qed.
End worklist.

(** ** What a pass adds *)

(** The rules that the closures of a pass add. *)
Fixpoint additions {W C B} (f : nat -> Rule C -> M (env W C) (option B)) (fuel i : nat) (todo : list (Rule C)) (s : sys W) :
    list (Rule C) :=
  match fuel, todo with
  | S fuel, r :: todo =>
      let '(answer, (s, added)) := f i r (s, []) in
      added ++ match answer with Ok _ => additions f fuel (S i) (todo ++ added) s | _ => [] end
  | _, _ => []
  end.

Section additions.
Context {W C : Type} `{!Closures W C} (k : kernel W) (base : positive -> nat) (Hg : growing W C base).

Section item.
Context (kept : list (Rule C)) (r : Rule C) (todo : list (Rule C)).

(** The counts are right while [r] is treated. *)
Definition treating (e : env W C) : Prop := owned base (kept ++ r :: todo ++ snd e) (fst e).

Lemma treating_more rs s added : owned base ((kept ++ r :: todo ++ rs) ++ added) s -> treating (s, rs ++ added).
Proof using Type. unfold treating. cbn. by rewrite <- (assoc_L (++)), <- app_comm_cons, <- (assoc_L (++)). Qed.

Lemma calls_exec c e : treating e -> wp (calls (exec c)) (fun res e' => returns res /\ treating e') e.
Proof using Hg.
  intros He. pose proof (gr_exec _ Hg c _ _ He) as H. unfold wp, calls.
  by destruct (exec c (fst e, [])) as [[| | |] [s' added]]; try done; (split; [done|]); apply treating_more.
Qed.
Lemma calls_ask c e : treating e -> wp (calls (ask c)) (fun res e' => returns res /\ treating e') e.
Proof using Hg.
  intros He. pose proof (gr_ask _ Hg c _ _ He) as H. unfold wp, calls.
  by destruct (ask c (fst e, [])) as [[| | |] [s' added]]; try done; (split; [done|]); apply treating_more.
Qed.

Lemma does_service e (Q : res Z -> env W C -> Prop) :
  treating e -> (forall n, Q (Ok n) e) -> wp (does (service_count r)) Q e.
Proof using Type.
  intros He HQ. destruct (owned_live base _ _ _ _ He) as [c Hl]. destruct (service_count_live r c _ Hl) as [n E].
  unfold wp, does, on_field. rewrite E. destruct e. apply HQ.
Qed.

(** A rule served returns or throws, and the counts stay right. *)
Lemma serve_item_safe p e : treating e ->
  wp (serve_item k p r) (fun res e' =>
    match res with
    | Ok None => owned base (kept ++ todo ++ snd e') (fst e')
    | Ok (Some _) | Exc _ => treating e'
    | _ => False
    end) e.
Proof using Hg.
  intros He. unfold serve_item. destruct (has _ (Z.lor _ _)); [done|]. destruct (_ && _ && _).
  { unfold cancel_item. apply wp_bind, wp_bind. eapply wp_mono; [by apply calls_exec|].
    intros [u|x|u|] e1 [Hr He1]; try done.
    destruct (owned_release k base kept r (todo ++ snd e1) (fst e1) He1) as (s' & Er & Ho).
    unfold wp, does, on_field. by rewrite Er. }
  destruct (has (pfd_revents p) (pfd_events p)); [|done].
  apply wp_bind, does_service; [done|]. intros before. apply wp_bind.
  eapply wp_mono; [by apply calls_exec|]. intros [u|x|u|] e1 [Hr He1]; try done.
  apply wp_bind, does_service; [done|]. intros after. apply wp_bind. destruct (before =? after); [|done].
  eapply wp_mono; [by apply calls_ask|]. by intros [[]|x|u'|] e2 [Hr2 He2].
Qed.
End item.

(** A results pass with a pollfd for every rule goes wrong only if a closure adds one. *)
Lemma work_overruns ps fuel : forall i kept todo s u stay s',
  owned base (kept ++ todo) s -> (i + length todo <= length ps)%nat ->
  work (serve_nth k ps) fuel i todo s = (Undef u, stay, s') -> additions (serve_nth k ps) fuel i todo s <> [].
Proof using Hg.
  induction fuel as [|fuel IH]; intros i kept todo s u stay s' Ho Hl; [done|].
  destruct todo as [|r todo]; [done|]. cbn [work additions length] in *.
  destruct (lookup_lt_is_Some_2 ps i ltac:(lia)) as [p Hp].
  assert (Hsafe : treating kept r todo (s, [])) by (unfold treating; cbn; by rewrite app_nil_r).
  apply (serve_item_safe kept r todo p) in Hsafe. unfold wp in Hsafe.
  assert (Ei : serve_nth k ps i r = serve_item k p r) by (unfold serve_nth; by rewrite Hp). rewrite Ei.
  destruct (serve_item k p r (s, [])) as [answer [s1 added]]. cbn [fst snd] in Hsafe.
  destruct added as [|x added]; [|by destruct answer as [[]| | |]]. rewrite app_nil_r in *. cbn [app].
  destruct answer as [[[]|]|e|u'|]; try done.
  - unfold treating in Hsafe. cbn in Hsafe. rewrite app_nil_r, cons_middle, (assoc_L (++)) in Hsafe.
    destruct (work _ fuel (S i) todo s1) as [[bs stay1] s2] eqn:E. intros [= Hu _ _].
    destruct bs as [bs|e|u'|]; try done. eapply (IH (S i) (kept ++ [r])); [exact Hsafe|lia|exact E].
  - intros E. eapply (IH (S i) kept); [exact Hsafe|lia|exact E].
Qed.

(** The rules that closures add while a call goes through its poll results. *)
Definition results_additions (fuel : nat) (timeout_ms : Z) (l : loop W C) : list (Rule C) :=
  match set_up k fuel 0 [] false l with
  | (Ok (pollfds, _), l1) =>
      let '(_, revents, w) := k_poll k pollfds timeout_ms (world (lsys l1)) in
      additions (serve_nth k (store_revents pollfds revents)) fuel 0 (_rules l1) (Sys (fds (lsys l1)) w)
  | _ => []
  end.

Context (budget : sys W -> nat) (Hb : budgeted k budget).

Lemma wait_overruns fuel timeout_ms l u l2 :
  counted base l -> (length (_rules l) + budget (lsys l) < fuel)%nat ->
  wait_next_event k fuel timeout_ms l = (Undef u, l2) -> results_additions fuel timeout_ms l <> [].
Proof using Hb Hg.
  intros Hc Hf. unfold wait_next_event, results_additions. run.
  pose proof (set_up_safe k base Hg fuel 0 [] false l Hc) as [Hd _].
  destruct (set_up k fuel 0 [] false l) as [[[ps b]|e|u'|] l1] eqn:E; try done.
  destruct (set_up_result k base Hg budget Hb fuel l ps b l1 Hc Hf E) as (Hc1 & Hlen & Hl1 & _).
  destruct b; [|done]. destruct l1 as [rs s1]. unfold in_sys, on_field, call. cbn.
  destruct (k_poll k ps timeout_ms (world s1)) as [[r revents] w]. cbn [fst snd].
  assert (Hp : forall l3, process k fuel 0 0 (store_revents ps revents) (Loop rs (Sys (fds s1) w)) = (Undef u, l3) ->
    additions (serve_nth k (store_revents ps revents)) fuel 0 rs (Sys (fds s1) w) <> []).
  { intros l3 Ep. rewrite (process_works k fuel [] rs _ 0 (store_revents ps revents) :
      process k fuel 0 0 _ (Loop rs _) = _) in Ep.
    destruct (work _ fuel 0 rs _) as [[bs stay] s3] eqn:Ew. destruct bs as [|e|u'|]; try done.
    eapply (work_overruns _ fuel 0 []); [exact Hc1| |exact Ew]. rewrite store_revents_length. cbn [_rules] in Hlen. lia. }
  pose proof (SystemCall_total "poll" r 0) as Ht.
  destruct (SystemCall "poll" r 0) as [n|[]|u'|]; try done; case_match; try done;
    destruct (process _ _ _ _ _ _) as [[[]|e|u'|] l3]; intros [= -> ->]; by eapply Hp.
Qed.
End additions.

(** C15: the loops of [wait_next_event] on any closures, rules they add included,
    and on every outcome: each is one pass over a worklist, in order.  Setting up
    gives each rule its own pollfd (its descriptor's number; its direction when
    [interest] says so, nothing otherwise) or cancels it; the results loop serves
    the [i]-th rule with the [i]-th pollfd, and is undefined when there is none; a
    rule a closure adds goes to the end of the pass in progress. *)
Theorem wait_next_event_worklist {W C : Type} `{!Closures W C} (k : kernel W) (fuel : nat)
    (timeout_ms : Z) (l : loop W C) :
  wait_next_event k fuel timeout_ms l = wait_worklist k fuel timeout_ms l.
Proof.
  destruct l as [rules s]. unfold wait_next_event, wait_worklist. run. cbn [_rules lsys].
  rewrite (set_up_works k fuel 0 [] rules s [] false : set_up k fuel 0 [] false (Loop rules s) = _).
  destruct (work (fun _ => set_up_item k) fuel 0 rules s) as [[[ps|e|u|] stay] s1]; try done. cbn.
  destruct (existsb wants ps); [|done]. unfold in_sys, on_field, call. cbn.
  destruct (k_poll k ps timeout_ms (world s1)) as [[r revents] w]. cbn [fst snd].
  assert (Hp : forall s2, process k fuel 0 0 (store_revents ps revents) (Loop stay s2) = _)
    by (intros s2; exact (process_works k fuel [] stay s2 0 (store_revents ps revents))).
  destruct (SystemCall "poll" r 0) as [n|[]|u|]; try done; case_match; try done;
    rewrite Hp; by destruct (work _ _ _ _ _) as [[[?|?|?|] ?] ?].
Qed.

(** The rule that the first one's [interest] adds is set up in the same pass. *)
Lemma wait_next_event_worklist_witness :
  fst (fst (work (fun _ => set_up_item ready_kernel) 9 0 (_rules (adding_loop Serve AddOnAsk)) (lsys (adding_loop Serve AddOnAsk)))) =
    Ok [PollFd 5 POLLIN 0; PollFd 5 POLLIN 0] /\
  wait_next_event ready_kernel 9 100 (adding_loop Serve AddOnAsk) = wait_worklist ready_kernel 9 100 (adding_loop Serve AddOnAsk).
Proof. split; [by vm_compute|]. apply (wait_next_event_worklist ready_kernel 9 100 (adding_loop Serve AddOnAsk)). Defined.
