(* ===== verification/LoopLife.v ===== *)
(** The life of an [EventLoop] object (libsponge/util/eventloop.hh): it is made
    without rules, a client adds rules, waits for events and does what it likes
    in between, and the destructor lets go of the rules that are left. *)

From stdpp Require Import gmap.
From S2P Require Import Prelude Discard Buffer BufferList BufferViewList Kernel FileDescriptor EventLoop LoopSafety LoopGrowth LoopResults LoopWorklist.

(** What a client does with its loop. *)
Inductive loop_op (C : Type) :=
  | AddRule (fd : handle) (d : Direction) (callback interest cancel : C)
  | WaitNextEvent (timeout_ms : Z)
  | Do (c : C).
Arguments AddRule {C}.
Arguments WaitNextEvent {C}.
Arguments Do {C}.

Section life.
Context {W C : Type} `{!Closures W C} (k : kernel W).

Definition do_op (fuel : nat) (op : loop_op C) : M (loop W C) unit :=
  match op with
  | AddRule fd d cb it ca => invoke (add_rule fd d cb it ca)
  | WaitNextEvent timeout_ms => wait_next_event k fuel timeout_ms ;; mret tt
  | Do c => invoke (exec c)
  end.

(** The client may catch what a call throws, and go on. *)
Definition client_step (fuel : nat) (op : loop_op C * bool) : M (loop W C) unit :=
  if snd op then catch (do_op fuel (fst op)) (fun _ => mret tt) else do_op fuel (fst op).
Definition run_client (fuel : nat) (ops : list (loop_op C * bool)) : M (loop W C) unit :=
  for_each (client_step fuel) ops.

(** The destructor of [_rules]: each rule's handle is released, in order. *)
Definition destroy_rules : M (loop W C) unit := fun l =>
  let '(r, s) := for_each (fun r => release k (rule_fd r)) (_rules l) (lsys l) in (r, Loop [] s).

(** [{ EventLoop loop; ... }] *)
Definition life (fuel : nat) (ops : list (loop_op C * bool)) : M (sys W) unit := fun s =>
  let '(r, l) := (unwinding destroy_rules (run_client fuel ops) ;; destroy_rules) (Loop [] s) in (r, lsys l).

(** ** Nothing is left behind *)

Context (base : positive -> nat) (budget : W -> nat).

(** The objects there are, and their owners, are the client's. *)
Definition only_client (s : sys W) : Prop := forall p, uses s !! p = if base p is O then None else Some (base p).

Lemma only_client_owned s : only_client s <-> owned (C := C) base [] s.
Proof using Type.
  unfold only_client, owned, rule_count. split.
  - intros H. split; [done|]. intros p. rewrite H. destruct (base p); simpl; lia.
  - intros [_ H] p. specialize (H p). cbn [filter list_filter length] in H. rewrite Nat.add_0_r in H.
    destruct (uses s !! p); [destruct H as [-> ?]; by destruct (base p); [lia|]|by rewrite H].
Qed.

(** Rules are added for descriptors the client has. *)
Definition op_ok (op : loop_op C * bool) : Prop :=
  match fst op with AddRule fd _ _ _ _ => exists p, fd = Some p /\ (0 < base p)%nat | _ => True end.

Lemma destroys (rules : list (Rule C)) s :
  owned base rules s -> exists s', for_each (fun r => release k (rule_fd r)) rules s = (Ok tt, s') /\ owned (C := C) base [] s'.
Proof using Type.
  revert s. induction rules as [|r rules IH]; intros s Ho; [by exists s|]. cbn [for_each]. run.
  destruct (owned_release k base [] r rules s Ho) as (s1 & -> & Ho1). by apply IH.
Qed.

Context (Hg : growing W C base) (Hb : budgeted (C := C) k (fun s => budget (world s))).
Abbreviation Total := (total (fun s => budget (world s))).

(** In the call a closure adds a rule while the results of the poll are gone
    through, and the call reads past its pollfds. *)
Definition added_in_results (fuel : nat) (op : loop_op C) (l : loop W C) : Prop :=
  exists timeout_ms, op = WaitNextEvent timeout_ms /\ results_additions k fuel timeout_ms l <> [] /\
    fst (wait_next_event k fuel timeout_ms l) = Undef OutOfBounds.

(** One of the client's calls does this, after the calls before it. *)
Definition client_adds_in_results (fuel : nat) (ops : list (loop_op C * bool)) (l : loop W C) : Prop :=
  exists before op after l0, ops = before ++ op :: after /\
    run_client fuel before l = (Ok tt, l0) /\ added_in_results fuel (fst op) l0.

(** What a call of the client may end in. *)
Definition survives {A} (bad : Prop) (r : res A) : Prop :=
  match r with
  | Ok _ | Exc _ => True
  | Undef u => u = OutOfBounds /\ bad /\ ~ adds_nothing (W := W) (C := C)
  | NoFuel => False
  end.

(** One call: the counts stay right, and at most one rule more. *)
Lemma do_op_ends fuel op l :
  op_ok op -> counted base l -> (Total l < fuel)%nat ->
  wp (do_op fuel (fst op)) (fun r l' => survives (added_in_results fuel (fst op) l) r /\ counted base l' /\ (Total l' <= Total l + 1)%nat) l.
Proof using Hb Hg.
  destruct op as [op b]. intros Hop Hc Hf. destruct op as [fd d cb it ca|timeout_ms|c]; cbn [fst do_op] in *.
  - destruct Hop as (p & -> & Hp). destruct (add_rule_owned base p d cb it ca (_rules l) (lsys l) Hc Hp) as (s' & E & Ho & Hw).
    eapply wp_returns; [unfold invoke; rewrite E; reflexivity|]. split; [done|]. split; [exact Ho|].
    unfold LoopGrowth.total. cbn [_rules lsys]. rewrite length_app, Hw. simpl. lia.
  - apply wp_bind. pose proof (wait_within k _ Hb fuel timeout_ms l Hf) as [_ Ht].
    pose proof (wait_ends k base Hg _ Hb fuel timeout_ms l Hc Hf) as H. unfold wp in *.
    destruct (wait_next_event k fuel timeout_ms l) as [r l'] eqn:Ew. cbn [fst snd] in *. destruct H as [Hc' H].
    destruct r as [res|e|u|]; try done; cbn [mret M_ret fst snd]; [by split_and!; [..|lia]|by split_and!; [..|lia]|].
    destruct H as (ps & b' & l1 & Es & _ & stay & added & Hl' & Hstay & Ha & [-> Hne]).
    split; [|by split; [|lia]]. split; [done|]. split.
    { exists timeout_ms. rewrite Ew. split_and!; [done| |done]. by eapply wait_overruns. }
    intros Hn. by apply Hne, Ha.
  - pose proof (exec_grows base Hg c l Hc) as [Hr (added & _ & Hc' & _)].
    destruct (exec_within k _ Hb c l _ (le_n _)) as [_ Ht]. unfold wp.
    split; [by destruct (fst (invoke (exec c) l))|]. split; [done|lia].
Qed.

Lemma client_adds_later fuel op ops l l1 :
  client_step fuel op l = (Ok tt, l1) -> client_adds_in_results fuel ops l1 -> client_adds_in_results fuel (op :: ops) l.
Proof using Type.
  intros E (before & op' & after & l0 & -> & El & Hop). exists (op :: before), op', after, l0. split; [done|].
  split; [|done]. unfold run_client in *. cbn [for_each]. run. by rewrite E.
Qed.

Lemma run_client_ends fuel ops l :
  Forall op_ok ops -> counted base l -> (Total l + length ops <= fuel)%nat ->
  wp (run_client fuel ops) (fun r l' => survives (client_adds_in_results fuel ops l) r /\ counted base l') l.
Proof using Hb Hg.
  intros Hops. revert l. induction Hops as [|op ops Hop _ IH]; intros l Hc Hf; [done|].
  cbn [length] in Hf. unfold run_client. cbn [for_each]. apply wp_bind.
  assert (Hstep : wp (client_step fuel op)
    (fun r l' => survives (added_in_results fuel (fst op) l) r /\ counted base l' /\ (Total l' <= Total l + 1)%nat) l).
  { unfold client_step. destruct (snd op); [|apply do_op_ends; done || lia].
    pose proof (do_op_ends fuel op l Hop Hc ltac:(lia)) as H. unfold wp, catch in *.
    by destruct (do_op fuel (fst op) l) as [[] ?]. }
  unfold wp in *. destruct (client_step fuel op l) as [r l1] eqn:E. cbn [fst snd] in *. destruct Hstep as (Hs & Hc1 & Ht1).
  destruct r as [[]|e|u|]; cbn [survives] in Hs |- *; try done.
  - specialize (IH l1 Hc1 ltac:(lia)). destruct IH as [Hs' Hc']. split; [|exact Hc'].
    unfold run_client in Hs'. destruct (for_each (client_step fuel) ops l1) as [[[]|e|u|] l2]; cbn in *; try done.
    destruct Hs' as (-> & Hlater & Hn). split; [done|]. split; [by eapply client_adds_later|done].
  - destruct Hs as (-> & Hop' & Hn). split; [|done]. split; [done|]. split; [|done]. by exists [], op, ops, l.
Qed.
End life.

(** C10: An EventLoop lets go of everything it took: whatever its client adds,
    waits for and does, whether it catches an exception or lets it pass, and
    whatever its closures do and throw, as long as they work on descriptors that
    exist and add finitely many rules, once the loop is destroyed the descriptor
    objects there are, and their owners, are the client's own: each rule's handle
    has been released exactly once.  Nothing is undefined on the way, unless in one
    of the client's calls a closure adds a rule while the results of the poll are
    gone through: then that call reads past its pollfds. *)
Theorem loop_leaves_nothing {W C : Type} `{!Closures W C} (k : kernel W) (base : positive -> nat)
    (budget : W -> nat) (fuel : nat) (ops : list (loop_op C * bool)) (s : sys W) :
  growing W C base -> budgeted (C := C) k (fun s => budget (world s)) -> only_client base s ->
  Forall (op_ok base) ops -> (budget (world s) + length ops <= fuel)%nat ->
  let '(r, s') := life k fuel ops s in
  match r with
  | Ok _ | Exc _ => only_client base s'
  | Undef u => u = OutOfBounds /\ client_adds_in_results k fuel ops (Loop [] s) /\ ~ adds_nothing (W := W) (C := C)
  | NoFuel => False
  end.
Proof.
  intros Hg Hb Hs Hops Hf. apply (only_client_owned (C := C)) in Hs.
  pose proof (run_client_ends k base budget Hg Hb fuel ops (Loop [] s) Hops Hs Hf) as [Hr Hc].
  unfold life, unwinding. run. destruct (run_client k fuel ops (Loop [] s)) as [r l]. cbn [fst snd] in *.
  destruct (destroys k base (_rules l) (lsys l) Hc) as (s' & E & Ho).
  destruct r as [[]|e|u|]; try done; unfold destroy_rules; rewrite E; cbn [lsys]; by apply (only_client_owned (C := C)).
Qed.

(** ** Witness *)

Definition one_owner : sys nat := Sys {[ 1%positive := FDCell (FDWrapper 5 false false 0 0) 1 ]} 2%nat.
Definition session_ops : list (loop_op adding_closure * bool) :=
  [(AddRule (Some 1%positive) In Serve AddOnAsk Rest, false); (WaitNextEvent 100, false);
   (Do AddOnCall, true); (WaitNextEvent 100, true)].

Lemma one_owner_client : only_client one_base one_owner.
Proof.
  intros p. unfold uses, one_base, one_owner. cbn [fds]. rewrite lookup_fmap. destruct (decide (p = 1%positive)) as [->|Hne].
  - by rewrite lookup_singleton_eq, bool_decide_eq_true_2.
  - by rewrite lookup_singleton_ne, bool_decide_eq_false_2.
Qed.

Lemma loop_leaves_nothing_witness :
  fst (life ready_kernel 6 session_ops one_owner) = Ok tt /\
  length (_rules (snd (run_client ready_kernel 6 session_ops (Loop [] one_owner)))) = 3%nat /\
  let '(r, s') := life ready_kernel 6 session_ops one_owner in
  match r with
  | Ok _ | Exc _ => only_client one_base s'
  | Undef u => u = OutOfBounds /\ client_adds_in_results ready_kernel 6 session_ops (Loop [] one_owner) /\
      ~ adds_nothing (W := nat) (C := adding_closure)
  | NoFuel => False
  end.
Proof.
  split; [by vm_compute|]. split; [by vm_compute|].
  apply (loop_leaves_nothing ready_kernel one_base (fun w => w) 6 session_ops one_owner adding_growing
    adding_budgeted one_owner_client); [|simpl; lia].
  repeat constructor. exists 1%positive. split; [done|vm_compute; lia].
Defined.
