(* ===== verification/Pump.v ===== *)
(** A client of [EventLoop] that reads a descriptor to its end: the program
    [eventloop.add_rule(fd, In, [&]{ out.append(fd.read()); }, ...);
    while (eventloop.wait_next_event(-1) != Exit) {}].  It shows EventLoop,
    FileDescriptor and the kernel working together: everything arrives, the
    end of file cancels the rule, and the program ends. *)

From stdpp Require Import gmap.
From S2P Require Import Prelude Discard Buffer BufferList BufferViewList Kernel FileDescriptor EventLoop.

(** The world: what the kernel has for the descriptor, and what the client has
    got. *)
Record pump_world := PumpWorld { unread : list byte; got : list byte }.

Inductive pump_closure := PumpRead (h : handle) | PumpInterested | PumpCancel.

Section pump.
Context (k : kernel pump_world).

#[local] Instance pump_closures : Closures pump_world pump_closure := {
  exec c := match c with
            | PumpRead h =>
                on_field fst (fun s e => (s, snd e))
                  (d ← read k h no_limit;
                   modify (fun s => Sys (fds s) (PumpWorld (unread (world s)) (got (world s) ++ d))))
            | _ => mret tt
            end;
  ask c := mret true
}.

Definition pump_rule (h : handle) : Rule pump_closure := MkRule h In (PumpRead h) PumpInterested PumpCancel.

(** [while (loop.wait_next_event(-1) != Exit) {}] *)
Fixpoint pump_loop (fuel : nat) : M (loop pump_world pump_closure) unit :=
  match fuel with
  | O => lift NoFuel
  | S fuel =>
      r ← wait_next_event k 2 (-1);
      match r with Exit => mret tt | _ => pump_loop fuel end
  end.

(** What is asked of the kernel for the one descriptor [fd]: [read(2)] gives at least a byte while there are any and none at the end of
    the file, as many as it likes otherwise; [poll(2)] reports a descriptor at
    its end as readable too; [close(2)] may fail. *)
Record prompt (fd : Z) : Prop := {
  pr_read n w : 0 <= n ->
    let '(r, d, w') := k_read k fd n w in
    0 <= ret r <= n /\ ret r <= lenZ (unread w) /\ (0 < n -> unread w <> [] -> 1 <= ret r) /\
    d = take (Z.to_nat (ret r)) (unread w) /\
    w' = PumpWorld (drop (Z.to_nat (ret r)) (unread w)) (got w);
  pr_poll t w :
    let '(r, revents, w') := k_poll k [PollFd fd POLLIN 0] t w in
    1 <= ret r <= int_max /\ w' = w /\ exists rv, revents = [rv] /\
      has rv POLLIN = true /\ has rv (Z.lor POLLERR POLLNVAL) = false;
  pr_close w : snd (k_close k fd w) = w;
  pr_cerr m w : k_cerr k m w = w
}.

Lemma prompt_fills fd : prompt fd -> read_fills k fd.
Proof.
  intros Hk n w Hn. pose proof (pr_read fd Hk n w Hn) as H.
  destruct (k_read k fd n w) as [[r d] w']. destruct H as (Hr & Hle & _ & -> & _).
  rewrite lenZ_take by lia. split_and!; lia.
Qed.

Lemma pump_adds : adds_nothing (W := pump_world) (C := pump_closure).
Proof.
  split; intros c s; destruct c; try done. cbn. unfold on_field. cbn [fst snd].
  by destruct (_ : res unit * sys pump_world).
Qed.

Lemma eof_ok h c (s : sys pump_world) : live h c s -> eof h s = (Ok (_eof (fd_obj c)), s).
Proof. intros Hl. unfold eof. run. by rewrite (deref_ok h c). Qed.
Lemma closed_ok h c (s : sys pump_world) : live h c s -> closed h s = (Ok (_closed (fd_obj c)), s).
Proof. intros Hl. unfold closed. run. by rewrite (deref_ok h c). Qed.
Lemma read_count_ok h c (s : sys pump_world) : live h c s -> read_count h s = (Ok (_read_count (fd_obj c)), s).
Proof. intros Hl. unfold read_count. run. by rewrite (deref_ok h c). Qed.

Lemma pump_set_up h c s :
  live h c s -> _eof (fd_obj c) = false -> _closed (fd_obj c) = false ->
  set_up_rule k (pump_rule h) s = (Ok (Some (PollFd (_fd (fd_obj c)) POLLIN 0)), s).
Proof.
  intros Hl He Hc. unfold set_up_rule. cbn [direction rule_fd pump_rule].
  rewrite bind_sys, (eof_ok h c), He by done. rewrite bind_sys, (closed_ok h c), Hc by done.
  rewrite bind_sys. cbn. rewrite bind_sys. by rewrite (fd_num_ok h c).
Qed.

(** What a read of [n] bytes leaves. *)
Definition after_read (h : handle) (c : fd_cell) (n : Z) (s : sys pump_world) : sys pump_world :=
  put h (map_obj (count_read (n =? 0)) c)
    (PumpWorld (drop (Z.to_nat n) (unread (world s))) (got (world s) ++ take (Z.to_nat n) (unread (world s)))) s.

Lemma pump_callback h c s :
  prompt (_fd (fd_obj c)) -> live h c s ->
  exists n, 0 <= n <= lenZ (unread (world s)) /\ (unread (world s) <> [] -> 1 <= n) /\
    on_system (exec (PumpRead h)) s = (Ok tt, after_read h c n s).
Proof.
  intros Hk Hl. pose proof (pr_read _ Hk (Z.min BUFFER_SIZE no_limit) (world s) ltac:(done)) as Hread.
  pose proof (read_result k h c s no_limit (prompt_fills _ Hk) Hl ltac:(done)) as E.
  destruct (k_read k _ _ _) as [[r d] w']. destruct Hread as (Hr & Hle & Hpos & -> & ->).
  exists (ret r). split; [lia|]. split; [apply Hpos; done|].
  unfold on_system. cbn. unfold on_field. cbn [fst snd]. run. rewrite E by lia.
  unfold after_read. rewrite world_put. change (0 <? no_limit) with true. cbn [andb unread got]. by destruct h.
Qed.

Lemma u32_succ_ne z : u32 (z + 1) <> z.
Proof. unfold u32. intros E. pose proof (Z.mod_pos_bound (z + 1) (2 ^ 32) ltac:(lia)). Z.div_mod_to_equations. lia. Qed.

Lemma pump_serve h c s rv :
  prompt (_fd (fd_obj c)) -> live h c s -> has rv POLLIN = true -> has rv (Z.lor POLLERR POLLNVAL) = false ->
  exists n, 0 <= n <= lenZ (unread (world s)) /\ (unread (world s) <> [] -> 1 <= n) /\
    serve_rule k (pump_rule h, PollFd (_fd (fd_obj c)) POLLIN rv) s = (Ok (Some tt), after_read h c n s).
Proof.
  intros Hk Hl Hin Herr. destruct (pump_callback h c s Hk Hl) as (n & Hn & Hpos & E).
  exists n. split; [done|]. split; [done|]. unfold serve_rule. cbn [pfd_revents pfd_events].
  rewrite Herr, Hin, andb_false_r. rewrite bind_sys. unfold service_count. cbn [direction pump_rule rule_fd callback].
  rewrite (read_count_ok h c) by done. rewrite bind_sys, E, bind_sys.
  rewrite (read_count_ok h (map_obj (count_read (n =? 0)) c)) by (by eapply put_live).
  cbn [map_obj fd_obj count_read _read_count].
  destruct (Z.eqb_spec (_read_count (fd_obj c)) (u32 (_read_count (fd_obj c) + 1))) as [Eq|_]; [|done].
  by destruct (u32_succ_ne (_read_count (fd_obj c))).
Qed.

(** One turn while the end has not been seen: the rule is served. *)
Lemma pump_turn h c s :
  prompt (_fd (fd_obj c)) -> live h c s -> _eof (fd_obj c) = false -> _closed (fd_obj c) = false ->
  exists n, 0 <= n <= lenZ (unread (world s)) /\ (unread (world s) <> [] -> 1 <= n) /\
    wait_next_event k 2 (-1) (Loop [pump_rule h] s) = (Ok Success, Loop [pump_rule h] (after_read h c n s)).
Proof.
  intros Hk Hl He Hc. rewrite (wait_is_spec k pump_adds) by (simpl; lia).
  unfold wait_spec. cbn [_rules lsys sweep]. rewrite (pump_set_up h c) by done. cbn [existsb pfd_events].
  pose proof (pr_poll _ Hk (-1) (world s)) as Hpoll. cbn [fmap res_fmap].
  destruct (k_poll k _ _ _) as [[r revents] w]. destruct Hpoll as (Hr & -> & rv & -> & Hin & Herr).
  rewrite SystemCall_ok by lia. cbn [existsb negb orb pfd_events]. destruct (Z.eqb_spec (ret r) 0); [lia|].
  destruct s as [m w]. cbn [fds world store_revents zip zip_with sweep pfd_fd pfd_events].
  destruct (pump_serve h c (Sys m w) rv Hk Hl Hin Herr) as (n' & Hn & Hpos & E). exists n'.
  split; [done|]. split; [done|]. by rewrite E.
Qed.

(** The turn after the end of file: the rule is cancelled, its handle goes. *)
Lemma pump_cancelled h c s :
  prompt (_fd (fd_obj c)) -> live h c s -> _eof (fd_obj c) = true ->
  exists s', set_up_rule k (pump_rule h) s = (Ok None, s') /\ world s' = world s.
Proof.
  intros Hk Hl He. unfold set_up_rule. cbn [direction rule_fd pump_rule].
  rewrite bind_sys, (eof_ok h c), He by done. rewrite bind_sys. cbn [mret M_ret]. rewrite bind_sys.
  unfold cancelled. rewrite bind_sys.
  change (on_system (exec (cancel (pump_rule h))) s) with (Ok tt : res unit, s). cbn iota beta.
  pose proof Hl as (p & -> & Hp). destruct (release_ok k p c s Hl) as (s' & E & _ & Hw).
  cbn [rule_fd pump_rule]. rewrite E. exists s'. split; [done|]. rewrite Hw. case_decide; [|done].
  destruct (_closed (fd_obj c)); [done|].
  apply (destroyed_keeps k (fun w => w = world s)); [apply (pr_close _ Hk)|]. intros m w ->. apply (pr_cerr _ Hk).
Qed.

Lemma pump_end h c s :
  prompt (_fd (fd_obj c)) -> live h c s -> _eof (fd_obj c) = true ->
  exists s', wait_next_event k 2 (-1) (Loop [pump_rule h] s) = (Ok Exit, Loop [] s') /\ world s' = world s.
Proof.
  intros Hk Hl He. rewrite (wait_is_spec k pump_adds) by (simpl; lia).
  unfold wait_spec. cbn [_rules lsys sweep].
  destruct (pump_cancelled h c s Hk Hl He) as (s' & -> & Hw). by exists s'.
Qed.

Lemma pump_runs fuel h c s :
  prompt (_fd (fd_obj c)) -> live h c s -> _closed (fd_obj c) = false ->
  (length (unread (world s)) + (if _eof (fd_obj c) then 0 else 1) < fuel)%nat ->
  (_eof (fd_obj c) = true -> unread (world s) = []) ->
  exists s', pump_loop fuel (Loop [pump_rule h] s) = (Ok tt, Loop [] s') /\
    world s' = PumpWorld [] (got (world s) ++ unread (world s)).
Proof.
  revert c s. induction fuel as [|fuel IH]; intros c s Hk Hl Hc Hf He; [lia|]. cbn [pump_loop]. run.
  destruct (_eof (fd_obj c)) eqn:Eeof.
  { destruct (pump_end h c s Hk Hl Eeof) as (s' & -> & Hw). exists s'. split; [done|].
    rewrite Hw. specialize (He eq_refl). destruct (world s) as [u g]. cbn in *. subst. by rewrite app_nil_r. }
  destruct (pump_turn h c s Hk Hl Eeof Hc) as (n & Hn & Hpos & ->). unfold lenZ in Hn.
  destruct (IH (map_obj (count_read (n =? 0)) c) (after_read h c n s)) as (s' & -> & Hw).
  - exact Hk.
  - by eapply put_live.
  - done.
  - unfold after_read. rewrite world_put. cbn [unread map_obj fd_obj count_read _eof]. rewrite Eeof, length_drop.
    destruct (Z.eqb_spec n 0) as [->|]; simpl; [|lia]. destruct (unread (world s)); simpl in *; [lia|].
    by specialize (Hpos ltac:(done)).
  - unfold after_read. rewrite world_put. cbn [unread map_obj fd_obj count_read _eof]. rewrite Eeof.
    destruct (Z.eqb_spec n 0) as [->|]; simpl; [|done]. intros _. destruct (unread (world s)); [done|].
    by specialize (Hpos ltac:(done)).
  - exists s'. split; [done|]. rewrite Hw. unfold after_read. rewrite world_put. cbn [unread got].
    by rewrite <- (assoc_L (++)), take_drop.
Qed.

End pump.
#[export] Existing Instance pump_closures.

(** ** Properties *)

(** C6: liveness: with a kernel that has something to give until the end of
    file, a client that loops on [wait_next_event] until it exits does end: it
    has then read everything, in order and however the kernel split it, and
    the rule is gone.  One turn per byte and two more are enough. *)
Theorem event_loop_drains (k : kernel pump_world) (h : handle) (c : fd_cell) (s : sys pump_world) (fuel : nat) :
  prompt k (_fd (fd_obj c)) -> live h c s -> _eof (fd_obj c) = false -> _closed (fd_obj c) = false ->
  (length (unread (world s)) + 1 < fuel)%nat ->
  exists s', pump_loop k fuel (Loop [pump_rule h] s) = (Ok tt, Loop [] s') /\
    world s' = PumpWorld [] (got (world s) ++ unread (world s)).
Proof.
  intros Hk Hl He Hc Hf. apply (pump_runs k fuel h c s Hk Hl Hc); rewrite He; [lia|done].
Qed.

(** A kernel that gives two bytes at a time. *)
Definition pair_kernel : kernel pump_world := {|
  k_close := fun _ w => (SysRet (-1) 5, w);
  k_read := fun _ n w =>
    let n := Z.min 2 (Z.min n (lenZ (unread w))) in
    (SysRet n 0, take (Z.to_nat n) (unread w), PumpWorld (drop (Z.to_nat n) (unread w)) (got w));
  k_writev := fun _ _ w => (SysRet (-1) 9, w);
  k_getfl := fun _ w => (SysRet 0 0, w);
  k_setfl := fun _ _ w => (SysRet 0 0, w);
  k_poll := fun ps _ w => (SysRet (lenZ ps) 0, map (fun p => Z.lor POLLIN POLLHUP) ps, w);
  k_cerr := fun _ w => w;
  k_strerror := fun _ => EmptyString;
  k_gai_strerror := fun _ => EmptyString
|}.

Lemma pair_prompt fd : prompt pair_kernel fd.
Proof.
  split; cbn; [|intros; split; [done|]|done|done].
  - intros n w Hn. pose proof (lenZ_nonneg (unread w)). split_and!; try lia; try done.
    intros Hp Hne. destruct (unread w); [done|]. rewrite lenZ_cons in *. pose proof (lenZ_nonneg l). lia.
  - split; [done|]. by eexists.
Qed.

Definition pump_sys : sys pump_world :=
  Sys {[ 1%positive := FDCell (FDWrapper 5 false false 0 0) 1 ]} (PumpWorld (bytes "hello") []).

Lemma event_loop_drains_witness :
  exists s', pump_loop pair_kernel 7 (Loop [pump_rule (Some 1%positive)] pump_sys) = (Ok tt, Loop [] s') /\
    world s' = PumpWorld [] (bytes "hello").
Proof.
  apply (event_loop_drains pair_kernel (Some 1%positive) (FDCell (FDWrapper 5 false false 0 0) 1) pump_sys 7 (pair_prompt 5));
    try reflexivity.
  - by exists 1%positive.
  - simpl. lia.
Defined.
