(* ===== verification/Address.v ===== *)
(** [Address] (libsponge/util/address.hh, address.cc): socket addresses as the
    bytes of a [sockaddr_storage], with the layout of Linux on a little-endian
    host; resolution and numeric printing through [getaddrinfo(3)] and
    [getnameinfo(3)], which are parameters. *)

From Stdlib Require Import Strings.Ascii.
From S2P Require Import Prelude NetInt Kernel.

(** ** Layout *)

(** [sizeof(sockaddr_storage)], [sizeof(sockaddr_in)], and the constants. *)
Definition sizeof_storage : Z := 128.
Definition sizeof_sockaddr_in : Z := 16.
Definition AF_INET : Z := 2.
Definition AI_NUMERICHOST : Z := 4.
Definition AI_ALL : Z := 16.
Definition AI_NUMERICSERV : Z := 1024.

Record address := Address { _size : Z; _address : list byte }.

#[export] Instance address_eq_dec : EqDecision address.
Proof. solve_decision. Defined.

(** [ss_family]: two bytes in host order. *)
Definition ss_family (storage : list byte) : Z := be_val (reverse (take 2 storage)).
(** The bytes of a [sockaddr_in]: family, port and address in network order,
    padding. *)
Definition sockaddr_in (port ip : Z) : list byte :=
  reverse (be_bytes 2 AF_INET) ++ be_bytes 2 port ++ be_bytes 4 ip ++ replicate 8 Byte.x00.
Definition sin_port (storage : list byte) : Z := be_val (take 2 (drop 2 storage)).
Definition sin_addr (storage : list byte) : Z := be_val (take 4 (drop 4 storage)).

(** [memcpy]: nothing at all for no bytes. *)
Definition memcpy (dst : list byte) (src : option (list byte)) (n : Z) : res (list byte) :=
  if n =? 0 then Ok dst
  else match src with
       | None => Undef NullPointer
       | Some l => if lenZ l <? n then Undef OutOfBounds else Ok (overwrite (take (Z.to_nat n) l) dst)
       end.

(** [Address(const sockaddr *addr, const size_t size)]; [_size] is a
    [socklen_t]. *)
Definition from_sockaddr (addr : option (list byte)) (size : Z) : res address :=
  if size >? sizeof_storage then Exc (runtime_error "invalid sockaddr size")
  else
    storage ← memcpy (replicate (Z.to_nat sizeof_storage) Byte.x00) addr size;
    mret (Address (u32 size) storage).

(** ** Conversions to and from numbers *)

Definition ipv4_numeric (a : address) : res Z :=
  if negb (ss_family (_address a) =? AF_INET) || negb (_size a =? sizeof_sockaddr_in)
  then Exc (runtime_error "ipv4_numeric called on non-IPV4 address")
  else Ok (sin_addr (_address a)).

Definition from_ipv4_numeric (ip_address : Z) : res address :=
  from_sockaddr (Some (sockaddr_in 0 ip_address)) sizeof_sockaddr_in.

(** [memcmp(x, y, n) == 0]: undefined past the end of either object. *)
Definition memcmp_equal (x y : list byte) (n : Z) : res bool :=
  if (lenZ x <? n) || (lenZ y <? n) then Undef OutOfBounds
  else Ok (bool_decide (take (Z.to_nat n) x = take (Z.to_nat n) y)).

(** [operator==] and [operator!=] *)
Definition equal (a b : address) : res bool :=
  if negb (_size a =? _size b) then Ok false else memcmp_equal (_address a) (_address b) (_size a).
Definition not_equal (a b : address) : res bool := e ← equal a b; mret (negb e).

(** The conversion to [const sockaddr *], and [size()]: what the socket calls
    are given. *)
Definition sockaddr_of (a : address) : list byte := _address a.
Definition size (a : address) : Z := _size a.

(** ** Strings *)

(** [std::string::c_str()] as a C function reads it. *)
Fixpoint c_str (s : string) : string :=
  match s with
  | EmptyString => EmptyString
  | String c s => if Ascii.eqb c Ascii.zero then EmptyString else String c (c_str s)
  end.

(** [std::stoi]: white space, a sign, and digits; what follows is ignored. *)
Definition is_space (c : Ascii.ascii) : bool :=
  let n := Ascii.nat_of_ascii c in (n =? 32)%nat || ((9 <=? n)%nat && (n <=? 13)%nat).
Definition digit (c : Ascii.ascii) : option Z :=
  let n := Z.of_nat (Ascii.nat_of_ascii c) in if (48 <=? n) && (n <=? 57) then Some (n - 48) else None.
Fixpoint skip_space (s : string) : string :=
  match s with String c s' => if is_space c then skip_space s' else s | EmptyString => s end.
Fixpoint digits (acc : option Z) (s : string) : option Z :=
  match s with
  | String c s' =>
      match digit c with Some d => digits (Some (default 0 acc * 10 + d)) s' | None => acc end
  | EmptyString => acc
  end.
Definition stoi (s : string) : res Z :=
  let s := skip_space s in
  let '(sign, s) := match s with
                    | String "-"%char s' => (-1, s')
                    | String "+"%char s' => (1, s')
                    | _ => (1, s)
                    end in
  match digits None s with
  | None => Exc (invalid_argument "stoi")
  | Some n => if (int_min <=? sign * n) && (sign * n <=? int_max) then Ok (sign * n)
              else Exc (out_of_range "stoi")
  end.

(** [struct addrinfo], as [make_hints] fills it. *)
Record addrinfo := AddrInfo { ai_flags : Z; ai_family : Z }.
Definition make_hints (ai_flags ai_family : Z) : addrinfo := AddrInfo ai_flags ai_family.

Section resolver.
(** [getaddrinfo]: the error, and the address and length of the first result;
    [getnameinfo]: the error, the host and the service. *)
Context (getaddrinfo : string -> string -> addrinfo -> Z * option (list byte * Z))
        (getnameinfo : list byte -> Z -> Z * string * string).

(** [Address(node, service, hints)] *)
Definition resolve (node service : string) (hints : addrinfo) : res address :=
  let '(gai_ret, resolved_address) := getaddrinfo (c_str node) (c_str service) hints in
  if negb (gai_ret =? 0)
  then Exc (gai_error ("getaddrinfo(" ++ node ++ ", " ++ service ++ ")") gai_ret)
  else match resolved_address with
       | None => Exc (runtime_error "getaddrinfo returned successfully but with no results")
       | Some (ai_addr, ai_addrlen) => from_sockaddr (Some ai_addr) ai_addrlen
       end.

(** [Address(hostname, service)] and [Address(ip, port)] *)
Definition from_hostname (hostname service : string) : res address :=
  resolve hostname service (make_hints AI_ALL AF_INET).
Definition from_ip (ip : string) (port : Z) : res address :=
  resolve ip (pretty port) (make_hints (Z.lor AI_NUMERICHOST AI_NUMERICSERV) AF_INET).

Definition ip_port (a : address) : res (string * Z) :=
  let '(gni_ret, ip, port) := getnameinfo (_address a) (_size a) in
  if negb (gni_ret =? 0) then Exc (gai_error "getnameinfo" gni_ret)
  else n ← stoi port; mret (ip, u16 n).

Definition ip (a : address) : res string := p ← ip_port a; mret (fst p).
Definition port (a : address) : res Z := p ← ip_port a; mret (snd p).
Definition to_string (a : address) : res string :=
  ip_and_port ← ip_port a; mret (fst ip_and_port ++ ":" ++ pretty (snd ip_and_port))%string.

(** ** What the C library promises about numeric IPv4 addresses *)

Definition dotted (ip : Z) : string :=
  (pretty (ip / 2 ^ 24) ++ "." ++ pretty (ip / 2 ^ 16 mod 256) ++ "." ++
   pretty (ip / 2 ^ 8 mod 256) ++ "." ++ pretty (ip mod 256))%string.

(** [getaddrinfo(3)] with AI_NUMERICHOST and AI_NUMERICSERV, AF_INET. *)
Definition resolves_numeric : Prop := forall ip port, 0 <= ip < 2 ^ 32 -> 0 <= port < 2 ^ 16 ->
  getaddrinfo (dotted ip) (pretty port) (make_hints (Z.lor AI_NUMERICHOST AI_NUMERICSERV) AF_INET) =
  (0, Some (sockaddr_in port ip, sizeof_sockaddr_in)).

(** [getnameinfo(3)] with NI_NUMERICHOST and NI_NUMERICSERV on an address that
    starts with a [sockaddr_in]. *)
Definition prints_numeric : Prop := forall ip port rest, 0 <= ip < 2 ^ 32 -> 0 <= port < 2 ^ 16 ->
  getnameinfo (sockaddr_in port ip ++ rest) sizeof_sockaddr_in = (0, dotted ip, pretty port).

End resolver.

(** ** Lemmas *)

Lemma length_sockaddr_in port ip : length (sockaddr_in port ip) = 16%nat.
Proof.
  unfold sockaddr_in. rewrite !length_app, length_reverse, !length_be_bytes, length_replicate. done.
Qed.

Lemma sockaddr_in_inj p1 n1 p2 n2 :
  0 <= n1 < 2 ^ 32 -> 0 <= n2 < 2 ^ 32 -> 0 <= p1 < 2 ^ 16 -> 0 <= p2 < 2 ^ 16 ->
  sockaddr_in p1 n1 = sockaddr_in p2 n2 -> p1 = p2 /\ n1 = n2.
Proof.
  intros Hn1 Hn2 Hp1 Hp2 E. unfold sockaddr_in in E.
  apply app_inv_head in E. apply app_inj_1 in E as [Ep E]; [|by rewrite !length_be_bytes].
  apply app_inj_1 in E as [En _]; [|by rewrite !length_be_bytes].
  apply (f_equal be_val) in Ep, En. rewrite !be_val_bytes, !Z.mod_small in Ep by (simpl; lia).
  rewrite !be_val_bytes, !Z.mod_small in En by (simpl; lia). done.
Qed.

(** An IPv4 address as the constructors make it. *)
Definition ipv4 (port ip : Z) : address :=
  Address sizeof_sockaddr_in (sockaddr_in port ip ++ replicate 112 Byte.x00).

Lemma from_sockaddr_in port ip :
  from_sockaddr (Some (sockaddr_in port ip)) sizeof_sockaddr_in = Ok (ipv4 port ip).
Proof.
  unfold from_sockaddr, memcpy, overwrite. change (sizeof_sockaddr_in >? sizeof_storage) with false.
  change (sizeof_sockaddr_in =? 0) with false. cbv iota.
  change (Z.to_nat sizeof_sockaddr_in) with 16%nat.
  rewrite take_ge by (by rewrite length_sockaddr_in). unfold lenZ. rewrite length_sockaddr_in. done.
Qed.

Lemma sin_addr_ipv4 port ip rest : 0 <= ip < 2 ^ 32 -> sin_addr (sockaddr_in port ip ++ rest) = ip.
Proof.
  intros. unfold sin_addr, sockaddr_in. simpl.
  change (be_val (be_bytes 4 ip) = ip). rewrite be_val_bytes. by apply Z.mod_small.
Qed.

Lemma ipv4_numeric_ipv4 port ip : 0 <= ip < 2 ^ 32 -> ipv4_numeric (ipv4 port ip) = Ok ip.
Proof.
  intros Hip. unfold ipv4_numeric. cbn [ipv4 _address _size]. rewrite sin_addr_ipv4 by done. done.
Qed.

(** ** Numbers as strings *)

(** The decimal digits of a number print it, and read back as it. *)
Lemma digit_char m : (m < 10)%N -> digit (pretty_N_char m) = Some (Z.of_N m).
Proof.
  intros. assert (m = 0 \/ m = 1 \/ m = 2 \/ m = 3 \/ m = 4 \/ m = 5 \/ m = 6 \/ m = 7 \/ m = 8 \/ m = 9)%N
    as Hm by lia. by repeat (destruct Hm as [->|Hm]); subst.
Qed.

Lemma pretty_step x s : (0 < x)%N ->
  pretty_N_go x s = pretty_N_go (x / 10) (String (pretty_N_char (x mod 10)) s) /\ (x / 10 < x)%N /\ (x mod 10 < 10)%N.
Proof.
  intros. split; [by apply pretty_N_go_step|]. split; [by apply N.div_lt|]. by apply N.mod_lt.
Qed.

Lemma digits_pretty x : (0 < x)%N -> forall s, digits None (pretty_N_go x s) = digits (Some (Z.of_N x)) s.
Proof.
  induction (N.lt_wf_0 x) as [x _ IH]. intros Hx s. destruct (pretty_step x s Hx) as (-> & Hlt & Hm).
  destruct (N.eq_0_gt_0_cases (x `div` 10)) as [E|Hpos].
  - rewrite E, pretty_N_go_0. cbn [digits]. rewrite digit_char by done. do 2 f_equal.
    pose proof (N.div_mod x 10 ltac:(lia)). simpl. lia.
  - rewrite IH by done. cbn [digits]. rewrite digit_char by done. do 2 f_equal.
    pose proof (N.div_mod x 10 ltac:(lia)). simpl. lia.
Qed.

Lemma pretty_head x : (0 < x)%N -> forall s,
  exists m s', (m < 10)%N /\ pretty_N_go x s = String (pretty_N_char m) s'.
Proof.
  induction (N.lt_wf_0 x) as [x _ IH]. intros Hx s. destruct (pretty_step x s Hx) as (-> & Hlt & Hm).
  destruct (N.eq_0_gt_0_cases (x `div` 10)) as [->|Hpos]; [|by apply IH].
  rewrite pretty_N_go_0. by eexists _, _.
Qed.

Lemma stoi_head m s : (m < 10)%N -> stoi (String (pretty_N_char m) s) =
  match digits None (String (pretty_N_char m) s) with
  | None => Exc (invalid_argument "stoi")
  | Some n => if (int_min <=? 1 * n) && (1 * n <=? int_max) then Ok (1 * n) else Exc (out_of_range "stoi")
  end.
Proof.
  intros. assert (m = 0 \/ m = 1 \/ m = 2 \/ m = 3 \/ m = 4 \/ m = 5 \/ m = 6 \/ m = 7 \/ m = 8 \/ m = 9)%N
    as Hm by lia. by repeat (destruct Hm as [->|Hm]); subst.
Qed.

Lemma stoi_pretty n : 0 <= n <= int_max -> stoi (pretty n) = Ok n.
Proof.
  unfold int_max. intros Hn. destruct n as [|p|p]; [done| |lia].
  change (pretty (Z.pos p)) with (pretty_N_go (N.pos p) EmptyString).
  destruct (pretty_head (N.pos p) ltac:(lia) EmptyString) as (m & s' & Hm & E).
  rewrite E, stoi_head, <- E, digits_pretty by lia. cbn [digits]. rewrite Z.mul_1_l.
  unfold int_min, int_max. change (Z.of_N (N.pos p)) with (Z.pos p). by case_cmp; try lia.
Qed.

Lemma c_str_char m s : (m < 10)%N -> c_str s = s -> c_str (String (pretty_N_char m) s) = String (pretty_N_char m) s.
Proof.
  intros. assert (m = 0 \/ m = 1 \/ m = 2 \/ m = 3 \/ m = 4 \/ m = 5 \/ m = 6 \/ m = 7 \/ m = 8 \/ m = 9)%N
    as Hm by lia. repeat (destruct Hm as [->|Hm]); subst; simpl; congruence.
Qed.

Lemma c_str_pretty n : 0 <= n -> c_str (pretty n) = pretty n.
Proof.
  intros Hn. destruct n as [|p|p]; [done| |lia]. change (pretty (Z.pos p)) with (pretty_N_go (N.pos p) EmptyString).
  generalize (N.pos p) as x. intros x. assert (Hs : c_str EmptyString = EmptyString) by done. revert Hs.
  generalize EmptyString as s. induction (N.lt_wf_0 x) as [x _ IH]. intros s Hs.
  destruct (N.eq_0_gt_0_cases x) as [->|Hx]; [by rewrite pretty_N_go_0|].
  destruct (pretty_step x s Hx) as (-> & Hlt & Hm). by apply IH, c_str_char.
Qed.

Lemma c_str_app s1 s2 : c_str s1 = s1 -> c_str (s1 ++ s2) = (s1 ++ c_str s2)%string.
Proof.
  induction s1 as [|c s1 IH]; simpl; [done|]. destruct (Ascii.eqb c Ascii.zero); [done|].
  intros [= H]. by rewrite IH.
Qed.

Lemma c_str_dotted ip : 0 <= ip < 2 ^ 32 -> c_str (dotted ip) = dotted ip.
Proof.
  intros Hip. unfold dotted.
  assert (Hm : forall x, c_str (pretty (x mod 256)) = pretty (x mod 256)).
  { intros x. apply c_str_pretty. by apply Z.mod_pos_bound. }
  rewrite c_str_app by (apply c_str_pretty, Z.div_pos; lia). f_equal.
  rewrite (c_str_app "."), c_str_app by done. do 2 f_equal.
  rewrite (c_str_app "."), c_str_app by done. do 2 f_equal.
  rewrite (c_str_app ".") by done. by rewrite Hm.
Qed.

(** ** Equality *)

(** An address as the constructors make it: a whole [sockaddr_storage], and a
    size that fits in it. *)
Definition wf_address (a : address) : Prop := lenZ (_address a) = sizeof_storage /\ 0 <= _size a <= sizeof_storage.

(** The value of [operator==] where it is defined. *)
Definition address_eqb (a b : address) : bool :=
  if negb (_size a =? _size b) then false
  else bool_decide (take (Z.to_nat (_size a)) (_address a) = take (Z.to_nat (_size a)) (_address b)).

Lemma equal_ok a b : wf_address a -> wf_address b -> equal a b = Ok (address_eqb a b).
Proof.
  intros [Ha Hsa] [Hb Hsb]. unfold equal, address_eqb, memcmp_equal. rewrite Ha, Hb.
  destruct (_size a =? _size b); [|done]. simpl. by destruct (Z.ltb_spec sizeof_storage (_size a)); [lia|].
Qed.

Lemma wf_ipv4 port ip : wf_address (ipv4 port ip).
Proof.
  unfold wf_address, ipv4, lenZ. cbn [_address _size]. rewrite length_app, length_sockaddr_in. done.
Qed.

Lemma address_eqb_spec a b :
  address_eqb a b = true <->
  _size a = _size b /\ take (Z.to_nat (_size a)) (_address a) = take (Z.to_nat (_size b)) (_address b).
Proof.
  unfold address_eqb. destruct (Z.eqb_spec (_size a) (_size b)) as [E|E]; simpl; [|by intuition].
  rewrite bool_decide_eq_true, E. intuition.
Qed.

(** Addresses up to [operator==]. *)
#[export] Instance address_equiv : Equiv address := fun a b => address_eqb a b = true.

#[export] Instance address_equivalence : Equivalence (≡@{address}).
Proof.
  unfold equiv, address_equiv. split; repeat intro; rewrite !address_eqb_spec in *; intuition congruence.
Qed.

Lemma take_drop_prefix {A} i n m (l k : list A) :
  (i + n <= m)%nat -> take m l = take m k -> take n (drop i l) = take n (drop i k).
Proof.
  intros H E. rewrite !take_drop_commute. f_equal.
  replace (i + n)%nat with ((i + n) `min` m)%nat by lia. by rewrite <- !take_take, E.
Qed.

(** Equal addresses have the same number. *)
#[export] Instance ipv4_numeric_proper : Proper ((≡) ==> (=)) ipv4_numeric.
Proof.
  intros a b [Hs Ht]%address_eqb_spec. unfold ipv4_numeric. rewrite <- Hs in *.
  destruct (Z.eqb_spec (_size a) sizeof_sockaddr_in) as [E|E]; [|by rewrite !orb_true_r].
  rewrite E in Ht. change (Z.to_nat sizeof_sockaddr_in) with 16%nat in Ht.
  unfold ss_family, sin_addr. rewrite (take_drop_prefix 4 4 16 _ _ ltac:(lia) Ht).
  pose proof (take_drop_prefix 0 2 16 _ _ ltac:(lia) Ht) as H0. rewrite !drop_0 in H0. by rewrite H0.
Qed.

(** ** Properties *)

(** [from_ipv4_numeric] never fails, and [ipv4_numeric] gives back the
    number. *)
Theorem ipv4_numeric_roundtrip (n : Z) :
  0 <= n < 2 ^ 32 ->
  exists a, from_ipv4_numeric n = Ok a /\ ipv4_numeric a = Ok n /\ sin_port (_address a) = 0.
Proof.
  intros Hn. exists (ipv4 0 n). unfold from_ipv4_numeric. split; [apply from_sockaddr_in|].
  split; [by apply ipv4_numeric_ipv4|done].
Qed.

Lemma ipv4_numeric_roundtrip_witness :
  exists a, from_ipv4_numeric 0x12470097 = Ok a /\ ipv4_numeric a = Ok 0x12470097 /\ sin_port (_address a) = 0.
Proof. apply (ipv4_numeric_roundtrip 0x12470097). lia. Defined.

(** The size check: an address longer than a [sockaddr_storage] is refused
    whatever it points at, and nothing is read; any other one is copied, its
    length kept exactly. *)
Theorem from_sockaddr_spec (addr : list byte) (size : Z) :
  0 <= size <= lenZ addr ->
  from_sockaddr (Some addr) size =
    if sizeof_storage <? size then Exc (runtime_error "invalid sockaddr size")
    else Ok (Address size (overwrite (take (Z.to_nat size) addr) (replicate 128 Byte.x00))).
Proof.
  intros Hs. unfold from_sockaddr, memcpy, sizeof_storage. rewrite Z.gtb_ltb.
  destruct (Z.ltb_spec 128 size); [done|]. rewrite u32_small by lia.
  destruct (Z.eqb_spec size 0) as [->|]; [done|]. destruct (Z.ltb_spec (lenZ addr) size); [lia|done].
Qed.

Lemma from_sockaddr_spec_witness :
  from_sockaddr (Some (replicate 130 Byte.x01)) 129 =
    if sizeof_storage <? 129 then Exc (runtime_error "invalid sockaddr size")
    else Ok (Address 129 (overwrite (take (Z.to_nat 129) (replicate 130 Byte.x01)) (replicate 128 Byte.x00))).
Proof. apply (from_sockaddr_spec (replicate 130 Byte.x01) 129). split; by vm_compute. Defined.

(** [operator==] is an equivalence relation that [ipv4_numeric] respects,
    and two IPv4 addresses are equal exactly when number and port agree. *)
Theorem address_equality (p1 n1 p2 n2 : Z) :
  0 <= n1 < 2 ^ 32 -> 0 <= n2 < 2 ^ 32 -> 0 <= p1 < 2 ^ 16 -> 0 <= p2 < 2 ^ 16 ->
  Equivalence (fun a b => address_eqb a b = true) /\
  (forall a b, address_eqb a b = true -> ipv4_numeric a = ipv4_numeric b) /\
  exists e, equal (ipv4 p1 n1) (ipv4 p2 n2) = Ok e /\ (e = true <-> p1 = p2 /\ n1 = n2).
Proof.
  intros Hn1 Hn2 Hp1 Hp2. split; [exact address_equivalence|]. split; [exact ipv4_numeric_proper|].
  eexists. split; [apply equal_ok; apply wf_ipv4|].
  rewrite address_eqb_spec. cbn [ipv4 _size _address]. change (Z.to_nat sizeof_sockaddr_in) with 16%nat.
  rewrite !take_app_le, !take_ge by (by rewrite length_sockaddr_in).
  split; [|by intros [-> ->]]. intros [_ E]. by apply sockaddr_in_inj.
Qed.

Lemma address_equality_witness :
  Equivalence (fun a b => address_eqb a b = true) /\
  (forall a b, address_eqb a b = true -> ipv4_numeric a = ipv4_numeric b) /\
  exists e, equal (ipv4 53 1) (ipv4 53 2) = Ok e /\ (e = true <-> 53 = 53 /\ 1 = 2).
Proof. apply (address_equality 53 1 53 2); lia. Defined.

(** C32: An address made from a dotted quad and a port gives both back, in
    numbers and in text, with a C library that converts numeric addresses as
    documented. *)
Theorem numeric_address_roundtrip
    (getaddrinfo : string -> string -> addrinfo -> Z * option (list byte * Z))
    (getnameinfo : list byte -> Z -> Z * string * string) (n p : Z) :
  resolves_numeric getaddrinfo -> prints_numeric getnameinfo ->
  0 <= n < 2 ^ 32 -> 0 <= p < 2 ^ 16 ->
  exists a, from_ip getaddrinfo (dotted n) p = Ok a /\
    ipv4_numeric a = Ok n /\
    ip getnameinfo a = Ok (dotted n) /\ port getnameinfo a = Ok p /\
    to_string getnameinfo a = Ok (dotted n ++ ":" ++ pretty p)%string.
Proof.
  intros Hres Hprint Hn Hp. exists (ipv4 p n). unfold from_ip, resolve.
  rewrite c_str_dotted, c_str_pretty, Hres by lia. simpl negb. cbv iota.
  split; [apply from_sockaddr_in|]. split; [by apply ipv4_numeric_ipv4|].
  assert (E : ip_port getnameinfo (ipv4 p n) = Ok (dotted n, p)).
  { unfold ip_port. cbn [ipv4 _address _size]. rewrite Hprint by done. simpl negb. cbv iota.
    rewrite stoi_pretty by (unfold int_max; lia). run. unfold u16. by rewrite Z.mod_small by lia. }
  unfold ip, port, to_string. by rewrite E.
Qed.

(** A concrete library: the notation read and printed directly. *)
Fixpoint read_quad (acc cur : Z) (s : string) : Z :=
  match s with
  | EmptyString => acc * 256 + cur
  | String c s => match digit c with
                  | Some d => read_quad acc (cur * 10 + d) s
                  | None => read_quad (acc * 256 + cur) 0 s
                  end
  end.

Definition demo_getaddrinfo (node service : string) (hints : addrinfo) : Z * option (list byte * Z) :=
  match stoi service with
  | Ok p => (0, Some (sockaddr_in p (read_quad 0 0 node), sizeof_sockaddr_in))
  | _ => (-2, None)
  end.
Definition demo_getnameinfo (storage : list byte) (size : Z) : Z * string * string :=
  (0, dotted (sin_addr storage), pretty (sin_port storage)).

Lemma pretty_go_app x s : pretty_N_go x s = (pretty_N_go x EmptyString ++ s)%string.
Proof.
  assert (H : forall t, pretty_N_go x (t ++ s) = (pretty_N_go x t ++ s)%string); [|apply (H EmptyString)].
  induction (N.lt_wf_0 x) as [x _ IH]. intros t.
  destruct (N.eq_0_gt_0_cases x) as [->|Hx]; [by rewrite !pretty_N_go_0|].
  destruct (pretty_step x (t ++ s) Hx) as (-> & Hlt & _). destruct (pretty_step x t Hx) as (-> & _ & _).
  by apply (IH _ Hlt (String _ t)).
Qed.

Lemma read_quad_go acc x : (0 < x)%N -> forall s,
  read_quad acc 0 (pretty_N_go x s) = read_quad acc (Z.of_N x) s.
Proof.
  induction (N.lt_wf_0 x) as [x _ IH]. intros Hx s. destruct (pretty_step x s Hx) as (-> & Hlt & Hm).
  destruct (N.eq_0_gt_0_cases (x `div` 10)) as [E|Hpos].
  - rewrite E, pretty_N_go_0. cbn [read_quad]. rewrite digit_char by done. f_equal.
    pose proof (N.div_mod x 10 ltac:(lia)). simpl. lia.
  - rewrite IH by done. cbn [read_quad]. rewrite digit_char by done. f_equal.
    pose proof (N.div_mod x 10 ltac:(lia)). simpl. lia.
Qed.

Lemma read_quad_pretty acc n s : 0 <= n -> read_quad acc 0 (pretty n ++ s) = read_quad acc n s.
Proof.
  intros Hn. destruct n as [|p|p]; [done| |lia]. change (pretty (Z.pos p)) with (pretty_N_go (N.pos p) EmptyString).
  rewrite <- pretty_go_app. by apply read_quad_go.
Qed.

Lemma read_quad_dot acc cur s : read_quad acc cur ("." ++ s) = read_quad (acc * 256 + cur) 0 s.
Proof. done. Qed.

Lemma read_quad_end acc n : 0 <= n -> read_quad acc 0 (pretty n) = acc * 256 + n.
Proof.
  intros Hn. destruct n as [|p|p]; [done| |lia]. change (pretty (Z.pos p)) with (pretty_N_go (N.pos p) EmptyString).
  by rewrite read_quad_go.
Qed.

(** The bytes of a number, most significant first, make it up again. *)
Lemma quad_value n :
  (((0 * 256 + n / 2 ^ 24) * 256 + n / 2 ^ 16 mod 256) * 256 + n / 2 ^ 8 mod 256) * 256 + n mod 256 = n.
Proof.
  replace (n / 2 ^ 24) with (n / 256 / 256 / 256) by (rewrite !Z.div_div by lia; f_equal; lia).
  replace (n / 2 ^ 16) with (n / 256 / 256) by (rewrite !Z.div_div by lia; f_equal; lia).
  change (2 ^ 8) with 256. pose proof (Z.div_mod n 256 ltac:(lia)).
  pose proof (Z.div_mod (n / 256) 256 ltac:(lia)). pose proof (Z.div_mod (n / 256 / 256) 256 ltac:(lia)). lia.
Qed.

Lemma demo_resolves : resolves_numeric demo_getaddrinfo.
Proof.
  intros n p Hn Hp. unfold demo_getaddrinfo. rewrite stoi_pretty by (unfold int_max; lia). do 4 f_equal.
  unfold dotted. pose proof (fun x => proj1 (Z.mod_pos_bound x 256 ltac:(lia))) as Hm.
  rewrite read_quad_pretty, read_quad_dot by (apply Z.div_pos; lia).
  rewrite read_quad_pretty, read_quad_dot by apply Hm.
  rewrite read_quad_pretty, read_quad_dot, read_quad_end by apply Hm. apply quad_value.
Qed.

Lemma demo_prints : prints_numeric demo_getnameinfo.
Proof.
  intros n p rest Hn Hp. unfold demo_getnameinfo. rewrite sin_addr_ipv4 by done. do 2 f_equal.
  change (sin_port (sockaddr_in p n ++ rest)) with (be_val (be_bytes 2 p)).
  by rewrite be_val_bytes, Z.mod_small.
Qed.

(** The addresses of the class documentation's examples. *)
Lemma numeric_address_roundtrip_witness :
  dotted 0x12470097 = "18.71.0.151"%string /\
  exists a, from_ip demo_getaddrinfo (dotted 0x12470097) 53 = Ok a /\
    ipv4_numeric a = Ok 0x12470097 /\
    ip demo_getnameinfo a = Ok (dotted 0x12470097) /\ port demo_getnameinfo a = Ok 53 /\
    to_string demo_getnameinfo a = Ok (dotted 0x12470097 ++ ":" ++ pretty 53%Z)%string.
Proof.
  split; [by vm_compute|].
  apply (numeric_address_roundtrip demo_getaddrinfo demo_getnameinfo 0x12470097 53 demo_resolves demo_prints); lia.
Defined.

(** The address documentation's examples (address_example_1.cc to
    address_example_3.cc), and the program that runs them, address_dt.cc. *)
Section examples.
Context (getaddrinfo : string -> string -> addrinfo -> Z * option (list byte * Z))
        (getnameinfo : list byte -> Z -> Z * string * string) (strerror gai_strerror : Z -> string).

Definition google_webserver : res address := from_hostname getaddrinfo "www.google.com" "https".
Definition a_dns_server : res address := from_ip getaddrinfo "18.71.0.151" 53.
Definition a_dns_server_numeric (a_dns_server : address) : res Z := ipv4_numeric a_dns_server.

Definition address_example : res unit :=
  google_webserver ← google_webserver;
  a_dns_server ← a_dns_server;
  a_dns_server_numeric ← a_dns_server_numeric a_dns_server;
  google_port ← port getnameinfo google_webserver;
  if negb (google_port =? 443) || negb (a_dns_server_numeric =? 0x12470097)
  then Exc (runtime_error "unexpected value") else Ok tt.

(** The exit status, and what is written on standard error. *)
Definition address_dt : res (Z * string) :=
  exit_status address_example (fun e =>
    ("This test requires Internet access and working DNS." ++ nl ++
     "Error: " ++ what strerror gai_strerror e ++ nl)%string).
End examples.

(** The documentation's examples pass with every C library that converts
    numeric addresses as documented and resolves the web server's name to an
    IPv4 address with the port of https. *)
Theorem address_example_passes
    (getaddrinfo : string -> string -> addrinfo -> Z * option (list byte * Z))
    (getnameinfo : list byte -> Z -> Z * string * string) (n : Z) :
  resolves_numeric getaddrinfo -> prints_numeric getnameinfo -> 0 <= n < 2 ^ 32 ->
  getaddrinfo "www.google.com" "https" (make_hints AI_ALL AF_INET) =
    (0, Some (sockaddr_in 443 n, sizeof_sockaddr_in)) ->
  address_example getaddrinfo getnameinfo = Ok tt.
Proof.
  intros Hres Hprint Hn Hg. unfold address_example, google_webserver, a_dns_server, a_dns_server_numeric, from_hostname, resolve at 1.
  change (c_str "www.google.com") with "www.google.com"%string. change (c_str "https") with "https"%string.
  rewrite Hg. cbn [Z.eqb negb]. rewrite from_sockaddr_in. run.
  unfold from_ip, resolve. rewrite c_str_pretty by lia.
  change (c_str "18.71.0.151") with (dotted 0x12470097).
  rewrite Hres by lia. cbn [Z.eqb negb]. rewrite from_sockaddr_in, ipv4_numeric_ipv4 by lia.
  unfold port, ip_port. cbn [ipv4 _address _size]. rewrite Hprint by lia. cbn [Z.eqb negb]. done.
Qed.

(** The same library, that also knows the web server's name. *)
Definition demo_dns (node service : string) (hints : addrinfo) : Z * option (list byte * Z) :=
  if String.eqb node "www.google.com" then (0, Some (sockaddr_in 443 0x8efab004, sizeof_sockaddr_in))
  else demo_getaddrinfo node service hints.

Lemma dotted_not_name n : 0 <= n -> dotted n <> "www.google.com"%string.
Proof.
  intros Hn. unfold dotted. assert (H : 0 <= n / 2 ^ 24) by (apply Z.div_pos; lia).
  destruct (n / 2 ^ 24) as [|p|p]; [done| |lia]. change (pretty (Z.pos p)) with (pretty_N_go (N.pos p) EmptyString).
  destruct (pretty_head (N.pos p) ltac:(lia) EmptyString) as (m & s & Hm & ->). intros [= E _].
  apply (f_equal digit) in E. by rewrite digit_char in E.
Qed.

Lemma demo_dns_resolves : resolves_numeric demo_dns.
Proof.
  intros n p Hn Hp. unfold demo_dns.
  destruct (String.eqb_spec (dotted n) "www.google.com") as [E|_]; [by apply dotted_not_name in E; [|lia]|].
  by apply demo_resolves.
Qed.

Lemma address_example_passes_witness : address_example demo_dns demo_getnameinfo = Ok tt.
Proof.
  apply (address_example_passes demo_dns demo_getnameinfo 0x8efab004 demo_dns_resolves demo_prints);
    [lia|reflexivity].
Defined.
