(* ===== verification/AddressSafety.v ===== *)
(** The public interface of [Address] (libsponge/util/address.hh) as types of
    constructor and method calls: what is constructed is always a whole
    [sockaddr_storage] with a size that fits in it, whatever the resolver
    answers, and on such an address every method returns or throws. *)

From S2P Require Import Prelude NetInt Kernel Address.

(** The public constructors, [from_ipv4_numeric] included. *)
Inductive address_source :=
  | ByName (hostname service : string)
  | ByIp (ip : string) (port : Z)
  | OfSockaddr (addr : option (list byte)) (size : Z)
  | OfNumeric (ip_address : Z).

(** The public methods. *)
Inductive address_query :=
  | EqualTo (other : address)
  | NotEqualTo (other : address)
  | IpPort | Ip | Port | Ipv4Numeric | ToString | Size | AsSockaddr.

Inductive address_answer :=
  | Truth (b : bool)
  | Text (s : string)
  | TextAndPort (s : string) (port : Z)
  | Num (n : Z)
  | Raw (storage : list byte).

Section interface.
Context (getaddrinfo : string -> string -> addrinfo -> Z * option (list byte * Z))
        (getnameinfo : list byte -> Z -> Z * string * string).

Definition construct (x : address_source) : res address :=
  match x with
  | ByName hostname service => from_hostname getaddrinfo hostname service
  | ByIp ip port => from_ip getaddrinfo ip port
  | OfSockaddr addr size => from_sockaddr addr size
  | OfNumeric ip_address => from_ipv4_numeric ip_address
  end.

Definition do_query (a : address) (q : address_query) : res address_answer :=
  match q with
  | EqualTo b => Truth <$> equal a b
  | NotEqualTo b => Truth <$> not_equal a b
  | IpPort => (fun p => TextAndPort (fst p) (snd p)) <$> ip_port getnameinfo a
  | Ip => Text <$> ip getnameinfo a
  | Port => Num <$> port getnameinfo a
  | Ipv4Numeric => Num <$> ipv4_numeric a
  | ToString => Text <$> to_string getnameinfo a
  | Size => mret (Num (size a))
  | AsSockaddr => mret (Raw (sockaddr_of a))
  end.

(** ** What the callers and the resolver have to respect *)

(** [getaddrinfo(3)]: a result that is there points to as many bytes as it says. *)
Definition resolver_fills : Prop := forall node service hints,
  match getaddrinfo node service hints with
  | (_, Some (ai_addr, ai_addrlen)) => 0 <= ai_addrlen <= lenZ ai_addr
  | _ => True
  end.

Definition source_ok (x : address_source) : Prop :=
  match x with
  | OfSockaddr (Some addr) size => 0 <= size <= lenZ addr
  | OfSockaddr None size => size = 0
  | _ => True
  end.

Definition query_ok (q : address_query) : Prop :=
  match q with EqualTo b | NotEqualTo b => wf_address b | _ => True end.

(** ** What they get *)

(** The exceptions of the constructors. *)
Definition refused (x : address_source) (e : exn) : Prop :=
  match x, e with
  | (ByName _ _ | ByIp _ _), gai_error _ code => code <> 0
  | (ByName _ _ | ByIp _ _), runtime_error _ => True
  | OfSockaddr _ size, runtime_error _ => sizeof_storage < size
  | _, _ => False
  end.

(** The values of the methods, in the range of their types. *)
Definition answers (a : address) (q : address_query) (r : address_answer) : Prop :=
  match q, r with
  | EqualTo b, Truth t => t = address_eqb a b
  | NotEqualTo b, Truth t => t = negb (address_eqb a b)
  | IpPort, TextAndPort _ p | Port, Num p => 0 <= p < 2 ^ 16
  | Ip, Text _ => True
  | Ipv4Numeric, Num n => 0 <= n < 2 ^ 32 /\ _size a = sizeof_sockaddr_in
  | ToString, Text s => exists host p, 0 <= p < 2 ^ 16 /\ s = (host ++ ":" ++ pretty p)%string
  | Size, Num n => 0 <= n <= sizeof_storage
  | AsSockaddr, Raw l => lenZ l = sizeof_storage
  | _, _ => False
  end.

(** The exceptions of the methods: [getnameinfo(3)]'s and [stoi]'s, and that of
    [ipv4_numeric]. *)
Definition complains (q : address_query) (e : exn) : Prop :=
  match q, e with
  | (IpPort | Ip | Port | ToString), gai_error _ code => code <> 0
  | (IpPort | Ip | Port | ToString), (invalid_argument _ | out_of_range _) => True
  | Ipv4Numeric, runtime_error _ => True
  | _, _ => False
  end.

Definition ends_with {A} (P : A -> Prop) (Q : exn -> Prop) (r : res A) : Prop :=
  match r with Ok a => P a | Exc e => Q e | _ => False end.

Lemma ends_with_fmap {A B} (f : A -> B) P Q (r : res A) :
  ends_with (fun a => P (f a)) Q r -> ends_with P Q (f <$> r).
Proof. by destruct r. Qed.

(** ** Lemmas *)

Lemma from_sockaddr_wf addr size :
  0 <= size -> (forall l, addr = Some l -> size <= lenZ l) -> (addr = None -> size = 0) ->
  ends_with wf_address (fun e => sizeof_storage < size /\ e = runtime_error "invalid sockaddr size") (from_sockaddr addr size).
Proof.
  intros H0 Hsome Hnone. unfold from_sockaddr, memcpy, wf_address, sizeof_storage. rewrite Z.gtb_ltb.
  destruct (Z.ltb_spec 128 size); [done|]. destruct (Z.eqb_spec size 0) as [->|Hne]; [by run|].
  destruct addr as [l|]; [|by specialize (Hnone eq_refl)]. specialize (Hsome l eq_refl).
  destruct (Z.ltb_spec (lenZ l) size); [lia|]. run. cbn [ends_with _address _size]. rewrite u32_small by lia.
  split; [|lia]. unfold overwrite. rewrite lenZ_app, lenZ_take by lia.
  unfold lenZ in *. rewrite length_drop, length_take, length_replicate. lia.
Qed.

Lemma resolve_wf node service hints :
  resolver_fills -> ends_with wf_address
    (fun e => match e with gai_error _ code => code <> 0 | runtime_error _ => True | _ => False end)
    (resolve getaddrinfo node service hints).
Proof.
  intros Hfill. unfold resolve. specialize (Hfill (c_str node) (c_str service) hints).
  destruct (getaddrinfo _ _ _) as [gai_ret [[d n]|]]; destruct (Z.eqb_spec gai_ret 0); simpl; try done.
  pose proof (from_sockaddr_wf (Some d) n ltac:(lia) ltac:(intros l [= <-]; lia) ltac:(done)) as H.
  destruct (from_sockaddr (Some d) n); try done. by destruct H as [_ ->].
Qed.

(** [stoi] gives an [int] or throws. *)
Lemma stoi_ends s : ends_with (fun _ => True)
  (fun e => match e with invalid_argument _ | out_of_range _ => True | _ => False end) (stoi s).
Proof.
  unfold stoi. match goal with |- context [let '(_, _) := ?x in _] => destruct x as [sign t] end.
  destruct (digits None t); simpl; [|done]. by destruct (_ && _).
Qed.

Lemma ip_port_ends a : ends_with (fun p => 0 <= snd p < 2 ^ 16) (complains IpPort) (ip_port getnameinfo a).
Proof.
  unfold ip_port. destruct (getnameinfo _ _) as [[gni_ret host] service].
  destruct (Z.eqb_spec gni_ret 0); simpl; [|done]. pose proof (stoi_ends service) as H.
  destruct (stoi service) as [n|ex| |]; simpl in *; [apply u16_range|by destruct ex|done..].
Qed.

Lemma ends_with_bind {A B} (f : A -> B) P Q (r : res A) :
  ends_with (fun a => P (f a)) Q r -> ends_with P Q (a ← r; mret (f a)).
Proof. by destruct r. Qed.

Lemma ends_with_weaken {A} (P P' : A -> Prop) (Q Q' : exn -> Prop) (r : res A) :
  ends_with P Q r -> (forall a, P a -> P' a) -> (forall e, Q e -> Q' e) -> ends_with P' Q' r.
Proof. destruct r; simpl; auto. Qed.

Lemma construct_ends x :
  resolver_fills -> source_ok x -> ends_with wf_address (refused x) (construct x).
Proof.
  intros Hfill Hx. destruct x as [h s|i p|addr size|n]; cbn [construct source_ok] in *.
  1,2: eapply ends_with_weaken; [by apply resolve_wf|done|intros []; done].
  - eapply ends_with_weaken; [apply from_sockaddr_wf|done|by intros e [H ->]].
    + destruct addr; lia.
    + intros l ->. lia.
    + by intros ->.
  - unfold from_ipv4_numeric. rewrite from_sockaddr_in. apply wf_ipv4.
Qed.

Lemma ipv4_numeric_ends a :
  wf_address a -> ends_with (fun n => answers a Ipv4Numeric (Num n)) (complains Ipv4Numeric) (ipv4_numeric a).
Proof.
  intros [Hl _]. unfold ipv4_numeric. destruct (ss_family _ =? AF_INET); [|done].
  destruct (Z.eqb_spec (_size a) sizeof_sockaddr_in) as [E|]; [|done]. simpl. split; [|done].
  unfold sin_addr. pose proof (be_val_range (take 4 (drop 4 (_address a)))) as H.
  unfold lenZ, sizeof_storage in *. rewrite length_take, length_drop in H.
  by replace (Z.of_nat (4 `min` (length (_address a) - 4))) with 4 in H by lia.
Qed.

Lemma do_query_ends a q :
  wf_address a -> query_ok q -> ends_with (answers a q) (complains q) (do_query a q).
Proof using Type.
  intros Ha Hq. pose proof (ip_port_ends a) as Hp. destruct q as [b|b| | | | | | |]; simpl in Hq.
  1,2: unfold do_query, not_equal; by rewrite equal_ok.
  - apply ends_with_fmap. eapply ends_with_weaken; [exact Hp|done|done].
  - apply ends_with_fmap, (ends_with_bind fst (answers a Ip ∘ Text)). eapply ends_with_weaken; [exact Hp|by intros|done].
  - apply ends_with_fmap, (ends_with_bind snd (answers a Port ∘ Num)). eapply ends_with_weaken; [exact Hp|done|done].
  - by apply ends_with_fmap, ipv4_numeric_ends.
  - apply ends_with_fmap, (ends_with_bind _ (answers a ToString ∘ Text)). eapply ends_with_weaken; [exact Hp|intros p H; by exists (fst p), (snd p)|done].
  - apply Ha.
  - apply Ha.
Qed.

(** C17: An address always has its whole storage and a size that fits in it,
    whatever the resolver answers: every constructor gives such an address or
    throws, with nothing read past what it is given; and on every address
    constructed, every method returns a value in the range of its type or throws,
    whatever [getnameinfo(3)] answers, with nothing undefined: the port is 16 bits,
    the number 32, and [==] compares no byte past the storage. *)
Theorem address_typed (x : address_source) :
  resolver_fills -> source_ok x ->
  ends_with (fun a => wf_address a /\ forall q, query_ok q -> ends_with (answers a q) (complains q) (do_query a q))
    (refused x) (construct x).
Proof.
  intros Hfill Hx. eapply ends_with_weaken; [by apply construct_ends| |done].
  intros a Ha. split; [done|]. intros q. by apply do_query_ends.
Qed.
End interface.

(** A resolver that answers with too long an address, and one that is given a
    port beyond 16 bits. *)
Definition long_getaddrinfo (node service : string) (hints : addrinfo) : Z * option (list byte * Z) :=
  (0, Some (replicate 200 Byte.x01, if String.eqb service "http" then 16 else 200)).
Definition odd_getnameinfo (storage : list byte) (size : Z) : Z * string * string := (0, "10.0.0.1"%string, "70000"%string).

Lemma address_typed_witness :
  ends_with (fun a => wf_address a /\ forall q, query_ok q ->
      ends_with (answers a q) (complains q) (do_query odd_getnameinfo a q))
    (refused (ByName "www.google.com" "http")) (construct long_getaddrinfo (ByName "www.google.com" "http")) /\
  construct long_getaddrinfo (ByName "www.google.com" "https") = Exc (runtime_error "invalid sockaddr size") /\
  do_query odd_getnameinfo (ipv4 53 1) Port = Ok (Num 4464).
Proof.
  split; [|by split].
  apply (address_typed long_getaddrinfo odd_getnameinfo (ByName "www.google.com" "http")); [|exact I].
  intros node service hints. unfold long_getaddrinfo. destruct (String.eqb service "http"); vm_compute; split; discriminate.
Defined.
