(* ===== verification/Socket.v ===== *)
(** [Socket], [UDPSocket], [TCPSocket] and [LocalStreamSocket]
    (libsponge/util/socket.hh, socket.cc): the checks on a descriptor's kind,
    the calls they wrap, the accounting of reads and writes, and what happens
    to the descriptor when a constructor throws. *)

From stdpp Require Import gmap.
From S2P Require Import Prelude Discard Buffer BufferList BufferViewList NetInt Address Kernel FileDescriptor.

Definition AF_UNIX : Z := 1.
Definition SOCK_STREAM : Z := 1.
Definition SOCK_DGRAM : Z := 2.
Definition SOL_SOCKET : Z := 1.
Definition SO_REUSEADDR : Z := 2.
Definition SO_TYPE : Z := 3.
Definition SO_DOMAIN : Z := 39.
Definition SHUT_RD : Z := 0.
Definition SHUT_WR : Z := 1.
Definition SHUT_RDWR : Z := 2.

(** The socket calls.  [getsockopt] answers the value and the length it
    stored, the name calls and [recvfrom] the bytes of an address and its
    length, [recvfrom] the bytes it stored in the buffer first. *)
Record net (W : Type) := Net {
  n_socket : Z -> Z -> W -> sysret * W;
  n_getsockopt : Z -> Z -> Z -> W -> sysret * Z * Z * W;
  n_setsockopt : Z -> Z -> Z -> Z -> W -> sysret * W;
  n_bind : Z -> list byte -> Z -> W -> sysret * W;
  n_connect : Z -> list byte -> Z -> W -> sysret * W;
  n_shutdown : Z -> Z -> W -> sysret * W;
  n_getsockname : Z -> W -> sysret * list byte * Z * W;
  n_getpeername : Z -> W -> sysret * list byte * Z * W;
  n_recvfrom : Z -> Z -> W -> sysret * list byte * list byte * Z * W;
  n_sendmsg : Z -> option (list byte * Z) -> list iovec -> W -> sysret * W;
  n_listen : Z -> Z -> W -> sysret * W;
  n_accept : Z -> W -> sysret * W
}.
Arguments n_socket {W}.
Arguments n_getsockopt {W}.
Arguments n_setsockopt {W}.
Arguments n_bind {W}.
Arguments n_connect {W}.
Arguments n_shutdown {W}.
Arguments n_getsockname {W}.
Arguments n_getpeername {W}.
Arguments n_recvfrom {W}.
Arguments n_sendmsg {W}.
Arguments n_listen {W}.
Arguments n_accept {W}.

(** A received datagram. *)
Record received_datagram := Datagram { source_address : address; payload : list byte }.

Section socket.
Context {W : Type} (k : kernel W) (net : net W).

(** ** Socket *)

(** [Socket(domain, type)] *)
Definition socket (domain type : Z) : M (sys W) handle :=
  fd ← checked "socket" (n_socket net domain type); new_fd fd.

(** One [getsockopt] check of the constructor below; [sizeof(int)] is 4. *)
Definition verify (h : handle) (option expected : Z) (message : string) : M (sys W) unit :=
  fd ← fd_num h;
  '(r, actual_value, len) ← call (n_getsockopt net fd SOL_SOCKET option);
  lift (SystemCall "getsockopt" r 0) ;;
  if negb (len =? 4) || negb (actual_value =? expected) then throw (runtime_error message) else mret tt.

(** [Socket(FileDescriptor &&fd, domain, type)]: takes the handle over. *)
Definition socket_from_fd (h : handle) (domain type : Z) : M (sys W) handle :=
  unwinding (release k h)
    (verify h SO_DOMAIN domain "socket domain mismatch" ;;
     verify h SO_TYPE type "socket type mismatch" ;;
     mret h).

Definition get_address (name_of_function : string) (f : Z -> W -> sysret * list byte * Z * W)
    (h : handle) : M (sys W) address :=
  fd ← fd_num h;
  '(r, bytes, size) ← call (f fd);
  lift (SystemCall name_of_function r 0) ;;
  lift (from_sockaddr (Some (overwrite bytes (replicate (Z.to_nat sizeof_storage) Byte.x00))) size).

Definition local_address (h : handle) : M (sys W) address := get_address "getsockname" (n_getsockname net) h.
Definition peer_address (h : handle) : M (sys W) address := get_address "getpeername" (n_getpeername net) h.

Definition bind (h : handle) (a : address) : M (sys W) unit :=
  fd ← fd_num h; checked "bind" (n_bind net fd (sockaddr_of a) (size a)) ;; mret tt.
Definition connect (h : handle) (a : address) : M (sys W) unit :=
  fd ← fd_num h; checked "connect" (n_connect net fd (sockaddr_of a) (size a)) ;; mret tt.

Definition shutdown (h : handle) (how : Z) : M (sys W) unit :=
  fd ← fd_num h;
  checked "shutdown" (n_shutdown net fd how) ;;
  if how =? SHUT_RD then register_read h
  else if how =? SHUT_WR then register_write h
  else if how =? SHUT_RDWR then register_read h ;; register_write h
  else throw (runtime_error "Socket::shutdown() called with invalid `how`").

Definition setsockopt (h : handle) (level option value : Z) : M (sys W) unit :=
  fd ← fd_num h; checked "setsockopt" (n_setsockopt net fd level option value) ;; mret tt.
Definition set_reuseaddr (h : handle) : M (sys W) unit := setsockopt h SOL_SOCKET SO_REUSEADDR 1.

(** ** UDPSocket *)

Definition udp_socket : M (sys W) handle := socket AF_INET SOCK_DGRAM.
Definition udp_from_fd (h : handle) : M (sys W) handle := socket_from_fd h AF_INET SOCK_DGRAM.

(** [recv(datagram, mtu)], over the caller's datagram. *)
Definition on_sys_of {D A} (m : M (sys W) A) : M (sys W * D) A := on_field fst (fun s p => (s, snd p)) m.
Definition set_payload (d : list byte) : M (sys W * received_datagram) unit :=
  modify (fun p => (fst p, Datagram (source_address (snd p)) d)).
Definition set_source (a : address) : M (sys W * received_datagram) unit :=
  modify (fun p => (fst p, Datagram a (payload (snd p)))).

Definition recv_into (h : handle) (mtu : Z) : M (sys W * received_datagram) unit :=
  p ← get;
  buffer ← lift (str_resize mtu (payload (snd p)));
  set_payload buffer ;;
  fd ← on_sys_of (fd_num h);
  '(r, d, src, fromlen) ← on_sys_of (call (n_recvfrom net fd (lenZ buffer)));
  set_payload (overwrite d buffer) ;;
  recv_len ← lift (SystemCall "recvfrom" r 0);
  if recv_len >? to_ssize mtu then throw (runtime_error "recvfrom (oversized datagram)")
  else
    on_sys_of (register_read h) ;;
    a ← lift (from_sockaddr (Some (overwrite src (replicate (Z.to_nat sizeof_storage) Byte.x00))) fromlen);
    set_source a ;;
    final ← lift (str_resize (u64 recv_len) (overwrite d buffer));
    set_payload final.

Definition recv (h : handle) (mtu : Z) : M (sys W) received_datagram := fun s =>
  match from_sockaddr None 0 with
  | Ok nobody =>
      match recv_into h mtu (s, Datagram nobody []) with
      | (Ok _, (s, ret)) => (Ok ret, s)
      | (Exc e, (s, _)) => (Exc e, s)
      | (Undef u, (s, _)) => (Undef u, s)
      | (NoFuel, (s, _)) => (NoFuel, s)
      end
  | Exc e => (Exc e, s)
  | Undef u => (Undef u, s)
  | NoFuel => (NoFuel, s)
  end.

(** The default [mtu]. *)
Definition default_mtu : Z := 65536.

Definition sendmsg_helper (fd : Z) (destination : option (list byte * Z)) (payload : view_list) : M (sys W) unit :=
  bytes_sent ← checked "sendmsg" (n_sendmsg net fd destination (as_iovecs payload));
  if negb (u64 bytes_sent =? BufferViewList.size payload)
  then throw (runtime_error "datagram payload too big for sendmsg()") else mret tt.

Definition sendto (h : handle) (destination : address) (payload : view_list) : M (sys W) unit :=
  fd ← fd_num h;
  sendmsg_helper fd (Some (sockaddr_of destination, size destination)) payload ;;
  register_write h.
Definition send (h : handle) (payload : view_list) : M (sys W) unit :=
  fd ← fd_num h; sendmsg_helper fd None payload ;; register_write h.

(** ** TCPSocket, LocalStreamSocket *)

Definition tcp_socket : M (sys W) handle := socket AF_INET SOCK_STREAM.
Definition tcp_from_fd (h : handle) : M (sys W) handle := socket_from_fd h AF_INET SOCK_STREAM.
Definition local_stream_from_fd (h : handle) : M (sys W) handle := socket_from_fd h AF_UNIX SOCK_STREAM.

(** The default [backlog]. *)
Definition default_backlog : Z := 16.

Definition listen (h : handle) (backlog : Z) : M (sys W) unit :=
  fd ← fd_num h; checked "listen" (n_listen net fd backlog) ;; mret tt.

Definition accept (h : handle) : M (sys W) handle :=
  register_read h ;;
  fd ← fd_num h;
  new ← checked "accept" (n_accept net fd);
  new_h ← new_fd new;
  tcp_from_fd new_h.

End socket.

(** ** Lemmas *)

Section lemmas.
Context {W : Type} (k : kernel W) (net : net W).

(** The object after a write or a read, without end of file. *)
Lemma register_read_ok h c (s : sys W) :
  live h c s -> register_read h s = (Ok tt, put h (map_obj (count_read false) c) (world s) s).
Proof.
  intros Hl. unfold register_read. rewrite (update_ok h c) by done. do 2 f_equal.
  destruct c as [[] ?]. unfold map_obj, count_read. simpl. by rewrite orb_false_r.
Qed.

Lemma register_write_ok h c (s : sys W) :
  live h c s -> register_write h s = (Ok tt, put h (map_obj count_write c) (world s) s).
Proof. apply update_ok. Qed.

(** Whether one check of the constructor passes. *)
Definition verified (r : sysret) (actual_value len expected : Z) : bool :=
  ((0 <=? to_int (ret r)) || (errno r =? 0)) && (len =? 4) && (actual_value =? expected).

Lemma verify_result h c option expected message s :
  live h c s ->
  let '(r, v, len, w) := n_getsockopt net (_fd (fd_obj c)) SOL_SOCKET option (world s) in
  if verified r v len expected then verify net h option expected message s = (Ok tt, Sys (fds s) w)
  else exists e, verify net h option expected message s = (Exc e, Sys (fds s) w).
Proof.
  intros Hl. unfold verify, verified. run. rewrite (fd_num_ok h c s Hl). unfold call.
  destruct (n_getsockopt _ _ _ _ _) as [[[r v] len] w]. unfold SystemCall. rewrite Z.geb_leb.
  destruct (_ || _); [|by eexists]. destruct (len =? 4), (v =? expected); simpl; by try eexists.
Qed.

Lemma release_live h c (s : sys W) : live h c s -> exists s', release k h s = (Ok tt, s').
Proof.
  intros Hl. pose proof Hl as (p & -> & _). destruct (release_ok k p c s Hl) as (s' & E & _). by exists s'.
Qed.

Lemma socket_from_fd_result h c domain type s :
  live h c s ->
  let '(r1, v1, l1, w1) := n_getsockopt net (_fd (fd_obj c)) SOL_SOCKET SO_DOMAIN (world s) in
  let '(r2, v2, l2, w2) := n_getsockopt net (_fd (fd_obj c)) SOL_SOCKET SO_TYPE w1 in
  if verified r1 v1 l1 domain then
    if verified r2 v2 l2 type then socket_from_fd k net h domain type s = (Ok h, Sys (fds s) w2)
    else exists e, socket_from_fd k net h domain type s = (Exc e, snd (release k h (Sys (fds s) w2)))
  else exists e, socket_from_fd k net h domain type s = (Exc e, snd (release k h (Sys (fds s) w1))).
Proof.
  intros Hl. unfold socket_from_fd, unwinding.
  pose proof (verify_result h c SO_DOMAIN domain "socket domain mismatch" s Hl) as H1.
  destruct (n_getsockopt net _ _ SO_DOMAIN _) as [[[r1 v1] l1] w1].
  assert (Hl1 : live h c (Sys (fds s) w1)) by exact Hl.
  pose proof (verify_result h c SO_TYPE type "socket type mismatch" (Sys (fds s) w1) Hl1) as H2. simpl in H2.
  destruct (n_getsockopt net _ _ SO_TYPE _) as [[[r2 v2] l2] w2].
  assert (Hl2 : live h c (Sys (fds s) w2)) by exact Hl.
  unfold mbind, M_bind. destruct (verified r1 v1 l1 domain).
  - rewrite H1. destruct (verified r2 v2 l2 type); [by rewrite H2|]. destruct H2 as [e ->].
    destruct (release_live h c _ Hl2) as [s' E]. rewrite E. by exists e.
  - destruct H1 as [e ->]. destruct (release_live h c _ Hl1) as [s' E]. rewrite E. by exists e.
Qed.

(** Releasing the only handle of an object not closed. *)
Lemma release_sole (m : gmap positive fd_cell) p f w :
  m !! p = None ->
  snd (release k (Some p) (Sys (<[p := FDCell (FDWrapper f false false 0 0) 1]> m) w)) =
  Sys m (destroyed k f w).
Proof.
  intros Hp. set (obj := FDCell _ _). set (s := Sys _ w).
  assert (Hl : live (Some p) obj s) by (exists p; split; [done|]; apply lookup_insert_eq).
  destruct (release_ok k p obj s Hl) as ([m' w'] & -> & Hf & Hw). simpl in *. subst.
  by rewrite delete_insert_id.
Qed.
End lemmas.

(** ** Properties *)

(** C36: A constructor that takes over a descriptor accepts it exactly when the
    kernel confirms both its domain and its type; otherwise it throws, and
    the handle it took over is released before it does, so that a sole owner's
    descriptor is closed and not leaked. *)
Theorem socket_checks_or_releases {W : Type} (k : kernel W) (net : net W) (h : handle) (c : fd_cell)
    (domain type : Z) (s : sys W) :
  live h c s ->
  let '(r1, v1, l1, w1) := n_getsockopt net (_fd (fd_obj c)) SOL_SOCKET SO_DOMAIN (world s) in
  let '(r2, v2, l2, w2) := n_getsockopt net (_fd (fd_obj c)) SOL_SOCKET SO_TYPE w1 in
  if verified r1 v1 l1 domain && verified r2 v2 l2 type
  then socket_from_fd k net h domain type s = (Ok h, Sys (fds s) w2)
  else exists e w, (w = w1 \/ w = w2) /\
    socket_from_fd k net h domain type s = (Exc e, snd (release k h (Sys (fds s) w))).
Proof.
  intros Hl. pose proof (socket_from_fd_result k net h c domain type s Hl) as H.
  destruct (n_getsockopt net _ _ SO_DOMAIN _) as [[[r1 v1] l1] w1].
  destruct (n_getsockopt net _ _ SO_TYPE _) as [[[r2 v2] l2] w2].
  destruct (verified r1 v1 l1 domain), (verified r2 v2 l2 type); simpl; try done.
  all: destruct H as [e H]; exists e; eexists; split; [|exact H]; auto.
Qed.

(** [shutdown] counts as a read, a write or both, as its argument says,
    after the kernel has accepted it; any other argument throws, also after
    the call has been made. *)
Theorem shutdown_spec {W : Type} (net : net W) (h : handle) (c : fd_cell) (how : Z) (s : sys W) :
  live h c s ->
  let '(r, w) := n_shutdown net (_fd (fd_obj c)) how (world s) in
  shutdown net h how s =
  match SystemCall "shutdown" r 0 with
  | Ok _ =>
      if how =? SHUT_RD then (Ok tt, put h (map_obj (count_read false) c) w s)
      else if how =? SHUT_WR then (Ok tt, put h (map_obj count_write c) w s)
      else if how =? SHUT_RDWR then (Ok tt, put h (map_obj (fun o => count_write (count_read false o)) c) w s)
      else (Exc (runtime_error "Socket::shutdown() called with invalid `how`"), Sys (fds s) w)
  | Exc e => (Exc e, Sys (fds s) w)
  | Undef u => (Undef u, Sys (fds s) w)
  | NoFuel => (NoFuel, Sys (fds s) w)
  end.
Proof.
  intros Hl. unfold shutdown, checked. destruct (n_shutdown _ _ _ _) as [r w] eqn:En.
  run. rewrite (fd_num_ok h c s Hl). unfold call. rewrite En.
  assert (Hl1 : live h c (Sys (fds s) w)) by exact Hl.
  destruct (SystemCall "shutdown" r 0); try done.
  destruct (how =? SHUT_RD); [by rewrite (register_read_ok h c _ Hl1), put_world|].
  destruct (how =? SHUT_WR); [by rewrite (register_write_ok h c _ Hl1), put_world|].
  destruct (how =? SHUT_RDWR); [|done].
  rewrite (register_read_ok h c _ Hl1).
  rewrite (register_write_ok h (map_obj (count_read false) c)) by (by eapply put_live).
  by rewrite put_put, world_put, put_world.
Qed.

(** [sendmsg(2)] on a datagram socket. *)
Definition sends {W} (net : net W) : Prop := forall fd dst iov w,
  let '(r, _) := n_sendmsg net fd dst iov w in -1 <= ret r <= int_max /\ (ret r = -1 -> errno r <> 0).

Lemma sendmsg_helper_result {W : Type} (net : net W) (fd : Z) (dst : option (list byte * Z))
    (payload : view_list) (s : sys W) :
  sends net -> wf_views payload ->
  let '(r, w) := n_sendmsg net fd dst (as_iovecs payload) (world s) in
  sendmsg_helper net fd dst payload s =
    if ret r =? -1 then (Exc (unix_error "sendmsg" (errno r)), Sys (fds s) w)
    else if ret r =? lenZ (views_text payload) then (Ok tt, Sys (fds s) w)
    else (Exc (runtime_error "datagram payload too big for sendmsg()"), Sys (fds s) w).
Proof.
  intros Hs Hwf. specialize (Hs fd dst (as_iovecs payload) (world s)). unfold sendmsg_helper, checked, call. run.
  destruct (n_sendmsg _ _ _ _ _) as [r w]. destruct Hs as [Hr He].
  destruct (Z.eqb_spec (ret r) (-1)) as [E|E]; [by rewrite SystemCall_fails by auto|].
  rewrite SystemCall_ok, views_size_ok by (done || lia). unfold int_max in Hr.
  rewrite u64_small by lia. by destruct (ret r =? _).
Qed.

(** C30: Sending a datagram, to an address or to the peer: it goes out as one
    message that gathers the payload; the write is counted exactly when the
    kernel took all of it, and anything less throws. *)
Theorem sendto_spec {W : Type} (net : net W) (h : handle) (c : fd_cell) (a : address)
    (payload : view_list) (s : sys W) :
  sends net -> live h c s -> wf_views payload ->
  gather (as_iovecs payload) = views_text payload /\
  let '(r, w) := n_sendmsg net (_fd (fd_obj c)) (Some (_address a, _size a)) (as_iovecs payload) (world s) in
  sendto net h a payload s =
    if ret r =? -1 then (Exc (unix_error "sendmsg" (errno r)), Sys (fds s) w)
    else if ret r =? lenZ (views_text payload) then (Ok tt, put h (map_obj count_write c) w s)
    else (Exc (runtime_error "datagram payload too big for sendmsg()"), Sys (fds s) w).
Proof.
  intros Hs Hl Hwf. split; [apply gather_as_iovecs|].
  pose proof (sendmsg_helper_result net (_fd (fd_obj c)) (Some (_address a, _size a)) payload s Hs Hwf) as E.
  unfold sendto. run. rewrite (fd_num_ok h c s Hl). unfold sockaddr_of, size.
  destruct (n_sendmsg _ _ _ _ _) as [r w]. rewrite E.
  destruct (ret r =? -1); [done|]. destruct (ret r =? _); [|done].
  assert (Hl1 : live h c (Sys (fds s) w)) by exact Hl. by rewrite (register_write_ok h c _ Hl1), put_world.
Qed.

(** [recvfrom(2)] with MSG_TRUNC: the real length of the datagram, of which at
    most the buffer's size is stored; the source fits a [sockaddr_storage]. *)
Definition receives {W} (net : net W) : Prop := forall fd n w, 0 <= n ->
  let '(r, d, src, fromlen, _) := n_recvfrom net fd n w in
  -1 <= ret r <= int_max /\ (ret r = -1 -> errno r <> 0) /\
  lenZ d = Z.min n (Z.max 0 (ret r)) /\ lenZ src = fromlen /\ fromlen <= sizeof_storage.

Lemma recv_result {W : Type} (net : net W) (h : handle) (c : fd_cell) (mtu : Z) (s : sys W) :
  receives net -> live h c s -> 0 <= mtu <= string_max_size ->
  let '(r, d, src, fromlen, w) := n_recvfrom net (_fd (fd_obj c)) mtu (world s) in
  recv net h mtu s =
    if ret r =? -1 then (Exc (unix_error "recvfrom" (errno r)), Sys (fds s) w)
    else if mtu <? ret r then (Exc (runtime_error "recvfrom (oversized datagram)"), Sys (fds s) w)
    else (Ok (Datagram (Address fromlen (overwrite src (replicate 128 Byte.x00))) d),
          put h (map_obj (count_read false) c) w s).
Proof.
  intros Hk Hl Hm. pose proof Hm as Hm'. unfold string_max_size in Hm'.
  specialize (Hk (_fd (fd_obj c)) mtu (world s) (proj1 Hm)).
  destruct (n_recvfrom _ _ _ _) as [[[[r d] src] fromlen] w] eqn:Ek. destruct Hk as (Hr & He & Hd & Hsrc & Hfrom).
  unfold int_max in Hr. unfold recv. change (from_sockaddr None 0) with (Ok (Address 0 (replicate 128 Byte.x00))).
  cbv iota. unfold recv_into, on_sys_of, on_field, set_payload, set_source. run. cbn [payload source_address].
  unfold str_resize at 1. rewrite Z.gtb_ltb. destruct (Z.ltb_spec string_max_size mtu) as [?|_]; [lia|].
  rewrite (fd_num_ok h c s Hl). unfold call.
  assert (Hlen : lenZ (resize (Z.to_nat mtu) Byte.x00 []) = mtu) by (unfold lenZ; rewrite length_resize; lia).
  rewrite Hlen, Ek. assert (Hl1 : live h c (Sys (fds s) w)) by exact Hl.
  destruct (Z.eqb_spec (ret r) (-1)) as [E|E]; [by rewrite SystemCall_fails by auto|].
  rewrite SystemCall_ok, to_ssize_small, Z.gtb_ltb by (unfold int_max; lia).
  destruct (Z.ltb_spec mtu (ret r)) as [?|Hle]; [done|]. rewrite (register_read_ok h c _ Hl1), put_world.
  assert (Hover : overwrite src (replicate (Z.to_nat sizeof_storage) Byte.x00) =
                  overwrite src (replicate 128 Byte.x00)) by done.
  pose proof (lenZ_nonneg src). unfold sizeof_storage in Hfrom. rewrite Hover.
  assert (Ha : from_sockaddr (Some (overwrite src (replicate 128 Byte.x00))) fromlen =
               Ok (Address fromlen (overwrite src (replicate 128 Byte.x00)))).
  { unfold from_sockaddr, memcpy, sizeof_storage. rewrite Z.gtb_ltb.
    destruct (Z.ltb_spec 128 fromlen); [lia|]. rewrite u32_small by lia.
    destruct (Z.eqb_spec fromlen 0) as [->|Hne]; [by rewrite (lenZ_zero src)|].
    assert (Hlo : lenZ (overwrite src (replicate 128 Byte.x00)) = 128).
    { unfold overwrite, lenZ in *. rewrite length_app, length_drop, length_replicate. lia. }
    destruct (Z.ltb_spec (lenZ (overwrite src (replicate 128 Byte.x00))) fromlen); [lia|]. simpl. do 2 f_equal.
    unfold overwrite at 2. rewrite take_app_length' by (unfold lenZ in *; lia). done. }
  rewrite Ha. cbn [fst snd payload]. unfold str_resize. rewrite u64_small, Z.gtb_ltb by lia.
  destruct (Z.ltb_spec string_max_size (ret r)) as [?|_]; [lia|]. cbn. do 3 f_equal.
  unfold overwrite, lenZ in *. rewrite resize_app_le, resize_all_alt by lia. done.
Qed.

(** C31: Receiving a datagram: what fits is returned whole with its sender's
    address and counted as a read; a datagram longer than the limit throws,
    uncounted, rather than being truncated. *)
Theorem recv_spec {W : Type} (net : net W) (h : handle) (c : fd_cell) (mtu : Z) (s : sys W) :
  receives net -> live h c s -> 0 <= mtu <= string_max_size ->
  let '(r, d, src, fromlen, w) := n_recvfrom net (_fd (fd_obj c)) mtu (world s) in
  recv net h mtu s =
    if ret r =? -1 then (Exc (unix_error "recvfrom" (errno r)), Sys (fds s) w)
    else if mtu <? ret r then (Exc (runtime_error "recvfrom (oversized datagram)"), Sys (fds s) w)
    else (Ok (Datagram (Address fromlen (overwrite src (replicate 128 Byte.x00))) d),
          put h (map_obj (count_read false) c) w s).
Proof. apply recv_result. Qed.

Lemma accept_result {W : Type} (k : kernel W) (net : net W) (h : handle) (c : fd_cell) (s : sys W) :
  live h c s ->
  let s0 := put h (map_obj (count_read false) c) (world s) s in
  let '(r, w) := n_accept net (_fd (fd_obj c)) (world s) in
  0 <= ret r <= int_max ->
  let '(r1, v1, l1, w1) := n_getsockopt net (ret r) SOL_SOCKET SO_DOMAIN w in
  let '(r2, v2, l2, w2) := n_getsockopt net (ret r) SOL_SOCKET SO_TYPE w1 in
  if verified r1 v1 l1 AF_INET && verified r2 v2 l2 SOCK_STREAM then
    exists p, fds s0 !! p = None /\
      accept k net h s = (Ok (Some p), Sys (<[p := FDCell (FDWrapper (ret r) false false 0 0) 1]> (fds s0)) w2)
  else exists e w', (w' = w1 \/ w' = w2) /\
      accept k net h s = (Exc e, Sys (fds s0) (destroyed k (ret r) w')).
Proof.
  intros Hl s0. destruct (n_accept _ _ _) as [r w] eqn:Ea. intros Hr. unfold accept, checked. run.
  rewrite (register_read_ok h c s Hl). fold s0.
  assert (Hl0 : live h (map_obj (count_read false) c) s0) by (by eapply put_live).
  rewrite (fd_num_ok h _ s0 Hl0). unfold call.
  assert (Hw0 : world s0 = world s) by apply world_put. rewrite Hw0. cbn [map_obj fd_obj count_read _fd].
  rewrite Ea, SystemCall_ok by done. unfold new_fd. destruct (Z.ltb_spec (ret r) 0) as [?|_]; [lia|]. cbn [fds].
  set (p := fresh (dom (fds s0))). set (obj := FDCell (FDWrapper (ret r) false false 0 0) 1).
  assert (Hp : fds s0 !! p = None) by (apply not_elem_of_dom, is_fresh).
  assert (Hlp : forall w' : W, live (Some p) obj (Sys (<[p := obj]> (fds s0)) w')).
  { intros w'. exists p. split; [done|]. apply lookup_insert_eq. }
  pose proof (socket_from_fd_result k net (Some p) obj AF_INET SOCK_STREAM _ (Hlp w)) as H.
  cbn [world] in H. change (_fd (fd_obj obj)) with (ret r) in H.
  unfold tcp_from_fd. cbn [world].
  destruct (n_getsockopt net _ _ SO_DOMAIN _) as [[[r1 v1] l1] w1].
  destruct (n_getsockopt net _ _ SO_TYPE _) as [[[r2 v2] l2] w2].
  pose proof (fun w' => release_sole k (fds s0) p (ret r) w' Hp) as Hrel.
  destruct (verified r1 v1 l1 AF_INET), (verified r2 v2 l2 SOCK_STREAM); simpl.
  - by exists p.
  - destruct H as [e H]. exists e, w2. rewrite H, Hrel. auto.
  - destruct H as [e H]. exists e, w1. rewrite H, Hrel. auto.
  - destruct H as [e H]. exists e, w1. rewrite H, Hrel. auto.
Qed.

(** C29: [accept] counts a read on the listening socket whatever happens; a
    connection the kernel hands over becomes a TCP socket of its own, or, if
    it turns out not to be one, is closed again before the exception leaves. *)
Theorem accept_spec {W : Type} (k : kernel W) (net : net W) (h : handle) (c : fd_cell) (s : sys W) :
  live h c s ->
  let s0 := put h (map_obj (count_read false) c) (world s) s in
  let '(r, w) := n_accept net (_fd (fd_obj c)) (world s) in
  0 <= ret r <= int_max ->
  let '(r1, v1, l1, w1) := n_getsockopt net (ret r) SOL_SOCKET SO_DOMAIN w in
  let '(r2, v2, l2, w2) := n_getsockopt net (ret r) SOL_SOCKET SO_TYPE w1 in
  if verified r1 v1 l1 AF_INET && verified r2 v2 l2 SOCK_STREAM then
    exists p, fds s0 !! p = None /\
      accept k net h s = (Ok (Some p), Sys (<[p := FDCell (FDWrapper (ret r) false false 0 0) 1]> (fds s0)) w2)
  else exists e w', (w' = w1 \/ w' = w2) /\
      accept k net h s = (Exc e, Sys (fds s0) (destroyed k (ret r) w')).
Proof. apply accept_result. Qed.

(** ** Witnesses *)

(** Every descriptor is a TCP socket; datagrams come from 127.0.0.1:53, hold
    the world's bytes, and go out up to eight bytes long. *)
Definition demo_net : net (list byte) := {|
  n_socket := fun _ _ w => (SysRet 7 0, w);
  n_getsockopt := fun _ _ option w => (SysRet 0 0, if option =? SO_DOMAIN then AF_INET else SOCK_STREAM, 4, w);
  n_setsockopt := fun _ _ _ _ w => (SysRet 0 0, w);
  n_bind := fun _ _ _ w => (SysRet 0 0, w);
  n_connect := fun _ _ _ w => (SysRet 0 0, w);
  n_shutdown := fun _ _ w => (SysRet 0 0, w);
  n_getsockname := fun _ w => (SysRet 0 0, sockaddr_in 53 0x7f000001, 16, w);
  n_getpeername := fun _ w => (SysRet 0 0, sockaddr_in 53 0x7f000001, 16, w);
  n_recvfrom := fun _ n w =>
    let m := Z.min (lenZ w) 65535 in
    (SysRet m 0, take (Z.to_nat (Z.min n m)) w, sockaddr_in 53 0x7f000001, 16, []);
  n_sendmsg := fun _ _ iov w => (SysRet (Z.min (lenZ (gather iov)) 8) 0, w);
  n_listen := fun _ _ w => (SysRet 0 0, w);
  n_accept := fun _ w => (SysRet 9 0, w)
|}.

Definition one_cell : fd_cell := FDCell (FDWrapper 5 false false 0 0) 1.
Definition inbox : sys (list byte) := Sys {[ 1%positive := one_cell ]} (bytes "hi there").

Lemma inbox_live : live (Some 1%positive) one_cell inbox.
Proof. by exists 1%positive. Qed.

(** A TCP descriptor offered as a UDP socket is refused, and closed. *)
Lemma socket_checks_or_releases_witness :
  fst (udp_from_fd slow_kernel demo_net (Some 1%positive) inbox) = Exc (runtime_error "socket type mismatch") /\
  exists e w, (w = bytes "hi there" \/ w = bytes "hi there") /\
    socket_from_fd slow_kernel demo_net (Some 1%positive) AF_INET SOCK_DGRAM inbox =
      (Exc e, snd (release slow_kernel (Some 1%positive) (Sys (fds inbox) w))).
Proof.
  split; [by vm_compute|].
  exact (socket_checks_or_releases slow_kernel demo_net _ _ AF_INET SOCK_DGRAM inbox inbox_live).
Defined.

Lemma shutdown_spec_witness :
  shutdown demo_net (Some 1%positive) SHUT_RDWR inbox =
  (Ok tt, put (Some 1%positive) (map_obj (fun o => count_write (count_read false o)) one_cell)
            (bytes "hi there") inbox).
Proof. exact (shutdown_spec demo_net _ _ SHUT_RDWR inbox inbox_live). Defined.

Lemma demo_sends : sends demo_net.
Proof.
  intros fd dst iov w. simpl. pose proof (lenZ_nonneg (gather iov)). unfold int_max. lia.
Qed.

Lemma sendto_spec_witness :
  let payload := of_string (Storage 9 (bytes "hi there, you")) in
  gather (as_iovecs payload) = views_text payload /\
  sendto demo_net (Some 1%positive) (ipv4 53 0x7f000001) payload inbox =
    (Exc (runtime_error "datagram payload too big for sendmsg()"), inbox).
Proof.
  apply (sendto_spec demo_net (Some 1%positive) one_cell (ipv4 53 0x7f000001)
    (of_string (Storage 9 (bytes "hi there, you"))) inbox demo_sends inbox_live).
  split; [repeat constructor; vm_compute; intuition discriminate|by vm_compute].
Defined.

Lemma demo_receives : receives demo_net.
Proof.
  intros fd n w Hn. unfold demo_net. cbn [n_recvfrom ret errno]. pose proof (lenZ_nonneg w).
  rewrite lenZ_take by lia. unfold int_max, sizeof_storage.
  assert (lenZ (sockaddr_in 53 0x7f000001) = 16) by (unfold lenZ; by rewrite length_sockaddr_in). lia.
Qed.

Lemma recv_spec_witness :
  recv demo_net (Some 1%positive) 65536 inbox =
    (Ok (Datagram (ipv4 53 0x7f000001) (bytes "hi there")),
     put (Some 1%positive) (map_obj (count_read false) one_cell) [] inbox) /\
  recv demo_net (Some 1%positive) 7 inbox =
    (Exc (runtime_error "recvfrom (oversized datagram)"), Sys (fds inbox) []).
Proof.
  split.
  - exact (recv_spec demo_net _ _ 65536 inbox demo_receives inbox_live
      (conj (Zle_bool_imp_le 0 65536 eq_refl) (Zle_bool_imp_le 65536 string_max_size eq_refl))).
  - exact (recv_spec demo_net _ _ 7 inbox demo_receives inbox_live
      (conj (Zle_bool_imp_le 0 7 eq_refl) (Zle_bool_imp_le 7 string_max_size eq_refl))).
Defined.

Lemma accept_spec_witness :
  exists p, fds (put (Some 1%positive) (map_obj (count_read false) one_cell) (bytes "hi there") inbox) !! p = None /\
    accept slow_kernel demo_net (Some 1%positive) inbox =
      (Ok (Some p), Sys (<[p := FDCell (FDWrapper 9 false false 0 0) 1]>
         (fds (put (Some 1%positive) (map_obj (count_read false) one_cell) (bytes "hi there") inbox)))
         (bytes "hi there")).
Proof.
  apply (accept_spec slow_kernel demo_net _ _ inbox inbox_live). split; by vm_compute.
Defined.
