(* ===== verification/SocketSafety.v ===== *)
(** Safety of the public interface of the descriptor classes
    (libsponge/util/file_descriptor.hh, socket.hh): whatever the operating
    system answers, a call on a handle whose object exists returns or throws,
    and touches that object only. *)

From stdpp Require Import gmap.
From S2P Require Import Prelude Discard Buffer BufferList BufferViewList NetInt Address Kernel FileDescriptor Socket.

(** ** The interface *)

(** The public methods of FileDescriptor, Socket, UDPSocket and TCPSocket. *)
Inductive fd_call :=
  | Read (limit : Z)
  | ReadInto (str : list byte) (limit : Z)
  | Write (buffer : view_list) (write_all : bool)
  | Close
  | Duplicate
  | SetBlocking (blocking_state : bool)
  | FdNum | Eof | Closed | ReadCount | WriteCount.

Inductive socket_call :=
  | Bind (a : address)
  | Connect (a : address)
  | Shutdown (how : Z)
  | LocalAddress
  | PeerAddress
  | SetReuseaddr.

Inductive udp_call :=
  | Recv (mtu : Z)
  | RecvInto (datagram : received_datagram) (mtu : Z)
  | Sendto (destination : address) (payload : view_list)
  | Send (payload : view_list).

Inductive tcp_call :=
  | Listen (backlog : Z)
  | Accept.

Inductive method :=
  | OnFd (x : fd_call)
  | OnSocket (x : socket_call)
  | OnUdp (x : udp_call)
  | OnTcp (x : tcp_call).

(** What the methods return, the arguments they fill in included. *)
Inductive answer :=
  | Nothing
  | Bytes (d : list byte)
  | Number (n : Z)
  | Flag (b : bool)
  | Of_address (a : address)
  | Of_datagram (d : received_datagram)
  | Of_handle (h : handle).

Section calls.
Context {W : Type} (k : kernel W) (net : net W).

(** A method with an argument passed by reference. *)
Definition by_reference {D} (f : D -> answer) (m : M (sys W * D) unit) (d : D) : M (sys W) answer := fun s =>
  let '(r, (s, d)) := m (s, d) in ((fun _ => f d) <$> r, s).

Definition answered {A} (f : A -> answer) (m : M (sys W) A) : M (sys W) answer := a ← m; mret (f a).
Abbreviation done_ := (answered (fun _ : unit => Nothing)).

Definition do_fd_call (h : handle) (x : fd_call) : M (sys W) answer :=
  match x with
  | Read limit => answered Bytes (read k h limit)
  | ReadInto str limit => by_reference Bytes (read_into k h limit) str
  | Write buffer all => answered Number (write k h buffer all)
  | Close => done_ (close k h)
  | Duplicate => answered Of_handle (duplicate h)
  | SetBlocking b => done_ (set_blocking k h b)
  | FdNum => answered Number (fd_num h)
  | Eof => answered Flag (eof h)
  | Closed => answered Flag (closed h)
  | ReadCount => answered Number (read_count h)
  | WriteCount => answered Number (write_count h)
  end.

Definition do_socket_call (h : handle) (x : socket_call) : M (sys W) answer :=
  match x with
  | Bind a => done_ (bind net h a)
  | Connect a => done_ (connect net h a)
  | Shutdown how => done_ (shutdown net h how)
  | LocalAddress => answered Of_address (local_address net h)
  | PeerAddress => answered Of_address (peer_address net h)
  | SetReuseaddr => done_ (set_reuseaddr net h)
  end.

Definition do_udp_call (h : handle) (x : udp_call) : M (sys W) answer :=
  match x with
  | Recv mtu => answered Of_datagram (recv net h mtu)
  | RecvInto d mtu => by_reference Of_datagram (recv_into net h mtu) d
  | Sendto a payload => done_ (sendto net h a payload)
  | Send payload => done_ (send net h payload)
  end.

Definition do_tcp_call (h : handle) (x : tcp_call) : M (sys W) answer :=
  match x with
  | Listen backlog => done_ (listen net h backlog)
  | Accept => answered Of_handle (accept k net h)
  end.

Definition do_method (h : handle) (x : method) : M (sys W) answer :=
  match x with
  | OnFd x => do_fd_call h x
  | OnSocket x => do_socket_call h x
  | OnUdp x => do_udp_call h x
  | OnTcp x => do_tcp_call h x
  end.

(** What a caller has to respect: views point into strings that exist. *)
Definition arguments_ok (x : method) : Prop :=
  match x with
  | OnFd (Write buffer _) => wf_views buffer
  | _ => True
  end.

End calls.

(** ** One object *)

Section object.
Context {W : Type} (k : kernel W) (net : net W) (p : positive) (c : fd_cell) (others : gmap positive fd_cell).

(** The object after some calls: still the same descriptor, with the same
    owners; the end of file, once seen, stays. *)
Record advanced (closed' : bool) (c' : fd_cell) : Prop := {
  ad_fd : _fd (fd_obj c') = _fd (fd_obj c);
  ad_closed : _closed (fd_obj c') = closed';
  ad_uses : fd_uses c' = fd_uses c;
  ad_eof : _eof (fd_obj c) = true -> _eof (fd_obj c') = true
}.

(** Nothing but the object has changed. *)
Definition only_object (s : sys W) : Prop :=
  exists c', advanced (_closed (fd_obj c)) c' /\ fds s = <[p := c']> others.

Abbreviation Sure := (sure only_object).
Abbreviation h := (Some p).

Lemma only_object_live s : only_object s -> exists c', live h c' s /\ advanced (_closed (fd_obj c)) c'.
Proof. intros (c' & Ha & E). exists c'. split; [|done]. exists p. split; [done|]. by rewrite E, lookup_insert_eq. Qed.

Lemma sure_deref : Sure (deref h).
Proof. intros s Hs. destruct (only_object_live s Hs) as (c' & Hl & _). by rewrite (deref_ok h c' s Hl). Qed.

Lemma sure_query {A} (f : fd_wrapper -> A) : Sure (w ← deref h; mret (f w)).
Proof. apply sure_bind; [apply sure_deref|]. intros. apply sure_ret. Qed.

Lemma sure_update f :
  (forall o, _fd (f o) = _fd o /\ _closed (f o) = _closed o /\ (_eof o = true -> _eof (f o) = true)) ->
  Sure (update h f).
Proof.
  intros Hf s Hs. destruct (only_object_live s Hs) as (c' & Hl & Ha). rewrite (update_ok h c' f s Hl).
  split; [|done]. destruct Hs as (c0 & _ & E). exists (map_obj f c'). cbn [fds put snd]. rewrite E, insert_insert_eq.
  split; [|done]. destruct Ha as [H1 H2 H3 H4], (Hf (fd_obj c')) as (F1 & F2 & F3). split; simpl; try congruence. auto.
Qed.

Lemma sure_call {A} (f : W -> A * W) : Sure (call f).
Proof. intros s Hs. unfold call. by destruct (f (world s)). Qed.

Lemma sure_system_call attempt r : returns (SystemCall attempt r 0).
Proof. apply SystemCall_total. Qed.

Lemma sure_checked attempt (f : W -> sysret * W) : Sure (checked attempt f).
Proof. apply sure_bind; [apply sure_call|]. intros r. apply sure_lift, sure_system_call. Qed.

Lemma sure_fd_num : Sure (fd_num h). Proof. apply sure_query. Qed.
Lemma sure_register_read : Sure (register_read h). Proof. by apply sure_update. Qed.
Lemma sure_register_write : Sure (register_write h). Proof. by apply sure_update. Qed.
Lemma sure_eof : Sure (update h set_eof). Proof. by apply sure_update. Qed.

#[local] Hint Resolve sure_call sure_system_call sure_checked sure_fd_num sure_register_read sure_register_write sure_eof : sponge.

(** Step by step through monadic code. *)
Ltac sure_steps :=
  cbv zeta;
  repeat (intros; first
    [ solve [auto with sponge]
    | apply sure_bind
    | match goal with
      | |- sure _ (match ?x with pair _ _ => _ end) => destruct x
      | |- sure _ (if ?b then _ else _) => destruct b
      end ]).

Lemma sure_set_blocking b : Sure (set_blocking k h b).
Proof. unfold set_blocking. sure_steps. Qed.

Lemma sure_bind_ a : Sure (bind net h a). Proof. unfold bind. sure_steps. Qed.
Lemma sure_connect a : Sure (connect net h a). Proof. unfold connect. sure_steps. Qed.
Lemma sure_shutdown how : Sure (shutdown net h how). Proof. unfold shutdown. sure_steps. Qed.
Lemma sure_reuseaddr : Sure (set_reuseaddr net h). Proof. unfold set_reuseaddr, setsockopt. sure_steps. Qed.
Lemma sure_listen n : Sure (listen net h n). Proof. unfold listen. sure_steps. Qed.
Lemma sure_sendmsg fd dst payload : Sure (sendmsg_helper net fd dst payload).
Proof. unfold sendmsg_helper. sure_steps. Qed.
#[local] Hint Resolve sure_sendmsg : sponge.
Lemma sure_sendto a payload : Sure (sendto net h a payload). Proof. unfold sendto. sure_steps. Qed.
Lemma sure_send payload : Sure (send net h payload). Proof. unfold send. sure_steps. Qed.

(** The bytes of a [sockaddr_storage] are enough for any size it is given. *)
Lemma sure_from_sockaddr d size :
  returns (from_sockaddr (Some (overwrite d (replicate (Z.to_nat sizeof_storage) Byte.x00))) size).
Proof.
  unfold from_sockaddr, memcpy. rewrite Z.gtb_ltb. destruct (Z.ltb_spec sizeof_storage size); [done|].
  destruct (size =? 0); [done|]. destruct (Z.ltb_spec (lenZ (overwrite d (replicate (Z.to_nat sizeof_storage) Byte.x00))) size); [|done].
  exfalso. unfold overwrite in *. rewrite lenZ_app in *. unfold lenZ, sizeof_storage in *.
  rewrite length_drop, length_replicate in *. lia.
Qed.

Lemma sure_resize n str : returns (str_resize n str).
Proof. unfold str_resize. by destruct (n >? string_max_size). Qed.

#[local] Hint Resolve sure_from_sockaddr sure_resize : sponge.

Lemma sure_get_address name f : Sure (get_address name f h).
Proof. unfold get_address. sure_steps. Qed.

(** Code over the system and an object of the caller's. *)
Abbreviation Sure_with := (sure (fun s : sys W * _ => only_object (fst s))).

Lemma sure_on_sys {A} (m : M (sys W) A) : Sure m -> Sure_with (on_sys m).
Proof. intros Hm. by eapply sure_on_field. Qed.
Lemma sure_on_sys_of {D A} (m : M (sys W) A) : Sure m -> sure (fun s : sys W * D => only_object (fst s)) (on_sys_of m).
Proof. intros Hm. by eapply sure_on_field. Qed.
Lemma sure_set_str str : Sure_with (set_str str). Proof. by apply sure_modify. Qed.
Lemma sure_set_payload d : Sure_with (set_payload d). Proof. by apply sure_modify. Qed.
Lemma sure_set_source a : Sure_with (set_source a). Proof. by apply sure_modify. Qed.
#[local] Hint Resolve sure_on_sys sure_on_sys_of sure_set_str sure_set_payload sure_set_source : sponge.

Lemma sure_read_into limit : Sure_with (read_into k h limit).
Proof. unfold read_into. sure_steps. Qed.

Lemma sure_recv_into mtu : Sure_with (recv_into net h mtu).
Proof. unfold recv_into. sure_steps. Qed.

Lemma sure_read limit : Sure (read k h limit).
Proof.
  intros s Hs. pose proof (sure_read_into limit (s, []) Hs) as [H1 H2]. unfold read.
  by destruct (read_into k h limit (s, [])) as [[| | |] [s' str]].
Qed.

Lemma sure_recv mtu : Sure (recv net h mtu).
Proof.
  intros s Hs. unfold recv. destruct (from_sockaddr None 0) as [nobody| | |] eqn:E; try done.
  pose proof (sure_recv_into mtu (s, Datagram nobody []) Hs) as [H1 H2].
  by destruct (recv_into net h mtu (s, Datagram nobody [])) as [[| | |] [s' d]].
Qed.

Lemma sure_write all buffer : wf_views buffer -> Sure (write k h buffer all).
Proof.
  intros Hwf s Hs. split.
  { apply (write_loop_keeps k only_object); [..|done]; intros; apply sure_keeps; auto with sponge. }
  destruct (only_object_live s Hs) as (c' & Hl & _). pose proof (proj2 Hwf) as Hmax. unfold string_max_size in Hmax.
  unfold write. rewrite views_size_ok by done.
  pose proof (write_loop_result k (S (Z.to_nat (lenZ (views_text buffer)))) h c' all buffer 0 s Hl Hwf) as H.
  pose proof (lenZ_nonneg (views_text buffer)). specialize (H ltac:(lia) ltac:(lia) ltac:(lia)).
  by destruct (fst (write_loop _ _ _ _ _ _ _)).
Qed.

Lemma sure_answered {A} (f : A -> answer) (m : M (sys W) A) : Sure m -> Sure (answered f m).
Proof. intros Hm. unfold answered. sure_steps. Qed.

Lemma sure_by_reference {D} (f : D -> answer) (m : M (sys W * D) unit) d :
  sure (fun s : sys W * D => only_object (fst s)) m -> Sure (by_reference f m d).
Proof.
  intros Hm s Hs. destruct (Hm (s, d) Hs) as [H1 H2]. unfold by_reference.
  by destruct (m (s, d)) as [[| | |] [s' d']].
Qed.
End object.

(** ** All of the interface *)

(** The object of a descriptor that has just been made. *)
Definition new_object (fd : Z) : fd_cell := FDCell (FDWrapper fd false false 0 0) 1.

(** What a call leaves of the object [c] of the handle, and of the rest. *)
Definition outcome {W} (x : method) (p : positive) (c : fd_cell) (s : sys W) (r : res answer) (s' : sys W) : Prop :=
  match r with
  | Ok a =>
      match x with
      | OnFd Duplicate => a = Of_handle (Some p) /\ fds s' = <[p := FDCell (fd_obj c) (fd_uses c + 1)]> (fds s)
      | OnFd Close => exists c', advanced c true c' /\ fds s' = <[p := c']> (fds s)
      | OnTcp Accept => exists c' q fd, advanced c (_closed (fd_obj c)) c' /\ a = Of_handle (Some q) /\
          fds s !! q = None /\ 0 <= fd <= int_max /\ fds s' = <[q := new_object fd]> (<[p := c']> (fds s))
      | _ => exists c', advanced c (_closed (fd_obj c)) c' /\ fds s' = <[p := c']> (fds s)
      end
  | Exc _ => exists c', advanced c (_closed (fd_obj c)) c' /\ fds s' = <[p := c']> (fds s)
  | _ => False
  end.

Section interface.
Context {W : Type} (k : kernel W) (net : net W).

Lemma advanced_refl c : advanced c (_closed (fd_obj c)) c.
Proof. by split. Qed.

(** A method that keeps to its object. *)
Lemma sure_outcome x p c (m : M (sys W) answer) s :
  match x with OnFd Duplicate | OnFd Close | OnTcp Accept => False | _ => True end ->
  sure (only_object p c (fds s)) m -> fds s !! p = Some c ->
  let '(r, s') := m s in outcome x p c s r s'.
Proof.
  intros Hx Hm Hp. destruct (Hm s) as [Hs Hr].
  { exists c. split; [apply advanced_refl|]. by rewrite insert_id. }
  destruct (m s) as [[a|e| |] s']; try done. simpl in Hs. unfold outcome. by destruct x as [[]| | |[]].
Qed.

Lemma duplicate_outcome p c (s : sys W) :
  fds s !! p = Some c -> let '(r, s') := do_method k net (Some p) (OnFd Duplicate) s in outcome (OnFd Duplicate) p c s r s'.
Proof.
  intros Hp. unfold do_method, do_fd_call, answered, duplicate. run. split; [done|]. cbn [fds]. apply map_eq. intros q. destruct (decide (p = q)) as [<-|Hne].
  - by rewrite lookup_alter_eq, Hp, lookup_insert_eq.
  - by rewrite lookup_alter_ne, lookup_insert_ne.
Qed.

Lemma close_outcome p c (s : sys W) :
  fds s !! p = Some c -> let '(r, s') := do_method k net (Some p) (OnFd Close) s in outcome (OnFd Close) p c s r s'.
Proof.
  intros Hp. assert (Hl : live (Some p) c s) by (by exists p).
  pose proof (close_ok k (Some p) c s Hl) as E. destruct (k_close _ _ _) as [r w].
  unfold do_method, do_fd_call, answered. run. rewrite E. pose proof (SystemCall_total "close" r 0).
  destruct (SystemCall "close" r 0) as [n|e| |]; try done.
  - exists (map_obj set_closed c). by split; [split|].
  - exists c. split; [apply advanced_refl|]. cbn [fds]. by rewrite insert_id.
Qed.

Lemma accept_outcome p c (s : sys W) :
  fds s !! p = Some c -> let '(r, s') := do_method k net (Some p) (OnTcp Accept) s in outcome (OnTcp Accept) p c s r s'.
Proof.
  intros Hp. assert (Hl : live (Some p) c s) by (by exists p).
  unfold do_method, do_tcp_call, answered, accept, checked, call. run.
  rewrite (register_read_ok (Some p) c s Hl). set (c1 := map_obj (count_read false) c).
  assert (Hc1 : advanced c (_closed (fd_obj c)) c1).
  { split; try done. simpl. intros ->. done. }
  rewrite (fd_num_ok (Some p) c1) by (by eapply put_live). rewrite world_put.
  destruct (n_accept _ _ _) as [r w]. cbn [put fds].
  destruct (SystemCall "accept" r 0) as [fd|e| |] eqn:E;
    [|by exists c1|by pose proof (SystemCall_total "accept" r 0) as Ht; rewrite E in Ht..].
  apply SystemCall_Ok in E as (Hfd & Hrange & _). unfold new_fd. destruct (Z.ltb_spec fd 0); [by exists c1|].
  cbn [fds]. set (m1 := <[p := c1]> (fds s)). set (q := fresh (dom m1)).
  assert (Hq : m1 !! q = None) by apply not_elem_of_dom, is_fresh.
  apply lookup_insert_None in Hq as Hq'. destruct Hq' as [Hq0 Hne].
  set (s1 := Sys _ _). assert (Hl1 : live (Some q) (new_object fd) s1).
  { exists q. split; [done|]. apply lookup_insert_eq. }
  pose proof (socket_from_fd_result k net (Some q) (new_object fd) AF_INET SOCK_STREAM s1 Hl1) as H1. unfold tcp_from_fd.
  destruct (n_getsockopt net _ _ SO_DOMAIN _) as [[[r1 v1] l1] w1].
  destruct (n_getsockopt net _ _ SO_TYPE _) as [[[r2 v2] l2] w2].
  destruct (verified r1 v1 l1 _); [destruct (verified r2 v2 l2 _)|].
  - rewrite H1. exists c1, q, fd. split_and!; try done; lia.
  - destruct H1 as [e ->]. subst s1. cbn [fds]. unfold new_object. rewrite release_sole by done. by exists c1.
  - destruct H1 as [e ->]. subst s1. cbn [fds]. unfold new_object. rewrite release_sole by done. by exists c1.
Qed.

(** C13: the public interface of FileDescriptor, Socket, UDPSocket and TCPSocket
    is safe: whatever the system calls return, a method called on a handle whose
    object exists returns or throws, with nothing undefined and every loop
    ended.  It leaves every other object alone; its own keeps its number, its
    owners, its closed flag and an end of file once seen, but for [close], which
    marks it closed, and [duplicate], which counts one owner more.  Only an
    [accept] that returns makes an object: a new one, open, with one owner. *)
Theorem interface_safe (x : method) (p : positive) (c : fd_cell) (s : sys W) :
  arguments_ok x -> fds s !! p = Some c ->
  let '(r, s') := do_method k net (Some p) x s in outcome x p c s r s'.
Proof.
  intros Hargs Hp. destruct x as [[]|[]|[]|[]];
    try first [by apply close_outcome | by apply duplicate_outcome | by apply accept_outcome].
  all: apply sure_outcome; [exact I| |exact Hp]; cbn [do_method do_fd_call do_socket_call do_udp_call do_tcp_call].
  all: first [apply sure_answered | apply sure_by_reference].
  all: auto using sure_read, sure_read_into, sure_write, sure_set_blocking, sure_fd_num, sure_query, sure_bind_, sure_connect,
    sure_shutdown, sure_get_address, sure_reuseaddr, sure_recv, sure_recv_into, sure_sendto, sure_send, sure_listen.
  all: first [apply sure_query | apply sure_get_address].
Qed.

End interface.

(** Accepting on a kernel that hands out descriptor 9. *)
Lemma interface_safe_witness :
  let '(r, s') := do_method slow_kernel demo_net (Some 1%positive) (OnTcp Accept) inbox in
  outcome (OnTcp Accept) 1%positive one_cell inbox r s'.
Proof. apply (interface_safe slow_kernel demo_net (OnTcp Accept) 1%positive one_cell inbox); [exact I|reflexivity]. Defined.
