(* ===== verification/Webget.v ===== *)
(** The [webget] program (apps/webget.cc): it opens a TCP socket, sends one
    request, and prints what comes back until the end of file.  Standard
    output is a parameter, standard error is the kernel's. *)

From stdpp Require Import gmap.
From S2P Require Import Prelude Discard Buffer BufferList BufferViewList NetInt Address Kernel FileDescriptor Socket.

(** How a process ends. *)
Inductive termination := Exited (code : Z) | Aborted.

Definition crlf : list byte := [Byte.x0d; Byte.x0a].

(** The pieces of the request, and the request:
    ["GET " + path + " HTTP/1.1\r\n" + "Host: " + host + "\r\nConnection: close\r\n\r\n"] *)
Definition request_pieces (host path : string) : list (list byte) :=
  [bytes "GET "; bytes path; bytes " HTTP/1.1" ++ crlf; bytes "Host: "; bytes host;
   crlf ++ bytes "Connection: close" ++ crlf ++ crlf].
Definition request (host path : string) : res (list byte) := str_concat (request_pieces host path).

(** A string literal's or string object's view is well formed. *)
Lemma of_string_wf st : lenZ (st_text st) <= string_max_size ->
  wf_views (of_string st) /\ views_text (of_string st) = st_text st.
Proof.
  intros Hmax. assert (E : views_text (of_string st) = st_text st).
  { unfold views_text, of_string, of_view, view_of, view_text. simpl. rewrite app_nil_r.
    rewrite drop_0. unfold lenZ. rewrite Nat2Z.id. apply take_ge. lia. }
  split; [|done]. split; [|by rewrite E]. constructor; [|done].
  unfold view_ok, of_string, of_view, view_of. simpl. pose proof (lenZ_nonneg (st_text st)). lia.
Qed.

Section webget.
Context {W : Type} (k : kernel W) (net : net W)
        (getaddrinfo : string -> string -> addrinfo -> Z * option (list byte * Z))
        (cout : list byte -> W -> W).

Definition print (d : list byte) : M (sys W) unit := call (fun w => (tt, cout d w)).
Definition print_err (d : string) : M (sys W) unit := call (fun w => (tt, k_cerr k d w)).

(** A block that owns the handle [h]: its destructor runs however it ends. *)
Definition scoped {A} (h : handle) (m : M (sys W) A) : M (sys W) A :=
  a ← unwinding (release k h) m;
  release k h ;;
  mret a.

(** [while (!sock.eof()) cout << sock.read();] *)
Fixpoint print_loop (fuel : nat) (sock : handle) : M (sys W) unit :=
  match fuel with
  | O => lift NoFuel
  | S fuel =>
      at_eof ← eof sock;
      if at_eof : bool then mret tt
      else d ← read k sock no_limit; print d ;; print_loop fuel sock
  end.

(** [id] names the string that holds the request. *)
Definition get_URL (fuel : nat) (id : positive) (host path : string) : M (sys W) unit :=
  sock ← tcp_socket net;
  scoped sock
    (addr ← lift (from_hostname getaddrinfo host "http");
     connect net sock addr ;;
     text ← lift (request host path);
     write_string k sock (Storage id text) true ;;
     print_loop fuel sock).

(** The two lines of the usage message. *)
Definition usage (argv0 : string) : string := ("Usage: " ++ argv0 ++ " HOST PATH" ++ nl)%string.
Definition usage_example (argv0 : string) : string :=
  (tab ++ "Example: " ++ argv0 ++ " stanford.edu /class/cs144" ++ nl)%string.

(** [argv] without its last null pointer: [argc] is its length. *)
Definition main (fuel : nat) (id : positive) (argv : list string) : M (sys W) termination :=
  catch
    (match argv with
     | [] => mret Aborted
     | [_; host; path] => get_URL fuel id host path ;; mret (Exited EXIT_SUCCESS)
     | argv0 :: _ => print_err (usage argv0) ;; print_err (usage_example argv0) ;; mret (Exited EXIT_FAILURE)
     end)
    (fun e => print_err (what (k_strerror k) (k_gai_strerror k) e ++ nl) ;; mret (Exited EXIT_FAILURE)).

(** ** A server, seen through the kernel

    [sent] is what the server has been sent, [incoming] what it has yet to deliver
    before it closes, [out] what has been printed.  [idle] are the worlds where the
    server at [peer] can be talked to, [opened] and [linked] those where a
    descriptor is a new socket, and is connected to it; once what it has been sent
    is [ready] to be answered, the server delivers its [reply] ([answering]). *)
Context (sent incoming out : W -> list byte) (reply : list byte -> list byte) (ready : list byte -> Prop)
        (peer : address) (idle : W -> Prop) (opened linked answering : Z -> W -> Prop).

Definition quiet (w w' : W) : Prop := sent w' = sent w /\ out w' = out w.
Definition same_out (w w' : W) : Prop := out w' = out w.

Record serves : Prop := {
  sv_socket w : idle w -> let '(r, w') := n_socket net AF_INET SOCK_STREAM w in
    0 <= ret r <= int_max /\ quiet w w' /\ opened (ret r) w';
  sv_connect fd w : opened fd w -> let '(r, w') := n_connect net fd (sockaddr_of peer) (size peer) w in
    0 <= ret r <= int_max /\ quiet w w' /\ linked fd w';
  sv_accepts fd : writev_accepts k (linked fd) fd sent;
  sv_progress fd : writev_progresses k (linked fd) fd;
  sv_writev fd iov w : linked fd w -> same_out w (snd (k_writev k fd iov w));
  sv_answers fd w : linked fd w -> ready (sent w) -> answering fd w /\ incoming w = reply (sent w);
  sv_fills fd : read_fills k fd;
  sv_read fd n w : answering fd w -> 0 < n <= BUFFER_SIZE -> let '(r, d, w') := k_read k fd n w in
    0 <= ret r /\ (ret r = 0 -> incoming w = []) /\ d = take (Z.to_nat (ret r)) (incoming w) /\
    incoming w' = drop (Z.to_nat (ret r)) (incoming w) /\ quiet w w' /\ answering fd w';
  sv_print fd d w : answering fd w -> answering fd (cout d w) /\
    sent (cout d w) = sent w /\ incoming (cout d w) = incoming w /\ out (cout d w) = out w ++ d;
  sv_close fd w : answering fd w -> quiet w (snd (k_close k fd w));
  sv_cerr m w : quiet w (k_cerr k m w)
}.

#[local] Instance same_out_preorder : PreOrder same_out.
Proof using Type. split; [by intros w|]. intros w1 w2 w3 E1 E2. by etrans. Qed.

Context (Hsv : serves).

(** ** The loop prints what is coming and ends *)

Lemma read_round sock c s :
  live sock c s -> answering (_fd (fd_obj c)) (world s) ->
  exists n c' s', read k sock no_limit s = (Ok (take n (incoming (world s))), s') /\
    live sock c' s' /\ answering (_fd (fd_obj c)) (world s') /\ _fd (fd_obj c') = _fd (fd_obj c) /\
    _closed (fd_obj c') = _closed (fd_obj c) /\ _eof (fd_obj c') = (_eof (fd_obj c) || (n =? 0)%nat) /\
    (n = 0%nat -> incoming (world s) = []) /\ (n <= length (incoming (world s)))%nat /\
    incoming (world s') = drop n (incoming (world s)) /\
    sent (world s') = sent (world s) /\ out (world s') = out (world s).
Proof.
  intros Hl Hk. pose proof (read_into_result k sock c s [] no_limit (sv_fills Hsv _) Hl) as H.
  unfold no_limit in H. specialize (H ltac:(lia)). cbv zeta in H.
  pose proof (sv_fills Hsv (_fd (fd_obj c)) (Z.min BUFFER_SIZE (2 ^ 64 - 1)) (world s) ltac:(done)) as Hfill.
  pose proof (sv_read Hsv (_fd (fd_obj c)) (Z.min BUFFER_SIZE (2 ^ 64 - 1)) (world s) Hk ltac:(done)) as Hr.
  destruct (k_read k _ _ _) as [[r d] w]. destruct Hr as (Hpos & Hz & Hd & Hin & [Hs Ho] & Hk').
  destruct Hfill as (_ & Hlen & _). rewrite Hd in Hlen. unfold lenZ in Hlen. rewrite length_take in Hlen.
  destruct (Z.eqb_spec (ret r) (-1)) as [?|_]; [lia|].
  exists (Z.to_nat (ret r)), (map_obj (count_read (ret r =? 0)) c), (put sock (map_obj (count_read (ret r =? 0)) c) w s).
  unfold read. change no_limit with (2 ^ 64 - 1). rewrite H. change (0 <? 2 ^ 64 - 1) with true. cbn [andb].
  rewrite Hd, world_put. split; [done|]. split; [by eapply put_live|].
  split; [done|]. split; [done|]. split; [done|]. split.
  - cbn [map_obj fd_obj count_read _eof]. f_equal.
    destruct (Z.eqb_spec (ret r) 0) as [->|]; [done|]. symmetry. apply Nat.eqb_neq. lia.
  - split; [intros; apply Hz; lia|]. split; [lia|done].
Qed.

Lemma print_loop_result fuel sock c s :
  live sock c s -> answering (_fd (fd_obj c)) (world s) -> _eof (fd_obj c) = false -> (length (incoming (world s)) + 1 < fuel)%nat ->
  exists c' s', print_loop fuel sock s = (Ok tt, s') /\ live sock c' s' /\ answering (_fd (fd_obj c')) (world s') /\
    sent (world s') = sent (world s) /\ out (world s') = out (world s) ++ incoming (world s).
Proof.
  revert c s. induction fuel as [|fuel IH]; intros c s Hl Hk He Hf; [lia|].
  cbn [print_loop]. run. unfold eof. run. rewrite (deref_ok sock c s Hl), He.
  destruct (read_round sock c s Hl Hk) as (n & c1 & s1 & E & Hl1 & Hk1 & Hfd & Hcl & He1 & Hn & Hle & Hin & Hs & Ho).
  rewrite E. unfold print, call.
  destruct (sv_print Hsv _ (take n (incoming (world s))) (world s1) Hk1) as (Pk & Ps & Pin & Po).
  set (s2 := Sys (fds s1) (cout (take n (incoming (world s))) (world s1))).
  assert (Hl2 : live sock c1 s2) by exact Hl1.
  rewrite He in He1. destruct (Nat.eqb_spec n 0) as [->|Hne].
  - destruct fuel as [|fuel]; [lia|]. cbn [print_loop]. run. unfold eof. run.
    rewrite (deref_ok sock c1 s2 Hl2), He1. cbn [orb].
    exists c1, s2. split; [done|]. split; [done|]. split; [by rewrite Hfd|]. cbn [s2 world]. rewrite Ps, Po, Hs, Ho, Hn by done. done.
  - destruct (IH c1 s2 Hl2) as (c' & s' & E' & Hl' & Hk' & Hs' & Ho').
    + by rewrite Hfd.
    + by rewrite He1.
    + cbn [s2 world]. rewrite Pin, Hin, length_drop. lia.
    + exists c', s'. rewrite E'. split; [done|]. split; [done|]. split; [done|]. rewrite Hs', Ho'. cbn [s2 world].
      by rewrite Ps, Po, Pin, Hs, Ho, Hin, <- (assoc_L (++)), take_drop.
Qed.

Lemma request_nonempty host path : 0 < lenZ (concat (request_pieces host path)).
Proof.
  unfold request_pieces. cbn [concat]. rewrite lenZ_app. change (lenZ (bytes "GET ")) with 4.
  match goal with |- context [lenZ (_ ++ ?l)] => pose proof (lenZ_nonneg (bytes path ++ l)) end. lia.
Qed.

Lemma request_ok host path :
  lenZ (concat (request_pieces host path)) <= string_max_size ->
  request host path = Ok (concat (request_pieces host path)).
Proof. intros Hmax. unfold request. rewrite str_concat_result. by destruct (Z.leb_spec (lenZ (concat (request_pieces host path))) string_max_size); [|lia]. Qed.

Lemma socket_result s :
  idle (world s) ->
  exists sock c s', socket net AF_INET SOCK_STREAM s = (Ok sock, s') /\ live sock c s' /\ _eof (fd_obj c) = false /\
    opened (_fd (fd_obj c)) (world s') /\ quiet (world s) (world s').
Proof.
  intros Hi. unfold socket, checked, call. run. pose proof (sv_socket Hsv (world s) Hi) as H.
  destruct (n_socket net AF_INET SOCK_STREAM (world s)) as [r w]. destruct H as (Hr & Hsame & Ho).
  rewrite SystemCall_ok by done. unfold new_fd. destruct (Z.ltb_spec (ret r) 0); [lia|].
  eexists _, _, _. split; [done|]. split; [eexists; split; [done|apply lookup_insert_eq]|done].
Qed.

Lemma connect_result sock c s :
  live sock c s -> opened (_fd (fd_obj c)) (world s) ->
  exists w, connect net sock peer s = (Ok tt, Sys (fds s) w) /\ quiet (world s) w /\ linked (_fd (fd_obj c)) w.
Proof.
  intros Hl Ho. unfold connect, checked, call. run. rewrite (fd_num_ok sock c s Hl).
  pose proof (sv_connect Hsv (_fd (fd_obj c)) (world s) Ho) as H.
  destruct (n_connect _ _ _ _ _) as [r w]. destruct H as (Hr & Hsame & Hk). rewrite SystemCall_ok by done. by exists w.
Qed.

Lemma release_quiet sock c s : live sock c s -> answering (_fd (fd_obj c)) (world s) ->
  exists s', release k sock s = (Ok tt, s') /\ quiet (world s) (world s').
Proof.
  intros Hl Hk. pose proof Hl as (p & -> & _). destruct (release_ok k p c s Hl) as (s' & E & _ & Hw).
  exists s'. split; [done|]. rewrite Hw. destruct (decide _); [|done]. destruct (_closed _); [done|].
  apply (destroyed_keeps k (quiet (world s))); [by apply Hsv|]. intros m w (H1 & H2).
  destruct (sv_cerr Hsv m w) as (G1 & G2). split; congruence.
Qed.

Lemma main_result fuel id argv0 host path s :
  let text := concat (request_pieces host path) in
  idle (world s) -> from_hostname getaddrinfo host "http" = Ok peer ->
  lenZ text <= string_max_size -> ready (sent (world s) ++ text) ->
  (length (reply (sent (world s) ++ text)) + 1 < fuel)%nat ->
  exists s', main fuel id [argv0; host; path] s = (Ok (Exited EXIT_SUCCESS), s') /\
    sent (world s') = sent (world s) ++ text /\ out (world s') = out (world s) ++ reply (sent (world s) ++ text).
Proof.
  intros text Hi Ha Hmax Hready Hf. unfold main, get_URL, scoped, unwinding, tcp_socket, catch. run.
  destruct (socket_result s Hi) as (sock & c & s1 & -> & Hl & He & Ho & (S1 & O1)).
  rewrite Ha. destruct (connect_result sock c s1 Hl Ho) as (w & -> & (S2 & O2) & Hk).
  assert (Hl2 : live sock c (Sys (fds s1) w)) by exact Hl.
  rewrite request_ok by done. pose proof (request_nonempty host path) as Hpos.
  fold text in Hpos |- *.
  destruct (of_string_wf (Storage id text) Hmax) as [Hwf Ht]. cbn [st_text] in Ht.
  unfold string_max_size in Hmax. unfold write_string, write.
  destruct (write_loop_all k same_out (linked (_fd (fd_obj c))) sent
    (S (Z.to_nat (BufferViewList.size (of_string (Storage id text)))))
    sock c (of_string (Storage id text)) 0 (Sys (fds s1) w)) as (c' & s3 & -> & Hl3 & Hc & S3 & O3 & Hk3);
    try rewrite views_size_ok by done; try rewrite Ht; try (intros; apply Hsv; done); try (done || lia).
  unfold same_out in O3. cbn [world] in S3, O3. rewrite Ht, S2, S1 in S3.
  destruct Hc as (_ & Hfd & Heof & _). rewrite <- Hfd in Hk3.
  destruct (sv_answers Hsv _ _ Hk3) as [Hk4 I3]; [by rewrite S3|].
  destruct (print_loop_result fuel sock c' s3 Hl3 Hk4)
    as (c4 & s4 & E & Hl4 & Hk5 & S4 & O4); [by rewrite Heof|by rewrite I3, S3|].
  rewrite E. destruct (release_quiet sock c4 s4 Hl4 Hk5) as (s5 & -> & (S5 & O5)).
  exists s5. split; [done|]. by rewrite S5, S4, S3, O5, O4, I3, S3, O3, O2, O1.
Qed.
End webget.

(** ** Properties *)

(** C7: [webget] end to end: when the name resolves to a server that accepts the
    connection and answers the request, the program, given a host and a path, ends
    with status 0; the server has been sent exactly the request and standard output
    has received exactly the server's reply to it, whole and in order, however the
    kernel splits the reads and writes. *)
Theorem webget_prints_response {W : Type} (k : kernel W) (net : net W)
    (getaddrinfo : string -> string -> addrinfo -> Z * option (list byte * Z))
    (cout : list byte -> W -> W) (sent incoming out : W -> list byte)
    (reply : list byte -> list byte) (ready : list byte -> Prop)
    (peer : address) (idle : W -> Prop) (opened linked answering : Z -> W -> Prop)
    (fuel : nat) (id : positive) (argv0 host path : string) (s : sys W) :
  serves k net cout sent incoming out reply ready peer idle opened linked answering -> idle (world s) ->
  from_hostname getaddrinfo host "http" = Ok peer ->
  lenZ (concat (request_pieces host path)) <= string_max_size ->
  ready (sent (world s) ++ concat (request_pieces host path)) ->
  (length (reply (sent (world s) ++ concat (request_pieces host path))) + 1 < fuel)%nat ->
  exists s', main k net getaddrinfo cout fuel id [argv0; host; path] s = (Ok (Exited EXIT_SUCCESS), s') /\
    sent (world s') = sent (world s) ++ concat (request_pieces host path) /\
    out (world s') = out (world s) ++ reply (sent (world s) ++ concat (request_pieces host path)).
Proof.
  intros Hsv Hi Ha Hmax Hready Hf. exact (main_result k net getaddrinfo cout sent incoming out reply ready peer
    idle opened linked answering Hsv fuel id argv0 host path s Hi Ha Hmax Hready Hf).
Qed.

(** A resolver for the witness. *)
Definition demo_web (node service : string) (hints : addrinfo) : Z * option (list byte * Z) :=
  (0, Some (sockaddr_in 80 0x8efab004, sizeof_sockaddr_in)).

(** A server that repeats what it was sent, three bytes at a time, over the one
    connection there can be, descriptor 7: no socket, a socket, or a connected one;
    what the server was sent, how much it has delivered, and what was printed.
    Every other use of a descriptor fails. *)
Record talk := Talk { phase : nat; talk_sent : list byte; talk_given : nat; talk_out : list byte }.
Definition echo (d : list byte) : list byte := bytes "you sent: " ++ d.
Definition talk_incoming (w : talk) : list byte := drop (talk_given w) (echo (talk_sent w)).
Definition set_phase (n : nat) (w : talk) : talk := Talk n (talk_sent w) (talk_given w) (talk_out w).
Definition EBADF : Z := 9.
Definition is_linked (fd : Z) (w : talk) : bool := (fd =? 7) && (phase w =? 2)%nat.

Definition talk_kernel : kernel talk := {|
  k_close := fun fd w => if fd =? 7 then (SysRet 0 0, set_phase 0 w) else (SysRet (-1) EBADF, w);
  k_read := fun fd n w =>
    if is_linked fd w then
      let m := Z.min n (Z.min 3 (lenZ (talk_incoming w))) in
      (SysRet m 0, take (Z.to_nat m) (talk_incoming w),
       Talk 2 (talk_sent w) (talk_given w + Z.to_nat m) (talk_out w))
    else (SysRet (-1) EBADF, [], w);
  k_writev := fun fd iov w =>
    if is_linked fd w then
      let m := Z.min 5 (lenZ (gather iov)) in
      (SysRet m 0, Talk 2 (talk_sent w ++ take (Z.to_nat m) (gather iov)) (talk_given w) (talk_out w))
    else (SysRet (-1) EBADF, w);
  k_getfl := fun _ w => (SysRet 2 0, w);
  k_setfl := fun _ _ w => (SysRet 0 0, w);
  k_poll := fun fds _ w => (SysRet 0 0, map (fun _ => 0) fds, w);
  k_cerr := fun _ w => w;
  k_strerror := fun _ => EmptyString;
  k_gai_strerror := fun _ => EmptyString
|}.
Definition talk_net : net talk := {|
  n_socket := fun d t w => if (phase w =? 0)%nat then (SysRet 7 0, set_phase 1 w) else (SysRet (-1) 24, w);
  n_getsockopt := fun _ _ _ w => (SysRet 0 0, 2, 4, w);
  n_setsockopt := fun _ _ _ _ w => (SysRet 0 0, w);
  n_bind := fun _ _ _ w => (SysRet 0 0, w);
  n_connect := fun fd a n w =>
    if (fd =? 7) && (phase w =? 1)%nat && bool_decide (Address n a = ipv4 80 0x8efab004)
    then (SysRet 0 0, set_phase 2 w) else (SysRet (-1) 111, w);
  n_shutdown := fun _ _ w => (SysRet 0 0, w);
  n_getsockname := fun _ w => (SysRet 0 0, sockaddr_in 80 1, 16, w);
  n_getpeername := fun _ w => (SysRet 0 0, sockaddr_in 80 1, 16, w);
  n_recvfrom := fun _ _ w => (SysRet 0 0, [], sockaddr_in 80 1, 16, w);
  n_sendmsg := fun _ _ _ w => (SysRet 0 0, w);
  n_listen := fun _ _ w => (SysRet 0 0, w);
  n_accept := fun _ w => (SysRet 9 0, w)
|}.
Definition talk_print (d : list byte) (w : talk) : talk :=
  Talk (phase w) (talk_sent w) (talk_given w) (talk_out w ++ d).

Lemma is_linked_spec fd w : is_linked fd w = true <-> fd = 7 /\ phase w = 2%nat.
Proof. unfold is_linked. rewrite andb_true_iff, Z.eqb_eq, Nat.eqb_eq. done. Qed.

Abbreviation talk_serving := (serves talk_kernel talk_net talk_print talk_sent talk_incoming talk_out echo (fun _ => True)
  (ipv4 80 0x8efab004) (fun w => phase w = 0%nat /\ talk_given w = 0%nat)
  (fun fd w => fd = 7 /\ phase w = 1%nat /\ talk_given w = 0%nat)
  (fun fd w => is_linked fd w = true /\ talk_given w = 0%nat) (fun fd w => is_linked fd w = true)).

Lemma talk_serves : talk_serving.
Proof.
  split.
  - intros w [Hp Hg]. cbn. rewrite Hp. cbn. split; [vm_compute; intuition discriminate|]. by split_and!.
  - intros fd w (-> & Hp & Hg). cbn. rewrite Hp. cbn. split; [vm_compute; intuition discriminate|]. by split_and!.
  - intros fd iov w [Hk Hg]. cbn. rewrite Hk. pose proof (lenZ_nonneg (gather iov)). cbn. split; [lia|]. split; [done|].
    intros _. by apply is_linked_spec in Hk as [-> _].
  - intros fd iov w [Hk Hg] H. cbn. rewrite Hk. cbn. lia.
  - intros fd iov w [Hk Hg]. cbn. by rewrite Hk.
  - intros fd w [Hk Hg] _. split; [done|]. unfold talk_incoming. by rewrite Hg.
  - intros fd n w Hn. cbn. destruct (is_linked fd w); cbn; [|split_and!; done || lia].
    pose proof (lenZ_nonneg (talk_incoming w)). rewrite lenZ_take by lia. lia.
  - intros fd n w Hk Hn. cbn. rewrite Hk. cbn. pose proof (lenZ_nonneg (talk_incoming w)). split; [lia|]. split.
    + intros H0. apply lenZ_zero. lia.
    + split; [done|]. split; [unfold talk_incoming; cbn; by rewrite drop_drop|]. split; [done|].
      by apply is_linked_spec in Hk as [-> _].
  - intros fd d w Hk. by split_and!.
  - intros fd w [-> _]%is_linked_spec. done.
  - done.
Qed.

Lemma webget_prints_response_witness :
  exists s', main talk_kernel talk_net demo_web talk_print 200 9 ["webget"; "www.google.com"; "/"]
      (Sys ∅ (Talk 0 [] 0 [])) = (Ok (Exited EXIT_SUCCESS), s') /\
    talk_sent (world s') = [] ++ concat (request_pieces "www.google.com" "/") /\
    talk_out (world s') = [] ++ echo ([] ++ concat (request_pieces "www.google.com" "/")).
Proof.
  apply (webget_prints_response talk_kernel talk_net demo_web talk_print talk_sent talk_incoming talk_out echo (fun _ => True)
    (ipv4 80 0x8efab004) _ _ _ _ 200 9 "webget" "www.google.com" "/" (Sys ∅ (Talk 0 [] 0 [])) talk_serves).
  - by split.
  - reflexivity.
  - by vm_compute.
  - done.
  - by apply Nat.ltb_lt; vm_compute.
Defined.
