(* ===== verification/WebgetSafety.v ===== *)
(** [webget] on every branch (apps/webget.cc): whatever the resolver and the
    system calls answer, [main] ends, with the right status and message, and
    leaves no descriptor open. *)

From stdpp Require Import gmap.
From S2P Require Import Prelude Discard Buffer BufferList BufferViewList NetInt Address AddressSafety Kernel FileDescriptor Socket SocketSafety Webget.

Lemma add_remove (x : Z) (X : gset Z) : x ∉ X -> ({[x]} ∪ X) ∖ {[x]} = X.
Proof. intros Hx. apply set_eq. intros y. rewrite elem_of_difference, elem_of_union, !elem_of_singleton.
  split; [tauto|]. intros Hy. split; [tauto|]. by intros ->.
Qed.

Section safety.
Context {W : Type} (k : kernel W) (net : net W)
        (getaddrinfo : string -> string -> addrinfo -> Z * option (list byte * Z))
        (cout : list byte -> W -> W).

(** ** What is asked of the system

    [open_fds] are the descriptors the process has open; [budget] bounds how
    much may still be read from them. *)
Context (open_fds : W -> gset Z) (budget : W -> nat).

Definition quiet (w w' : W) : Prop := open_fds w' = open_fds w /\ (budget w' <= budget w)%nat.

Record accounts : Prop := {
  ac_socket d t w : let '(r, w') := n_socket net d t w in
    (if 0 <=? to_int (ret r) then (to_int (ret r) ∉ open_fds w) /\ open_fds w' = {[to_int (ret r)]} ∪ open_fds w
     else open_fds w' = open_fds w) /\ (budget w' <= budget w)%nat;
  ac_close fd w : open_fds (snd (k_close k fd w)) = open_fds w ∖ {[fd]};
  ac_cerr m w : open_fds (k_cerr k m w) = open_fds w;
  ac_connect fd a n w : quiet w (snd (n_connect net fd a n w));
  ac_writev fd iov w : quiet w (snd (k_writev k fd iov w));
  ac_print d w : quiet w (cout d w);
  ac_read fd n w : let '(r, _, w') := k_read k fd n w in
    quiet w w' /\ (0 < to_int (ret r) -> (budget w' < budget w)%nat)
}.

(** How [main] ends. *)
Definition ends_well (fuel : nat) (id : positive) (argv : list string) (s : sys W) (r : res termination) (s' : sys W) : Prop :=
  fds s' = fds s /\ open_fds (world s') = open_fds (world s) /\
  match argv with
  | [] => r = Ok Aborted /\ s' = s
  | [_; host; path] =>
      match get_URL k net getaddrinfo cout fuel id host path s with
      | (Ok _, s1) => r = Ok (Exited EXIT_SUCCESS) /\ s' = s1
      | (Exc e, s1) => r = Ok (Exited EXIT_FAILURE) /\
          world s' = k_cerr k (what (k_strerror k) (k_gai_strerror k) e ++ nl) (world s1)
      | _ => False
      end
  | argv0 :: _ => r = Ok (Exited EXIT_FAILURE) /\
      world s' = k_cerr k (usage_example argv0) (k_cerr k (usage argv0) (world s))
  end.

Context (Hac : accounts).

#[local] Instance quiet_preorder : PreOrder quiet.
Proof using Type. split; [by intros w|]. intros w1 w2 w3 [E1 L1] [E2 L2]. split; [congruence|lia]. Qed.

(** What has happened since [w0]. *)
Definition since (w0 : W) (s : sys W) : Prop := quiet w0 (world s).

Lemma keeps_call {A} w0 (f : W -> A * W) :
  (forall w, quiet w (snd (f w))) -> keeps (since w0) (call f) (fun _ => True).
Proof using Type.
  intros Hf s Hs. unfold call, since in *. specialize (Hf (world s)). destruct (f (world s)) as [a w].
  split; [by etrans|done].
Qed.

Lemma keeps_fd_num w0 h : keeps (since w0) (fd_num (W := W) h) (fun _ => True).
Proof using Type. intros s Hs. unfold fd_num, deref. run. repeat case_match; simplify_eq; done. Qed.

Lemma keeps_update w0 h f : keeps (since w0) (update (W := W) h f) (fun _ => True).
Proof using Type. intros s Hs. unfold update. repeat case_match; done. Qed.

Lemma keeps_connect w0 h a : keeps (since w0) (connect net h a) (fun _ => True).
Proof using Hac.
  unfold connect. eapply keeps_bind; [apply keeps_fd_num|intros fd _]. unfold checked.
  eapply (keeps_bind _ _ _ (fun _ => True)); [|intros; by apply keeps_ret].
  eapply keeps_bind; [apply keeps_call; intros; apply (ac_connect Hac)|intros r _]. apply keeps_lift. by case_match.
Qed.

Lemma keeps_write w0 h buffer all : keeps (since w0) (write k h buffer all) (fun _ => True).
Proof using Hac.
  apply write_loop_keeps; [apply keeps_fd_num| |apply keeps_update].
  intros fd iov. apply keeps_call. intros w. apply (ac_writev Hac).
Qed.

Lemma keeps_print w0 d : keeps (since w0) (print cout d) (fun _ => True).
Proof using Hac. apply keeps_call. intros w. apply (ac_print Hac). Qed.

(** ** Reading to the end *)

(** Reading either sees the end of file or uses some of the budget. *)
Lemma read_progress h c s :
  live h c s ->
  let '(r, s') := read k h no_limit s in
  since (world s) s' /\
  match r with
  | Ok _ => exists c', live h c' s' /\ (_eof (fd_obj c') = true \/ (budget (world s') < budget (world s))%nat)
  | _ => True
  end.
Proof using Hac.
  intros Hl. unfold read, read_into, on_sys, on_field, call, set_str. run. cbn [str_resize].
  change (str_resize (Z.min BUFFER_SIZE no_limit) []) with (Ok (resize (Z.to_nat (Z.min BUFFER_SIZE no_limit)) Byte.x00 [])).
  cbn iota. rewrite (fd_num_ok h c s Hl).
  pose proof (ac_read Hac (_fd (fd_obj c)) (Z.min BUFFER_SIZE no_limit) (world s)) as Hr.
  destruct (k_read k _ _ _) as [[r d] w]. destruct Hr as [Hq Hb]. unfold since.
  destruct (SystemCall "read" r 0) as [v|e| |] eqn:E; [|done..]. apply SystemCall_Ok in E as (Hv & Hrange & _).
  assert (Hl1 : live h c (Sys (fds s) w)) by exact Hl.
  destruct (Z.eqb_spec v 0) as [->|Hne]; cbn [andb].
  - change ((no_limit >? 0) && true) with true. cbv beta iota. rewrite (update_ok h c _ _ Hl1).
    change (0 >? to_ssize (Z.min BUFFER_SIZE no_limit)) with false. cbv beta iota. change (u64 0) with 0.
    unfold str_resize. change (0 >? string_max_size) with false. cbv beta iota. unfold register_read.
    rewrite (update_ok h (map_obj set_eof c)) by (by eapply put_live). rewrite !world_put. split; [done|].
    eexists. split; [by eapply put_live, put_live|by left].
  - rewrite andb_false_r. cbv beta iota. destruct (v >? _); [done|]. unfold str_resize. rewrite Z.gtb_ltb.
    destruct (Z.ltb_spec string_max_size (u64 v)) as [|Hmax]; [done|]. unfold register_read.
    rewrite (update_ok h c _ _ Hl1), !world_put. split; [done|]. eexists. split; [by eapply put_live|right].
    apply Hb. rewrite <- Hv. destruct (Z.lt_ge_cases v 0); [|lia]. unfold string_max_size, int_min in *.
    rewrite u64_negative in Hmax by lia. lia.
Qed.

(** The rounds the loop may still need. *)
Definition rounds (c : fd_cell) (w : W) : nat := if _eof (fd_obj c) then 1 else 2 + budget w.

Lemma print_loop_ends p c others fuel s c1 :
  only_object p c others s -> live (Some p) c1 s -> (rounds c1 (world s) <= fuel)%nat ->
  let '(r, s') := print_loop k cout fuel (Some p) s in returns r /\ only_object p c others s' /\ since (world s) s'.
Proof using Hac.
  revert s c1. induction fuel as [|fuel IH]; intros s c1 Hs Hl Hf.
  { unfold rounds in Hf. destruct (_eof _); lia. }
  cbn [print_loop]. run. unfold eof. run. rewrite (deref_ok (Some p) c1 s Hl). unfold rounds in Hf.
  destruct (_eof (fd_obj c1)); [by split_and!|].
  pose proof (read_progress (Some p) c1 s Hl) as Hr. destruct (sure_read k p c others no_limit s Hs) as [Hs1 Hret].
  destruct (read k (Some p) no_limit s) as [[d|e|u|] s1]; try done; [|by destruct Hr].
  destruct Hr as [Hq1 (c2 & Hl2 & Hor)]. unfold print, call. set (s2 := Sys (fds s1) (cout d (world s1))).
  assert (Hq2 : since (world s1) s2) by apply (ac_print Hac).
  specialize (IH s2 c2 Hs1 Hl2). cbn [s2 world] in IH. destruct (print_loop _ _ _ _ s2) as [r s3].
  destruct IH as (Hr3 & Hs3 & Hq3).
  - unfold rounds. destruct Hq2 as [_ Hb2]. cbn [s2 world] in Hb2. destruct (_eof (fd_obj c2)); [lia|].
    destruct Hor as [|]; [done|]. lia.
  - split_and!; [done..|]. unfold since in *. etrans; [exact Hq1|]. etrans; [exact Hq2|exact Hq3].
Qed.

(** ** The socket's block *)

(** All of [get_URL] after the socket is made. *)
Definition session (fuel : nat) (id : positive) (host path : string) (sock : handle) : M (sys W) unit :=
  addr ← lift (from_hostname getaddrinfo host "http");
  connect net sock addr ;;
  text ← lift (request host path);
  write_string k sock (Storage id text) true ;;
  print_loop k cout fuel sock.

Context (Hfill : resolver_fills getaddrinfo).

(** Steps before the loop: nothing goes wrong, and the socket stays. *)
Definition going (p : positive) (c : fd_cell) (others : gmap positive fd_cell) (w0 : W) (s : sys W) : Prop :=
  only_object p c others s /\ since w0 s.

Lemma session_ends p c others fuel id host path s :
  going p c others (world s) s -> (budget (world s) + 1 < fuel)%nat ->
  let '(r, s') := session fuel id host path (Some p) s in returns r /\ going p c others (world s) s'.
Proof using Hac Hfill.
  intros Hs Hf. set (w0 := world s) in *.
  assert (Hloop : forall s1, going p c others w0 s1 ->
    let '(r, s') := print_loop k cout fuel (Some p) s1 in returns r /\ going p c others w0 s').
  { intros s1 [Ho Hq]. destruct (only_object_live p c others s1 Ho) as (c1 & Hl & _).
    pose proof (print_loop_ends p c others fuel s1 c1 Ho Hl) as H. destruct (print_loop _ _ _ _ s1) as [r s2].
    destruct H as (Hr & Ho2 & Hq2).
    - unfold rounds. destruct Hq as [_ Hb]. destruct (_eof _); lia.
    - split; [done|]. split; [done|]. unfold since in *. by etrans. }
  enough (Hsure : sure (going p c others w0) (session fuel id host path (Some p))).
  { specialize (Hsure s Hs). destruct (session _ _ _ _ _ s). by destruct Hsure. }
  unfold session.
  apply sure_bind; [|intros addr].
  { apply sure_lift. pose proof (construct_ends getaddrinfo (ByName host "http") Hfill I) as H.
    simpl in H. by destruct (from_hostname getaddrinfo host "http"). }
  apply sure_bind; [eapply sure_and; [apply sure_connect|apply keeps_connect]|intros _].
  unfold request. rewrite str_concat_result.
  destruct (Z.leb_spec (lenZ (concat (request_pieces host path))) string_max_size) as [Hmax|]; [|by intros s1 Hs1].
  set (text := concat _) in *. change (sure (going p c others w0)
    (write_string k (Some p) (Storage id text) true ;; print_loop k cout fuel (Some p))).
  apply sure_bind; [|intros _ s1 Hs1; specialize (Hloop s1 Hs1); destruct (print_loop _ _ _ _ s1); by destruct Hloop].
  eapply sure_and; [apply sure_write|apply keeps_write]. by apply (of_string_wf (Storage id text)).
Qed.

(** The socket's destructor runs, and closes the descriptor. *)
Lemma scoped_ends {A} p c others (m : M (sys W) A) s :
  fd_uses c = 1%nat -> _closed (fd_obj c) = false -> others !! p = None ->
  only_object p c others (snd (m s)) -> returns (fst (m s)) ->
  exists s', scoped k (Some p) m s = (fst (m s), s') /\ fds s' = others /\
    world s' = destroyed k (_fd (fd_obj c)) (world (snd (m s))).
Proof using Type.
  intros Hu Hc Hp (c' & [Afd Ac Au _] & Es) Hr. unfold scoped, unwinding. run.
  destruct (m s) as [r s1]. cbn [fst snd] in *.
  destruct (release_ok k p c' s1) as (s2 & E & Ef & Ew); [exists p; by rewrite Es, lookup_insert_eq|].
  rewrite Au, Hu in Ef, Ew. rewrite decide_True in Ef by lia. rewrite decide_True in Ew by lia.
  rewrite Ac, Hc, Afd in Ew. rewrite Es, delete_insert_id in Ef by done.
  destruct r; try done; rewrite E; by exists s2.
Qed.

(** All of [get_URL]: it makes no socket, or closes the one it makes. *)
Lemma get_URL_ends fuel id host path s :
  (budget (world s) + 1 < fuel)%nat ->
  let '(r, s') := get_URL k net getaddrinfo cout fuel id host path s in
  returns r /\ fds s' = fds s /\ open_fds (world s') = open_fds (world s).
Proof using Hac Hfill.
  intros Hf. change (get_URL k net getaddrinfo cout fuel id host path s) with
    ((sock ← tcp_socket net; scoped k sock (session fuel id host path sock)) s).
  unfold tcp_socket, socket, checked, call. run. pose proof (ac_socket Hac AF_INET SOCK_STREAM (world s)) as H.
  destruct (n_socket _ _ _ _) as [r w]. destruct H as [Hopen Hb].
  pose proof (SystemCall_total "socket" r 0) as Ht. destruct (SystemCall "socket" r 0) as [fd|e| |] eqn:E; try done.
  2: { unfold SystemCall in E. rewrite Z.geb_leb in E. destruct (0 <=? to_int (ret r)); [done|]. done. }
  apply SystemCall_Ok in E as (-> & _ & _). unfold new_fd. rewrite Z.leb_antisym in Hopen.
  destruct (Z.ltb_spec (to_int (ret r)) 0) as [|Hpos]; [done|]. cbn [negb] in Hopen. cbn [fds world].
  set (p := fresh (dom (fds s))). set (s1 := Sys _ _).
  assert (Hp : fds s !! p = None) by apply not_elem_of_dom, is_fresh.
  pose proof (session_ends p (new_object (to_int (ret r))) (fds s) fuel id host path s1) as Hs.
  destruct (session fuel id host path (Some p) s1) as [r2 s2] eqn:E2. destruct Hs as [Hr2 [Ho2 [Hq2 _]]].
  - split; [|done]. eexists. split; [apply advanced_refl|done].
  - cbn [s1 world]. lia.
  - destruct (scoped_ends p (new_object (to_int (ret r))) (fds s) (session fuel id host path (Some p)) s1)
      as (s3 & E3 & Ef & Ew); rewrite ?E2; try done.
    rewrite E3, E2. split; [done|]. split; [done|]. rewrite Ew, E2. cbn [fst snd new_object fd_obj _fd].
    destruct Hopen as [Hnot Hopen]. cbn [s1 world] in Hq2.
    apply (destroyed_keeps k (fun w => open_fds w = open_fds (world s))).
    + rewrite (ac_close Hac), Hq2, Hopen. by apply add_remove.
    + intros m w' Hw'. by rewrite (ac_cerr Hac).
Qed.

End safety.

(** C9: [webget] ends well on every command line, whatever the resolver and the
    system calls answer, as long as they deliver finitely many bytes: nothing is
    undefined and its loop ends; without a program name it aborts; with other than
    two arguments it prints its usage on standard error and ends with status 1;
    with two, it ends with status 0, or with status 1 after printing what the
    exception says.  Whatever happens, its socket object is destroyed and the
    process has the same descriptors open as before. *)
Theorem webget_ends_well {W : Type} (k : kernel W) (net : net W)
    (getaddrinfo : string -> string -> addrinfo -> Z * option (list byte * Z))
    (cout : list byte -> W -> W) (open_fds : W -> gset Z) (budget : W -> nat)
    (fuel : nat) (id : positive) (argv : list string) (s : sys W) :
  accounts k net cout open_fds budget -> resolver_fills getaddrinfo -> (budget (world s) + 1 < fuel)%nat ->
  let '(r, s') := main k net getaddrinfo cout fuel id argv s in
  ends_well k net getaddrinfo cout open_fds fuel id argv s r s'.
Proof.
  intros Hac Hfill Hf. unfold main, ends_well.
  destruct argv as [|argv0 [|host [|path [|x argv]]]]; [done| | | |]; unfold catch, print_err, call; run.
  1,2,4: cbn [world fds]; by rewrite !(ac_cerr _ _ _ _ _ Hac).
  pose proof (get_URL_ends k net getaddrinfo cout open_fds budget Hac Hfill fuel id host path s Hf) as H.
  destruct (get_URL _ _ _ _ _ _ _ _ s) as [[u|e|u|] s1]; destruct H as (Hr & Hfd & Ho); try done.
  cbn [world fds]. by rewrite !(ac_cerr _ _ _ _ _ Hac).
Qed.

(** ** A system for the witness

    A process with the descriptors in a set, a resolver, and a server that
    delivers [n] bytes, one at a time, before it fails or ends. *)
Definition desk : Type := gset Z * nat * string.
Definition desk_kernel (fails : bool) : kernel desk := {|
  k_close := fun fd '(o, n, e) => (SysRet 0 0, (o ∖ {[fd]}, n, e));
  k_read := fun _ _ '(o, n, e) => match n with
    | S n' => (SysRet 1 0, [Byte.x61], (o, n', e))
    | O => (if fails then SysRet (-1) 104 else SysRet 0 0, [], (o, O, e))
    end;
  k_writev := fun _ iov w => (SysRet (lenZ (gather iov)) 0, w);
  k_getfl := fun _ w => (SysRet 2 0, w);
  k_setfl := fun _ _ w => (SysRet 0 0, w);
  k_poll := fun fds _ w => (SysRet 0 0, map (fun _ => 0) fds, w);
  k_cerr := fun m '(o, n, e) => (o, n, (e ++ m)%string);
  k_strerror := fun _ => "Connection reset by peer"%string;
  k_gai_strerror := fun _ => EmptyString
|}.
Definition desk_net : net desk := {|
  n_socket := fun _ _ '(o, n, e) =>
    if decide (7 ∈ o) then (SysRet (-1) 24, (o, n, e)) else (SysRet 7 0, ({[7]} ∪ o, n, e));
  n_getsockopt := fun _ _ _ w => (SysRet 0 0, 2, 4, w);
  n_setsockopt := fun _ _ _ _ w => (SysRet 0 0, w);
  n_bind := fun _ _ _ w => (SysRet 0 0, w);
  n_connect := fun _ _ _ w => (SysRet 0 0, w);
  n_shutdown := fun _ _ w => (SysRet 0 0, w);
  n_getsockname := fun _ w => (SysRet 0 0, sockaddr_in 80 1, 16, w);
  n_getpeername := fun _ w => (SysRet 0 0, sockaddr_in 80 1, 16, w);
  n_recvfrom := fun _ _ w => (SysRet 0 0, [], sockaddr_in 80 1, 16, w);
  n_sendmsg := fun _ _ _ w => (SysRet 0 0, w);
  n_listen := fun _ _ w => (SysRet 0 0, w);
  n_accept := fun _ w => (SysRet 9 0, w)
|}.
Definition desk_open (w : desk) : gset Z := fst (fst w).
Definition desk_budget (w : desk) : nat := snd (fst w).

Lemma desk_accounts fails : accounts (desk_kernel fails) desk_net (fun _ w => w) desk_open desk_budget.
Proof.
  split; try done.
  - intros d t [[o n] e]. cbn. destruct (decide (7 ∈ o)); by simpl.
  - by intros fd [[o n] e].
  - by intros m [[o n] e].
  - intros fd n0 [[o [|n]] e]; cbn; unfold quiet, desk_open, desk_budget; cbn.
    + split; [by split|]. destruct fails; vm_compute; discriminate.
    + split; [split; [done|lia]|]. lia.
Qed.

Lemma demo_web_fills : resolver_fills demo_web.
Proof. intros node service hints. vm_compute. split; discriminate. Qed.

(** The server resets the connection after two bytes. *)
Lemma webget_ends_well_witness :
  let s := Sys ∅ ({[0; 1; 2]}, 2%nat, EmptyString) in
  let argv := ["webget"; "cs144.keithw.org"; "/hello"]%string in
  (let '(r, s') := main (desk_kernel true) desk_net demo_web (fun _ w => w) 5 9 argv s in
   ends_well (desk_kernel true) desk_net demo_web (fun _ w => w) desk_open 5 9 argv s r s') /\
  main (desk_kernel true) desk_net demo_web (fun _ w => w) 5 9 argv s =
    (Ok (Exited 1), Sys ∅ ({[0; 1; 2]}, 0%nat, ("read: Connection reset by peer" ++ nl)%string)).
Proof.
  intros s argv. split; [|by vm_compute].
  apply (webget_ends_well (desk_kernel true) desk_net demo_web (fun _ w => w) desk_open desk_budget 5 9 argv s
    (desk_accounts true) demo_web_fills). simpl. lia.
Defined.
