(* ===== verification/Loopback.v ===== *)
(** Sockets of one machine talking to each other: what the documentation
    examples rely on of the operating system, as laws over a view of the
    kernel's sockets, and what each operation of Socket.v and FileDescriptor.v
    does to that view.  Machine.v has a kernel and a network that satisfy the laws. *)

From stdpp Require Import gmap.
From S2P Require Import Prelude Discard Buffer BufferList BufferViewList NetInt Address Kernel FileDescriptor Socket Webget.

(** ** The view *)

(** A socket's name: the bytes of its address. *)
Abbreviation name := (list byte).

Inductive sock :=
  | Udp (local peer : option name) (inbox : list (name * list byte))
  | Tcp (local : option name)
  | Listener (local : name) (queue : list Z)            (* connected, not accepted yet *)
  | Conn (domain : Z) (peer : option Z) (inbuf : list byte).

Definition local_name (s : sock) : option name :=
  match s with Udp l _ _ | Tcp l => l | Listener l _ => Some l | Conn _ _ _ => None end.

(** No socket has the name. *)
Definition unused (v : gmap Z sock) (nm : name) : Prop :=
  forall fd s, v !! fd = Some s -> local_name s <> Some nm.

Definition with_name (nm : name) (s : sock) : option sock :=
  match s with
  | Udp None p q => Some (Udp (Some nm) p q)
  | Tcp None => Some (Tcp (Some nm))
  | _ => None
  end.

(** The limit on open descriptors, and on the payload of a datagram. *)
Definition max_fds : nat := 1024.
Definition max_datagram : Z := 65507.

(** A call that succeeds with a descriptor nobody has. *)
Definition returns_fd {W} (view : W -> gmap Z sock) (w : W) (r : sysret) : Prop :=
  0 <= ret r <= int_max /\ view w !! ret r = None.

(** Reliable delivery between sockets of one machine, as ip(7), udp(7), tcp(7)
    and unix(7) document it.  Stream sockets take at least a byte of what is
    written and give all there is to read, up to the size of the buffer; when
    there is nothing left and the peer is gone they give the end of the file. *)
Record loopback {W} (k : kernel W) (net : net W) (draw : M W Z)
    (socketpair : Z -> Z -> Z -> W -> sysret * (Z * Z) * W) (view : W -> gmap Z sock) : Prop := {
  lb_sends : sends net;
  lb_receives : receives net;
  lb_draw w : exists x, fst (draw w) = Ok x /\ 0 <= x < 2 ^ 32 /\ view (snd (draw w)) = view w;
  lb_udp w : (base.size (view w) < max_fds)%nat ->
    let '(r, w') := n_socket net AF_INET SOCK_DGRAM w in
    returns_fd view w r /\ view w' = <[ret r := Udp None None []]> (view w);
  lb_tcp w : (base.size (view w) < max_fds)%nat ->
    let '(r, w') := n_socket net AF_INET SOCK_STREAM w in
    returns_fd view w r /\ view w' = <[ret r := Tcp None]> (view w);
  lb_socketpair w : (S (base.size (view w)) < max_fds)%nat ->
    let '(r, (fd1, fd2), w') := socketpair AF_UNIX SOCK_STREAM 0 w in
    ret r = 0 /\ 0 <= fd1 <= int_max /\ 0 <= fd2 <= int_max /\ fd1 <> fd2 /\
    view w !! fd1 = None /\ view w !! fd2 = None /\
    view w' = <[fd1 := Conn AF_UNIX (Some fd2) []]> (<[fd2 := Conn AF_UNIX (Some fd1) []]> (view w));
  lb_bind fd a n s s' w : view w !! fd = Some s -> with_name (take (Z.to_nat n) a) s = Some s' ->
    unused (view w) (take (Z.to_nat n) a) ->
    let '(r, w') := n_bind net fd a n w in ret r = 0 /\ view w' = <[fd := s']> (view w);
  lb_listen fd nm backlog w : view w !! fd = Some (Tcp (Some nm)) -> 1 <= backlog ->
    let '(r, w') := n_listen net fd backlog w in ret r = 0 /\ view w' = <[fd := Listener nm []]> (view w);
  lb_connect_udp fd l p q a n w : view w !! fd = Some (Udp l p q) ->
    let '(r, w') := n_connect net fd a n w in
    ret r = 0 /\ view w' = <[fd := Udp l (Some (take (Z.to_nat n) a)) q]> (view w);
  lb_connect_tcp fd fd' a n w :
    view w !! fd = Some (Tcp None) -> view w !! fd' = Some (Listener (take (Z.to_nat n) a) []) ->
    let '(r, w') := n_connect net fd a n w in
    ret r = 0 /\
    view w' = <[fd' := Listener (take (Z.to_nat n) a) [fd]]> (<[fd := Conn AF_INET None []]> (view w));
  lb_accept fd nm c b w : (base.size (view w) < max_fds)%nat ->
    view w !! fd = Some (Listener nm [c]) -> view w !! c = Some (Conn AF_INET None b) ->
    let '(r, w') := n_accept net fd w in
    returns_fd view w r /\
    view w' = <[ret r := Conn AF_INET (Some c) []]> (<[c := Conn AF_INET (Some (ret r)) b]>
                (<[fd := Listener nm []]> (view w)));
  lb_sockopt fd d p b w : view w !! fd = Some (Conn d p b) ->
    (let '(r, v, len, w') := n_getsockopt net fd SOL_SOCKET SO_DOMAIN w in
     ret r = 0 /\ v = d /\ len = 4 /\ view w' = view w) /\
    (let '(r, v, len, w') := n_getsockopt net fd SOL_SOCKET SO_TYPE w in
     ret r = 0 /\ v = SOCK_STREAM /\ len = 4 /\ view w' = view w);
  lb_sendmsg fd l p q nm to q' dst iov w :
    view w !! fd = Some (Udp l p q) -> view w !! to = Some (Udp (Some nm) None q') -> fd <> to ->
    match dst with Some (a, n) => take (Z.to_nat n) a = nm | None => p = Some nm end ->
    lenZ (gather iov) <= max_datagram -> (base.size (view w) <= max_fds)%nat ->
    let '(r, w') := n_sendmsg net fd dst iov w in
    ret r = lenZ (gather iov) /\
    exists src, match l with Some nm => src = nm | None => unused (view w) src /\ lenZ src <= sizeof_storage end /\
      view w' = <[to := Udp (Some nm) None (q' ++ [(src, gather iov)])]> (<[fd := Udp (Some src) p q]> (view w));
  lb_recvfrom fd l p src d q n w : view w !! fd = Some (Udp l p ((src, d) :: q)) ->
    lenZ d <= n -> lenZ d <= max_datagram -> lenZ src <= sizeof_storage ->
    let '(r, d', src', _, w') := n_recvfrom net fd n w in
    ret r = lenZ d /\ d' = d /\ src' = src /\ view w' = <[fd := Udp l p q]> (view w);
  lb_writev fd d p b b' iov w : view w !! fd = Some (Conn d (Some p) b) ->
    view w !! p = Some (Conn d (Some fd) b') -> fd <> p ->
    let '(r, w') := k_writev k fd iov w in
    0 <= ret r <= Z.min (lenZ (gather iov)) 0x7ffff000 /\ (0 < lenZ (gather iov) -> 1 <= ret r) /\
    view w' = <[p := Conn d (Some fd) (b' ++ take (Z.to_nat (ret r)) (gather iov))]> (view w);
  lb_read fd d p b n w : view w !! fd = Some (Conn d p b) -> b <> [] -> 0 < n <= BUFFER_SIZE ->
    let '(r, got, w') := k_read k fd n w in
    ret r = Z.min n (lenZ b) /\ got = take (Z.to_nat n) b /\
    view w' = <[fd := Conn d p (drop (Z.to_nat n) b)]> (view w);
  lb_eof fd d p n w : view w !! fd = Some (Conn d (Some p) []) -> view w !! p = None -> 0 < n <= BUFFER_SIZE ->
    let '(r, got, w') := k_read k fd n w in ret r = 0 /\ got = [] /\ view w' = view w;
  lb_read_fills fd : read_fills k fd;
  lb_close fd s w : view w !! fd = Some s ->
    let '(r, w') := k_close k fd w in ret r = 0 /\ view w' = delete fd (view w);
  lb_shutdown fd d p b w : view w !! fd = Some (Conn d p b) ->
    let '(r, w') := n_shutdown net fd SHUT_RDWR w in
    ret r = 0 /\ exists s, local_name s = None /\ view w' = <[fd := s]> (view w)
}.

(** ** The variables of a program

    [owns base vars m]: of the objects in [m], those of [base] were there
    before, and each variable is the only handle on one of the others, with the
    descriptor number and the closed flag given. *)

Abbreviation var := (positive * (Z * bool))%type.

Definition is_object (c : fd_cell) (fd : Z) (cl : bool) : Prop :=
  _fd (fd_obj c) = fd /\ _closed (fd_obj c) = cl /\ fd_uses c = 1%nat.

Record owns (base : gmap positive fd_cell) (vars : list var) (m : gmap positive fd_cell) : Prop := {
  ow_nodup : NoDup vars.*1;
  ow_vars p fd cl : (p, (fd, cl)) ∈ vars -> base !! p = None /\ exists c, m !! p = Some c /\ is_object c fd cl;
  ow_rest p : p ∉ vars.*1 -> m !! p = base !! p
}.

Lemma owns_start m : owns m [] m.
Proof. split; [constructor| |done]. intros p fd cl H. by apply not_elem_of_nil in H. Qed.

Lemma owns_end base m : owns base [] m -> m = base.
Proof. intros [_ _ H]. apply map_eq. intros p. apply H. apply not_elem_of_nil. Qed.

Lemma owns_unique base vars m p fd cl fd' cl' :
  owns base vars m -> (p, (fd, cl)) ∈ vars -> (p, (fd', cl')) ∈ vars -> fd = fd' /\ cl = cl'.
Proof.
  intros Ho H1 H2. destruct (ow_vars _ _ _ Ho _ _ _ H1) as (_ & c1 & E1 & ? & ? & _).
  destruct (ow_vars _ _ _ Ho _ _ _ H2) as (_ & c2 & E2 & ? & ? & _). simplify_eq. split; congruence.
Qed.

(** An object changed, the number and the flag aside. *)
Lemma owns_put base vars m p fd cl c' :
  (p, (fd, cl)) ∈ vars -> is_object c' fd cl -> owns base vars m -> owns base vars (<[p := c']> m).
Proof.
  intros Hin Hc Ho. split; [apply Ho| |].
  - intros q fd' cl' Hq. destruct (ow_vars _ _ _ Ho _ _ _ Hq) as (Hb & c & Hc0). split; [done|].
    destruct (decide (p = q)) as [<-|Hne].
    + exists c'. rewrite lookup_insert_eq. destruct (owns_unique _ _ _ _ _ _ _ _ Ho Hin Hq) as [<- <-]. done.
    + exists c. by rewrite lookup_insert_ne.
  - intros q Hq. rewrite lookup_insert_ne; [by apply Ho|]. intros ->. apply Hq.
    apply list_elem_of_fmap. by exists (q, (fd, cl)).
Qed.

Lemma owns_new base vars m p fd :
  m !! p = None -> owns base vars m ->
  owns base ((p, (fd, false)) :: vars) (<[p := FDCell (FDWrapper fd false false 0 0) 1]> m).
Proof.
  intros Hp Ho. assert (Hnew : p ∉ vars.*1).
  { intros ([q [fd' cl']] & -> & Hin)%list_elem_of_fmap. destruct (ow_vars _ _ _ Ho _ _ _ Hin) as (_ & c & E & _).
    simpl in Hp. congruence. }
  split.
  - constructor; [done|apply Ho].
  - intros q fd' cl' [E|Hin]%elem_of_cons.
    + simplify_eq. split; [by rewrite <- (ow_rest _ _ _ Ho)|]. eexists. by rewrite lookup_insert_eq.
    + destruct (ow_vars _ _ _ Ho _ _ _ Hin) as (Hb & c & E & Hc). split; [done|]. exists c.
      rewrite lookup_insert_ne; [done|]. congruence.
  - intros q [Hq Hq']%not_elem_of_cons. rewrite lookup_insert_ne by done. by apply Ho.
Qed.

Lemma owns_release base p x vars m : owns base ((p, x) :: vars) m -> owns base vars (delete p m).
Proof.
  intros Ho. pose proof (ow_nodup _ _ _ Ho) as Hnd. apply NoDup_cons in Hnd as [Hp Hnd]. split; [done| |].
  - intros q fd cl Hin. destruct (ow_vars _ _ _ Ho q fd cl) as (Hb & c & E & Hc); [by constructor|].
    split; [done|]. exists c. rewrite lookup_delete_ne; [done|]. intros ->. apply Hp.
    apply list_elem_of_fmap. by exists (q, (fd, cl)).
  - intros q Hq. destruct (decide (p = q)) as [<-|Hne].
    + rewrite lookup_delete_eq. destruct x as [fd cl]. symmetry. apply (ow_vars _ _ _ Ho p fd cl). constructor.
    + rewrite lookup_delete_ne by done. apply Ho. simpl. by apply not_elem_of_cons.
Qed.

(** A variable that is closed. *)
Lemma owns_close base vars1 vars2 m p fd c' :
  is_object c' fd true -> owns base (vars1 ++ (p, (fd, false)) :: vars2) m ->
  owns base (vars1 ++ (p, (fd, true)) :: vars2) (<[p := c']> m).
Proof.
  intros Hc Ho. assert (Hfst : (vars1 ++ (p, (fd, true)) :: vars2).*1 = (vars1 ++ (p, (fd, false)) :: vars2).*1).
  { by rewrite !fmap_app. }
  assert (Hother : forall q x, (q, x) ∈ vars1 ++ vars2 -> q <> p).
  { intros q x Hin ->. pose proof (ow_nodup _ _ _ Ho) as Hnd. rewrite fmap_app, fmap_cons in Hnd.
    rewrite <- Permutation_middle in Hnd.
    apply NoDup_cons in Hnd as [Hp _]. apply Hp. rewrite <- fmap_app. apply list_elem_of_fmap. by exists (p, x). }
  split; [rewrite Hfst; apply Ho| |].
  - intros q fd' cl' Hq. apply elem_of_app in Hq.
    assert (Hcases : (q, (fd', cl')) = (p, (fd, true)) \/ (q, (fd', cl')) ∈ vars1 ++ vars2).
    { rewrite elem_of_cons in Hq. rewrite elem_of_app. tauto. }
    destruct Hcases as [[= -> -> ->]|Hin].
    + split; [|exists c'; by rewrite lookup_insert_eq].
      apply (ow_vars _ _ _ Ho p fd false). apply elem_of_app. right. constructor.
    + destruct (ow_vars _ _ _ Ho q fd' cl') as (Hb & c & E & Hc').
      { apply elem_of_app in Hin. apply elem_of_app. rewrite elem_of_cons. tauto. }
      split; [done|]. exists c. rewrite lookup_insert_ne; [done|]. apply not_eq_sym. by eapply Hother.
  - rewrite Hfst. intros q Hq. rewrite lookup_insert_ne; [by apply Ho|]. intros ->. apply Hq.
    rewrite fmap_app. apply elem_of_app. right. constructor.
Qed.

(** ** The operations, seen through the view *)

Section ops.
Context {W : Type} (k : kernel W) (net : net W) (draw : M W Z)
        (socketpair : Z -> Z -> Z -> W -> sysret * (Z * Z) * W) (view : W -> gmap Z sock).
Context (HL : loopback k net draw socketpair view) (base : gmap positive fd_cell).

(** The state of a program: its variables, and the sockets of the machine. *)
Definition st (vars : list var) (v : gmap Z sock) (s : sys W) : Prop :=
  owns base vars (fds s) /\ view (world s) = v.

Lemma st_live vars v s p fd cl :
  st vars v s -> (p, (fd, cl)) ∈ vars -> exists c, live (Some p) c s /\ is_object c fd cl.
Proof using Type.
  intros [Ho _] Hin. destruct (ow_vars _ _ _ Ho _ _ _ Hin) as (_ & c & E & Hc). exists c. split; [by exists p|done].
Qed.

Lemma st_put vars v v' s p fd cl c w f :
  st vars v s -> (p, (fd, cl)) ∈ vars -> live (Some p) c s -> is_object c fd cl ->
  (forall o, _fd (f o) = _fd o /\ _closed (f o) = _closed o) -> view w = v' ->
  st vars v' (put (Some p) (map_obj f c) w s).
Proof using Type.
  intros [Ho Hv] Hin Hl (Hf & Hcl & Hu) Hsame Hw. split; [|done]. simpl.
  apply (owns_put _ _ _ _ fd cl); [done| |done]. destruct (Hsame (fd_obj c)) as [E1 E2].
  split_and!; simpl; congruence.
Qed.

Lemma st_world vars v v' s w : st vars v s -> view w = v' -> st vars v' (Sys (fds s) w).
Proof using Type. by intros [Ho _]. Qed.

(** One checked call on a descriptor. *)
Lemma checked_st vars v v' s attempt (f : W -> sysret * W) :
  st vars v s ->
  (let '(r, w') := f (world s) in 0 <= ret r <= int_max /\ view w' = v') ->
  exists s', checked attempt f s = (Ok (ret (fst (f (world s)))), s') /\ fds s' = fds s /\
    world s' = snd (f (world s)) /\ st vars v' s'.
Proof using Type.
  intros Hs Hf. unfold checked, call. run. destruct (f (world s)) as [r w']. destruct Hf as [Hr Hv].
  rewrite SystemCall_ok by done. eexists. split; [done|]. split; [done|]. split; [done|]. by eapply st_world.
Qed.

Lemma simple_call_st vars v v' s p fd cl attempt (f : Z -> W -> sysret * W) :
  st vars v s -> (p, (fd, cl)) ∈ vars ->
  (let '(r, w') := f fd (world s) in ret r = 0 /\ view w' = v') ->
  exists s', (fd ← fd_num (Some p); checked attempt (f fd) ;; mret tt) s = (Ok tt, s') /\ st vars v' s'.
Proof using Type.
  intros Hs Hin Hf. destruct (st_live _ _ _ _ _ _ Hs Hin) as (c & Hl & Hc & _).
  destruct (checked_st vars v v' s attempt (f fd) Hs) as (s' & E & _ & _ & Hs').
  { destruct (f fd (world s)) as [r w']. destruct Hf as [-> Hv]. by split. }
  run. rewrite (fd_num_ok (Some p) c s Hl), Hc, E. by exists s'.
Qed.

Lemma new_fd_st vars v s fd :
  0 <= fd -> st vars v s ->
  exists p s', new_fd fd s = (Ok (Some p), s') /\ st ((p, (fd, false)) :: vars) v s' /\ world s' = world s.
Proof using Type.
  intros Hfd [Ho Hv]. unfold new_fd. destruct (Z.ltb_spec fd 0); [lia|]. eexists _, _. split; [done|].
  split; [|done]. split; [|done]. apply owns_new; [|done]. apply not_elem_of_dom, is_fresh.
Qed.

Lemma socket_st vars v s domain type new :
  st vars v s ->
  (let '(r, w') := n_socket net domain type (world s) in
   returns_fd view (world s) r /\ view w' = <[ret r := new]> (view (world s))) ->
  exists p fd s', socket net domain type s = (Ok (Some p), s') /\ v !! fd = None /\
    st ((p, (fd, false)) :: vars) (<[fd := new]> v) s'.
Proof using Type.
  intros Hs H. destruct (n_socket net domain type (world s)) as [r w'] eqn:E. destruct H as [[Hr Hnew] Hv].
  pose proof Hs as [_ <-].
  destruct (checked_st vars _ (<[ret r := new]> (view (world s))) s "socket" (n_socket net domain type) Hs) as (s1 & E1 & _ & _ & Hs1).
  { by rewrite E. }
  destruct (new_fd_st vars _ s1 (ret r) ltac:(lia) Hs1) as (p & s2 & E2 & Hs2 & _).
  exists p, (ret r), s2. unfold socket. run. rewrite E1, E. cbn [fst]. by rewrite E2.
Qed.

Lemma udp_socket_st vars v s :
  st vars v s -> (base.size v < max_fds)%nat ->
  exists p fd s', udp_socket net s = (Ok (Some p), s') /\ v !! fd = None /\
    st ((p, (fd, false)) :: vars) (<[fd := Udp None None []]> v) s'.
Proof using HL. intros Hs Hv. apply socket_st; [done|]. apply (lb_udp _ _ _ _ _ HL). destruct Hs as [_ ->]. done. Qed.

Lemma tcp_socket_st vars v s :
  st vars v s -> (base.size v < max_fds)%nat ->
  exists p fd s', tcp_socket net s = (Ok (Some p), s') /\ v !! fd = None /\
    st ((p, (fd, false)) :: vars) (<[fd := Tcp None]> v) s'.
Proof using HL. intros Hs Hv. apply socket_st; [done|]. apply (lb_tcp _ _ _ _ _ HL). destruct Hs as [_ ->]. done. Qed.

(** The name an [Address] stands for. *)
Definition name_of (a : address) : name := take (Z.to_nat (_size a)) (_address a).

Lemma bind_st vars v s p fd cl a x x' :
  st vars v s -> (p, (fd, cl)) ∈ vars -> v !! fd = Some x -> with_name (name_of a) x = Some x' ->
  unused v (name_of a) ->
  exists s', bind net (Some p) a s = (Ok tt, s') /\ st vars (<[fd := x']> v) s'.
Proof using HL.
  intros Hs Hin Hx Hn Hu. apply (simple_call_st vars v _ s p fd cl "bind" (fun fd => n_bind net fd _ _) Hs Hin).
  destruct Hs as [_ <-]. by apply (lb_bind _ _ _ _ _ HL _ _ _ x).
Qed.

Lemma listen_st vars v s p fd cl nm backlog :
  st vars v s -> (p, (fd, cl)) ∈ vars -> v !! fd = Some (Tcp (Some nm)) -> 1 <= backlog ->
  exists s', listen net (Some p) backlog s = (Ok tt, s') /\ st vars (<[fd := Listener nm []]> v) s'.
Proof using HL.
  intros Hs Hin Hx Hb. apply (simple_call_st vars v _ s p fd cl "listen" (fun fd => n_listen net fd _) Hs Hin).
  destruct Hs as [_ <-]. by apply (lb_listen _ _ _ _ _ HL).
Qed.

Lemma connect_udp_st vars v s p fd cl a l o q :
  st vars v s -> (p, (fd, cl)) ∈ vars -> v !! fd = Some (Udp l o q) ->
  exists s', connect net (Some p) a s = (Ok tt, s') /\ st vars (<[fd := Udp l (Some (name_of a)) q]> v) s'.
Proof using HL.
  intros Hs Hin Hx. apply (simple_call_st vars v _ s p fd cl "connect" (fun fd => n_connect net fd _ _) Hs Hin).
  destruct Hs as [_ <-]. by apply (lb_connect_udp _ _ _ _ _ HL _ _ o).
Qed.

Lemma connect_tcp_st vars v s p fd cl a fd' :
  st vars v s -> (p, (fd, cl)) ∈ vars -> v !! fd = Some (Tcp None) -> v !! fd' = Some (Listener (name_of a) []) ->
  exists s', connect net (Some p) a s = (Ok tt, s') /\
    st vars (<[fd' := Listener (name_of a) [fd]]> (<[fd := Conn AF_INET None []]> v)) s'.
Proof using HL.
  intros Hs Hin Hx Hx'. apply (simple_call_st vars v _ s p fd cl "connect" (fun fd => n_connect net fd _ _) Hs Hin).
  destruct Hs as [_ <-]. by apply (lb_connect_tcp _ _ _ _ _ HL).
Qed.

(** Datagrams. *)

Lemma sendmsg_st vars v s p fd cl l o q nm to q' dst payload :
  st vars v s -> (p, (fd, cl)) ∈ vars -> v !! fd = Some (Udp l o q) -> v !! to = Some (Udp (Some nm) None q') ->
  fd <> to -> match dst with Some (a, n) => take (Z.to_nat n) a = nm | None => o = Some nm end ->
  wf_views payload -> lenZ (views_text payload) <= max_datagram -> (base.size v <= max_fds)%nat ->
  exists src s', (fd ← fd_num (Some p); sendmsg_helper net fd dst payload ;; register_write (Some p)) s = (Ok tt, s') /\
    match l with Some nm => src = nm | None => unused v src /\ lenZ src <= sizeof_storage end /\
    st vars (<[to := Udp (Some nm) None (q' ++ [(src, views_text payload)])]> (<[fd := Udp (Some src) o q]> v)) s'.
Proof using HL.
  intros Hs Hin Hfd Hto Hne Hdst Hwf Hmax Hsize. destruct (st_live _ _ _ _ _ _ Hs Hin) as (c & Hl & Hc).
  pose proof Hs as [_ <-]. run. rewrite (fd_num_ok (Some p) c s Hl), (proj1 Hc).
  pose proof (sendmsg_helper_result net fd dst payload s (lb_sends _ _ _ _ _ HL) Hwf) as E.
  assert (H : let '(r, w') := n_sendmsg net fd dst (as_iovecs payload) (world s) in
    ret r = lenZ (gather (as_iovecs payload)) /\
    exists src, match l with Some nm => src = nm | None => unused (view (world s)) src /\ lenZ src <= sizeof_storage end /\
      view w' = <[to := Udp (Some nm) None (q' ++ [(src, gather (as_iovecs payload))])]>
                  (<[fd := Udp (Some src) o q]> (view (world s)))).
  { apply (lb_sendmsg _ _ _ _ _ HL); rewrite ?gather_as_iovecs; done. }
  rewrite gather_as_iovecs in H. destruct (n_sendmsg _ _ _ _ _) as [r w']. destruct H as (Hr & src & Hsrc & Hv).
  pose proof (lenZ_nonneg (views_text payload)). rewrite Hr in E.
  destruct (Z.eqb_spec (lenZ (views_text payload)) (-1)); [lia|]. rewrite Z.eqb_refl in E. rewrite E.
  assert (Hl1 : live (Some p) c (Sys (fds s) w')) by exact Hl. rewrite (register_write_ok (Some p) c _ Hl1), put_world.
  exists src. eexists. split; [done|]. split; [done|]. by apply (st_put vars (view (world s)) _ s p fd cl).
Qed.

Lemma recv_st vars v s p fd cl l o src d q :
  st vars v s -> (p, (fd, cl)) ∈ vars -> v !! fd = Some (Udp l o ((src, d) :: q)) ->
  lenZ d <= max_datagram -> lenZ src <= sizeof_storage ->
  exists a s', recv net (Some p) default_mtu s = (Ok (Datagram a d), s') /\ name_of a = src /\
    st vars (<[fd := Udp l o q]> v) s'.
Proof using HL.
  intros Hs Hin Hfd Hd Hsrc. destruct (st_live _ _ _ _ _ _ Hs Hin) as (c & Hl & Hc).
  pose proof Hs as [_ <-]. pose proof (lb_receives _ _ _ _ _ HL fd default_mtu (world s) ltac:(done)) as Hrec.
  pose proof (recv_result net (Some p) c default_mtu s (lb_receives _ _ _ _ _ HL) Hl ltac:(done)) as E.
  unfold max_datagram, default_mtu in *.
  pose proof (lb_recvfrom _ _ _ _ _ HL fd l o src d q 65536 (world s) Hfd ltac:(lia) Hd Hsrc) as H.
  rewrite (proj1 Hc) in E. destruct (n_recvfrom _ _ _ _) as [[[[r d'] src'] len] w'].
  destruct H as (Hr & -> & -> & Hv). destruct Hrec as (_ & _ & _ & Hlen & _). pose proof (lenZ_nonneg d).
  rewrite Hr in E. destruct (Z.eqb_spec (lenZ d) (-1)); [lia|]. destruct (Z.ltb_spec 65536 (lenZ d)); [lia|].
  eexists _, _. split; [exact E|]. split; [|by apply (st_put vars (view (world s)) _ s p fd cl)].
  unfold name_of. cbn [_size _address]. unfold overwrite. rewrite <- Hlen. unfold lenZ. rewrite Nat2Z.id.
  apply take_app_length.
Qed.

(** Streams. *)

Lemma write_loop_st fuel vars v s p fd cl d o b b' buffer total :
  st vars v s -> (p, (fd, cl)) ∈ vars -> v !! fd = Some (Conn d (Some o) b) -> v !! o = Some (Conn d (Some fd) b') ->
  fd <> o -> wf_views buffer -> 0 < lenZ (views_text buffer) < Z.of_nat fuel ->
  0 <= total -> total + lenZ (views_text buffer) < 2 ^ 64 ->
  exists s', write_loop k fuel (Some p) true buffer total s = (Ok (total + lenZ (views_text buffer)), s') /\
    st vars (<[o := Conn d (Some fd) (b' ++ views_text buffer)]> v) s'.
Proof using HL.
  revert v s b' buffer total. induction fuel as [|fuel IH]; intros v s b' buffer total Hs Hin Hfd Ho Hne Hwf Hlen Ht Hmax; [lia|].
  destruct (st_live _ _ _ _ _ _ Hs Hin) as (c & Hl & Hc). pose proof Hs as [_ Hview].
  pose proof (write_round k fuel (Some p) c true buffer total s Hl Hwf) as Hround.
  assert (H : let '(r, w') := k_writev k fd (as_iovecs buffer) (world s) in
    1 <= ret r <= Z.min (lenZ (views_text buffer)) 0x7ffff000 /\
    view w' = <[o := Conn d (Some fd) (b' ++ take (Z.to_nat (ret r)) (views_text buffer))]> v).
  { clear Hround. pose proof (lb_writev _ _ _ _ _ HL fd d o b b' (as_iovecs buffer) (world s)) as H.
    rewrite gather_as_iovecs, Hview in H. specialize (H Hfd Ho Hne).
    destruct (k_writev _ _ _ _) as [r w']. destruct H as (? & Hpos & ?). specialize (Hpos (proj1 Hlen)). split; [lia|done]. }
  rewrite (proj1 Hc) in Hround. destruct (k_writev _ _ _ _) as [r w']. destruct H as [Hr Hv].
  assert (Hint : to_int (ret r) = ret r) by (apply to_int_small; lia). rewrite Hint in Hround.
  destruct Hround as [(e & s' & _ & _ & Hno)|(buf' & _ & _ & Hwf' & Htext & E)]; [exfalso; apply Hno; lia|].
  assert (Hs1 : st vars (<[o := Conn d (Some fd) (b' ++ take (Z.to_nat (ret r)) (views_text buffer))]> v)
    (put (Some p) (map_obj count_write c) w' s)) by (by apply (st_put vars v _ s p fd cl)).
  assert (Hlen' : lenZ (views_text buf') = lenZ (views_text buffer) - ret r) by (rewrite Htext, lenZ_drop; lia).
  rewrite E. cbv zeta. rewrite (u64_small (total + _)) by lia.
  destruct (Z.eqb_spec (lenZ (views_text buf')) 0) as [Hz|Hz]; simpl.
  - exists (put (Some p) (map_obj count_write c) w' s). split; [do 2 f_equal; lia|].
    rewrite take_ge in Hs1; [done|]. unfold lenZ in *. lia.
  - edestruct (IH _ _ (b' ++ take (Z.to_nat (ret r)) (views_text buffer)) buf' (total + ret r) Hs1 Hin)
      as (s' & E' & Hs'); [by rewrite lookup_insert_ne|by rewrite lookup_insert_eq|done|done|lia|lia|lia|].
    exists s'. simpl in E'. rewrite E'. split; [do 2 f_equal; lia|].
    rewrite insert_insert_eq, <- (assoc_L (++)), Htext, take_drop in Hs'. done.
Qed.

Lemma write_st vars v s p fd cl d o b b' buffer :
  st vars v s -> (p, (fd, cl)) ∈ vars -> v !! fd = Some (Conn d (Some o) b) -> v !! o = Some (Conn d (Some fd) b') ->
  fd <> o -> wf_views buffer -> 0 < lenZ (views_text buffer) ->
  exists s', write k (Some p) buffer true s = (Ok (lenZ (views_text buffer)), s') /\
    st vars (<[o := Conn d (Some fd) (b' ++ views_text buffer)]> v) s'.
Proof using HL.
  intros Hs Hin Hfd Ho Hne Hwf Hpos. pose proof (proj2 Hwf) as Hmax. unfold string_max_size in Hmax.
  unfold write. rewrite views_size_ok by done.
  apply (write_loop_st _ vars v s p fd cl d o b b' buffer 0); try done; lia.
Qed.

Lemma read_st vars v s p fd cl d o b :
  st vars v s -> (p, (fd, cl)) ∈ vars -> v !! fd = Some (Conn d o b) -> b <> [] -> lenZ b <= BUFFER_SIZE ->
  exists s', read k (Some p) no_limit s = (Ok b, s') /\ st vars (<[fd := Conn d o []]> v) s'.
Proof using HL.
  intros Hs Hin Hfd Hb Hlen. destruct (st_live _ _ _ _ _ _ Hs Hin) as (c & Hl & Hc). pose proof Hs as [_ <-].
  pose proof (read_result k (Some p) c s no_limit (lb_read_fills _ _ _ _ _ HL _) Hl ltac:(done)) as E.
  change (Z.min BUFFER_SIZE no_limit) with BUFFER_SIZE in E. rewrite (proj1 Hc) in E.
  pose proof (lb_read _ _ _ _ _ HL fd d o b BUFFER_SIZE (world s) Hfd Hb ltac:(done)) as H.
  destruct (k_read _ _ _ _) as [[r got] w']. destruct H as (Hr & -> & Hv). pose proof (lenZ_nonneg b).
  rewrite E by lia. unfold lenZ in *. rewrite take_ge by lia. rewrite drop_ge in Hv by lia.
  eexists. split; [done|]. by apply (st_put vars (view (world s)) _ s p fd cl).
Qed.

Lemma verified_ok r v len expected :
  ret r = 0 -> len = 4 -> v = expected -> verified r v len expected = true.
Proof using Type. intros E -> ->. unfold verified. rewrite E, !Z.eqb_refl. done. Qed.

Lemma accept_st vars v s p fd cl nm c b :
  st vars v s -> (p, (fd, cl)) ∈ vars -> (base.size v < max_fds)%nat ->
  v !! fd = Some (Listener nm [c]) -> v !! c = Some (Conn AF_INET None b) ->
  exists p' fd' s', accept k net (Some p) s = (Ok (Some p'), s') /\ v !! fd' = None /\
    st ((p', (fd', false)) :: vars)
      (<[fd' := Conn AF_INET (Some c) []]> (<[c := Conn AF_INET (Some fd') b]> (<[fd := Listener nm []]> v))) s'.
Proof using HL.
  intros Hs Hin Hsize Hfd Hc. destruct (st_live _ _ _ _ _ _ Hs Hin) as (o & Hl & Ho). pose proof Hs as [_ <-].
  pose proof (accept_result k net (Some p) o s Hl) as E. cbv zeta in E. rewrite (proj1 Ho) in E.
  pose proof (lb_accept _ _ _ _ _ HL fd nm c b (world s) Hsize Hfd Hc) as H.
  destruct (n_accept net fd (world s)) as [r w']. destruct H as [[Hr Hnew] Hv]. specialize (E Hr).
  destruct (lb_sockopt _ _ _ _ _ HL (ret r) AF_INET (Some c) [] w') as [H1 _]; [by rewrite Hv, lookup_insert_eq|].
  destruct (n_getsockopt _ _ _ SO_DOMAIN _) as [[[r1 v1] l1] w1]. destruct H1 as (Hr1 & Hv1 & Hl1 & Hw1).
  destruct (lb_sockopt _ _ _ _ _ HL (ret r) AF_INET (Some c) [] w1) as [_ H2]; [by rewrite Hw1, Hv, lookup_insert_eq|].
  destruct (n_getsockopt _ _ _ SO_TYPE _) as [[[r2 v2] l2] w2]. destruct H2 as (Hr2 & Hv2 & Hl2 & Hw2).
  rewrite !verified_ok in E by done. destruct E as (p' & Hp' & E).
  exists p', (ret r). eexists. split; [exact E|]. split; [done|]. split; [|cbn; by rewrite Hw2, Hw1].
  cbn [fds]. apply owns_new; [done|].
  pose proof (st_put vars (view (world s)) (view (world s)) s p fd cl o (world s) (count_read false) Hs Hin Hl Ho) as Hput.
  by apply Hput.
Qed.

Lemma close_st vars1 vars2 v s p fd x :
  st (vars1 ++ (p, (fd, false)) :: vars2) v s -> v !! fd = Some x ->
  exists s', close k (Some p) s = (Ok tt, s') /\ st (vars1 ++ (p, (fd, true)) :: vars2) (delete fd v) s'.
Proof using HL.
  intros Hs Hfd. assert (Hin : (p, (fd, false)) ∈ vars1 ++ (p, (fd, false)) :: vars2).
  { apply elem_of_app. right. constructor. }
  destruct (st_live _ _ _ _ _ _ Hs Hin) as (c & Hl & Hf & Hcl & Hu). destruct Hs as [Ho <-].
  pose proof (close_ok k (Some p) c s Hl) as E. rewrite Hf in E.
  pose proof (lb_close _ _ _ _ _ HL fd x (world s) Hfd) as H.
  destruct (k_close k fd (world s)) as [r w']. destruct H as [Hr Hv]. rewrite SystemCall_ok in E by (unfold int_max; lia).
  eexists. split; [exact E|]. split; [|done]. apply owns_close; [|done]. by split_and!.
Qed.

Lemma shutdown_st vars v s p fd cl d o b :
  st vars v s -> (p, (fd, cl)) ∈ vars -> v !! fd = Some (Conn d o b) ->
  exists x s', shutdown net (Some p) SHUT_RDWR s = (Ok tt, s') /\ local_name x = None /\ st vars (<[fd := x]> v) s'.
Proof using HL.
  intros Hs Hin Hfd. destruct (st_live _ _ _ _ _ _ Hs Hin) as (c & Hl & Hc). pose proof Hs as [_ <-].
  pose proof (lb_shutdown _ _ _ _ _ HL fd d o b (world s) Hfd) as H.
  unfold shutdown, checked, call. run. rewrite (fd_num_ok (Some p) c s Hl), (proj1 Hc).
  destruct (n_shutdown _ _ _ _) as [r w']. destruct H as (Hr & x & Hx & Hv). rewrite SystemCall_ok by (unfold int_max; lia).
  change (SHUT_RDWR =? SHUT_RD) with false. change (SHUT_RDWR =? SHUT_WR) with false.
  change (SHUT_RDWR =? SHUT_RDWR) with true. cbv iota beta.
  assert (Hl1 : live (Some p) c (Sys (fds s) w')) by exact Hl.
  rewrite (register_read_ok (Some p) c _ Hl1).
  rewrite (register_write_ok (Some p) (map_obj (count_read false) c)) by (by eapply put_live).
  rewrite put_put, put_world. exists x. eexists. split; [done|]. split; [done|].
  by apply (st_put vars (view (world s)) _ s p fd cl c _ (fun o => count_write (count_read false o))).
Qed.

(** [LocalStreamSocket(FileDescriptor(fd))] *)
Lemma local_stream_st vars v s p fd cl o b :
  st vars v s -> (p, (fd, cl)) ∈ vars -> v !! fd = Some (Conn AF_UNIX o b) ->
  exists s', local_stream_from_fd k net (Some p) s = (Ok (Some p), s') /\ st vars v s'.
Proof using HL.
  intros Hs Hin Hfd. destruct (st_live _ _ _ _ _ _ Hs Hin) as (c & Hl & Hc). pose proof Hs as [_ Hview].
  pose proof (socket_from_fd_result k net (Some p) c AF_UNIX SOCK_STREAM s Hl) as E. rewrite (proj1 Hc) in E.
  rewrite <- Hview in Hfd. destruct (lb_sockopt _ _ _ _ _ HL fd AF_UNIX o b (world s) Hfd) as [H1 _].
  destruct (n_getsockopt _ _ _ SO_DOMAIN _) as [[[r1 v1] l1] w1]. destruct H1 as (Hr1 & Hv1 & Hl1 & Hw1).
  destruct (lb_sockopt _ _ _ _ _ HL fd AF_UNIX o b w1) as [_ H2]; [by rewrite Hw1|].
  destruct (n_getsockopt _ _ _ SO_TYPE _) as [[[r2 v2] l2] w2]. destruct H2 as (Hr2 & Hv2 & Hl2 & Hw2).
  rewrite !verified_ok in E by done. eexists. split; [exact E|]. eapply st_world; [done|congruence].
Qed.

(** The end of a variable's scope. *)
Definition closed_view (fd : Z) (cl : bool) (v : gmap Z sock) : gmap Z sock := if cl then v else delete fd v.

Lemma release_st vars v s p fd cl :
  st ((p, (fd, cl)) :: vars) v s -> (cl = false -> is_Some (v !! fd)) ->
  exists s', release k (Some p) s = (Ok tt, s') /\ st vars (closed_view fd cl v) s'.
Proof using HL.
  intros Hs Hfd. destruct (st_live _ _ _ p fd cl Hs) as (c & Hl & Hf & Hcl & Hu); [constructor|].
  destruct (release_ok k p c s Hl) as (s' & E & Hfds & Hw). exists s'. split; [done|].
  destruct Hs as [Ho <-]. rewrite decide_True in Hfds by lia. rewrite decide_True in Hw by lia. rewrite Hcl, Hf in Hw.
  split; [rewrite Hfds; eapply owns_release, Ho|]. rewrite Hw. unfold closed_view. destruct cl; [done|].
  destruct (Hfd eq_refl) as [x Hx]. pose proof (lb_close _ _ _ _ _ HL fd x (world s) Hx) as H.
  unfold destroyed. destruct (k_close _ _ _) as [r w]. destruct H as [Hr Hv].
  by rewrite SystemCall_ok by (unfold int_max; lia).
Qed.

Lemma scoped_st {A} vars v s p fd cl (m : M (sys W) A) a s1 :
  m s = (Ok a, s1) -> st ((p, (fd, cl)) :: vars) v s1 -> (cl = false -> is_Some (v !! fd)) ->
  exists s', scoped k (Some p) m s = (Ok a, s') /\ st vars (closed_view fd cl v) s'.
Proof using HL.
  intros Em Hs Hfd. destruct (release_st vars v s1 p fd cl Hs Hfd) as (s' & E & Hs'). exists s'. split; [|done].
  unfold scoped, unwinding. run. by rewrite Em, E.
Qed.
End ops.
