(* ===== verification/Machine.v ===== *)
(** A machine that satisfies the laws of Loopback.v: the state is the table of
    its sockets, descriptors are the smallest free number, datagrams are
    delivered to the socket that has the name, and a stream socket takes at most
    five bytes in one [writev].  It shows that the laws can hold together. *)

From stdpp Require Import gmap.
From S2P Require Import Prelude Discard Buffer BufferList BufferViewList NetInt Address Kernel FileDescriptor Socket Loopback.

(** ** Something that is not taken *)

Definition first_free {A} `{EqDecision A} (candidates taken : list A) : option A :=
  snd <$> list_find (fun x => x ∉ taken) candidates.

Lemma first_free_found {A} `{EqDecision A} (candidates taken : list A) :
  NoDup candidates -> (length taken < length candidates)%nat ->
  exists x, first_free candidates taken = Some x /\ x ∈ candidates /\ x ∉ taken.
Proof.
  intros Hnd Hlen. unfold first_free. destruct (list_find _ _) as [[i x]|] eqn:E.
  - apply list_find_Some in E as (Hx & Hf & _). exists x. split_and!; [done| |done].
    by eapply list_elem_of_lookup_2.
  - apply list_find_None in E. exfalso. apply (Nat.lt_irrefl (length taken)).
    eapply Nat.lt_le_trans; [exact Hlen|]. apply submseteq_length, NoDup_submseteq; [done|]. intros x Hx.
    rewrite Forall_forall in E. specialize (E x Hx). by apply dec_stable.
Qed.

Abbreviation table := (gmap Z sock).

(** No two sockets have the same name. *)
Definition named_once (v : table) : Prop :=
  map_Forall (fun fd s => map_Forall (fun fd' s' => local_name s = None \/ local_name s <> local_name s' \/ fd = fd') v) v.

#[global] Instance sock_eq_dec : EqDecision sock.
Proof. solve_decision. Defined.

#[global] Instance named_once_dec v : Decision (named_once v).
Proof. unfold named_once. apply _. Defined.

Lemma named_once_spec v :
  named_once v <-> forall fd s fd' s' nm, v !! fd = Some s -> v !! fd' = Some s' ->
    local_name s = Some nm -> local_name s' = Some nm -> fd = fd'.
Proof.
  split.
  - intros H fd s fd' s' nm E E' Hs Hs'. destruct (H fd s E fd' s' E') as [Hn|[Hn|Hn]]; congruence.
  - intros H fd s E fd' s' E'. destruct (local_name s) as [nm|] eqn:Hs; [|by left]. right.
    destruct (decide (Some nm = local_name s')) as [Heq|]; [|by left]. right. by eapply H.
Qed.

Definition name_used (nm : name) (v : table) : bool := bool_decide (~ map_Forall (fun _ s => local_name s <> Some nm) v).

Lemma name_used_spec nm v : name_used nm v = false <-> unused v nm.
Proof.
  unfold name_used. rewrite bool_decide_eq_false. split.
  - intros H fd s E. by apply (dec_stable H fd s).
  - intros H Hn. apply Hn. intros fd s E. by apply (H fd).
Qed.

Lemma named_once_set v fd x :
  named_once v ->
  match local_name x with
  | None => True
  | Some nm => unused v nm \/ exists y, v !! fd = Some y /\ local_name y = Some nm
  end -> named_once (<[fd := x]> v).
Proof.
  rewrite !named_once_spec. intros Hv Hx.
  assert (Hone : forall fd' s' nm, fd' <> fd -> v !! fd' = Some s' -> local_name s' = Some nm -> local_name x <> Some nm).
  { intros fd' s' nm Hne E Hs Hn. rewrite Hn in Hx. destruct Hx as [Hu|(y & Ey & Hy)]; [by apply (Hu fd' s')|].
    apply Hne. by apply (Hv fd' s' fd y nm). }
  intros fd1 s1 fd2 s2 nm. rewrite !lookup_insert. repeat case_decide; subst; intros E1 E2 H1 H2; simplify_eq; [done| | |by eapply Hv].
  - destruct (Hone fd2 s2 nm) as []; [congruence|done..].
  - destruct (Hone fd1 s1 nm) as []; [congruence|done..].
Qed.

Lemma named_once_delete v fd : named_once v -> named_once (delete fd v).
Proof.
  rewrite !named_once_spec. intros Hv fd1 s1 fd2 s2 nm [_ E1]%lookup_delete_Some [_ E2]%lookup_delete_Some. by eapply Hv.
Qed.

(** ** The calls *)

(** What a program sees of the table. *)
Definition view (w : table) : table := if decide (named_once w) then w else ∅.

Lemma view_named_once w : named_once (view w).
Proof. unfold view. case_decide; [done|]. intros fd s E. by rewrite lookup_empty in E. Qed.

Lemma view_id v : named_once v -> view v = v.
Proof. intros. unfold view. by rewrite decide_True. Qed.

Definition ok_ret (r : Z) : sysret := SysRet r 0.
Definition failed (e : Z) : sysret := SysRet (-1) e.

Definition descriptors : list Z := seqZ 0 1024.
Definition free_fd (v : table) : option Z := first_free descriptors (map_to_list v).*1.

(** The names the machine gives to sockets that send before they are bound. *)
Definition ephemeral : list name := (fun p => sockaddr_in p 0x7f000001) <$> seqZ 32768 1025.
Definition free_name (v : table) : option name := first_free ephemeral (omap local_name (map_to_list v).*2).

Definition find_named (nm : name) (v : table) : option (Z * sock) :=
  snd <$> list_find (fun x => local_name (snd x) = Some nm) (map_to_list v).

Definition m_socket (domain type : Z) (w : table) : sysret * table :=
  match free_fd (view w) with
  | Some fd => (ok_ret fd, <[fd := if type =? SOCK_DGRAM then Udp None None [] else Tcp None]> (view w))
  | None => (failed 24, w)
  end.

Definition m_socketpair (domain type protocol : Z) (w : table) : sysret * (Z * Z) * table :=
  match free_fd (view w) with
  | Some fd1 =>
    match free_fd (<[fd1 := Tcp None]> (view w)) with
    | Some fd2 => (ok_ret 0, (fd1, fd2), <[fd1 := Conn domain (Some fd2) []]> (<[fd2 := Conn domain (Some fd1) []]> (view w)))
    | None => (failed 24, (0, 0), w)
    end
  | None => (failed 24, (0, 0), w)
  end.

Definition m_bind (fd : Z) (a : list byte) (n : Z) (w : table) : sysret * table :=
  let nm := take (Z.to_nat n) a in
  match view w !! fd ≫= with_name nm with
  | Some s => if name_used nm (view w) then (failed 98, w) else (ok_ret 0, <[fd := s]> (view w))
  | None => (failed 22, w)
  end.

Definition m_listen (fd backlog : Z) (w : table) : sysret * table :=
  match view w !! fd with
  | Some (Tcp (Some nm)) => (ok_ret 0, <[fd := Listener nm []]> (view w))
  | _ => (failed 22, w)
  end.

Definition m_connect (fd : Z) (a : list byte) (n : Z) (w : table) : sysret * table :=
  let nm := take (Z.to_nat n) a in
  match view w !! fd with
  | Some (Udp l _ q) => (ok_ret 0, <[fd := Udp l (Some nm) q]> (view w))
  | Some (Tcp None) =>
    match find_named nm (view w) with
    | Some (fd', Listener _ []) => (ok_ret 0, <[fd' := Listener nm [fd]]> (<[fd := Conn AF_INET None []]> (view w)))
    | _ => (failed 111, w)
    end
  | _ => (failed 22, w)
  end.

Definition m_accept (fd : Z) (w : table) : sysret * table :=
  match view w !! fd, free_fd (view w) with
  | Some (Listener nm [c]), Some fd' =>
    match view w !! c with
    | Some (Conn AF_INET None b) =>
      (ok_ret fd', <[fd' := Conn AF_INET (Some c) []]> (<[c := Conn AF_INET (Some fd') b]> (<[fd := Listener nm []]> (view w))))
    | _ => (failed 103, w)
    end
  | _, _ => (failed 24, w)
  end.

Definition m_getsockopt (fd level option : Z) (w : table) : sysret * Z * Z * table :=
  match view w !! fd with
  | Some (Conn d _ _) => (ok_ret 0, if option =? SO_DOMAIN then d else SOCK_STREAM, 4, w)
  | _ => (failed 9, 0, 0, w)
  end.

Definition m_sendmsg (fd : Z) (dst : option (list byte * Z)) (iov : list iovec) (w : table) : sysret * table :=
  match view w !! fd with
  | Some (Udp l p q) =>
    match match dst with Some (a, n) => Some (take (Z.to_nat n) a) | None => p end, match l with Some nm => Some nm | None => free_name (view w) end with
    | Some to, Some src =>
      if max_datagram <? lenZ (gather iov) then (failed 90, w) else
      match find_named to (view w) with
      | Some (fd', Udp _ None q') =>
        (ok_ret (lenZ (gather iov)), <[fd' := Udp (Some to) None (q' ++ [(src, gather iov)])]> (<[fd := Udp (Some src) p q]> (view w)))
      | _ => (failed 111, w)
      end
    | _, _ => (failed 89, w)
    end
  | _ => (failed 9, w)
  end.

Definition m_recvfrom (fd n : Z) (w : table) : sysret * list byte * list byte * Z * table :=
  match view w !! fd with
  | Some (Udp l p ((src, d) :: q)) =>
    if (lenZ d <=? max_datagram) && (lenZ src <=? sizeof_storage)
    then (ok_ret (lenZ d), take (Z.to_nat n) d, src, lenZ src, <[fd := Udp l p q]> (view w))
    else (failed 14, [], [], 0, w)
  | _ => (failed 11, [], [], 0, w)
  end.

Definition m_shutdown (fd how : Z) (w : table) : sysret * table :=
  match view w !! fd with
  | Some (Conn d _ b) => (ok_ret 0, <[fd := Conn d None b]> (view w))
  | _ => (failed 107, w)
  end.

Definition m_close (fd : Z) (w : table) : sysret * table :=
  match view w !! fd with Some _ => (ok_ret 0, delete fd (view w)) | None => (failed 9, w) end.

Definition m_read (fd n : Z) (w : table) : sysret * list byte * table :=
  match view w !! fd with
  | Some (Conn d p b) =>
    let got := take (Z.to_nat n) b in (ok_ret (lenZ got), got, <[fd := Conn d p (drop (Z.to_nat n) b)]> (view w))
  | _ => (failed 9, [], w)
  end.

Definition m_writev (fd : Z) (iov : list iovec) (w : table) : sysret * table :=
  match view w !! fd with
  | Some (Conn _ (Some p) _) =>
    match view w !! p with
    | Some (Conn d' p' b) =>
      let m := Z.min 5 (lenZ (gather iov)) in
      (ok_ret m, <[p := Conn d' p' (b ++ take (Z.to_nat m) (gather iov))]> (view w))
    | _ => (failed 32, w)
    end
  | _ => (failed 32, w)
  end.

(** The descriptors of this machine are blocking and always ready. *)
Definition loopback_kernel : kernel table :=
  Kernel _ m_close m_read m_writev (fun _ w => (ok_ret 0, w)) (fun _ _ w => (ok_ret 0, w))
    (fun pfds _ w => (ok_ret (lenZ pfds), (fun _ => 0) <$> pfds, w))
    (fun _ w => w) (fun _ => EmptyString) (fun _ => EmptyString).

Definition loopback_net : net table :=
  Net _ m_socket m_getsockopt (fun _ _ _ _ w => (ok_ret 0, w)) m_bind m_connect m_shutdown
    (fun _ w => (failed 9, [], 0, w)) (fun _ w => (failed 9, [], 0, w)) m_recvfrom m_sendmsg m_listen m_accept.

Definition loopback_draw : M table Z := mret 123456.

(** ** The laws hold *)

Lemma elements_length (v : table) : length (map_to_list v) = base.size v.
Proof. apply length_map_to_list. Qed.

Lemma free_fd_found v : (base.size v < max_fds)%nat ->
  exists fd, free_fd v = Some fd /\ 0 <= fd <= int_max /\ v !! fd = None.
Proof.
  intros Hsize. destruct (first_free_found descriptors (map_to_list v).*1) as (fd & E & Hin & Hout).
  - apply NoDup_seqZ.
  - rewrite length_fmap, elements_length. unfold descriptors. rewrite length_seqZ. exact Hsize.
  - exists fd. split; [done|]. apply elem_of_seqZ in Hin. split; [unfold int_max; lia|].
    apply eq_None_not_Some. intros [s Hs]. apply Hout, list_elem_of_fmap. exists (fd, s). split; [done|].
    by apply elem_of_map_to_list.
Qed.

Lemma local_port_inj p q : 0 <= p < 2 ^ 16 -> 0 <= q < 2 ^ 16 ->
  sockaddr_in p 0x7f000001 = sockaddr_in q 0x7f000001 -> p = q.
Proof. intros Hp Hq E. apply (sockaddr_in_inj p 0x7f000001 q 0x7f000001); done. Qed.

Lemma omap_length {A B} (f : A -> option B) l : (length (omap f l) <= length l)%nat.
Proof. induction l as [|x l IH]; [done|]. cbn [omap list_omap length]. destruct (f x); cbn [length]; lia. Qed.

Lemma free_name_found v : (base.size v <= max_fds)%nat ->
  exists nm, free_name v = Some nm /\ unused v nm /\ lenZ nm <= sizeof_storage.
Proof.
  intros Hsize. destruct (first_free_found ephemeral (omap local_name (map_to_list v).*2)) as (nm & E & Hin & Hout).
  - apply NoDup_fmap_2_strong; [|apply NoDup_seqZ]. intros p q [Hp Hp']%elem_of_seqZ [Hq Hq']%elem_of_seqZ.
    apply local_port_inj; lia.
  - eapply Nat.le_lt_trans; [apply omap_length|]. unfold ephemeral. rewrite !length_fmap, elements_length, length_seqZ.
    unfold max_fds in Hsize. lia.
  - exists nm. split; [done|]. split.
    + intros fd s Hs Hn. apply Hout, list_elem_of_omap. exists s. split; [|done].
      apply list_elem_of_fmap. exists (fd, s). split; [done|]. by apply elem_of_map_to_list.
    + apply list_elem_of_fmap in Hin as (p & -> & _). unfold lenZ. by rewrite length_sockaddr_in.
Qed.

Lemma find_named_found v fd s nm :
  named_once v -> v !! fd = Some s -> local_name s = Some nm -> find_named nm v = Some (fd, s).
Proof.
  intros Hv Hs Hn. unfold find_named. destruct (list_find _ _) as [[i [fd' s']]|] eqn:E; simpl.
  - apply list_find_Some in E as (Hi & Hn' & _). apply list_elem_of_lookup_2, elem_of_map_to_list in Hi.
    simpl in Hn'. assert (fd' = fd) as -> by (eapply named_once_spec; eauto). congruence.
  - apply list_find_None in E. rewrite Forall_forall in E. exfalso. apply (E (fd, s)); [|done].
    by apply elem_of_map_to_list.
Qed.

Lemma set_nameless v fd x : named_once v -> local_name x = None -> named_once (<[fd := x]> v).
Proof. intros Hv Hx. apply named_once_set; [done|]. by rewrite Hx. Qed.

Lemma set_same_name v fd x y : named_once v -> v !! fd = Some y -> local_name x = local_name y -> named_once (<[fd := x]> v).
Proof. intros Hv Hy Hx. apply named_once_set; [done|]. destruct (local_name x); [right; by exists y|done]. Qed.

Lemma set_bound v fd x nm : named_once v -> unused v nm -> local_name x = Some nm -> named_once (<[fd := x]> v).
Proof. intros Hv Hu Hx. apply named_once_set; [done|]. rewrite Hx. by left. Qed.

#[local] Hint Resolve view_named_once set_nameless : core.

Lemma with_name_named nm s s' : with_name nm s = Some s' -> local_name s' = Some nm.
Proof. destruct s as [[?|] ? ?|[?|]| |]; simpl; intros ?; by simplify_eq. Qed.

Lemma m_socket_law domain type w : (base.size (view w) < max_fds)%nat ->
  let '(r, w') := m_socket domain type w in
  returns_fd view w r /\
  view w' = <[ret r := if type =? SOCK_DGRAM then Udp None None [] else Tcp None]> (view w).
Proof.
  intros Hs. unfold m_socket. destruct (free_fd_found _ Hs) as (fd & -> & Hfd & Hnew). split; [done|].
  apply view_id, set_nameless; [done|]. by destruct (type =? SOCK_DGRAM).
Qed.

Lemma m_sendmsg_law fd l p q nm to q' dst iov w :
  view w !! fd = Some (Udp l p q) -> view w !! to = Some (Udp (Some nm) None q') -> fd <> to ->
  match dst with Some (a, n) => take (Z.to_nat n) a = nm | None => p = Some nm end ->
  lenZ (gather iov) <= max_datagram -> (base.size (view w) <= max_fds)%nat ->
  let '(r, w') := m_sendmsg fd dst iov w in
  ret r = lenZ (gather iov) /\
  exists src, match l with Some nm => src = nm | None => unused (view w) src /\ lenZ src <= sizeof_storage end /\
    view w' = <[to := Udp (Some nm) None (q' ++ [(src, gather iov)])]> (<[fd := Udp (Some src) p q]> (view w)).
Proof.
  intros Hfd Hto Hne Hdst Hmax Hsize. unfold m_sendmsg. rewrite Hfd.
  assert ((match dst with Some (a, n) => Some (take (Z.to_nat n) a) | None => p end) = Some nm) as ->
    by (destruct dst as [[a n]|]; congruence).
  assert (exists src, match l with Some nm => Some nm | None => free_name (view w) end = Some src /\
    match l with Some nm => src = nm | None => unused (view w) src /\ lenZ src <= sizeof_storage end) as (src & -> & Hsrc).
  { destruct l as [nm'|]; [by exists nm'|]. destruct (free_name_found _ Hsize) as (src & E & H). by exists src. }
  destruct (Z.ltb_spec max_datagram (lenZ (gather iov))); [lia|].
  rewrite (find_named_found _ to _ nm (view_named_once w) Hto) by done. split; [done|]. exists src. split; [done|].
  apply view_id, (set_same_name _ _ _ (Udp (Some nm) None q')); [| |done].
  - destruct l as [nm'|]; [subst; eapply set_same_name; [done|exact Hfd|done]|]. by eapply set_bound; [done|apply Hsrc|].
  - rewrite lookup_insert_ne by done. exact Hto.
Qed.

Lemma m_writev_law fd d p b b' iov w :
  view w !! fd = Some (Conn d (Some p) b) -> view w !! p = Some (Conn d (Some fd) b') -> fd <> p ->
  let '(r, w') := m_writev fd iov w in
  0 <= ret r <= Z.min (lenZ (gather iov)) 0x7ffff000 /\ (0 < lenZ (gather iov) -> 1 <= ret r) /\
  view w' = <[p := Conn d (Some fd) (b' ++ take (Z.to_nat (ret r)) (gather iov))]> (view w).
Proof.
  intros Hfd Hp Hne. unfold m_writev. rewrite Hfd, Hp. simpl. pose proof (lenZ_nonneg (gather iov)).
  split; [lia|]. split; [lia|].
  by apply view_id, set_nameless.
Qed.

Lemma m_socketpair_law w : (S (base.size (view w)) < max_fds)%nat ->
  let '(r, (fd1, fd2), w') := m_socketpair AF_UNIX SOCK_STREAM 0 w in
  ret r = 0 /\ 0 <= fd1 <= int_max /\ 0 <= fd2 <= int_max /\ fd1 <> fd2 /\
  view w !! fd1 = None /\ view w !! fd2 = None /\
  view w' = <[fd1 := Conn AF_UNIX (Some fd2) []]> (<[fd2 := Conn AF_UNIX (Some fd1) []]> (view w)).
Proof.
  intros Hsize. unfold m_socketpair.
  destruct (free_fd_found (view w)) as (fd1 & -> & Hfd1 & Hnew1); [lia|].
  destruct (free_fd_found (<[fd1 := Tcp None]> (view w))) as (fd2 & -> & Hfd2 & Hnew2).
  { rewrite map_size_insert_None by done. exact Hsize. }
  apply lookup_insert_None in Hnew2 as [Hnew2 Hne]. do 6 (split; [done|]). by apply view_id; auto.
Qed.

Lemma m_bind_law fd a n s s' w :
  view w !! fd = Some s -> with_name (take (Z.to_nat n) a) s = Some s' -> unused (view w) (take (Z.to_nat n) a) ->
  let '(r, w') := m_bind fd a n w in ret r = 0 /\ view w' = <[fd := s']> (view w).
Proof.
  intros Hfd Hs' Hu. unfold m_bind. rewrite Hfd. simpl. rewrite Hs', (proj2 (name_used_spec _ _) Hu). split; [done|].
  by eapply view_id, set_bound, with_name_named.
Qed.

Lemma m_connect_tcp_law fd fd' a n w :
  view w !! fd = Some (Tcp None) -> view w !! fd' = Some (Listener (take (Z.to_nat n) a) []) ->
  let '(r, w') := m_connect fd a n w in
  ret r = 0 /\
  view w' = <[fd' := Listener (take (Z.to_nat n) a) [fd]]> (<[fd := Conn AF_INET None []]> (view w)).
Proof.
  intros Hfd Hfd'. unfold m_connect. rewrite Hfd, (find_named_found _ _ _ _ (view_named_once w) Hfd' eq_refl).
  split; [done|]. apply view_id, (set_same_name _ _ _ (Listener (take (Z.to_nat n) a) [])); [auto| |done]. rewrite lookup_insert_ne; [done|congruence].
Qed.

Lemma m_accept_law fd nm c b w : (base.size (view w) < max_fds)%nat ->
  view w !! fd = Some (Listener nm [c]) -> view w !! c = Some (Conn AF_INET None b) ->
  let '(r, w') := m_accept fd w in
  returns_fd view w r /\
  view w' = <[ret r := Conn AF_INET (Some c) []]> (<[c := Conn AF_INET (Some (ret r)) b]>
              (<[fd := Listener nm []]> (view w))).
Proof.
  intros Hsize Hfd Hc. unfold m_accept. destruct (free_fd_found _ Hsize) as (fd' & E & Hfd' & Hnew).
  rewrite Hfd, E, Hc. split; [done|]. apply view_id, set_nameless, eq_refl. apply set_nameless, eq_refl.
  by eapply set_same_name.
Qed.

(** A call that is refused, or whose result is a length. *)
Ltac refused := unfold sizeof_storage, int_max, lenZ; split_and?; simpl; intros; (lia || done).

Lemma m_read_fills fd : read_fills loopback_kernel fd.
Proof.
  intros n w Hn. simpl. unfold m_read. destruct (_ !! _) as [[| | |d p b]|]; simpl; try refused.
  pose proof (lenZ_nonneg (take (Z.to_nat n) b)). rewrite lenZ_take in * by lia. lia.
Qed.

Lemma m_receives : receives loopback_net.
Proof.
  intros fd n w Hn. simpl. unfold m_recvfrom.
  destruct (_ !! _) as [[? ? [|[src d] q]| | |]|]; simpl; try refused.
  pose proof (lenZ_nonneg d). unfold max_datagram, int_max.
  destruct (Z.leb_spec (lenZ d) 65507), (Z.leb_spec (lenZ src) sizeof_storage); simpl; try refused.
  rewrite lenZ_take by lia. split_and!; lia.
Qed.

Lemma m_sends : sends loopback_net.
Proof.
  intros fd dst iov w. simpl. unfold m_sendmsg. pose proof (lenZ_nonneg (gather iov)). unfold max_datagram.
  destruct (Z.ltb_spec 65507 (lenZ (gather iov))); repeat case_match; simplify_eq; simpl; unfold int_max; split; lia || done.
Qed.

Lemma loopback_satisfied : loopback loopback_kernel loopback_net loopback_draw m_socketpair view.
Proof.
  split; simpl.
  - exact m_sends.
  - exact m_receives.
  - intros w. by exists 123456.
  - intros w. by apply (m_socket_law AF_INET SOCK_DGRAM).
  - intros w. by apply (m_socket_law AF_INET SOCK_STREAM).
  - exact m_socketpair_law.
  - exact m_bind_law.
  - intros fd nm backlog w Hfd _. unfold m_listen. rewrite Hfd. split; [done|].
    by eapply view_id, set_same_name.
  - intros fd l p q a n w Hfd. unfold m_connect. rewrite Hfd. split; [done|]. by eapply view_id, set_same_name.
  - exact m_connect_tcp_law.
  - exact m_accept_law.
  - intros fd d p b w Hfd. unfold m_getsockopt. by rewrite Hfd.
  - exact m_sendmsg_law.
  - intros fd l p src d q n w Hfd Hn Hd Hsrc. unfold m_recvfrom. rewrite Hfd.
    rewrite (proj2 (Z.leb_le _ _) Hd), (proj2 (Z.leb_le _ _) Hsrc). simpl. split; [done|].
    split; [unfold lenZ in Hn; apply take_ge; lia|]. split; [done|]. by eapply view_id, set_same_name.
  - exact m_writev_law.
  - intros fd d p b n w Hfd Hb Hn. unfold m_read. rewrite Hfd. simpl. rewrite lenZ_take by lia. split; [done|].
    split; [done|]. by apply view_id, set_nameless.
  - intros fd d p n w Hfd _ Hn. unfold m_read. rewrite Hfd. simpl. rewrite drop_nil, take_nil. split; [done|]. split; [done|].
    rewrite insert_id by done. apply view_id, view_named_once.
  - exact m_read_fills.
  - intros fd s w Hfd. unfold m_close. rewrite Hfd. split; [done|]. by apply view_id, named_once_delete.
  - intros fd d p b w Hfd. unfold m_shutdown. rewrite Hfd. split; [done|]. exists (Conn d None b).
    split; [done|]. by apply view_id, set_nameless.
Qed.
