(* ===== verification/SocketExamples.v ===== *)
(** The documentation examples of the socket classes (doctests/socket_dt.cc,
    socket_example_1.cc, socket_example_2.cc, socket_example_3.cc), and the
    proof that they pass on every machine that satisfies the laws of
    Loopback.v. *)

From stdpp Require Import gmap.
From S2P Require Import Prelude Discard Buffer BufferList BufferViewList NetInt Address Kernel FileDescriptor Socket Webget Loopback Machine.

(** A string literal: an array with its terminator. *)
Definition literal (s : string) : storage := Storage 1 (bytes s ++ [Byte.x00]).

Section examples.
Context {W : Type} (k : kernel W) (net : net W)
        (getaddrinfo : string -> string -> addrinfo -> Z * option (list byte * Z))
        (draw : M W Z) (socketpair : Z -> Z -> Z -> W -> sysret * (Z * Z) * W).

(** [std::random_device()()], a number between 0 and 2^32 - 1. *)
Definition random_device : M (sys W) Z := on_field world (fun w s => Sys (fds s) w) draw.

(** [(std::random_device()()) % 50000) + 1025] as a [uint16_t] *)
Definition random_port : M (sys W) Z := x ← random_device; mret (u16 (x mod 50000 + 1025)).

Definition local (portnum : Z) : M (sys W) address := lift (from_ip getaddrinfo "127.0.0.1" portnum).

(** [if (... != ...) throw std::runtime_error("wrong data received");] *)
Definition check_data (recvd recvd2 : list byte) : M (sys W) unit :=
  if bool_decide (recvd <> bytes "hi there") || bool_decide (recvd2 <> bytes "hi yourself")
  then throw (runtime_error "wrong data received") else mret tt.

Definition socket_example_1 : M (sys W) unit :=
  portnum ← random_port;
  sock1 ← udp_socket net;
  scoped k sock1 (
    a ← local portnum;
    bind net sock1 a ;;
    sock2 ← udp_socket net;
    scoped k sock2 (
      a ← local portnum;
      sendto net sock2 a (of_c_string (literal "hi there")) ;;
      recvd ← recv net sock1 default_mtu;
      connect net sock1 (source_address recvd) ;;
      send net sock1 (of_c_string (literal "hi yourself")) ;;
      recvd2 ← recv net sock2 default_mtu;
      check_data (payload recvd) (payload recvd2))).

Definition socket_example_2 : M (sys W) unit :=
  portnum ← random_port;
  sock1 ← tcp_socket net;
  scoped k sock1 (
    a ← local portnum;
    bind net sock1 a ;;
    listen net sock1 1 ;;
    sock2 ← tcp_socket net;
    scoped k sock2 (
      a ← local portnum;
      connect net sock2 a ;;
      sock3 ← accept k net sock1;
      scoped k sock3 (
        write_chars k sock3 (literal "hi there") true ;;
        recvd ← read k sock2 no_limit;
        write_chars k sock2 (literal "hi yourself") true ;;
        recvd2 ← read k sock3 no_limit;
        close k sock1 ;;
        close k sock2 ;;
        shutdown net sock3 SHUT_RDWR ;;
        check_data recvd recvd2))).

Definition socket_example_3 : M (sys W) unit :=
  '(r, (fd0, fd1)) ← call (socketpair AF_UNIX SOCK_STREAM 0);
  lift (SystemCall "socketpair" r 0) ;;
  fd ← new_fd fd0;
  pipe1 ← local_stream_from_fd k net fd;
  scoped k pipe1 (
    fd ← new_fd fd1;
    pipe2 ← local_stream_from_fd k net fd;
    scoped k pipe2 (
      write_chars k pipe1 (literal "hi there") true ;;
      recvd ← read k pipe2 no_limit;
      write_chars k pipe2 (literal "hi yourself") true ;;
      recvd2 ← read k pipe1 no_limit;
      check_data recvd recvd2)).

(** doctests/socket_dt.cc: the exit status. *)
Definition socket_dt : M (sys W) Z := fun s =>
  match (socket_example_1 ;; socket_example_2 ;; socket_example_3) s with
  | (Ok _, s) => (Ok EXIT_SUCCESS, s)
  | (Exc _, s) => (Ok EXIT_FAILURE, s)
  | (Undef u, s) => (Undef u, s)
  | (NoFuel, s) => (NoFuel, s)
  end.

End examples.

(** ** They pass *)

Section pass.
Context {W : Type} (k : kernel W) (net : net W)
        (getaddrinfo : string -> string -> addrinfo -> Z * option (list byte * Z))
        (draw : M W Z) (socketpair : Z -> Z -> Z -> W -> sysret * (Z * Z) * W) (view : W -> gmap Z sock).
Context (HL : loopback k net draw socketpair view) (Hres : resolves_numeric getaddrinfo)
        (base : gmap positive fd_cell).

(** The address of this machine. *)
Definition localhost (portnum : Z) : address := ipv4 portnum 0x7f000001.

(** The ports the examples choose from are free. *)
Definition ports_free (v : gmap Z sock) : Prop :=
  forall portnum, 1025 <= portnum < 51025 -> unused v (name_of (localhost portnum)).

Lemma bind_Ok {S A B} (m : M S A) (f : A -> M S B) s a s' : m s = (Ok a, s') -> (m ≫= f) s = f a s'.
Proof using Type. unfold mbind, M_bind. by intros ->. Qed.

Lemma local_ok portnum (s : sys W) :
  0 <= portnum < 2 ^ 16 -> local getaddrinfo portnum s = (Ok (localhost portnum), s).
Proof using Hres.
  intros Hp. unfold local, lift. f_equal. unfold from_ip, resolve. rewrite c_str_pretty by lia.
  change (c_str "127.0.0.1") with (dotted 0x7f000001). rewrite Hres by lia. cbn [Z.eqb negb].
  by rewrite from_sockaddr_in.
Qed.

Lemma random_port_ok vars v s :
  st view base vars v s ->
  exists portnum s', random_port draw s = (Ok portnum, s') /\ 1025 <= portnum < 51025 /\ st view base vars v s'.
Proof using HL.
  intros [Ho Hv]. unfold random_port, random_device, on_field.
  destruct (lb_draw _ _ _ _ _ HL (world s)) as (x & Ex & Hx & Hview). run.
  destruct (draw (world s)) as [r w'] eqn:Ed. simpl in Ex, Hview. subst r. cbn.
  pose proof (Z.mod_pos_bound x 50000 ltac:(lia)). eexists _, _. split; [done|].
  unfold u16. rewrite Z.mod_small by lia. split; [lia|]. split; [done|]. simpl. congruence.
Qed.

Lemma literal_views s : strlen (bytes s ++ [Byte.x00]) = lenZ (bytes s) -> lenZ (bytes s) <= string_max_size ->
  wf_views (of_c_string (literal s)) /\ views_text (of_c_string (literal s)) = bytes s.
Proof using Type.
  intros Hlen Hmax. assert (E : views_text (of_c_string (literal s)) = bytes s).
  { unfold views_text, of_c_string, of_view, literal, view_text. simpl. rewrite app_nil_r, drop_0, Hlen.
    unfold lenZ. rewrite Nat2Z.id. apply take_app_length. }
  split; [|done]. split; [|by rewrite E]. constructor; [|done].
  unfold view_ok, of_c_string, of_view, literal. simpl. rewrite Hlen, lenZ_app. pose proof (lenZ_nonneg (bytes s)).
  split; [lia|]. change (lenZ [Byte.x00]) with 1. lia.
Qed.

Lemma check_data_ok s : check_data (W := W) (bytes "hi there") (bytes "hi yourself") s = (Ok tt, s).
Proof using Type. done. Qed.

Lemma name_localhost portnum : name_of (localhost portnum) = sockaddr_in portnum 0x7f000001.
Proof using Type.
  unfold name_of, localhost, ipv4. cbn [_size _address]. change (Z.to_nat sizeof_sockaddr_in) with 16%nat.
  apply take_app_length'. by rewrite length_sockaddr_in.
Qed.

Lemma localhost_size portnum : lenZ (name_of (localhost portnum)) <= sizeof_storage.
Proof using Type. rewrite name_localhost. unfold lenZ. by rewrite length_sockaddr_in. Qed.

Lemma unused_insert v fd x nm : unused v nm -> local_name x <> Some nm -> unused (<[fd := x]> v) nm.
Proof using Type.
  intros Hu Hx fd' s. destruct (decide (fd = fd')) as [<-|Hne].
  - rewrite lookup_insert_eq. by intros [= <-].
  - rewrite lookup_insert_ne by done. apply Hu.
Qed.

Lemma unused_lookup v fd x nm nm' :
  unused v nm' -> v !! fd = Some x -> local_name x = Some nm -> nm' <> nm.
Proof using Type. intros Hu Hfd Hx ->. by apply (Hu fd x). Qed.

Lemma size_insert_le (v : gmap Z sock) fd x : (base.size (<[fd := x]> v) <= S (base.size v))%nat.
Proof using Type. rewrite map_size_insert. case_match; simpl; lia. Qed.

(** A socket opened and closed leaves the rest as it was. *)
Lemma opened_closed (v : gmap Z sock) fd x : v !! fd = None -> delete fd (<[fd := x]> v) = v.
Proof using Type. apply delete_insert_id. Qed.

(** The scope of a variable, from the outside in. *)
Lemma in_scope {A} vars v1 v s p fd cl (m : M (sys W) A) a :
  (exists s1, m s = (Ok a, s1) /\ st view base ((p, (fd, cl)) :: vars) v1 s1) ->
  (cl = false -> is_Some (v1 !! fd)) -> closed_view fd cl v1 = v ->
  exists s', scoped k (Some p) m s = (Ok a, s') /\ st view base vars v s'.
Proof using HL. intros (s1 & E & Hs) Hfd <-. by apply (scoped_st k net draw socketpair view HL base vars v1 s p fd cl m a s1). Qed.

(** Both messages, as views and as bytes. *)
Lemma hi_there : wf_views (of_c_string (literal "hi there")) /\
  views_text (of_c_string (literal "hi there")) = bytes "hi there".
Proof using Type. by apply literal_views. Qed.
Lemma hi_yourself : wf_views (of_c_string (literal "hi yourself")) /\
  views_text (of_c_string (literal "hi yourself")) = bytes "hi yourself".
Proof using Type. by apply literal_views. Qed.

Lemma datagrams_ok vars v s p1 p2 fd1 fd2 nm portnum :
  st view base vars v s -> (p1, (fd1, false)) ∈ vars -> (p2, (fd2, false)) ∈ vars -> fd1 <> fd2 ->
  nm = name_of (localhost portnum) -> 0 <= portnum < 2 ^ 16 ->
  v !! fd1 = Some (Udp (Some nm) None []) -> v !! fd2 = Some (Udp None None []) ->
  (base.size v <= max_fds)%nat ->
  exists x1 x2 s',
    (a ← local getaddrinfo portnum;
     sendto net (Some p2) a (of_c_string (literal "hi there")) ;;
     recvd ← recv net (Some p1) default_mtu;
     connect net (Some p1) (source_address recvd) ;;
     send net (Some p1) (of_c_string (literal "hi yourself")) ;;
     recvd2 ← recv net (Some p2) default_mtu;
     check_data (payload recvd) (payload recvd2)) s = (Ok tt, s') /\
    st view base vars (<[fd2 := x2]> (<[fd1 := x1]> v)) s'.
Proof using HL Hres.
  intros Hs Hin1 Hin2 Hne Hnm Hp H1 H2 Hsize. destruct hi_there as [Hwf1 Ht1], hi_yourself as [Hwf2 Ht2].
  pose proof (localhost_size portnum) as Hlen. rewrite <- Hnm in Hlen.
  erewrite bind_Ok by (by apply local_ok).
  edestruct (sendmsg_st k net draw socketpair view HL base vars v s p2 fd2 false None None [] nm fd1 []
    (Some (sockaddr_of (localhost portnum), size (localhost portnum))) (of_c_string (literal "hi there")))
    as (src & s1 & E1 & [Hsrc Hsl] & Hs1); [done..|by rewrite Ht1|done|].
  erewrite bind_Ok by exact E1. rewrite Ht1 in Hs1. simpl app in Hs1.
  pose proof (unused_lookup v fd1 _ nm src Hsrc H1 eq_refl) as Hsn.
  edestruct (recv_st k net draw socketpair view HL base vars _ s1 p1 fd1 false (Some nm) None src (bytes "hi there") []
    Hs1 Hin1) as (a & s2 & E2 & Ha & Hs2); [by rewrite lookup_insert_eq|done|done|].
  erewrite bind_Ok by exact E2. cbn [source_address]. rewrite insert_insert_eq in Hs2.
  edestruct (connect_udp_st k net draw socketpair view HL base vars _ s2 p1 fd1 false a (Some nm) None [] Hs2 Hin1)
    as (s3 & E3 & Hs3); [by rewrite lookup_insert_eq|].
  erewrite bind_Ok by exact E3. rewrite insert_insert_eq, Ha in Hs3.
  edestruct (sendmsg_st k net draw socketpair view HL base vars _ s3 p1 fd1 false (Some nm) (Some src) [] src fd2 []
    None (of_c_string (literal "hi yourself")) Hs3 Hin1)
    as (src' & s4 & E4 & -> & Hs4);
    [by rewrite lookup_insert_eq|by rewrite lookup_insert_ne, lookup_insert_eq|done..|by rewrite Ht2| |].
  { rewrite (insert_insert_ne v) by done. rewrite !map_size_insert. 
    rewrite lookup_insert_ne, H1, H2 by done. simpl. lia. }
  erewrite bind_Ok by exact E4. rewrite Ht2 in Hs4. simpl app in Hs4.
  edestruct (recv_st k net draw socketpair view HL base vars _ s4 p2 fd2 false (Some src) None nm (bytes "hi yourself") []
    Hs4 Hin2) as (a' & s5 & E5 & Ha' & Hs5); [by rewrite lookup_insert_eq|done|done|].
  erewrite bind_Ok by exact E5. cbn [payload]. rewrite insert_insert_eq in Hs5.
  rewrite insert_insert_eq in Hs5.
  eexists _, _, s5. split; [apply check_data_ok|].
  rewrite (insert_insert_ne _ fd1), insert_insert_eq in Hs5 by done.
  exact Hs5.
Qed.

(** Room for the three descriptors of an example. *)
Definition room_for_three (v : gmap Z sock) : Prop := (base.size v + 3 < max_fds)%nat.

Lemma example_1_passes v s :
  st view base [] v s -> ports_free v -> room_for_three v ->
  exists s', socket_example_1 k net getaddrinfo draw s = (Ok tt, s') /\ st view base [] v s'.
Proof using HL Hres.
  intros Hs Hports Hroom. unfold room_for_three in Hroom. unfold socket_example_1.
  destruct (random_port_ok [] v s Hs) as (portnum & s1 & E1 & Hp & Hs1). erewrite bind_Ok by exact E1.
  destruct (udp_socket_st k net draw socketpair view HL base [] v s1 Hs1 ltac:(lia)) as (p1 & fd1 & s2 & E2 & Hfd1 & Hs2).
  erewrite bind_Ok by exact E2. set (nm := name_of (localhost portnum)).
  destruct (bind_st k net draw socketpair view HL base _ _ s2 p1 fd1 false (localhost portnum) (Udp None None [])
    (Udp (Some nm) None []) Hs2) as (s3 & E3 & Hs3); [by constructor|by rewrite lookup_insert_eq|done|
    by apply unused_insert; [apply Hports|]|]. rewrite insert_insert_eq in Hs3.
  pose proof (size_insert_le v fd1 (Udp (Some nm) None [])) as Hsize1.
  destruct (udp_socket_st k net draw socketpair view HL base _ _ s3 Hs3 ltac:(lia)) as (p2 & fd2 & s4 & E4 & Hfd2 & Hs4).
  apply lookup_insert_None in Hfd2 as [Hfd2 Hne].
  pose proof (size_insert_le (<[fd1 := Udp (Some nm) None []]> v) fd2 (Udp None None [])) as Hsize2.
  destruct (datagrams_ok _ _ s4 p1 p2 fd1 fd2 nm portnum Hs4) as (x1 & x2 & s5 & E5 & Hs5);
    [right; constructor|constructor|done|done|lia|by rewrite lookup_insert_ne, lookup_insert_eq|
     by rewrite lookup_insert_eq|lia|].
  rewrite (insert_insert_ne _ fd1 fd2) in Hs5 by done. rewrite insert_insert_eq in Hs5.
  apply (in_scope [] (<[fd1 := x1]> v) _ _ _ fd1 false).
  - erewrite bind_Ok by (apply local_ok; lia). erewrite bind_Ok by exact E3. erewrite bind_Ok by exact E4.
    apply (in_scope _ _ _ _ _ fd2 false _ _ (ex_intro _ s5 (conj E5 Hs5))).
    + intros _. rewrite lookup_insert_eq. by eexists.
    + cbn [closed_view]. by rewrite insert_insert_eq, opened_closed by (rewrite ?lookup_insert_ne; done).
  - intros _. rewrite lookup_insert_eq. by eexists.
  - by apply opened_closed.
Qed.

(** A message each way over a connection. *)
Lemma conversation_ok {A} (next : list byte -> list byte -> M (sys W) A) vars v s pa pb fda fdb d :
  st view base vars v s -> (pa, (fda, false)) ∈ vars -> (pb, (fdb, false)) ∈ vars -> fda <> fdb ->
  v !! fda = Some (Conn d (Some fdb) []) -> v !! fdb = Some (Conn d (Some fda) []) ->
  exists s',
    (write_chars k (Some pa) (literal "hi there") true ;;
     recvd ← read k (Some pb) no_limit;
     write_chars k (Some pb) (literal "hi yourself") true ;;
     recvd2 ← read k (Some pa) no_limit;
     next recvd recvd2) s = next (bytes "hi there") (bytes "hi yourself") s' /\
    st view base vars v s'.
Proof using HL.
  intros Hs Ha Hb Hne Hfa Hfb. destruct hi_there as [Hwf1 Ht1], hi_yourself as [Hwf2 Ht2].
  destruct (write_st k net draw socketpair view HL base vars v s pa fda false d fdb [] []
    (of_c_string (literal "hi there")) Hs Ha Hfa Hfb Hne Hwf1) as (s1 & E1 & Hs1); [by rewrite Ht1|].
  unfold write_chars at 1. erewrite bind_Ok by exact E1. rewrite Ht1 in Hs1. simpl app in Hs1.
  destruct (read_st k net draw socketpair view HL base _ _ s1 pb fdb false d (Some fda) (bytes "hi there") Hs1 Hb)
    as (s2 & E2 & Hs2); [by rewrite lookup_insert_eq|done|done|].
  erewrite bind_Ok by exact E2. rewrite insert_insert_eq, insert_id in Hs2 by done.
  destruct (write_st k net draw socketpair view HL base vars v s2 pb fdb false d fda [] []
    (of_c_string (literal "hi yourself")) Hs2 Hb Hfb Hfa (not_eq_sym Hne) Hwf2) as (s3 & E3 & Hs3); [by rewrite Ht2|].
  unfold write_chars. erewrite bind_Ok by exact E3. rewrite Ht2 in Hs3. simpl app in Hs3.
  destruct (read_st k net draw socketpair view HL base _ _ s3 pa fda false d (Some fdb) (bytes "hi yourself") Hs3 Ha)
    as (s4 & E4 & Hs4); [by rewrite lookup_insert_eq|done|done|].
  erewrite bind_Ok by exact E4. rewrite insert_insert_eq, insert_id in Hs4 by done. by exists s4.
Qed.

(** The end of the second example: everything is closed, the peer first. *)
Lemma goodbye_ok v s p1 p2 p3 fd1 fd2 fd3 x1 d q2 q3 :
  st view base [(p3, (fd3, false)); (p2, (fd2, false)); (p1, (fd1, false))]
    (<[fd3 := Conn d q3 []]> (<[fd2 := Conn d q2 []]> (<[fd1 := x1]> v))) s ->
  v !! fd1 = None -> v !! fd2 = None -> v !! fd3 = None -> fd1 <> fd2 -> fd1 <> fd3 -> fd2 <> fd3 ->
  exists x3 s',
    (close k (Some p1) ;; close k (Some p2) ;; shutdown net (Some p3) SHUT_RDWR ;;
     check_data (bytes "hi there") (bytes "hi yourself")) s = (Ok tt, s') /\
    st view base [(p3, (fd3, false)); (p2, (fd2, true)); (p1, (fd1, true))] (<[fd3 := x3]> v) s'.
Proof using HL.
  intros Hs H1 H2 H3 N12 N13 N23.
  destruct (close_st k net draw socketpair view HL base [_; _] [] _ s p1 fd1 x1 Hs) as (s1 & E1 & Hs1).
  { do 2 rewrite lookup_insert_ne by done. by rewrite lookup_insert_eq. }
  erewrite bind_Ok by exact E1. simpl app in Hs1. rewrite !delete_insert_ne in Hs1 by done.
  rewrite opened_closed in Hs1 by done.
  destruct (close_st k net draw socketpair view HL base [_] [_] _ s1 p2 fd2 (Conn d q2 []) Hs1) as (s2 & E2 & Hs2).
  { by rewrite lookup_insert_ne, lookup_insert_eq. }
  erewrite bind_Ok by exact E2. simpl app in Hs2. rewrite delete_insert_ne in Hs2 by done.
  rewrite opened_closed in Hs2 by done.
  destruct (shutdown_st k net draw socketpair view HL base _ _ s2 p3 fd3 false d q3 [] Hs2)
    as (x & s3 & E3 & _ & Hs3); [constructor|by rewrite lookup_insert_eq|].
  erewrite bind_Ok by exact E3. rewrite insert_insert_eq in Hs3. exists x, s3. by split; [apply check_data_ok|].
Qed.

Lemma example_2_passes v s :
  st view base [] v s -> ports_free v -> room_for_three v ->
  exists s', socket_example_2 k net getaddrinfo draw s = (Ok tt, s') /\ st view base [] v s'.
Proof using HL Hres.
  intros Hs Hports Hroom. unfold room_for_three in Hroom. unfold socket_example_2.
  destruct (random_port_ok [] v s Hs) as (portnum & s1 & E1 & Hp & Hs1). erewrite bind_Ok by exact E1.
  destruct (tcp_socket_st k net draw socketpair view HL base [] v s1 Hs1 ltac:(lia)) as (p1 & fd1 & s2 & E2 & Hfd1 & Hs2).
  set (nm := name_of (localhost portnum)).
  destruct (bind_st k net draw socketpair view HL base _ _ s2 p1 fd1 false (localhost portnum) (Tcp None)
    (Tcp (Some nm)) Hs2) as (s3 & E3 & Hs3); [by constructor|by rewrite lookup_insert_eq|done|
    by apply unused_insert; [apply Hports|]|]. rewrite insert_insert_eq in Hs3.
  destruct (listen_st k net draw socketpair view HL base _ _ s3 p1 fd1 false nm 1 Hs3)
    as (s4 & E4 & Hs4); [by constructor|by rewrite lookup_insert_eq|lia|]. rewrite insert_insert_eq in Hs4.
  pose proof (size_insert_le v fd1 (Listener nm [])) as Hsize1.
  destruct (tcp_socket_st k net draw socketpair view HL base _ _ s4 Hs4 ltac:(lia)) as (p2 & fd2 & s5 & E5 & Hfd2 & Hs5).
  apply lookup_insert_None in Hfd2 as [Hfd2 N12].
  destruct (connect_tcp_st k net draw socketpair view HL base _ _ s5 p2 fd2 false (localhost portnum) fd1 Hs5)
    as (s6 & E6 & Hs6); [constructor|by rewrite lookup_insert_eq|by rewrite lookup_insert_ne, lookup_insert_eq|].
  rewrite insert_insert_eq, (insert_insert_ne _ fd1 fd2), insert_insert_eq in Hs6 by done. fold nm in Hs6.
  set (v6 := <[fd2 := _]> (<[fd1 := _]> v)) in Hs6.
  assert (Hsize6 : (base.size v6 < max_fds)%nat).
  { pose proof (size_insert_le (<[fd1 := Listener nm [fd2]]> v) fd2 (Conn AF_INET None [])) as Hsize2.
    pose proof (size_insert_le v fd1 (Listener nm [fd2])). unfold v6. lia. }
  destruct (accept_st k net draw socketpair view HL base _ v6 s6 p1 fd1 false nm fd2 [] Hs6)
    as (p3 & fd3 & s7 & E7 & Hfd3 & Hs7); [right; constructor|done|unfold v6; by rewrite lookup_insert_ne, lookup_insert_eq|
    unfold v6; by rewrite lookup_insert_eq|].
  apply lookup_insert_None in Hfd3 as [Hfd3 N23]. apply lookup_insert_None in Hfd3 as [Hfd3 N13].
  unfold v6 in Hs7. rewrite (insert_insert_ne _ fd1 fd2), insert_insert_eq, insert_insert_eq in Hs7 by done.
  edestruct (conversation_ok (fun recvd recvd2 => close k (Some p1) ;; close k (Some p2) ;;
    shutdown net (Some p3) SHUT_RDWR ;; check_data recvd recvd2) _ _ s7 p3 p2 fd3 fd2 AF_INET Hs7)
    as (s8 & E8 & Hs8); [constructor|right; constructor|done|by rewrite lookup_insert_eq|
    by rewrite lookup_insert_ne, lookup_insert_eq|].
  destruct (goodbye_ok v s8 p1 p2 p3 fd1 fd2 fd3 _ _ _ _ Hs8) as (x3 & s9 & E9 & Hs9); [done..|].
  rewrite E9 in E8.
  erewrite bind_Ok by exact E2.
  apply (in_scope [] v v _ _ fd1 true); [|done|done]. erewrite bind_Ok by (apply local_ok; lia).
  erewrite bind_Ok by exact E3. erewrite bind_Ok by exact E4. erewrite bind_Ok by exact E5.
  apply (in_scope _ v v _ _ fd2 true); [|done|done]. erewrite bind_Ok by (apply local_ok; lia).
  erewrite bind_Ok by exact E6. erewrite bind_Ok by exact E7.
  apply (in_scope _ (<[fd3 := x3]> v) v _ _ fd3 false).
  - by exists s9.
  - intros _. rewrite lookup_insert_eq. by eexists.
  - by apply opened_closed.
Qed.

Lemma example_3_passes v s :
  st view base [] v s -> room_for_three v ->
  exists s', socket_example_3 k net socketpair s = (Ok tt, s') /\ st view base [] v s'.
Proof using HL.
  intros Hs Hroom. unfold room_for_three in Hroom. unfold socket_example_3. pose proof Hs as [Ho <-].
  pose proof (lb_socketpair _ _ _ _ _ HL (world s) ltac:(lia)) as H. unfold call. unfold mbind at 1, M_bind at 1.
  destruct (socketpair _ _ _ _) as [[r [fd1 fd2]] w']. destruct H as (Hr & Hfd1 & Hfd2 & Hne & H1 & H2 & Hv).
  rewrite SystemCall_ok by (unfold int_max; lia). rewrite (bind_Ok _ _ (Sys (fds s) w') (ret r) (Sys (fds s) w')) by done.
  set (v1 := <[fd1 := _]> _) in Hv.
  assert (Hs1 : st view base [] v1 (Sys (fds s) w')) by done.
  destruct (new_fd_st view base [] v1 _ fd1 ltac:(lia) Hs1) as (p1 & s2 & E2 & Hs2 & _). erewrite bind_Ok by exact E2.
  destruct (local_stream_st k net draw socketpair view HL base _ _ s2 p1 fd1 false (Some fd2) [] Hs2)
    as (s3 & E3 & Hs3); [constructor|unfold v1; by rewrite lookup_insert_eq|]. erewrite bind_Ok by exact E3.
  destruct (new_fd_st view base _ v1 s3 fd2 ltac:(lia) Hs3) as (p2 & s4 & E4 & Hs4 & _).
  destruct (local_stream_st k net draw socketpair view HL base _ _ s4 p2 fd2 false (Some fd1) [] Hs4)
    as (s5 & E5 & Hs5); [constructor|unfold v1; by rewrite lookup_insert_ne, lookup_insert_eq|].
  edestruct (conversation_ok (check_data (W := W)) _ _ s5 p1 p2 fd1 fd2 AF_UNIX Hs5) as (s6 & E6 & Hs6);
    [right; constructor|constructor|done|unfold v1; by rewrite lookup_insert_eq|
     unfold v1; by rewrite lookup_insert_ne, lookup_insert_eq|]. rewrite check_data_ok in E6.
  apply (in_scope [] (<[fd1 := Conn AF_UNIX (Some fd2) []]> (view (world s))) _ _ _ fd1 false).
  - erewrite bind_Ok by exact E4. erewrite bind_Ok by exact E5. apply (in_scope _ v1 _ _ _ fd2 false).
    + by exists s6.
    + intros _. unfold v1. rewrite lookup_insert_ne, lookup_insert_eq by done. by eexists.
    + cbn [closed_view]. unfold v1. by rewrite (insert_insert_ne _ fd1 fd2), opened_closed by (rewrite ?lookup_insert_ne; done).
  - intros _. rewrite lookup_insert_eq. by eexists.
  - by apply opened_closed.
Qed.
End pass.

(** C12: [socket_dt] succeeds: on a machine whose ports are free and which has
    room for three descriptors, its three programs (datagrams to a bound socket
    and back over the connected one; a TCP connection made, accepted, used both
    ways and shut down; a pair of local stream sockets) receive what was sent,
    raise nothing and exit with 0, and leave no object and no descriptor behind. *)
Theorem socket_examples_pass {W : Type} (k : kernel W) (net : net W)
    (getaddrinfo : string -> string -> addrinfo -> Z * option (list byte * Z)) (draw : M W Z)
    (socketpair : Z -> Z -> Z -> W -> sysret * (Z * Z) * W) (view : W -> gmap Z sock) (s : sys W) :
  loopback k net draw socketpair view -> resolves_numeric getaddrinfo ->
  ports_free (view (world s)) -> room_for_three (view (world s)) ->
  exists s', socket_dt k net getaddrinfo draw socketpair s = (Ok EXIT_SUCCESS, s') /\
    fds s' = fds s /\ view (world s') = view (world s).
Proof.
  intros HL Hres Hports Hroom. assert (Hs : st view (fds s) [] (view (world s)) s) by (split; [apply owns_start|done]).
  destruct (example_1_passes k net getaddrinfo draw socketpair view HL Hres (fds s) _ _ Hs Hports Hroom) as (s1 & E1 & Hs1).
  destruct (example_2_passes k net getaddrinfo draw socketpair view HL Hres (fds s) _ _ Hs1 Hports Hroom) as (s2 & E2 & Hs2).
  destruct (example_3_passes k net draw socketpair view HL (fds s) _ _ Hs2 Hroom) as (s3 & E3 & [Ho Hv]).
  exists s3. split; [|split; [by apply owns_end|done]]. unfold socket_dt. run. by rewrite E1, E2, E3.
Qed.

(** A machine with one TCP socket already open. *)
Definition demo_table : table := {[3 := Tcp None]}.

Lemma demo_table_view : view demo_table = demo_table.
Proof. by apply view_id, (bool_decide_eq_true_1 (named_once demo_table)). Qed.

Lemma socket_examples_pass_witness :
  exists s', socket_dt loopback_kernel loopback_net demo_getaddrinfo loopback_draw m_socketpair (Sys ∅ demo_table) = (Ok EXIT_SUCCESS, s') /\
    fds s' = ∅ /\ view (world s') = demo_table.
Proof.
  destruct (socket_examples_pass loopback_kernel loopback_net demo_getaddrinfo loopback_draw m_socketpair view
    (Sys ∅ demo_table) loopback_satisfied demo_resolves) as (s' & E & Hf & Hv).
  - intros p Hp fd x. cbn [world]. rewrite demo_table_view. unfold demo_table.
    intros [<- <-]%lookup_singleton_Some. done.
  - cbn [world]. rewrite demo_table_view. by apply Nat.ltb_lt.
  - cbn [world] in Hv. rewrite demo_table_view in Hv. exact (ex_intro _ s' (conj E (conj Hf Hv))).
Defined.
