(* ===== verification/WebLoopback.v ===== *)
(** [webget] against a server on the same machine: the server is a program over
    the same socket classes, in a process of its own; it takes its turns while
    the client waits in connect(2) and read(2).  On every machine with the laws
    of Loopback.v the two satisfy what Webget.v asks of a server. *)

From stdpp Require Import gmap.
From S2P Require Import Prelude Discard Buffer BufferList BufferViewList NetInt Address Kernel FileDescriptor Socket Webget Loopback Machine SocketExamples.

(** What the server is doing: waiting for a connection, connected to the
    client's descriptor [c] by a socket of its own, or done with a request. *)
Inductive turn := Listening | Talking (c : Z) (conn : handle) | Answered (c : Z) (heard : list byte).

(** The server's process, whose world is the machine, and the client's output. *)
Record web (W : Type) := Web { server : sys W; activity : turn; printed : list byte }.
Arguments Web {W}.
Arguments server {W}.
Arguments activity {W}.
Arguments printed {W}.

Section web.
Context {W : Type} (k : kernel W) (net : net W) (reply : list byte -> list byte) (listener : handle) (id : positive).

(** ** The server *)

Definition serve_start (a : address) : M (sys W) handle :=
  sock ← tcp_socket net;
  bind net sock a ;;
  listen net sock 1 ;;
  mret sock.

(** One request, one reply. *)
Definition serve_answer (conn : handle) : M (sys W) (list byte) :=
  scoped k conn
    (heard ← read k conn no_limit;
     write_string k conn (Storage id (reply heard)) true ;;
     mret heard).

(** ** The kernel the client sees *)

Definition machine (w : web W) : W := world (server w).
Definition set_machine (m : W) (w : web W) : web W := Web (Sys (fds (server w)) m) (activity w) (printed w).

(** A call that only concerns the machine. *)
Definition through {A} (f : W -> A * W) (w : web W) : A * web W :=
  let '(a, m) := f (machine w) in (a, set_machine m w).

(** A connection that is made is accepted. *)
Definition web_connect (fd : Z) (a : list byte) (n : Z) (w : web W) : sysret * web W :=
  let '(r, w) := through (n_connect net fd a n) w in
  if ret r <? 0 then (r, w)
  else match accept k net listener (server w) with
       | (Ok conn, s) => (r, Web s (Talking fd conn) (printed w))
       | (_, s) => (r, Web s (activity w) (printed w))
       end.

Definition server_turn (w : web W) : web W :=
  match activity w with
  | Talking c conn =>
    match serve_answer conn (server w) with
    | (Ok heard, s) => Web s (Answered c heard) (printed w)
    | (_, s) => Web s (activity w) (printed w)
    end
  | _ => w
  end.

(** The client reads what the server has answered by then. *)
Definition web_read (fd n : Z) (w : web W) : sysret * list byte * web W := through (k_read k fd n) (server_turn w).

(** Standard output is recorded, standard error is dropped. *)
Definition web_print (d : list byte) (w : web W) : web W := Web (server w) (activity w) (printed w ++ d).

Definition web_kernel : kernel (web W) :=
  Kernel _ (fun fd => through (k_close k fd)) web_read (fun fd iov => through (k_writev k fd iov))
    (fun fd => through (k_getfl k fd)) (fun fd fl => through (k_setfl k fd fl))
    (fun pfds timeout => through (k_poll k pfds timeout)) (fun _ w => w) (k_strerror k) (k_gai_strerror k).

Definition web_net : Socket.net (web W) :=
  Net _ (fun domain type => through (n_socket net domain type))
    (fun fd level option => through (n_getsockopt net fd level option))
    (fun fd level option value => through (n_setsockopt net fd level option value))
    (fun fd a n => through (n_bind net fd a n)) web_connect (fun fd how => through (n_shutdown net fd how))
    (fun fd => through (n_getsockname net fd)) (fun fd => through (n_getpeername net fd))
    (fun fd n => through (n_recvfrom net fd n)) (fun fd dst iov => through (n_sendmsg net fd dst iov))
    (fun fd backlog => through (n_listen net fd backlog)) (fun fd => through (n_accept net fd)).
End web.

(** ** The laws of a server *)

Section laws.
Context {W : Type} (k : kernel W) (net : net W) (draw : M W Z)
        (socketpair : Z -> Z -> Z -> W -> sysret * (Z * Z) * W) (view : W -> gmap Z sock).
Context (HL : loopback k net draw socketpair view) (base : gmap positive fd_cell).
Context (reply : list byte -> list byte) (id p0 : positive) (L : Z) (peer : address).

Definition buffered (v : gmap Z sock) (fd : Z) : list byte :=
  match v !! fd with Some (Conn _ _ b) => b | _ => [] end.

(** What waits for the server at the end of its handle. *)
Definition unheard (s : sys W) (conn : handle) : list byte :=
  match conn ≫= fun p => fds s !! p with
  | Some c => buffered (view (world s)) (_fd (fd_obj c))
  | None => []
  end.

Definition web_sent (w : web W) : list byte :=
  match activity w with Listening => [] | Talking _ conn => unheard (server w) conn | Answered _ heard => heard end.
Definition web_incoming (w : web W) : list byte :=
  match activity w with Answered c _ => buffered (view (machine w)) c | _ => reply (web_sent w) end.

(** A request the server can take in one read, and answer. *)
Definition answerable (d : list byte) : Prop :=
  d <> [] /\ lenZ d <= BUFFER_SIZE /\ 0 < lenZ (reply d) <= string_max_size.

Definition waiting (room : nat) (v : gmap Z sock) (w : web W) : Prop :=
  activity w = Listening /\ st view base [(p0, (L, false))] v (server w) /\
  v !! L = Some (Listener (name_of peer) []) /\ (base.size v + room <= max_fds)%nat.
Definition web_idle (w : web W) : Prop := exists v, waiting 2 v w.
Definition web_opened (fd : Z) (w : web W) : Prop := exists v, waiting 1 v w /\ v !! fd = Some (Tcp None).

(** The client's [fd] and the server's [S] are the ends of a connection; the
    server has yet to read [b]. *)
Definition connected (fd : Z) (p1 : positive) (S : Z) (b : list byte) (v : gmap Z sock) (w : web W) : Prop :=
  activity w = Talking fd (Some p1) /\ st view base [(p1, (S, false)); (p0, (L, false))] v (server w) /\
  v !! fd = Some (Conn AF_INET (Some S) []) /\ v !! S = Some (Conn AF_INET (Some fd) b) /\ fd <> S.
Definition web_linked (fd : Z) (w : web W) : Prop := exists p1 S b v, connected fd p1 S b v w.

(** The server has closed its end. *)
Definition hung_up (fd : Z) (w : web W) : Prop :=
  exists heard S b, activity w = Answered fd heard /\
    view (machine w) !! fd = Some (Conn AF_INET (Some S) b) /\ view (machine w) !! S = None.
Definition web_answering (fd : Z) (w : web W) : Prop :=
  (web_linked fd w /\ answerable (web_sent w)) \/ hung_up fd w.

Lemma connected_sent fd p1 S b v w : connected fd p1 S b v w -> web_sent w = b.
Proof using Type.
  intros (Ha & Hs & _ & HS & _). unfold web_sent. rewrite Ha.
  destruct (st_live view base _ _ _ p1 S false Hs) as (c & (p & [= <-] & Hc) & Hf & _); [constructor|].
  unfold unheard. cbn. rewrite Hc, Hf. destruct Hs as [_ ->]. unfold buffered. by rewrite HS.
Qed.

(** A call of the client that changes sockets other than the server's. *)
Lemma set_machine_st vars v v' w m :
  st view base vars v (server w) -> view m = v' -> st view base vars v' (server (set_machine m w)).
Proof using Type. intros Hs Hv. by eapply st_world. Qed.

Lemma size_insert_some (v : gmap Z sock) fd x y : v !! fd = Some x -> base.size (<[fd := y]> v) = base.size v.
Proof using Type. intros E. rewrite map_size_insert. by rewrite E. Qed.

Lemma socket_law w : web_idle w ->
  let '(r, w') := through (n_socket net AF_INET SOCK_STREAM) w in
  0 <= ret r <= int_max /\ quiet web_sent printed w w' /\ web_opened (ret r) w'.
Proof using HL.
  intros (v & Ha & Hs & HL0 & Hroom). pose proof Hs as [_ Hv]. unfold through, machine.
  pose proof (lb_tcp _ _ _ _ _ HL (world (server w))) as H. rewrite Hv in H. specialize (H ltac:(lia)).
  destruct (n_socket _ _ _ _) as [r m]. destruct H as [[Hr Hnew] Hm]. rewrite Hv in Hnew.
  split; [done|]. split; [split; unfold web_sent; cbn; by rewrite ?Ha|].
  exists (<[ret r := Tcp None]> v). split; [|by rewrite lookup_insert_eq]. split; [done|].
  split; [by eapply set_machine_st|]. split; [rewrite lookup_insert_ne by congruence; done|].
  pose proof (size_insert_le v (ret r) (Tcp None)). lia.
Qed.

Lemma connect_law fd w : web_opened fd w ->
  let '(r, w') := web_connect k net (Some p0) fd (sockaddr_of peer) (size peer) w in
  0 <= ret r <= int_max /\ quiet web_sent printed w w' /\ web_linked fd w'.
Proof using HL.
  intros (v & (Ha & Hs & HL0 & Hroom) & Hfd). pose proof Hs as [_ Hv]. unfold web_connect, through, machine.
  pose proof (lb_connect_tcp _ _ _ _ _ HL fd L (sockaddr_of peer) (size peer) (world (server w))) as H.
  rewrite Hv in H. specialize (H Hfd HL0). destruct (n_connect _ _ _ _ _) as [r m]. destruct H as [Hr Hm].
  fold (name_of peer) in Hm. rewrite Hr. cbn [Z.ltb Z.compare].
  assert (N : L <> fd) by congruence. set (v1 := <[L := _]> _) in Hm.
  assert (Hs1 : st view base [(p0, (L, false))] v1 (server (set_machine m w))) by (by eapply set_machine_st).
  assert (Hsize : base.size v1 = base.size v).
  { unfold v1. erewrite !size_insert_some; [done|exact Hfd|by rewrite lookup_insert_ne]. }
  destruct (accept_st k net draw socketpair view HL base _ v1 _ p0 L false (name_of peer) fd [] Hs1)
    as (p1 & S & s & -> & HS & Hs'); [constructor|lia|unfold v1; by rewrite lookup_insert_eq|
    unfold v1; by rewrite lookup_insert_ne, lookup_insert_eq by done|].
  assert (NS : S <> fd /\ S <> L).
  { unfold v1 in HS. apply lookup_insert_None in HS as [HS ?]. apply lookup_insert_None in HS as [_ ?]. by split. }
  destruct NS as [NS1 NS2].
  assert (Hc : connected fd p1 S [] (<[S := Conn AF_INET (Some fd) []]> (<[fd := Conn AF_INET (Some S) []]>
    (<[L := Listener (name_of peer) []]> v1))) (Web s (Talking fd (Some p1)) (printed w))).
  { split; [done|]. split; [done|]. rewrite lookup_insert_ne, !lookup_insert_eq by done. by split_and!. }
  split; [unfold int_max; lia|]. split; [|by eexists _, _, _, _].
  split; [|done]. etrans; [exact (connected_sent _ _ _ _ _ _ Hc)|]. unfold web_sent. by rewrite Ha.
Qed.

Lemma writev_law fd iov w : web_linked fd w ->
  let '(r, w') := through (k_writev k fd iov) w in
  0 <= ret r <= Z.min (lenZ (gather iov)) 0x7ffff000 /\ (0 < lenZ (gather iov) -> 0 < ret r) /\
  web_sent w' = web_sent w ++ take (Z.to_nat (ret r)) (gather iov) /\ web_linked fd w' /\ printed w' = printed w.
Proof using HL.
  intros (p1 & S & b & v & Hc). pose proof Hc as (Ha & Hs & Hfd & HS & N). pose proof Hs as [_ Hv]. unfold through, machine.
  pose proof (lb_writev _ _ _ _ _ HL fd AF_INET S [] b iov (world (server w))) as H. rewrite Hv in H.
  specialize (H Hfd HS N). destruct (k_writev _ _ _ _) as [r m]. destruct H as (Hr & Hpos & Hm).
  assert (Hc' : connected fd p1 S (b ++ take (Z.to_nat (ret r)) (gather iov))
    (<[S := Conn AF_INET (Some fd) (b ++ take (Z.to_nat (ret r)) (gather iov))]> v) (set_machine m w)).
  { split; [done|]. split; [by eapply set_machine_st|]. rewrite lookup_insert_ne, lookup_insert_eq by done. by split_and!. }
  split; [done|]. split; [intros; lia|]. rewrite (connected_sent _ _ _ _ _ _ Hc'), (connected_sent _ _ _ _ _ _ Hc).
  split; [done|]. split; [by eexists _, _, _, _|done].
Qed.

(** The server's turn: the request is read, the reply written, the socket closed. *)
Lemma answer_ok fd p1 S b v w : connected fd p1 S b v w -> answerable b ->
  exists s', serve_answer k reply id (Some p1) (server w) = (Ok b, s') /\
    st view base [(p0, (L, false))] (delete S (<[fd := Conn AF_INET (Some S) (reply b)]> (<[S := Conn AF_INET (Some fd) []]> v))) s'.
Proof using HL.
  intros (_ & Hs & Hfd & HS & N) (Hb & Hlen & Hreply). unfold serve_answer.
  destruct (read_st k net draw socketpair view HL base _ v _ p1 S false AF_INET (Some fd) b Hs)
    as (s1 & E1 & Hs1); [constructor|done..|].
  destruct (of_string_wf (Storage id (reply b)) ltac:(cbn; lia)) as [Hwf Ht]. cbn [st_text] in Ht.
  destruct (write_st k net draw socketpair view HL base _ _ s1 p1 S false AF_INET fd [] []
    (of_string (Storage id (reply b))) Hs1) as (s2 & E2 & Hs2);
    [constructor|by rewrite lookup_insert_eq|by rewrite lookup_insert_ne|done|done|rewrite Ht; lia|].
  rewrite Ht in Hs2.
  apply (in_scope k net draw socketpair view HL base _ (<[fd := Conn AF_INET (Some S) (reply b)]> (<[S := Conn AF_INET (Some fd) []]> v))
    _ _ p1 S false); [|intros _|done].
  - exists s2. split; [|exact Hs2]. unfold write_string. erewrite bind_Ok by exact E1. by erewrite bind_Ok by exact E2.
  - rewrite lookup_insert_ne, lookup_insert_eq by done. by eexists.
Qed.

Lemma server_turn_ok fd w : web_answering fd w ->
  hung_up fd (server_turn k reply id w) /\ quiet web_sent printed w (server_turn k reply id w) /\
  web_incoming (server_turn k reply id w) = web_incoming w.
Proof using HL.
  intros [[(p1 & S & b & v & Hc) Hb]|Hh].
  - rewrite (connected_sent _ _ _ _ _ _ Hc) in Hb. destruct (answer_ok _ _ _ _ _ _ Hc Hb) as (s' & E & _ & Hv).
    pose proof (connected_sent _ _ _ _ _ _ Hc) as Hsent. destruct Hc as (Ha & _ & _ & _ & N).
    unfold server_turn. rewrite Ha, E. assert (Hfd : view (world s') !! fd = Some (Conn AF_INET (Some S) (reply b))).
    { by rewrite Hv, lookup_delete_ne, lookup_insert_eq. }
    split; [exists b, S, (reply b); split_and!; [done|done|unfold machine; cbn; by rewrite Hv, lookup_delete_eq]|].
    split; [by split|]. unfold web_incoming. rewrite Ha, Hsent. cbn. unfold buffered, machine. cbn. by rewrite Hfd.
  - destruct Hh as (heard & S & b & Ha & Hfd & HS). unfold server_turn. rewrite Ha. split; [by exists heard, S, b|done].
Qed.

Lemma hung_up_read fd n w : hung_up fd w -> 0 < n <= BUFFER_SIZE ->
  let '(r, d, w') := through (k_read k fd n) w in
  0 <= ret r /\ (ret r = 0 -> web_incoming w = []) /\ d = take (Z.to_nat (ret r)) (web_incoming w) /\
  web_incoming w' = drop (Z.to_nat (ret r)) (web_incoming w) /\ quiet web_sent printed w w' /\ hung_up fd w'.
Proof using HL.
  intros (heard & S & b & Ha & Hfd & HS) Hn. unfold through.
  assert (Hin : web_incoming w = b) by (unfold web_incoming, buffered; by rewrite Ha, Hfd). rewrite Hin.
  assert (Hsent : forall m, web_sent (set_machine m w) = web_sent w) by (intros; unfold web_sent; cbn; by rewrite Ha).
  assert (N : S <> fd) by congruence.
  destruct (decide (b = [])) as [->|Hb].
  - pose proof (lb_eof _ _ _ _ _ HL fd AF_INET S n (machine w) Hfd HS Hn) as H.
    destruct (k_read _ _ _ _) as [[r d] m]. destruct H as (Hr & -> & Hm). rewrite Hr.
    split; [done|]. split; [done|]. split; [done|]. unfold web_incoming, quiet, buffered. cbn. rewrite Ha, Hm, Hfd.
    split; [done|]. split; [by rewrite Hsent|]. exists heard, S, []. unfold machine, set_machine. cbn. by rewrite Hm.
  - pose proof (lb_read _ _ _ _ _ HL fd AF_INET (Some S) b n (machine w) Hfd Hb Hn) as H.
    destruct (k_read _ _ _ _) as [[r d] m]. destruct H as (Hr & -> & Hm).
    assert (Hpos : 0 < lenZ b) by (destruct b; [done|]; unfold lenZ; simpl; lia).
    assert (Ht : forall X : nat -> list byte -> list byte, X = take \/ X = drop -> X (Z.to_nat n) b = X (Z.to_nat (ret r)) b).
    { rewrite Hr. destruct (Z.min_spec n (lenZ b)) as [[_ ->]|[Hle ->]]; [done|]. unfold lenZ in *.
      intros X [-> | ->]; [rewrite !take_ge by lia; done|rewrite !drop_ge by lia; done]. }
    split; [lia|]. split; [lia|]. split; [apply Ht; by left|]. unfold web_incoming, quiet, buffered. cbn.
    rewrite Ha, Hm, lookup_insert_eq. split; [apply Ht; by right|]. split; [by rewrite Hsent|].
    exists heard, S, (drop (Z.to_nat n) b). unfold machine, set_machine. cbn.
    by rewrite Hm, lookup_insert_eq, lookup_insert_ne by done.
Qed.

Lemma close_law fd w : web_answering fd w -> quiet web_sent printed w (snd (through (k_close k fd) w)).
Proof using HL.
  intros Hw. unfold through, machine. split; [|by destruct (k_close k fd _)].
  destruct Hw as [[(p1 & S & b & v & Hc) _]|(heard & S & b & Ha & _)].
  - rewrite (connected_sent _ _ _ _ _ _ Hc). destruct Hc as (Ha & Hs & Hfd & HS & N). pose proof Hs as [_ Hv].
    pose proof (lb_close _ _ _ _ _ HL fd (Conn AF_INET (Some S) []) (world (server w))) as H. rewrite Hv in H. specialize (H Hfd).
    destruct (k_close k fd _) as [r m]. destruct H as [_ Hm]. cbn [snd].
    destruct (st_live view base _ _ _ p1 S false Hs) as (c & (p & [= <-] & Hcell) & Hf & _); [constructor|].
    unfold web_sent, set_machine. cbn. rewrite Ha. unfold unheard. cbn. rewrite Hcell, Hf.
    unfold buffered. by rewrite Hm, lookup_delete_ne, HS.
  - unfold web_sent. destruct (k_close k fd _) as [r m]. cbn. by rewrite Ha.
Qed.

Lemma web_serves : serves (web_kernel k reply id) (web_net k net (Some p0)) web_print web_sent web_incoming printed
  reply answerable peer web_idle web_opened web_linked web_answering.
Proof using HL.
  split.
  - exact socket_law.
  - exact connect_law.
  - intros fd iov w Hw. pose proof (writev_law fd iov w Hw) as H. cbn. destruct (through _ _) as [r w'].
    destruct H as (Hr & _ & Hs & Hw' & _). split; [lia|done].
  - intros fd iov w Hw. pose proof (writev_law fd iov w Hw) as H. cbn. destruct (through _ _) as [r w']. apply H.
  - intros fd iov w Hw. pose proof (writev_law fd iov w Hw) as H. cbn. destruct (through _ _) as [r w']. apply H.
  - intros fd w Hw Hready. split; [by left|]. destruct Hw as (p1 & S & b & v & Ha & _). unfold web_incoming. by rewrite Ha.
  - intros fd n w Hn. cbn. unfold web_read, through. pose proof (lb_read_fills _ _ _ _ _ HL fd n (machine (server_turn k reply id w)) Hn) as H.
    by destruct (k_read _ _ _ _) as [[r d] m].
  - intros fd n w Hw Hn. cbn. unfold web_read. destruct (server_turn_ok fd w Hw) as (Hh & [Hs Ho] & Hi).
    pose proof (hung_up_read fd n _ Hh Hn) as H. destruct (through _ _) as [[r d] w']. rewrite Hi in H.
    destruct H as (H1 & H2 & H3 & H4 & [H5 H6] & H7). split_and!; [done..|split; congruence|by right].
  - done.
  - exact close_law.
  - done.
Qed.

Lemma start_ok v s : st view base [] v s -> (base.size v < max_fds)%nat -> unused v (name_of peer) ->
  exists p L s', serve_start net peer s = (Ok (Some p), s') /\ st view base [(p, (L, false))] (<[L := Listener (name_of peer) []]> v) s'.
Proof using HL.
  intros Hs Hroom Hu. unfold serve_start.
  destruct (tcp_socket_st k net draw socketpair view HL base [] v s Hs Hroom) as (p & fd & s1 & E1 & Hfd & Hs1).
  destruct (bind_st k net draw socketpair view HL base _ _ s1 p fd false peer (Tcp None) (Tcp (Some (name_of peer))) Hs1)
    as (s2 & E2 & Hs2); [constructor|by rewrite lookup_insert_eq|done|by apply unused_insert|].
  rewrite insert_insert_eq in Hs2.
  destruct (listen_st k net draw socketpair view HL base _ _ s2 p fd false (name_of peer) 1 Hs2)
    as (s3 & E3 & Hs3); [constructor|by rewrite lookup_insert_eq|done|]. rewrite insert_insert_eq in Hs3.
  exists p, fd, s3. split; [|done]. erewrite bind_Ok by exact E1. erewrite bind_Ok by exact E2. by erewrite bind_Ok by exact E3.
Qed.
End laws.

(** C8: the library against itself: on a machine with reliable local sockets whose
    name for the host is free, a server made of the library's sockets starts, and
    [webget] run against it ends with status 0; the server has been sent exactly the
    request, standard output has received exactly the server's reply to it. *)
Theorem webget_meets_server {W : Type} (k : kernel W) (net : net W) (draw : M W Z)
    (socketpair : Z -> Z -> Z -> W -> sysret * (Z * Z) * W) (view : W -> gmap Z sock)
    (getaddrinfo : string -> string -> addrinfo -> Z * option (list byte * Z))
    (reply : list byte -> list byte) (peer : address) (fuel : nat) (id : positive) (argv0 host path : string)
    (start : sys W) (client : gmap positive fd_cell) :
  let text := concat (request_pieces host path) in
  loopback k net draw socketpair view -> (base.size (view (world start)) + 3 <= max_fds)%nat ->
  from_hostname getaddrinfo host "http" = Ok peer -> unused (view (world start)) (name_of peer) ->
  lenZ text <= BUFFER_SIZE -> 0 < lenZ (reply text) <= string_max_size -> (length (reply text) + 1 < fuel)%nat ->
  exists listener s, serve_start net peer start = (Ok listener, s) /\
  exists s', main (web_kernel k reply id) (web_net k net listener) getaddrinfo web_print fuel id [argv0; host; path]
      (Sys client (Web s Listening [])) = (Ok (Exited EXIT_SUCCESS), s') /\
    web_sent view (world s') = text /\ printed (world s') = reply text.
Proof.
  intros text HL Hroom Ha Hu Hlen Hreply Hf.
  assert (Hs : st view (fds start) [] (view (world start)) start) by (split; [apply owns_start|done]).
  destruct (start_ok k net draw socketpair view HL _ peer _ _ Hs ltac:(lia) Hu) as (p & L & s & E & Hs').
  exists (Some p), s. split; [exact E|].
  pose proof (size_insert_le (view (world start)) L (Listener (name_of peer) [])) as Hsize.
  destruct (main_result _ _ getaddrinfo _ _ _ _ _ _ _ _ _ _ _
    (web_serves k net draw socketpair view HL (fds start) reply id p L peer) fuel id argv0 host path
    (Sys client (Web s Listening []))) as (s' & E' & Hsent & Hout).
  - eexists. split_and!; [done|exact Hs'|by rewrite lookup_insert_eq|lia].
  - exact Ha.
  - unfold BUFFER_SIZE, string_max_size in *. fold text. lia.
  - pose proof (request_nonempty host path) as Hpos. split; [|done]. fold text in Hpos |- *. intros Hnil.
    change (text = []) in Hnil. rewrite Hnil in Hpos. done.
  - exact Hf.
  - by exists s'.
Qed.

Lemma webget_meets_server_witness :
  exists listener s, serve_start loopback_net (ipv4 80 0x8efab004) (Sys ∅ demo_table) = (Ok listener, s) /\
  exists s', main (web_kernel loopback_kernel echo 9) (web_net loopback_kernel loopback_net listener) demo_web web_print 200 9
      ["webget"; "www.google.com"; "/"] (Sys ∅ (Web s Listening [])) = (Ok (Exited EXIT_SUCCESS), s') /\
    web_sent view (world s') = concat (request_pieces "www.google.com" "/") /\
    printed (world s') = echo (concat (request_pieces "www.google.com" "/")).
Proof.
  apply (webget_meets_server loopback_kernel loopback_net loopback_draw m_socketpair view demo_web echo
    (ipv4 80 0x8efab004) 200 9 "webget" "www.google.com" "/" (Sys ∅ demo_table) ∅ loopback_satisfied).
  - cbn [world]. rewrite demo_table_view. by apply Nat.leb_le.
  - reflexivity.
  - intros fd x. cbn [world]. rewrite demo_table_view. unfold demo_table. intros [<- <-]%lookup_singleton_Some. done.
  - by vm_compute.
  - split; by vm_compute.
  - by apply Nat.ltb_lt; vm_compute.
Defined.
