(* ===== verification/Tun.v ===== *)
(** [TunTapFD], [TunFD], [TapFD] (libsponge/util/tun.hh, tun.cc): opening a
    tunnel device by name.  [open(2)] and [ioctl(2)] are parameters. *)

From stdpp Require Import gmap.
From S2P Require Import Prelude Discard Buffer BufferList BufferViewList Kernel FileDescriptor.

Definition CLONEDEV : string := "/dev/net/tun".
Definition O_RDWR : Z := 2.
Definition IFNAMSIZ : Z := 16.
Definition IFF_TUN : Z := 1.
Definition IFF_TAP : Z := 2.
Definition IFF_NO_PI : Z := 4096.

(** The fields of [struct ifreq] the code sets; all bytes of a name start as
    zero. *)
Record ifreq := IfReq { ifr_name : list byte; ifr_flags : Z }.

(** [strncpy(dst, src, n)]: up to the terminator, then zeros. *)
Fixpoint strncpy (n : nat) (src : list byte) : list byte :=
  match n with
  | O => []
  | S n => match src with
           | [] => replicate (S n) Byte.x00
           | c :: src => if bool_decide (c = Byte.x00) then replicate (S n) Byte.x00 else c :: strncpy n src
           end
  end.

(** What a C function reads of a name. *)
Fixpoint c_string (s : list byte) : list byte :=
  match s with
  | [] => []
  | c :: s => if bool_decide (c = Byte.x00) then [] else c :: c_string s
  end.

Section tun.
Context {W : Type} (k : kernel W) (k_open : string -> Z -> W -> sysret * W)
        (k_tunsetiff : Z -> ifreq -> W -> sysret * W).

(** The request: the name is copied over a zeroed array of IFNAMSIZ bytes, and
    its last byte is set to zero. *)
Definition tun_request (devname : list byte) (is_tun : bool) : ifreq :=
  let ifr_flags := Z.lor (if is_tun then IFF_TUN else IFF_TAP) IFF_NO_PI in
  let ifr_name := replicate (Z.to_nat IFNAMSIZ) Byte.x00 in
  let ifr_name := overwrite (strncpy (Z.to_nat (IFNAMSIZ - 1)) devname) ifr_name in
  let ifr_name := <[Z.to_nat (IFNAMSIZ - 1) := Byte.x00]> ifr_name in
  IfReq ifr_name ifr_flags.

Definition tuntap (devname : list byte) (is_tun : bool) : M (sys W) handle :=
  fd ← checked "open" (k_open CLONEDEV O_RDWR);
  h ← new_fd fd;
  unwinding (release k h)
    (n ← fd_num h;
     checked "ioctl" (k_tunsetiff n (tun_request devname is_tun)) ;;
     mret h).

Definition tun_fd (devname : list byte) : M (sys W) handle := tuntap devname true.
Definition tap_fd (devname : list byte) : M (sys W) handle := tuntap devname false.

End tun.

(** ** Lemmas *)

Lemma length_strncpy n s : length (strncpy n s) = n.
Proof.
  revert s. induction n as [|n IH]; intros [|c s]; simpl; try done.
  - by rewrite length_replicate.
  - case_bool_decide; simpl; [by rewrite length_replicate|by rewrite IH].
Qed.

Lemma c_string_zeros n : c_string (replicate n Byte.x00) = [].
Proof. by destruct n. Qed.

Lemma c_string_strncpy n s : c_string (strncpy n s ++ [Byte.x00]) = take n (c_string s).
Proof.
  revert s. induction n as [|n IH]; intros s; [by rewrite take_0|]. destruct s as [|c s]; [done|].
  simpl. case_bool_decide as Hc; [done|]. simpl. rewrite bool_decide_eq_false_2 by done. by rewrite IH.
Qed.

Lemma tun_name devname is_tun : ifr_name (tun_request devname is_tun) = strncpy 15 devname ++ [Byte.x00].
Proof.
  unfold tun_request. cbn [ifr_name]. change (Z.to_nat (IFNAMSIZ - 1)) with 15%nat.
  unfold overwrite. rewrite length_strncpy. change (drop 15 _) with [Byte.x00].
  rewrite insert_app_r_alt by (by rewrite length_strncpy). by rewrite length_strncpy.
Qed.

(** ** Properties *)

(** The interface name sent to the kernel always fits its array and is
    terminated, whatever the device name; the kernel reads exactly the first
    fifteen bytes of the name (a longer one is cut short without an error),
    and the flags say which kind of device is meant. *)
Theorem tun_request_terminated (devname : list byte) (is_tun : bool) :
  let r := tun_request devname is_tun in
  length (ifr_name r) = Z.to_nat IFNAMSIZ /\
  c_string (ifr_name r) = take 15 (c_string devname) /\
  Z.testbit (ifr_flags r) 0 = is_tun /\ Z.testbit (ifr_flags r) 1 = negb is_tun /\
  Z.testbit (ifr_flags r) 12 = true.
Proof.
  cbv zeta. rewrite tun_name. split; [by rewrite length_app, length_strncpy|].
  split; [apply c_string_strncpy|]. by destruct is_tun.
Qed.

(** C37: Opening a tunnel: a failure to open leaves nothing behind; if the
    device is refused, its descriptor is closed before the exception leaves;
    otherwise the new handle is the only owner of it. *)
Theorem tuntap_spec {W : Type} (k : kernel W) (k_open : string -> Z -> W -> sysret * W)
    (k_tunsetiff : Z -> ifreq -> W -> sysret * W) (devname : list byte) (is_tun : bool) (s : sys W) :
  let '(r, w) := k_open CLONEDEV O_RDWR (world s) in
  match SystemCall "open" r 0 with
  | Ok fd => 0 <= fd ->
      let '(r2, w2) := k_tunsetiff fd (tun_request devname is_tun) w in
      match SystemCall "ioctl" r2 0 with
      | Ok _ => exists p, fds s !! p = None /\
          tuntap k k_open k_tunsetiff devname is_tun s =
            (Ok (Some p), Sys (<[p := FDCell (FDWrapper fd false false 0 0) 1]> (fds s)) w2)
      | Exc e => tuntap k k_open k_tunsetiff devname is_tun s = (Exc e, Sys (fds s) (destroyed k fd w2))
      | _ => False
      end
  | Exc e => tuntap k k_open k_tunsetiff devname is_tun s = (Exc e, Sys (fds s) w)
  | _ => False
  end.
Proof.
  unfold tuntap, checked, call. run. destruct (k_open _ _ _) as [r w].
  pose proof (SystemCall_total "open" r 0). destruct (SystemCall "open" r 0) as [fd|e| |]; try done.
  intros Hfd. unfold new_fd. destruct (Z.ltb_spec fd 0); [lia|]. cbn [fds world].
  set (p := fresh (dom (fds s))). set (c := FDCell (FDWrapper fd false false 0 0) 1).
  assert (Hp : fds s !! p = None) by (apply not_elem_of_dom, is_fresh).
  assert (Hl : forall w' : W, live (Some p) c (Sys (<[p := c]> (fds s)) w')).
  { intros w'. exists p. split; [done|]. apply lookup_insert_eq. }
  unfold unwinding. rewrite (fd_num_ok _ c _ (Hl w)). change (_fd (fd_obj c)) with fd. cbn [world].
  destruct (k_tunsetiff _ _ _) as [r2 w2]. pose proof (SystemCall_total "ioctl" r2 0).
  destruct (SystemCall "ioctl" r2 0) as [v|e| |]; try done; [by exists p|].
  destruct (release_ok k p c _ (Hl w2)) as ([m' w'] & E & Hf & Hw). cbn [fds] in *. rewrite E.
  simpl in Hf, Hw. subst. by rewrite delete_insert_id.
Qed.

(** A device that does not exist: EBUSY from the kernel, whose world here is
    the list of descriptors closed. *)
Lemma tuntap_spec_witness :
  tuntap slow_kernel (fun _ _ w => (SysRet 4 0, w)) (fun _ _ w => (SysRet (-1) 16, w)) (bytes "tun144") true
    (Sys ∅ (bytes "w")) = (Exc (unix_error "ioctl" 16), Sys ∅ (bytes "w")).
Proof.
  apply (tuntap_spec slow_kernel (fun _ _ w => (SysRet 4 0, w)) (fun _ _ w => (SysRet (-1) 16, w))
    (bytes "tun144") true (Sys ∅ (bytes "w"))). vm_compute. discriminate.
Defined.
