(* ===== verification/Util.v ===== *)
(** [timestamp_ms] (libsponge/util/util.cc): milliseconds on the steady clock
    since the function-local static was initialised.  The clock is a
    parameter. *)

From Stdlib Require Import Sorting.Sorted.
From S2P Require Import Prelude.

Section clock.
(** [std::chrono::steady_clock::now()], in nanoseconds. *)
Context {W : Type} (now : W -> Z * W).

(** The static [program_start], not initialised before the first call. *)
Definition timestamp_ms : M (option Z * W) Z := fun s =>
  let '(program_start, w) := match fst s with
                             | Some t => (t, snd s)
                             | None => now (snd s)
                             end in
  let '(t, w) := now w in
  (Ok (u64 (Z.quot (t - program_start) 1000000)), (Some program_start, w)).

(** [n] calls in a row. *)
Fixpoint timestamps (n : nat) : M (option Z * W) (list Z) :=
  match n with
  | O => mret []
  | S n => t ← timestamp_ms; ts ← timestamps n; mret (t :: ts)
  end.

(** A clock that never goes back, and does not run for 2^63 ns (292 years);
    [time] is the latest reading a world has given. *)
Record steady (time : W -> Z) : Prop := {
  st_now w : let '(t, w') := now w in time w <= t /\ time w' = t;
  st_range w : 0 <= time w < 2 ^ 63
}.

Lemma timestamp_ms_started time start w :
  steady time -> 0 <= start <= time w ->
  exists w', timestamp_ms (Some start, w) = (Ok ((time w' - start) / 1000000), (Some start, w')) /\
    time w <= time w'.
Proof.
  intros [Hnow Hrange] Hs. unfold timestamp_ms. cbn [fst snd]. specialize (Hnow w).
  destruct (now w) as [t w'] eqn:E. destruct Hnow as [Hle Ht]. exists w'. split; [|lia].
  pose proof (Hrange w'). rewrite Z.quot_div_nonneg, u64_small; try lia.
  - by rewrite Ht.
  - split; [apply Z.div_pos; lia|]. apply Z.div_lt_upper_bound; lia.
Qed.

Lemma timestamps_started time n start w :
  steady time -> 0 <= start <= time w ->
  exists ts s', timestamps n (Some start, w) = (Ok ts, s') /\ length ts = n /\
    Forall (fun t => (time w - start) / 1000000 <= t) ts /\ Sorted Z.le ts.
Proof.
  intros Hst. revert w. induction n as [|n IH]; intros w Hs; [by eexists [], _|].
  destruct (timestamp_ms_started time start w Hst Hs) as (w1 & E & Hle).
  destruct (IH w1 ltac:(lia)) as (ts & s' & E2 & Hl & Hall & Hsort).
  exists ((time w1 - start) / 1000000 :: ts), s'. cbn [timestamps]. run. rewrite E, E2.
  split; [done|]. split; [simpl; by rewrite Hl|].
  assert (Hdiv : (time w - start) / 1000000 <= (time w1 - start) / 1000000) by (apply Z.div_le_mono; lia).
  split.
  - constructor; [done|]. eapply Forall_impl; [exact Hall|]. simpl. lia.
  - constructor; [done|]. destruct Hall; constructor; done.
Qed.
End clock.

(** Timestamps never go back, whatever the time between calls; and they
    count from the first call: after any running time of the program the
    first one is only the time between its own two readings of the clock. *)
Theorem timestamps_from_first_call {W : Type} (now : W -> Z * W) (time : W -> Z) (n : nat) (w : W) :
  steady now time ->
  exists t0 ts s', timestamps now (S n) (None, w) = (Ok (t0 :: ts), s') /\ length ts = n /\
    Sorted Z.le (t0 :: ts) /\
    let '(t1, w1) := now w in let '(t2, _) := now w1 in t0 = (t2 - t1) / 1000000.
Proof.
  intros Hst. pose proof (st_now _ _ Hst w) as H1. destruct (now w) as [t1 w1] eqn:E1.
  destruct H1 as [Hle1 Ht1]. pose proof (st_range _ _ Hst w). pose proof (st_range _ _ Hst w1).
  assert (Hfirst : timestamp_ms now (None, w) = timestamp_ms now (Some t1, w1)).
  { unfold timestamp_ms. cbn [fst snd]. by rewrite E1. }
  destruct (timestamp_ms_started now time t1 w1 Hst ltac:(lia)) as (w2 & E & Hle).
  destruct (timestamps_started now time n t1 w2 Hst ltac:(lia)) as (ts & s' & E2 & Hl & Hall & Hsort).
  exists ((time w2 - t1) / 1000000), ts, s'. cbn [timestamps]. run. rewrite Hfirst, E, E2.
  split; [done|]. split; [done|]. split.
  - constructor; [done|]. destruct Hall; constructor; done.
  - pose proof (st_now _ _ Hst w1) as H2. unfold timestamp_ms in E. cbn [fst snd] in E.
    destruct (now w1) as [t2 w2'] eqn:E3. destruct H2 as [_ Ht2]. injection E as _ <-. by rewrite Ht2.
Qed.

(** A clock that ticks a second at each reading, started an hour ago. *)
Definition demo_time (w : Z) : Z := Z.max 0 (Z.min w (2 ^ 62)).
Definition demo_now (w : Z) : Z * Z := let t := Z.min (demo_time w + 10 ^ 9) (2 ^ 62) in (t, t).

Lemma demo_steady : steady demo_now demo_time.
Proof. split; intros w; unfold demo_now, demo_time; lia. Qed.

Lemma timestamps_from_first_call_witness :
  exists t0 ts s', timestamps demo_now 3 (None, 3600 * 10 ^ 9) = (Ok (t0 :: ts), s') /\ length ts = 2%nat /\
    Sorted Z.le (t0 :: ts) /\
    let '(t1, w1) := demo_now (3600 * 10 ^ 9) in let '(t2, _) := demo_now w1 in t0 = (t2 - t1) / 1000000.
Proof. apply (timestamps_from_first_call demo_now demo_time 2 (3600 * 10 ^ 9) demo_steady). Defined.
