(* ===== verification/Hexdump.v ===== *)
(** [hexdump] (libsponge/util/util.cc): the formatting state of standard
    output (fill character and base; width zero, right adjusted and no other
    flags set), a string stream, and the loop over the bytes. *)

From S2P Require Import Prelude.

(** ** Streams *)

(** Standard output: what it has received, its fill, and its base. *)
Record ostream := OStream { os_text : list byte; os_fill : byte; os_hex : bool }.

Definition put (t : list byte) : M ostream unit :=
  modify (fun o => OStream (os_text o ++ t) (os_fill o) (os_hex o)).

(** The digits of a number that is not negative. *)
Definition digit_byte (d : Z) : byte := byte_of (if d <? 10 then 48 + d else 87 + d).
Fixpoint digits_of (base : Z) (fuel : nat) (z : Z) (acc : list byte) : list byte :=
  match fuel with
  | O => acc
  | S fuel =>
      let acc := digit_byte (z mod base) :: acc in
      if z <? base then acc else digits_of base fuel (z / base) acc
  end.
Definition int_text (hex : bool) (z : Z) : list byte := digits_of (if hex then 16 else 10) 10 z [].

(** [setw(width) << z], [z] an [int] that is not negative. *)
Definition put_int (width z : Z) : M ostream unit :=
  o ← get;
  let text := int_text (os_hex o) z in
  put (replicate (Z.to_nat (width - lenZ text)) (os_fill o) ++ text).

(** A [stringstream] made from a string, or given a new one: it writes from
    the start. *)
Record sstream := SStream { ss_str : list byte; ss_pos : nat }.
Definition ss_new (s : list byte) : sstream := SStream s 0.
Definition ss_put (c : byte) (ss : sstream) : sstream :=
  SStream (take (ss_pos ss) (ss_str ss) ++ [c] ++ drop (ss_pos ss + 1) (ss_str ss)) (ss_pos ss + 1).

(** [isprint] in the C locale. *)
Definition printable (b : byte) : byte :=
  if (32 <=? byte_val b) && (byte_val b <=? 126) then b else Byte.x2e.

(** ** hexdump *)

Record dump := Dump { d_cout : ostream; d_pchars : sstream; d_printed : Z }.

Definition to_cout {A} (m : M ostream A) : M dump A :=
  on_field d_cout (fun o d => Dump o (d_pchars d) (d_printed d)) m.
Definition set_pchars (ss : sstream) : M dump unit := modify (fun d => Dump (d_cout d) ss (d_printed d)).

Definition newline : list byte := [Byte.x0a].

(** The body of the loop. *)
Definition dump_byte (data : list byte) (indent_string : list byte) (i : Z) : M dump unit :=
  d ← get;
  (if Z.land (d_printed d) 15 =? 0 then
     (if negb (d_printed d =? 0) then
        to_cout (put (bytes "    " ++ ss_str (d_pchars d) ++ newline)) ;;
        set_pchars (ss_new (bytes " "))
      else mret tt) ;;
     to_cout (put indent_string ;; put_int 8 (d_printed d) ;; put (bytes ":    "))
   else if Z.land (d_printed d) 1 =? 0 then to_cout (put (bytes " "))
   else mret tt) ;;
  c ← lift (match data !! Z.to_nat i with Some c => Ok c | None => Undef OutOfBounds end);
  to_cout (put_int 2 (byte_val c)) ;;
  d ← get;
  set_pchars (ss_put (printable c) (d_pchars d)) ;;
  d ← get;
  printed ← lift (int_arith (d_printed d + 1));
  modify (fun d => Dump (d_cout d) (d_pchars d) printed).

(** [for (unsigned i = 0; i < len; ++i)]: [i] is compared with a [size_t]. *)
Fixpoint dump_loop (fuel : nat) (data indent_string : list byte) (len i : Z) : M dump unit :=
  match fuel with
  | O => lift NoFuel
  | S fuel =>
      if i <? len then dump_byte data indent_string i ;; dump_loop fuel data indent_string len (u32 (i + 1))
      else mret tt
  end.

Definition print_tail : M dump unit :=
  d ← get;
  print_rem ← lift (int_rem (16 - Z.land (d_printed d) 15) 16);
  spaces ← lift (str_fill (2 * print_rem + print_rem / 2 + 4) Byte.x20);
  to_cout (put (spaces ++ ss_str (d_pchars d)) ;; put newline ;; put newline).

(** [data] is what the pointer may read. *)
Definition hexdump (data : list byte) (len indent : Z) : M ostream unit := fun o =>
  match str_fill indent Byte.x20 with
  | Ok indent_string =>
      let flags := os_hex o in
      let start := Dump (OStream (os_text o) Byte.x30 true) (ss_new (bytes " ")) 0 in
      match (dump_loop (S (Z.to_nat len)) data indent_string len 0 ;; print_tail) start with
      | (Ok _, d) => (Ok tt, OStream (os_text (d_cout d)) (os_fill (d_cout d)) flags)
      | (Exc e, d) => (Exc e, d_cout d)
      | (Undef u, d) => (Undef u, d_cout d)
      | (NoFuel, d) => (NoFuel, d_cout d)
      end
  | Exc e => (Exc e, o)
  | Undef u => (Undef u, o)
  | NoFuel => (NoFuel, o)
  end.

Example hexdump_hello :
  os_text (snd (hexdump (bytes "hello, world 0123") 17 2 (OStream [] Byte.x20 false))) =
  bytes "  00000000:    6865 6c6c 6f2c 2077 6f72 6c64 2030 3132    hello, world 012" ++ newline ++
  bytes "  00000010:    33                                         3" ++ newline ++ newline.
Proof. vm_compute. reflexivity. Qed.

(** ** The format, row by row *)

(** A number in hexadecimal, zero-padded to a width. *)
Definition padded (width z : Z) : list byte :=
  let text := int_text true z in replicate (Z.to_nat (width - lenZ text)) Byte.x30 ++ text.

(** The bytes of a row from column [j] on: a space before every other one. *)
Fixpoint groups (j : Z) (r : list byte) : list byte :=
  match r with
  | [] => []
  | b :: r => (if (0 <? j) && (j mod 2 =? 0) then bytes " " else []) ++ padded 2 (byte_val b) ++ groups (j + 1) r
  end.

(** A row starts with the indentation, the offset and the bytes, ... *)
Definition row_head (indent_string : list byte) (offset : Z) (r : list byte) : list byte :=
  indent_string ++ padded 8 offset ++ bytes ":    " ++ groups 0 r.
(** ... is filled up to the last column, and ends with the characters. *)
Definition row_tail (r : list byte) : list byte :=
  let missing := 16 - lenZ r in
  replicate (Z.to_nat (2 * missing + missing / 2 + 4)) Byte.x20 ++ map printable r ++ newline.

Fixpoint rows (fuel : nat) (indent_string : list byte) (offset : Z) (d : list byte) : list byte :=
  match fuel, d with
  | S fuel, _ :: _ =>
      row_head indent_string offset (take 16 d) ++ row_tail (take 16 d) ++
      rows fuel indent_string (offset + 16) (drop 16 d)
  | _, _ => []
  end.

(** ** The loop writes the rows *)

(** Standard output inside the loop. *)
Abbreviation hex_out T := (OStream T Byte.x30 true).

Lemma land15 z : Z.land z 15 = z mod 16.
Proof. change 15 with (Z.ones 4). by rewrite Z.land_ones. Qed.
Lemma land1 z : Z.land z 1 = z mod 2.
Proof. change 1 with (Z.ones 1). by rewrite Z.land_ones. Qed.

Lemma put_int_hex w z T : put_int w z (hex_out T) = (Ok tt, hex_out (T ++ padded w z)).
Proof. done. Qed.

Ltac dump_step := unfold to_cout, on_field, put, set_pchars; run;
  cbn [d_cout d_pchars d_printed os_text os_fill os_hex]; rewrite ?put_int_hex;
  cbn [d_cout d_pchars d_printed os_text os_fill os_hex].

Lemma dump_first data ind i T pch off c :
  data !! Z.to_nat i = Some c -> 0 <= off < 2 ^ 31 - 1 -> off mod 16 = 0 ->
  (off = 0 -> pch = ss_new (bytes " ")) ->
  dump_byte data ind i (Dump (hex_out T) pch off) =
  (Ok tt, Dump (hex_out (T ++ (if off =? 0 then [] else bytes "    " ++ ss_str pch ++ newline) ++
                              row_head ind off [c]))
               (SStream [printable c] 1) (off + 1)).
Proof.
  intros Hc Hoff Hmod Hpch. unfold dump_byte. dump_step. rewrite land15, Hmod. change (0 =? 0) with true. cbv iota.
  unfold row_head. cbn [groups andb Z.ltb Z.compare app].
  destruct (Z.eqb_spec off 0) as [->|Hne]; cbn [negb]; cbv iota.
  - rewrite (Hpch eq_refl). dump_step. rewrite Hc. dump_step. rewrite int_arith_ok by done.
    by rewrite app_nil_r, <- !(assoc_L (++)).
  - dump_step. rewrite Hc. dump_step. rewrite int_arith_ok by (unfold int_min, int_max; lia).
    by rewrite app_nil_r, <- !(assoc_L (++)).
Qed.

Lemma dump_next data ind i T s off j c :
  data !! Z.to_nat i = Some c -> 0 <= off -> off + j < 2 ^ 31 - 1 -> off mod 16 = 0 -> 0 < j < 16 ->
  dump_byte data ind i (Dump (hex_out T) (SStream s (length s)) (off + j)) =
  (Ok tt, Dump (hex_out (T ++ groups j [c])) (SStream (s ++ [printable c]) (length s + 1)) (off + j + 1)).
Proof.
  intros Hc Hoff Hmax Hmod Hj. unfold dump_byte. dump_step.
  rewrite land15, land1, (Z.add_mod off j 16), Hmod, Z.add_0_l, Z.mod_mod, (Z.mod_small j 16) by lia.
  assert (Hpar : (off + j) mod 2 = j mod 2).
  { rewrite (Z.div_mod off 16) by lia. rewrite Hmod, Z.add_0_r.
    replace (16 * (off / 16) + j) with (j + (8 * (off / 16)) * 2) by lia. apply Z.mod_add. lia. }
  rewrite Hpar. cbn [groups]. destruct (Z.eqb_spec j 0); [lia|]. destruct (Z.ltb_spec 0 j); [|lia]. cbn [andb].
  assert (Hss : ss_put (printable c) (SStream s (length s)) = SStream (s ++ [printable c]) (length s + 1)).
  { unfold ss_put. cbn [ss_str ss_pos]. by rewrite take_ge, drop_ge, app_nil_r by lia. }
  destruct (j mod 2 =? 0); dump_step; rewrite Hc; dump_step; rewrite int_arith_ok by (unfold int_min, int_max; lia);
    rewrite Hss, app_nil_r, <- ?(assoc_L (++)); done.
Qed.

Lemma groups_app j r1 r2 : groups j (r1 ++ r2) = groups j r1 ++ groups (j + lenZ r1) r2.
Proof.
  revert j. induction r1 as [|b r1 IH]; intros j; simpl; [by rewrite Z.add_0_r|].
  rewrite IH, lenZ_cons, <- ?(assoc_L (++)). by replace (j + 1 + lenZ r1) with (j + (1 + lenZ r1)) by lia.
Qed.

(** The rest of a row. *)
Lemma dump_row_rest r2 : forall fuel data pre rest ind T s off j,
  data = pre ++ r2 ++ rest -> lenZ pre = off + j -> 0 <= off -> off mod 16 = 0 -> 0 < j ->
  j + lenZ r2 <= 16 -> lenZ data < 2 ^ 31 - 1 ->
  dump_loop (length r2 + fuel) data ind (lenZ data) (lenZ pre) (Dump (hex_out T) (SStream s (length s)) (off + j)) =
  dump_loop fuel data ind (lenZ data) (lenZ (pre ++ r2))
    (Dump (hex_out (T ++ groups j r2)) (SStream (s ++ map printable r2) (length s + length r2)) (off + j + lenZ r2)).
Proof.
  induction r2 as [|c r2 IH]; intros fuel data pre rest ind T s off j Hd Hpre Hoff Hmod Hj Hrow Hmax.
  { simpl. rewrite !app_nil_r, Nat.add_0_r. f_equal. f_equal. rewrite lenZ_nil. lia. }
  rewrite lenZ_cons in *. pose proof (lenZ_nonneg r2). pose proof (lenZ_nonneg rest).
  assert (Hlen : lenZ data = lenZ pre + (1 + lenZ r2) + lenZ rest) by (subst data; rewrite !lenZ_app, lenZ_cons; lia).
  cbn [length Nat.add dump_loop]. destruct (Z.ltb_spec (lenZ pre) (lenZ data)); [|lia].
  unfold mbind, M_bind. rewrite (dump_next data ind (lenZ pre) T s off j c); try lia; try done.
  2: { subst data. unfold lenZ. rewrite Nat2Z.id. by rewrite lookup_app_r, Nat.sub_diag by done. }
  rewrite u32_small by lia.
  specialize (IH fuel data (pre ++ [c]) rest ind (T ++ groups j [c]) (s ++ [printable c]) off (j + 1)).
  rewrite length_app in IH. cbn [length] in IH.
  replace (lenZ pre + 1) with (lenZ (pre ++ [c])) by (rewrite lenZ_app, lenZ_cons, lenZ_nil; lia).
  rewrite <- Z.add_assoc. rewrite IH; try lia; try done.
  - rewrite <- ?(assoc_L (++)). cbn [app map]. change (c :: r2) with ([c] ++ r2).
    rewrite groups_app, lenZ_cons, lenZ_nil. rewrite <- ?(assoc_L (++)).
    replace (length s + 1 + length r2)%nat with (length s + length ([c] ++ r2))%nat by (rewrite length_app; simpl; lia).
    replace (off + (j + 1) + lenZ r2) with (off + j + (1 + lenZ r2)) by lia. done.
  - subst data. by rewrite <- (assoc_L (++)).
  - rewrite lenZ_app, lenZ_cons, lenZ_nil. lia.
Qed.

(** What comes before a row: the end of the row before it. *)
Definition row_sep (off : Z) (pch : sstream) : list byte :=
  if off =? 0 then [] else bytes "    " ++ ss_str pch ++ newline.

(** A whole row. *)
Lemma dump_row fuel data pre c r rest ind T pch off :
  data = pre ++ (c :: r) ++ rest -> lenZ pre = off -> off mod 16 = 0 -> lenZ (c :: r) <= 16 ->
  lenZ data < 2 ^ 31 - 1 -> (off = 0 -> pch = ss_new (bytes " ")) ->
  dump_loop (length (c :: r) + fuel) data ind (lenZ data) off (Dump (hex_out T) pch off) =
  dump_loop fuel data ind (lenZ data) (lenZ (pre ++ c :: r))
    (Dump (hex_out (T ++ row_sep off pch ++ row_head ind off (c :: r)))
      (SStream (map printable (c :: r)) (length (c :: r))) (off + lenZ (c :: r))).
Proof.
  intros Hd Hpre Hmod Hrow Hmax Hpch. pose proof (lenZ_nonneg pre). pose proof (lenZ_nonneg rest).
  pose proof (lenZ_nonneg r).
  assert (Hlen : lenZ data = lenZ pre + (1 + lenZ r) + lenZ rest) by (subst data; rewrite !lenZ_app, lenZ_cons; lia).
  rewrite lenZ_cons in *. cbn [length Nat.add dump_loop]. destruct (Z.ltb_spec off (lenZ data)); [|lia].
  unfold mbind, M_bind. rewrite (dump_first data ind off T pch off c); try lia; try done.
  2: { subst data. rewrite <- Hpre. unfold lenZ. rewrite Nat2Z.id. by rewrite lookup_app_r, Nat.sub_diag by done. }
  rewrite u32_small by lia. fold (row_sep off pch).
  replace (off + 1) with (lenZ (pre ++ [c])) at 1 by (rewrite lenZ_app, lenZ_cons, lenZ_nil; lia).
  change 1%nat with (length [printable c]) at 1.
  rewrite (dump_row_rest r fuel data (pre ++ [c]) rest ind _ [printable c] off 1); try lia; try done.
  - rewrite <- ?(assoc_L (++)). cbn [app map length Nat.add].
    assert (Hh : row_head ind off [c] ++ groups 1 r = row_head ind off (c :: r)).
    { unfold row_head. rewrite <- ?(assoc_L (++)). do 3 f_equal. cbn [groups]. by rewrite app_nil_r, <- ?(assoc_L (++)). }
    rewrite Hh. by replace (off + 1 + lenZ r) with (off + (1 + lenZ r)) by lia.
  - subst data. by rewrite <- (assoc_L (++)).
  - rewrite lenZ_app, lenZ_cons, lenZ_nil. lia.
Qed.

(** The spaces the tail prints. *)
Definition tail_spaces (printed : Z) : Z :=
  let rem := (16 - printed mod 16) mod 16 in 2 * rem + rem / 2 + 4.

Lemma tail_spaces_row off (r : list byte) : off mod 16 = 0 -> 0 < lenZ r <= 16 ->
  tail_spaces (off + lenZ r) = 2 * (16 - lenZ r) + (16 - lenZ r) / 2 + 4.
Proof.
  intros Hmod Hr. unfold tail_spaces. rewrite Z.add_mod, Hmod, Z.add_0_l, Z.mod_mod by lia.
  destruct (Z.eq_dec (lenZ r) 16) as [->|]; [done|]. rewrite (Z.mod_small (lenZ r)) by lia.
  by rewrite (Z.mod_small (16 - lenZ r)) by lia.
Qed.

Lemma dump_rows n : forall data pre d ind T pch off,
  (length d <= n)%nat -> d <> [] -> data = pre ++ d -> lenZ pre = off -> off mod 16 = 0 ->
  lenZ data < 2 ^ 31 - 1 -> (off = 0 -> pch = ss_new (bytes " ")) ->
  exists T' s' k, dump_loop (length d + 1) data ind (lenZ data) off (Dump (hex_out T) pch off) =
      (Ok tt, Dump (hex_out T') (SStream s' k) (lenZ data)) /\
    T' ++ replicate (Z.to_nat (tail_spaces (lenZ data))) Byte.x20 ++ s' ++ newline =
    T ++ row_sep off pch ++ rows n ind off d.
Proof.
  induction n as [|n IH]; intros data pre d ind T pch off Hn Hne Hd Hpre Hmod Hmax Hpch; [destruct d; [done|simpl in Hn; lia]|].
  assert (Hsplit : d = take 16 d ++ drop 16 d) by (by rewrite take_drop).
  destruct d as [|c d]; [done|]. cbn [rows]. set (all := c :: d) in *.
  assert (Hr : exists r, take 16 all = c :: r) by (eexists; done). destruct Hr as [r Hr].
  assert (Hlr : lenZ (c :: r) <= 16) by (rewrite <- Hr; unfold lenZ; rewrite length_take; lia).
  assert (Hlr0 : 0 < lenZ (c :: r)) by (rewrite lenZ_cons; pose proof (lenZ_nonneg r); lia).
  rewrite Hr in *. set (rest := drop 16 all) in *.
  assert (Hrest : rest = [] \/ lenZ (c :: r) = 16).
  { destruct (decide (length all <= 16)%nat); [left; unfold rest; by apply drop_ge|right].
    rewrite <- Hr. unfold lenZ. rewrite length_take. lia. }
  assert (Hl : (length all + 1 = length (c :: r) + (length rest + 1))%nat) by (rewrite Hsplit, length_app; lia).
  rewrite Hl, (dump_row _ data pre c r rest ind T pch off); try done.
  2: { by rewrite Hd, Hsplit. }
  assert (Hlen : lenZ data = off + lenZ (c :: r) + lenZ rest) by (rewrite Hd, Hsplit, !lenZ_app; lia).
  destruct rest as [|c2 rest2] eqn:Er.
  - cbn [length Nat.add dump_loop]. rewrite lenZ_nil in Hlen.
    destruct (Z.ltb_spec (lenZ (pre ++ c :: r)) (lenZ data)) as [?|_]; [rewrite lenZ_app in *; lia|].
    eexists _, _, _. split; [by rewrite Hlen, Z.add_0_r|].
    rewrite Hlen, Z.add_0_r, tail_spaces_row by done. unfold row_tail. cbv zeta.
    destruct n; cbn [rows]; rewrite app_nil_r, <- ?(assoc_L (++)); done.
  - destruct Hrest as [?|H16]; [done|].
    destruct (IH data (pre ++ c :: r) (c2 :: rest2) ind (T ++ row_sep off pch ++ row_head ind off (c :: r))
      (SStream (map printable (c :: r)) (length (c :: r))) (off + 16)) as (T' & s' & k & E & Htail); try done.
    + rewrite <- Er. unfold rest in *. clear -Hn. rewrite length_drop. simpl in *. lia.
    + by rewrite Hd, Hsplit, <- (assoc_L (++)).
    + rewrite lenZ_app. lia.
    + rewrite Z.add_mod, Hmod by lia. done.
    + intros H0. pose proof (lenZ_nonneg pre). lia.
    + exists T', s', k. rewrite H16. rewrite <- E. split.
      * f_equal. rewrite lenZ_app. lia.
      * rewrite Htail. unfold row_sep. pose proof (lenZ_nonneg pre).
        destruct (Z.eqb_spec (off + 16) 0); [lia|]. unfold row_tail. rewrite H16. cbv zeta.
        cbn [ss_str]. rewrite <- ?(assoc_L (++)). done.
Qed.

(** ** Properties *)

(** C38: The dump of any bytes below 2^31: one row per sixteen bytes, with its
    offset, the bytes in pairs and the characters, the last row filled up to
    the column of the characters, and an empty line.  The base of standard
    output is put back as it was; its fill character is not, it stays [0]. *)
Theorem hexdump_format (d : list byte) (indent : Z) (o : ostream) :
  d <> [] -> lenZ d < 2 ^ 31 - 1 -> 0 <= indent <= string_max_size ->
  hexdump d (lenZ d) indent o =
    (Ok tt, OStream (os_text o ++ rows (length d) (replicate (Z.to_nat indent) Byte.x20) 0 d ++ newline)
                    Byte.x30 (os_hex o)).
Proof.
  intros Hne Hmax Hind. unfold hexdump. rewrite str_fill_ok by lia.
  set (ind := replicate (Z.to_nat indent) Byte.x20).
  destruct (dump_rows (length d) d [] d ind (os_text o) (ss_new (bytes " ")) 0) as (T' & s' & k & E & Htail); try done.
  replace (S (Z.to_nat (lenZ d))) with (length d + 1)%nat by (unfold lenZ; lia).
  unfold mbind at 1, M_bind at 1. rewrite E. unfold print_tail. dump_step.
  assert (Hrem : int_rem (16 - Z.land (lenZ d) 15) 16 = Ok ((16 - lenZ d mod 16) mod 16)).
  { rewrite land15. pose proof (Z.mod_pos_bound (lenZ d) 16 ltac:(lia)). rewrite int_rem_ok by lia.
    f_equal. apply Z.rem_mod_nonneg; lia. }
  rewrite Hrem. pose proof (Z.mod_pos_bound (16 - lenZ d mod 16) 16 ltac:(lia)) as Hb.
  fold (tail_spaces (lenZ d)).
  assert (Hts : tail_spaces (lenZ d) <= string_max_size).
  { unfold tail_spaces, string_max_size. cbv zeta.
    pose proof (Z.div_le_upper_bound ((16 - lenZ d mod 16) mod 16) 2 16 ltac:(lia) ltac:(lia)). lia. }
  rewrite str_fill_ok by done. dump_step. cbn [ss_str].
  change (row_sep 0 (ss_new (bytes " "))) with (@nil byte) in Htail. cbn [app] in Htail.
  by rewrite (assoc_L (++) (os_text o)), <- Htail, <- ?(assoc_L (++)).
Qed.

Lemma hexdump_format_witness :
  hexdump (bytes "hello, world 0123") (lenZ (bytes "hello, world 0123")) 2 (OStream [] Byte.x20 false) =
    (Ok tt, OStream ([] ++ rows (length (bytes "hello, world 0123")) (replicate (Z.to_nat 2) Byte.x20) 0
                             (bytes "hello, world 0123") ++ newline) Byte.x30 false).
Proof.
  apply (hexdump_format (bytes "hello, world 0123") 2 (OStream [] Byte.x20 false)).
  - discriminate.
  - by vm_compute.
  - split; by vm_compute.
Defined.
