(* ===== verification/Random.v ===== *)
(** [get_random_generator] (libsponge/util/util.cc): an [std::mt19937] seeded
    from 624 draws of an [std::random_device].  The device is a parameter;
    [std::seed_seq] and the generator are those of the C++ standard
    (rand.util.seedseq, rand.eng.mers). *)

From S2P Require Import Prelude.

(** ** [std::seed_seq] *)

(** [x ^ (x >> 27)] *)
Definition scramble (x : Z) : Z := Z.lxor x (Z.shiftr x 27).

Definition words_at (l : list Z) (i : Z) : Z := l !!! Z.to_nat (i mod lenZ l).
Definition put_word (i : Z) (x : Z) (l : list Z) : list Z := <[Z.to_nat (i mod lenZ l) := x]> l.

(** The lag between the words that are mixed: [t] in the standard. *)
Definition lag (n : Z) : Z :=
  if n >=? 623 then 11 else if n >=? 68 then 7 else if n >=? 39 then 5
  else if n >=? 7 then 3 else (n - 1) / 2.

(** One iteration of each of the two loops of [generate]; [v] are the words the
    sequence was built from, [b] the range being filled. *)
Definition mix_add (v : list Z) (p q k : Z) (b : list Z) : list Z :=
  let s := lenZ v in
  let r1 := u32 (1664525 * scramble (Z.lxor (Z.lxor (words_at b k) (words_at b (k + p))) (words_at b (k - 1)))) in
  let r2 := u32 (r1 + (if k =? 0 then s
                       else if k <=? s then k mod lenZ b + words_at v (k - 1)
                       else k mod lenZ b)) in
  let b := put_word (k + p) (u32 (words_at b (k + p) + r1)) b in
  let b := put_word (k + q) (u32 (words_at b (k + q) + r2)) b in
  put_word k r2 b.
Definition mix_xor (p q k : Z) (b : list Z) : list Z :=
  let r3 := u32 (1566083941 * scramble (u32 (words_at b k + words_at b (k + p) + words_at b (k - 1)))) in
  let r4 := u32 (r3 - k mod lenZ b) in
  let b := put_word (k + p) (Z.lxor (words_at b (k + p)) r3) b in
  let b := put_word (k + q) (Z.lxor (words_at b (k + q)) r4) b in
  put_word k r4 b.

Definition seed_seq_generate (v : list Z) (n : Z) : list Z :=
  let t := lag n in
  let p := (n - t) / 2 in
  let q := p + t in
  let m := Z.max (lenZ v + 1) n in
  let b := replicate (Z.to_nat n) 2341178251 (* 0x8b8b8b8b *) in
  let b := foldl (fun b k => mix_add v p q k b) b (seqZ 0 m) in
  foldl (fun b k => mix_xor p q k b) b (seqZ m n).

(** ** [std::mt19937] *)

Definition mt_n : Z := 624.
Definition mt_m : nat := 397.
Definition mt_a : Z := 2567483615. (* 0x9908b0df *)
Definition upper_mask : Z := 2147483648. (* 0x80000000 *)
Definition lower_mask : Z := 2147483647. (* 0x7fffffff *)

(** The state is the last 624 words of the sequence, oldest first.  Only the
    most significant bit of the oldest one counts. *)
Definition degenerate (x : list Z) : bool :=
  match x with
  | [] => true
  | x0 :: xs => (Z.land x0 upper_mask =? 0) && forallb (fun w => w =? 0) xs
  end.

(** [mt19937(seed)]: an all-zero state is replaced by one that is not. *)
Definition mt_seed (v : list Z) : list Z :=
  let x := seed_seq_generate v mt_n in
  if degenerate x then <[0%nat := 2 ^ 31]> x else x.

Definition twist (x0 x1 xm : Z) : Z :=
  let y := Z.lor (Z.land x0 upper_mask) (Z.land x1 lower_mask) in
  Z.lxor xm (Z.lxor (Z.shiftr y 1) (if Z.odd y then mt_a else 0)).

Definition temper (x : Z) : Z :=
  let z := Z.lxor x (Z.shiftr x 11) in
  let z := Z.lxor z (Z.land (u32 (Z.shiftl z 7)) 2636928640 (* 0x9d2c5680 *)) in
  let z := Z.lxor z (Z.land (u32 (Z.shiftl z 15)) 4022730752 (* 0xefc60000 *)) in
  Z.lxor z (Z.shiftr z 18).

(** [operator()]: the next word of the sequence, tempered. *)
Definition mt_next (x : list Z) : Z * list Z :=
  let w := twist (x !!! 0%nat) (x !!! 1%nat) (x !!! mt_m) in
  (temper w, tail x ++ [w]).

Fixpoint mt_outputs (n : nat) (x : list Z) : list Z * list Z :=
  match n with
  | O => ([], x)
  | S n => let '(o, x) := mt_next x in let '(os, x) := mt_outputs n x in (o :: os, x)
  end.

(** ** get_random_generator *)

Section device.
(** Constructing an [std::random_device], and drawing from it. *)
Context {W : Type} (open_device : M W unit) (rd : M W Z).

Fixpoint generate (n : nat) : M W (list Z) :=
  match n with
  | O => mret []
  | S n => x ← rd; xs ← generate n; mret (u32 x :: xs)
  end.

Definition get_random_generator : M W (list Z) :=
  open_device ;;
  seed_data ← generate (Z.to_nat mt_n);
  mret (mt_seed seed_data).

End device.

(** ** Drawing from the device *)

Section draws.
Context {W : Type} (open_device : M W unit) (rd : M W Z).

(** A device that never fails: its values and its states in turn. *)
Definition never_fails : Prop := forall w, exists x, fst (rd w) = Ok x.
Definition drawn (n : nat) (w : W) : W := Nat.iter n (fun w => snd (rd w)) w.

Lemma drawn_S n w : drawn (S n) w = drawn n (snd (rd w)).
Proof. unfold drawn. by rewrite Nat.iter_succ_r. Qed.

Lemma generate_ok n w :
  never_fails ->
  exists xs, generate rd n w = (Ok xs, drawn n w) /\ length xs = n /\
    forall i x, xs !! i = Some x -> exists y, fst (rd (drawn i w)) = Ok y /\ x = u32 y.
Proof.
  intros Hrd. revert w. induction n as [|n IH]; intros w; [by exists []|].
  destruct (IH (snd (rd w))) as (xs & E & Hl & Hx). destruct (Hrd w) as [y Hy].
  exists (u32 y :: xs). rewrite drawn_S. cbn [generate]. run.
  destruct (rd w) as [r w'] eqn:Er. simpl in Hy. subst r. simpl in E, Hx. rewrite E.
  split; [done|]. split; [simpl; lia|]. intros [|i] x; cbn [lookup list_lookup].
  - intros [= <-]. exists y. change (drawn 0 w) with w. by rewrite Er.
  - intros Hi. rewrite drawn_S, Er. by apply Hx.
Qed.

Lemma generate_fails n i w e :
  (i < n)%nat -> (forall j, (j < i)%nat -> exists x, fst (rd (drawn j w)) = Ok x) ->
  fst (rd (drawn i w)) = Exc e -> generate rd n w = (Exc e, drawn (S i) w).
Proof.
  revert i w. induction n as [|n IH]; intros i w Hi Hok He; [lia|]. cbn [generate]. run. rewrite drawn_S.
  destruct i as [|i].
  - change (drawn 0 w) with w in He. change (drawn 0 (snd (rd w))) with (snd (rd w)).
    destruct (rd w). simpl in *. by subst.
  - destruct (Hok 0%nat ltac:(lia)) as [x Hx]. change (drawn 0 w) with w in Hx. rewrite drawn_S in He.
    specialize (IH i (snd (rd w)) ltac:(lia)).
    destruct (rd w) as [r w'] eqn:Er. cbn [fst snd] in *. subst r.
    rewrite IH; [done| |done]. intros j Hj. destruct (Hok (S j) ltac:(lia)) as [y Hy].
    rewrite drawn_S, Er in Hy. by exists y.
Qed.

(** ** Properties *)

(** C34: [get_random_generator] on every branch.  A device that cannot be opened
    makes it throw.  One that never fails is drawn from exactly 624 times, whatever
    the values, and the generator is seeded by those values modulo 2^32 in the order
    they were drawn.  One that fails at a draw makes it throw the same exception,
    after that draw and no other. *)
Theorem generator_seeded_by_624_draws (w : W) :
  match open_device w with
  | (Ok _, w1) =>
      (never_fails -> exists seed_data,
        get_random_generator open_device rd w = (Ok (mt_seed seed_data), drawn 624 w1) /\
        length seed_data = 624%nat /\
        forall i x, seed_data !! i = Some x -> exists y, fst (rd (drawn i w1)) = Ok y /\ x = u32 y) /\
      (forall i e, (i < 624)%nat -> (forall j, (j < i)%nat -> exists x, fst (rd (drawn j w1)) = Ok x) ->
        fst (rd (drawn i w1)) = Exc e -> get_random_generator open_device rd w = (Exc e, drawn (S i) w1))
  | (Exc e, w1) => get_random_generator open_device rd w = (Exc e, w1)
  | _ => True
  end.
Proof.
  unfold get_random_generator. change (Z.to_nat mt_n) with 624%nat. run.
  destruct (open_device w) as [[[]|e|u|] w1]; try done. split.
  - intros Hrd. destruct (generate_ok 624 w1 Hrd) as (xs & E & H). exists xs. by rewrite E.
  - intros i e Hi Hok He. by rewrite (generate_fails 624 i w1 e).
Qed.

End draws.

(** ** A concrete device *)

(** A device that counts its draws in the world and returns a multiple. *)
Definition demo_open : M Z unit := mret tt.
Definition demo_device : M Z Z := fun n => (Ok (u32 (n * 2654435761 + 12345)), n + 1).

Lemma demo_never_fails : never_fails demo_device.
Proof. intros w. eexists. reflexivity. Qed.

(** The first numbers of the generator seeded from this device, as the C++
    standard library computes them. *)
Example demo_numbers :
  match get_random_generator demo_open demo_device 0 with
  | (Ok g, w) => w = 624 /\ fst (mt_outputs 3 g) = [4080841095; 4276535044; 1642028806]
  | _ => False
  end.
Proof. vm_compute. done. Qed.

(** A device that fails at the third draw. *)
Definition dying_device : M Z Z := fun n => (if n <? 2 then Ok n else Exc (runtime_error "no entropy"), n + 1).

Lemma generator_seeded_by_624_draws_witness :
  (exists seed_data,
    get_random_generator demo_open demo_device 0 = (Ok (mt_seed seed_data), drawn demo_device 624 0) /\
    length seed_data = 624%nat /\
    forall i x, seed_data !! i = Some x -> exists y, fst (demo_device (drawn demo_device i 0)) = Ok y /\ x = u32 y) /\
  get_random_generator demo_open dying_device 0 = (Exc (runtime_error "no entropy"), 3).
Proof.
  split; [apply (generator_seeded_by_624_draws demo_open demo_device 0), demo_never_fails|].
  apply (generator_seeded_by_624_draws demo_open dying_device 0) with (i := 2%nat); [lia| |reflexivity].
  intros j Hj. destruct j as [|[|j]]; [by eexists|by eexists|lia].
Defined.
