(* ===== verification/Harness.v ===== *)
(** The test harness of [ByteStream] (tests/byte_stream_test_harness.hh,
    byte_stream_test_harness.cc), over any implementation of the interface of
    StreamSpec.v: test steps, what a failure prints and throws, and the verdict on
    a lawful implementation: a test passes exactly when all it says is true of the
    abstract queue, and otherwise the first wrong step is reported. *)

From S2P Require Import Prelude StreamSpec ByteStream Buffer BufferViewList Kernel.

(** ** Test steps *)

(** The classes derived from [ByteStreamTestStep], and the three base classes,
    which can be instantiated too. *)
Inductive test_step :=
  | ByteStreamTestStep
  | ByteStreamExpectation
  | ByteStreamAction
  | EndInput
  | Write (_data : list byte) (_bytes_written : option Z)
  | Pop (_len : Z)
  | InputEnded (_input_ended : bool)
  | BufferEmpty (_buffer_empty : bool)
  | Eof (_eof : bool)
  | BufferSize (_buffer_size : Z)
  | BytesWritten (_bytes_written : Z)
  | BytesRead (_bytes_read : Z)
  | RemainingCapacity (_remaining_capacity : Z)
  | Peek (_output : list byte).

(** [Write{d}.with_bytes_written(n)] *)
Definition with_bytes_written (n : Z) (st : test_step) : test_step :=
  match st with Write d _ => Write d (Some n) | st => st end.

(** Characters a literal cannot hold, and bytes as characters. *)
Definition dq : string := String (Ascii.ascii_of_nat 34) EmptyString.
Definition text (d : list byte) : string := String.string_of_list_byte d.

(** [std::to_string] of a [bool] prints the number it promotes to. *)
Definition bool_string (b : bool) : string := if b then "1"%string else "0"%string.

Definition description (st : test_step) : string :=
  (match st with
   | ByteStreamTestStep | ByteStreamExpectation | ByteStreamAction => "description missing"
   | EndInput => "end input"
   | Write d _ => "write " ++ dq ++ text d ++ dq ++ " to the stream"
   | Pop len => "pop " ++ pretty len
   | InputEnded b => "input_ended: " ++ bool_string b
   | BufferEmpty b => "buffer_empty: " ++ bool_string b
   | Eof b => "eof: " ++ bool_string b
   | BufferSize n => "buffer_size: " ++ pretty n
   | BytesWritten n => "bytes_written: " ++ pretty n
   | BytesRead n => "bytes_read: " ++ pretty n
   | RemainingCapacity n => "remaining_capacity: " ++ pretty n
   | Peek d => dq ++ text d ++ dq ++ " at the front of the stream"
   end)%string.

(** [operator std::string()] *)
Definition step_string (st : test_step) : string :=
  (match st with
   | ByteStreamTestStep => "ByteStreamTestStep"
   | ByteStreamAction | EndInput | Write _ _ | Pop _ => "     Action: " ++ description st
   | _ => "Expectation: " ++ description st
   end)%string.

(** [ByteStreamExpectationViolation::property] *)
Definition property (property_name expected actual : string) : exn :=
  expectation_violation ("The ByteStream should have had " ++ property_name ++ " equal to " ++
                         expected ++ " but instead it was " ++ actual)%string.

Section harness.
Context {T : Type} `{ByteStreamImpl T} (strerror gai_strerror : Z -> string).

(** ** Executing a step *)

(** A method's result, at the type the method has in the code; an
    implementation that answers with another kind of value is stuck. *)
Definition size_of (op : stream_op) : M T Z :=
  o ← bs_do op; match o with ObsSize n => mret n | _ => lift NoFuel end.
Definition bool_of (op : stream_op) : M T bool :=
  o ← bs_do op; match o with ObsBool b => mret b | _ => lift NoFuel end.
Definition bytes_of (op : stream_op) : M T (list byte) :=
  o ← bs_do op; match o with ObsBytes d => mret d | _ => lift NoFuel end.

Definition expect_size (name : string) (op : stream_op) (expected : Z) : M T unit :=
  actual ← size_of op;
  if negb (actual =? expected) then throw (property name (pretty expected) (pretty actual)) else mret tt.
Definition expect_bool (name : string) (op : stream_op) (expected : bool) : M T unit :=
  actual ← bool_of op;
  if negb (Bool.eqb actual expected) then throw (property name (bool_string expected) (bool_string actual))
  else mret tt.

(** The virtual [execute] of each class. *)
Definition execute_step (st : test_step) : M T unit :=
  match st with
  | ByteStreamTestStep | ByteStreamExpectation | ByteStreamAction => mret tt
  | EndInput => bs_do OpEndInput ;; mret tt
  | Write d expected =>
      bytes_written ← size_of (OpWrite d);
      match expected with
      | Some n => if negb (bytes_written =? n)
                  then throw (property "bytes_written" (pretty n) (pretty bytes_written)) else mret tt
      | None => mret tt
      end
  | Pop len => bs_do (OpPop len) ;; mret tt
  | InputEnded b => expect_bool "input_ended" OpInputEnded b
  | BufferEmpty b => expect_bool "buffer_empty" OpBufferEmpty b
  | Eof b => expect_bool "eof" OpEof b
  | BufferSize n => expect_size "buffer_size" OpBufferSize n
  | BytesWritten n => expect_size "bytes_written" OpBytesWritten n
  | BytesRead n => expect_size "bytes_read" OpBytesRead n
  | RemainingCapacity n => expect_size "remaining_capacity" OpRemainingCapacity n
  | Peek expected =>
      output ← bytes_of (OpPeek (lenZ expected));
      if bool_decide (output <> expected)
      then throw (expectation_violation ("Expected " ++ dq ++ text expected ++ dq ++
                    " at the front of the stream, but found " ++ dq ++ text output ++ dq)%string)
      else mret tt
  end.

(** ** ByteStreamTestHarness *)

Record harness := Harness {
  _test_name : string;
  _byte_stream : T;
  _steps_executed : list string
}.

(** [ByteStreamTestHarness(test_name, capacity)] *)
Definition new_harness (test_name : string) (capacity : Z) : res harness :=
  bs ← bs_new capacity;
  mret (Harness test_name bs [("Initialized with (" ++ "capacity=" ++ pretty capacity ++ ")")%string]).

(** What a failing step writes to [std::cerr]. *)
Definition failure_report (st : test_step) (kind message : string) (steps : list string) : string :=
  ("Test Failure on expectation:" ++ nl ++ tab ++ step_string st ++
   nl ++ nl ++ kind ++ ":" ++ nl ++ tab ++ message ++
   nl ++ nl ++ "List of steps that executed successfully:" ++
   String.concat EmptyString ((fun s => nl ++ tab ++ s) <$> steps) ++ nl ++ nl)%string.

(** [execute(step)], over the harness and what has been written to
    [std::cerr]. *)
Definition execute (st : test_step) : M (harness * string) unit := fun s =>
  let '(Harness name bs steps, cerr) := s in
  match execute_step st bs with
  | (Ok _, bs) => (Ok tt, (Harness name bs (steps ++ [step_string st]), cerr))
  | (Exc (expectation_violation message), bs) =>
      (Exc (expectation_violation ("The test " ++ dq ++ name ++ dq ++ " failed")),
       (Harness name bs steps, cerr ++ failure_report st "Failure message" message steps))
  | (Exc e, bs) =>
      (Exc (expectation_violation
         ("The test " ++ dq ++ name ++ dq ++ " caused your implementation to throw an exception!")),
       (Harness name bs steps, cerr ++ failure_report st "Exception" (what strerror gai_strerror e) steps))
  | (Undef u, bs) => (Undef u, (Harness name bs steps, cerr))
  | (NoFuel, bs) => (NoFuel, (Harness name bs steps, cerr))
  end%string.

(** ** Test programs *)

(** A block of a test program: a harness of its own, and what it executes. *)
Record test_case := TestCase {
  test_name : string;
  capacity : Z;
  test_body : M (harness * string) unit
}.

(** [test.execute(st1); test.execute(st2); ...] *)
Definition executes (l : list test_step) : M (harness * string) unit := for_each execute l.

Definition run_test (t : test_case) : M string unit := fun cerr =>
  match new_harness (test_name t) (capacity t) with
  | Ok h => let '(r, (_, cerr)) := test_body t (h, cerr) in (r, cerr)
  | Exc e => (Exc e, cerr)
  | Undef u => (Undef u, cerr)
  | NoFuel => (NoFuel, cerr)
  end.

(** [try { ... } catch (const exception &e) { ... }] around the body of [main];
    the exit status. *)
Definition main_of {S} (add_cerr : string -> S -> S) (body : M S unit) : M S Z := fun s =>
  match body s with
  | (Ok _, s) => (Ok 0, s)
  | (Exc e, s) => (Ok 1, add_cerr ("Exception: " ++ what strerror gai_strerror e ++ nl)%string s)
  | (Undef u, s) => (Undef u, s)
  | (NoFuel, s) => (NoFuel, s)
  end.

Definition suite (tests : list test_case) : M string Z :=
  main_of (fun m cerr => (cerr ++ m)%string) (for_each run_test tests).

End harness.
Arguments harness : clear implicits.
Arguments test_case : clear implicits.

(** ** A lawful implementation passes the tests the abstract queue passes *)

(** The lengths a step passes to the stream are [size_t]. *)
Definition step_ok (st : test_step) : Prop :=
  match st with
  | Pop len => 0 <= len < 2 ^ 64
  | Peek d => lenZ d < 2 ^ 64
  | _ => True
  end.

(** An expectation on the abstract queue that holds. *)
Lemma queue_expects_size name op n (a : astream) :
  a_step op a = (ObsSize n, a) -> expect_size name op n a = (Ok tt, a).
Proof. intros E. unfold expect_size, size_of. run. simpl. rewrite E. simpl. by rewrite Z.eqb_refl. Qed.
Lemma queue_expects_bool name op b (a : astream) :
  a_step op a = (ObsBool b, a) -> expect_bool name op b a = (Ok tt, a).
Proof. intros E. unfold expect_bool, bool_of. run. simpl. rewrite E. simpl. by rewrite Bool.eqb_reflx. Qed.

(** A test whose body is a list of steps. *)
Definition of_steps {T} `{ByteStreamImpl T} (strerror gai_strerror : Z -> string)
    (t : string * Z * list test_step) : test_case T :=
  let '(name, cap, l) := t in TestCase name cap (executes strerror gai_strerror l).

Section lawful.
Context `{ByteStreamLaws T} (strerror gai_strerror : Z -> string).

#[local] Hint Resolve follows_bind : sponge.

Lemma bs_do_follows op : op_ok op -> follows bs_rep (bs_do op) (bs_do op).
Proof. intros Hop s a HR. exact (bs_do_ok op s a Hop HR). Qed.

Lemma size_of_follows op : op_ok op -> follows bs_rep (size_of op) (size_of op).
Proof. intros Hop. apply follows_bind; [by apply bs_do_follows|]. intros []; auto with sponge. Qed.
Lemma bool_of_follows op : op_ok op -> follows bs_rep (bool_of op) (bool_of op).
Proof. intros Hop. apply follows_bind; [by apply bs_do_follows|]. intros []; auto with sponge. Qed.
Lemma bytes_of_follows op : op_ok op -> follows bs_rep (bytes_of op) (bytes_of op).
Proof. intros Hop. apply follows_bind; [by apply bs_do_follows|]. intros []; auto with sponge. Qed.

Lemma expect_size_follows name op n :
  op_ok op -> follows bs_rep (expect_size name op n) (expect_size name op n).
Proof. intros Hop. apply follows_bind; [by apply size_of_follows|]. intros a. case_match; auto with sponge. Qed.
Lemma expect_bool_follows name op b :
  op_ok op -> follows bs_rep (expect_bool name op b) (expect_bool name op b).
Proof. intros Hop. apply follows_bind; [by apply bool_of_follows|]. intros a. case_match; auto with sponge. Qed.

#[local] Hint Resolve bs_do_follows size_of_follows bytes_of_follows expect_size_follows expect_bool_follows : sponge.

Lemma execute_step_follows st :
  step_ok st -> follows bs_rep (execute_step (T := T) st) (execute_step (T := astream) st).
Proof.
  destruct st; simpl; intros Hok; auto with sponge.
  - apply follows_bind; [by apply size_of_follows|]. intros a. repeat case_match; auto with sponge.
  - apply follows_bind; [|intros d; case_bool_decide; auto with sponge].
    apply bytes_of_follows. pose proof (lenZ_nonneg _output). simpl. lia.
Qed.

(** Harnesses that differ in the implementation of the stream only. *)
Definition same_harness (s : harness T * string) (s' : harness astream * string) : Prop :=
  _test_name (fst s) = _test_name (fst s') /\ _steps_executed (fst s) = _steps_executed (fst s') /\
  bs_rep (_byte_stream (fst s)) (_byte_stream (fst s')) /\ snd s = snd s'.

Lemma execute_follows st :
  step_ok st -> follows same_harness (execute strerror gai_strerror st) (execute strerror gai_strerror st).
Proof.
  intros Hok [[name bs steps] cerr] [[name' bs' steps'] cerr'] (En & Es & HR & Ec). simpl in *. subst.
  destruct (execute_step_follows st Hok bs bs' HR) as (t & E & Ht). rewrite E.
  destruct (execute_step (T := astream) st bs') as [[[]|[]|u|] t']; by eexists.
Qed.

Lemma executes_follows l :
  Forall step_ok l ->
  follows same_harness (executes strerror gai_strerror l) (executes strerror gai_strerror l).
Proof. intros Hl. apply follows_for_each. eapply Forall_impl; [exact Hl|]. exact execute_follows. Qed.

(** Two test cases with the same name and capacity, and bodies that follow
    each other. *)
Definition same_test (t : test_case T) (t' : test_case astream) : Prop :=
  test_name t = test_name t' /\ capacity t = capacity t' /\ 0 <= capacity t <= bs_max_cap /\
  follows same_harness (test_body t) (test_body t').

Lemma run_test_same t t' : same_test t t' -> forall cerr, run_test t cerr = run_test t' cerr.
Proof.
  intros (En & Ec & Hc & Hb) cerr. unfold run_test, new_harness. rewrite <- En, <- Ec.
  destruct (bs_new_ok (capacity t) Hc) as (bs & -> & HR). run.
  set (init := [_]).
  destruct (Hb (Harness (test_name t) bs init, cerr) (Harness (test_name t) (a_new (capacity t)) init, cerr))
    as (st & -> & Hst); [by repeat split|].
  change (bs_new (capacity t)) with (Ok (a_new (capacity t))). run.
  destruct (test_body t' _) as [r [h' cerr']]. destruct st as [h cerr'']. destruct Hst as (_ & _ & _ & E).
  simpl in *. by subst.
Qed.

Lemma suite_same ts ts' :
  Forall2 same_test ts ts' ->
  forall cerr, suite strerror gai_strerror ts cerr = suite strerror gai_strerror ts' cerr.
Proof.
  intros Hts cerr. unfold suite, main_of.
  enough (for_each run_test ts cerr = for_each run_test ts' cerr) as -> by done.
  revert cerr. induction Hts as [|t t' ts ts' Ht Hts IH]; intros cerr; [done|]. cbn [for_each]. run.
  rewrite (run_test_same t t' Ht). destruct (run_test t' cerr) as [[]?]; auto.
Qed.

(** Steps the abstract queue passes pass, and print nothing. *)
Lemma executes_pass l a h cerr :
  Forall step_ok l -> fst (for_each (execute_step (T := astream)) l a) = Ok tt ->
  bs_rep (_byte_stream h) a ->
  exists h', executes strerror gai_strerror l (h, cerr) = (Ok tt, (h', cerr)) /\
    bs_rep (_byte_stream h') (snd (for_each (execute_step (T := astream)) l a)).
Proof.
  intros Hl. revert a h. induction Hl as [|st l Hst Hl IH]; intros a h Hp HR; [by exists h|].
  destruct h as [name bs steps]. destruct (execute_step_follows st Hst bs a HR) as (t & E & Ht).
  revert Hp. unfold executes. cbn [for_each]. run. unfold execute at 1. rewrite E.
  destruct (execute_step (T := astream) st a) as [[[]|e|u|] a1]; try done. intros Hp.
  apply (IH a1 (Harness name t (steps ++ [step_string st])) Hp Ht).
Qed.

(** A test that passes: it throws nothing and prints nothing. *)
Definition passes (t : test_case T) : Prop := forall cerr, run_test t cerr = (Ok tt, cerr).

Lemma test_passes name cap body :
  0 <= cap <= bs_max_cap ->
  (forall h cerr, bs_rep (_byte_stream h) (a_new cap) -> exists h', body (h, cerr) = (Ok tt, (h', cerr))) ->
  passes (TestCase name cap body).
Proof.
  intros Hc Hb cerr. unfold run_test, new_harness. simpl.
  destruct (bs_new_ok cap Hc) as (bs & -> & HR). run.
  by destruct (Hb (Harness name bs [("Initialized with (" ++ "capacity=" ++ pretty cap ++ ")")%string]) cerr HR)
    as [h' ->].
Qed.

Lemma steps_pass name cap l :
  0 <= cap <= bs_max_cap -> Forall step_ok l ->
  fst (for_each (execute_step (T := astream)) l (a_new cap)) = Ok tt ->
  passes (TestCase name cap (executes strerror gai_strerror l)).
Proof.
  intros Hc Hl Hp. apply test_passes; [done|]. intros h cerr HR.
  destruct (executes_pass l (a_new cap) h cerr Hl Hp HR) as (h' & E & _). by exists h'.
Qed.

Lemma suite_passes ts cerr : Forall passes ts -> suite strerror gai_strerror ts cerr = (Ok 0, cerr).
Proof.
  intros Hts. unfold suite, main_of. enough (for_each run_test ts cerr = (Ok tt, cerr)) as -> by done.
  induction Hts as [|t ts Ht Hts IH]; [done|]. cbn [for_each]. run. by rewrite Ht.
Qed.

(** Any test program of blocks of steps has the same exit status and writes the
    same text on an implementation that satisfies the laws and on the queue. *)
Lemma verdict_on_queue (tests : list (string * Z * list test_step)) (cerr : string) :
  Forall (fun '(_, cap, l) => 0 <= cap <= bs_max_cap /\ Forall step_ok l) tests ->
  suite strerror gai_strerror (of_steps (T := T) strerror gai_strerror <$> tests) cerr =
  suite strerror gai_strerror (of_steps (T := astream) strerror gai_strerror <$> tests) cerr.
Proof.
  intros Hts. apply suite_same. induction Hts as [|[[name cap] l] ts [Hc Hl] Hts IH]; [constructor|].
  constructor; [|done]. repeat split; try apply Hc. by apply executes_follows.
Qed.

End lawful.

(** ** What a test says of the queue *)

(** What the step claims is true of the queue it meets. *)
Definition true_of (st : test_step) (a : astream) : bool :=
  match st with
  | Write d (Some n) => Z.min (lenZ d) (a_cap a - lenZ (a_data a)) =? n
  | InputEnded b => Bool.eqb (a_ended a) b
  | BufferEmpty b => Bool.eqb (bool_decide (a_data a = [])) b
  | Eof b => Bool.eqb (a_ended a && bool_decide (a_data a = [])) b
  | BufferSize n => lenZ (a_data a) =? n
  | BytesWritten n => a_pushed a =? n
  | BytesRead n => a_popped a =? n
  | RemainingCapacity n => a_cap a - lenZ (a_data a) =? n
  | Peek d => bool_decide (take (length d) (a_data a) = d)
  | _ => true
  end.

(** What it does to the queue. *)
Definition acts_on (st : test_step) (a : astream) : astream :=
  match st with
  | Write d _ => a_write d a
  | Pop n => a_pop n a
  | EndInput => snd (a_step OpEndInput a)
  | _ => a
  end.

(** The first step that is not true, after those that are, and the queue it meets. *)
Fixpoint first_wrong (l : list test_step) (a : astream) : option (list test_step * test_step * astream) :=
  match l with
  | [] => None
  | st :: l =>
      if true_of st a then
        '(before, wrong, a') ← first_wrong l (acts_on st a); Some (st :: before, wrong, a')
      else Some ([], st, a)
  end.

Definition differs (property expected actual : string) : string :=
  ("The ByteStream should have had " ++ property ++ " equal to " ++ expected ++ " but instead it was " ++ actual)%string.

(** What the report says is wrong. *)
Definition complaint (st : test_step) (a : astream) : string :=
  match st with
  | Write d (Some n) => differs "bytes_written" (pretty n) (pretty (Z.min (lenZ d) (a_cap a - lenZ (a_data a))))
  | InputEnded b => differs "input_ended" (if b then "1" else "0") (if a_ended a then "1" else "0")
  | BufferEmpty b => differs "buffer_empty" (if b then "1" else "0") (if bool_decide (a_data a = []) then "1" else "0")
  | Eof b => differs "eof" (if b then "1" else "0") (if a_ended a && bool_decide (a_data a = []) then "1" else "0")
  | BufferSize n => differs "buffer_size" (pretty n) (pretty (lenZ (a_data a)))
  | BytesWritten n => differs "bytes_written" (pretty n) (pretty (a_pushed a))
  | BytesRead n => differs "bytes_read" (pretty n) (pretty (a_popped a))
  | RemainingCapacity n => differs "remaining_capacity" (pretty n) (pretty (a_cap a - lenZ (a_data a)))
  | Peek d => "Expected " ++ dq ++ text d ++ dq ++ " at the front of the stream, but found " ++
              dq ++ text (take (length d) (a_data a)) ++ dq
  | _ => EmptyString
  end%string.

(** How the report names a step. *)
Definition line_of (st : test_step) : string :=
  match st with
  | ByteStreamTestStep => "ByteStreamTestStep"
  | ByteStreamAction => "     Action: description missing"
  | ByteStreamExpectation => "Expectation: description missing"
  | EndInput => "     Action: end input"
  | Write d _ => "     Action: write " ++ dq ++ text d ++ dq ++ " to the stream"
  | Pop n => "     Action: pop " ++ pretty n
  | InputEnded b => "Expectation: input_ended: " ++ (if b then "1" else "0")
  | BufferEmpty b => "Expectation: buffer_empty: " ++ (if b then "1" else "0")
  | Eof b => "Expectation: eof: " ++ (if b then "1" else "0")
  | BufferSize n => "Expectation: buffer_size: " ++ pretty n
  | BytesWritten n => "Expectation: bytes_written: " ++ pretty n
  | BytesRead n => "Expectation: bytes_read: " ++ pretty n
  | RemainingCapacity n => "Expectation: remaining_capacity: " ++ pretty n
  | Peek d => "Expectation: " ++ dq ++ text d ++ dq ++ " at the front of the stream"
  end%string.

Definition indented (s : string) : string := (nl ++ tab ++ s)%string.

(** The first test that says something wrong decides: nothing is written before,
    and nothing runs after it. *)
Fixpoint verdict (tests : list (string * Z * list test_step)) : Z * string :=
  match tests with
  | [] => (0, EmptyString)
  | (name, cap, l) :: tests =>
      match first_wrong l (a_new cap) with
      | None => verdict tests
      | Some (before, wrong, a) =>
          (1, "Test Failure on expectation:" ++ indented (line_of wrong) ++ nl ++ nl ++
              "Failure message:" ++ indented (complaint wrong a) ++ nl ++ nl ++
              "List of steps that executed successfully:" ++
              indented ("Initialized with (capacity=" ++ pretty cap ++ ")") ++
              String.concat EmptyString (indented ∘ line_of <$> before) ++ nl ++ nl ++
              "Exception: The test " ++ dq ++ name ++ dq ++ " failed" ++ nl)
      end
  end%string.

Section queue.
Context (strerror gai_strerror : Z -> string).

Lemma line_of_step st : step_string st = line_of st.
Proof. by destruct st. Qed.

Lemma expect_size_queue name op n m a :
  a_step op a = (ObsSize m, a) ->
  expect_size name op n a =
    if m =? n then (Ok tt, a) else (Exc (expectation_violation (differs name (pretty n) (pretty m))), a).
Proof. intros E. unfold expect_size, size_of. run. simpl. rewrite E. simpl. by destruct (m =? n). Qed.

Lemma expect_bool_queue name op b c a :
  a_step op a = (ObsBool c, a) ->
  expect_bool name op b a =
    if Bool.eqb c b then (Ok tt, a) else (Exc (expectation_violation (differs name (bool_string b) (bool_string c))), a).
Proof. intros E. unfold expect_bool, bool_of. run. simpl. rewrite E. simpl. by destruct (Bool.eqb c b). Qed.

Lemma a_empty_nil a : a_empty a = bool_decide (a_data a = []).
Proof. unfold a_empty. by destruct (a_data a). Qed.

(** A step on the queue. *)
Lemma execute_step_queue st a :
  execute_step (T := astream) st a =
    (if true_of st a then Ok tt else Exc (expectation_violation (complaint st a)), acts_on st a).
Proof.
  destruct st as [| | | |d [n|]|n|b|b|b|n|n|n|n|d]; try done; cbn [execute_step true_of complaint acts_on];
    try (erewrite expect_size_queue by reflexivity; by destruct (_ =? n));
    try (erewrite expect_bool_queue by reflexivity; rewrite ?a_empty_nil; unfold bool_string; by destruct (Bool.eqb _ b)).
  - unfold size_of. run. simpl. unfold a_room. by destruct (_ =? n).
  - unfold bytes_of. run. simpl. unfold a_front, lenZ. rewrite Nat2Z.id.
    destruct (decide (take (length d) (a_data a) = d)) as [E|N].
    + by rewrite (bool_decide_eq_true_2 (_ = d)), bool_decide_eq_false_2 by (by auto).
    + by rewrite (bool_decide_eq_false_2 (_ = d)), bool_decide_eq_true_2.
Qed.

Lemma executes_queue l name a steps cerr :
  let '(r, (_, out)) := executes (T := astream) strerror gai_strerror l (Harness name a steps, cerr) in
  match first_wrong l a with
  | None => r = Ok tt /\ out = cerr
  | Some (before, wrong, a') =>
      r = Exc (expectation_violation ("The test " ++ dq ++ name ++ dq ++ " failed")) /\
      out = (cerr ++ failure_report wrong "Failure message" (complaint wrong a') (steps ++ (line_of <$> before)))%string
  end.
Proof.
  revert a steps. induction l as [|st l IH]; intros a steps; [done|].
  unfold executes in *. cbn [for_each first_wrong]. run. unfold execute at 1. rewrite execute_step_queue.
  destruct (true_of st a); [|by rewrite app_nil_r].
  specialize (IH (acts_on st a) (steps ++ [step_string st])).
  destruct (for_each _ l _) as [r [h out]]. destruct (first_wrong l (acts_on st a)) as [[[before wrong] a']|]; [|done].
  destruct IH as [-> ->]. cbn. split; [done|]. by rewrite <- (assoc_L (++)), line_of_step.
Qed.

Lemma run_test_queue name cap l cerr :
  run_test (of_steps (T := astream) strerror gai_strerror (name, cap, l)) cerr =
  match first_wrong l (a_new cap) with
  | None => (Ok tt, cerr)
  | Some (before, wrong, a) =>
      (Exc (expectation_violation ("The test " ++ dq ++ name ++ dq ++ " failed")),
       (cerr ++ failure_report wrong "Failure message" (complaint wrong a)
         (("Initialized with (capacity=" ++ pretty cap ++ ")") :: (line_of <$> before)))%string)
  end.
Proof.
  unfold run_test, new_harness. cbn [of_steps test_name capacity test_body]. run. cbn [bs_new queue_impl].
  match goal with |- context [Harness name ?a ?steps] => pose proof (executes_queue l name a steps cerr) as H end.
  destruct (executes _ _ _ _) as [r [h out]]. destruct (first_wrong l (a_new cap)) as [[[before wrong] a]|]; by destruct H as [-> ->].
Qed.

Lemma failure_report_text st message s before :
  failure_report st "Failure message" message (s :: (line_of <$> before)) =
  ("Test Failure on expectation:" ++ indented (line_of st) ++ nl ++ nl ++ "Failure message:" ++ indented message ++
   nl ++ nl ++ "List of steps that executed successfully:" ++ indented s ++
   String.concat EmptyString (indented ∘ line_of <$> before) ++ nl ++ nl)%string.
Proof.
  unfold failure_report. rewrite fmap_cons, string_concat_cons, line_of_step, <- list_fmap_compose.
  unfold indented, compose. by rewrite <- !(assoc_L String.append).
Qed.

Lemma suite_queue tests cerr :
  suite strerror gai_strerror (of_steps (T := astream) strerror gai_strerror <$> tests) cerr =
  (Ok (fst (verdict tests)), (cerr ++ snd (verdict tests))%string).
Proof.
  unfold suite, main_of. induction tests as [|[[name cap] l] tests IH].
  { cbn. by rewrite (right_id_L EmptyString String.append). }
  rewrite fmap_cons. cbn [for_each verdict]. run. rewrite run_test_queue.
  destruct (first_wrong l (a_new cap)) as [[[before wrong] a]|]; [|exact IH].
  cbn [fst snd]. rewrite failure_report_text. cbn [what]. by rewrite <- !(assoc_L String.append).
Qed.
End queue.

(** A test that fails on the fourth step, on any lawful stream. *)
Definition failing_test : list (string * Z * list test_step) :=
  [("overfull"%string, 2, [Write (bytes "cat") (Some 2); Peek (bytes "ca"); Pop 1; BufferSize 2])].

(** What the harness reports of a failed expectation: the step, the value
    expected and the value found, the steps that passed, and the name of the
    test; the exit status is 1. *)
Example failing_test_report (strerror gai_strerror : Z -> string) :
  suite strerror gai_strerror (of_steps (T := astream) strerror gai_strerror <$> failing_test) EmptyString =
  (Ok 1,
   "Test Failure on expectation:" ++ nl ++ tab ++ "Expectation: buffer_size: 2" ++ nl ++ nl ++
   "Failure message:" ++ nl ++ tab ++
   "The ByteStream should have had buffer_size equal to 2 but instead it was 1" ++ nl ++ nl ++
   "List of steps that executed successfully:" ++
   nl ++ tab ++ "Initialized with (capacity=2)" ++
   nl ++ tab ++ "     Action: write " ++ dq ++ "cat" ++ dq ++ " to the stream" ++
   nl ++ tab ++ "Expectation: " ++ dq ++ "ca" ++ dq ++ " at the front of the stream" ++
   nl ++ tab ++ "     Action: pop 1" ++ nl ++ nl ++
   "Exception: The test " ++ dq ++ "overfull" ++ dq ++ " failed" ++ nl)%string.
Proof. reflexivity. Qed.

(** C19: what the test harness decides: on any implementation that satisfies the
    laws of the byte stream, a test program made of blocks of steps exits with 0
    and writes nothing exactly when every step is true of the bounded queue it is
    run on; otherwise it exits with 1 and writes one report, of the first step that
    is not: the step, the value expected and the value there is, and the steps of
    its test that went before it. *)
Theorem harness_verdict `{ByteStreamLaws T} (strerror gai_strerror : Z -> string)
    (tests : list (string * Z * list test_step)) (cerr : string) :
  Forall (fun '(_, cap, l) => 0 <= cap <= bs_max_cap /\ Forall step_ok l) tests ->
  suite strerror gai_strerror (of_steps (T := T) strerror gai_strerror <$> tests) cerr =
  (Ok (fst (verdict tests)), (cerr ++ snd (verdict tests))%string).
Proof. intros Hts. rewrite verdict_on_queue by done. apply suite_queue. Qed.

(** A test that passes, and one that does not. *)
Lemma harness_verdict_witness :
  fst (verdict (("fits"%string, 4, [Write (bytes "cat") (Some 3); EndInput; Pop 3; Eof true]) :: failing_test)) = 1 /\
  suite (fun _ => EmptyString) (fun _ => EmptyString)
    (of_steps (T := byte_stream) (fun _ => EmptyString) (fun _ => EmptyString) <$>
     ("fits"%string, 4, [Write (bytes "cat") (Some 3); EndInput; Pop 3; Eof true]) :: failing_test) "log: " =
  (Ok (fst (verdict (("fits"%string, 4, [Write (bytes "cat") (Some 3); EndInput; Pop 3; Eof true]) :: failing_test))),
   ("log: " ++ snd (verdict (("fits"%string, 4, [Write (bytes "cat") (Some 3); EndInput; Pop 3; Eof true]) :: failing_test)))%string).
Proof.
  split; [reflexivity|]. apply (harness_verdict (T := byte_stream)). repeat constructor; vm_compute; done.
Defined.
