(* ===== verification/StreamTests.v ===== *)
(** The test programs of the repository (tests/byte_stream_*.cc) over any
    implementation of a byte stream, and the proof that every lawful one
    passes them, whatever numbers the random generator gives. *)

From S2P Require Import Prelude StreamSpec ByteStream Buffer BufferViewList Kernel Random Harness.

Section tests.
Context {T : Type} `{ByteStreamImpl T} (strerror gai_strerror : Z -> string).

(** A block that only executes steps. *)
Definition test (name : string) (cap : Z) (l : list test_step) : test_case T :=
  TestCase name cap (executes strerror gai_strerror l).

(** ** byte_stream_construction.cc *)

Definition construction_test : test_case T := test "construction" 15 [
    InputEnded false; BufferEmpty true; Eof false; BytesRead 0; BytesWritten 0; RemainingCapacity 15;
    BufferSize 0].

Definition construction_end_test : test_case T := test "construction-end" 15 [
    EndInput; InputEnded true; BufferEmpty true; Eof true; BytesRead 0; BytesWritten 0;
    RemainingCapacity 15; BufferSize 0].

Definition byte_stream_construction : M string Z :=
  suite strerror gai_strerror
    [construction_test; construction_end_test].

(** ** byte_stream_one_write.cc *)

Definition write_end_pop_test : test_case T := test "write-end-pop" 15 [
    Write (bytes "cat") None; InputEnded false; BufferEmpty false; Eof false; BytesRead 0;
    BytesWritten 3; RemainingCapacity 12; BufferSize 3; Peek (bytes "cat"); EndInput; InputEnded true;
    BufferEmpty false; Eof false; BytesRead 0; BytesWritten 3; RemainingCapacity 12; BufferSize 3;
    Peek (bytes "cat"); Pop 3; InputEnded true; BufferEmpty true; Eof true; BytesRead 3;
    BytesWritten 3; RemainingCapacity 15; BufferSize 0].

Definition write_pop_end_test : test_case T := test "write-pop-end" 15 [
    Write (bytes "cat") None; InputEnded false; BufferEmpty false; Eof false; BytesRead 0;
    BytesWritten 3; RemainingCapacity 12; BufferSize 3; Peek (bytes "cat"); Pop 3; InputEnded false;
    BufferEmpty true; Eof false; BytesRead 3; BytesWritten 3; RemainingCapacity 15; BufferSize 0;
    EndInput; InputEnded true; BufferEmpty true; Eof true; BytesRead 3; BytesWritten 3;
    RemainingCapacity 15; BufferSize 0].

Definition write_pop2_end_test : test_case T := test "write-pop2-end" 15 [
    Write (bytes "cat") None; InputEnded false; BufferEmpty false; Eof false; BytesRead 0;
    BytesWritten 3; RemainingCapacity 12; BufferSize 3; Peek (bytes "cat"); Pop 1; InputEnded false;
    BufferEmpty false; Eof false; BytesRead 1; BytesWritten 3; RemainingCapacity 13; BufferSize 2;
    Peek (bytes "at"); Pop 2; InputEnded false; BufferEmpty true; Eof false; BytesRead 3;
    BytesWritten 3; RemainingCapacity 15; BufferSize 0; EndInput; InputEnded true; BufferEmpty true;
    Eof true; BytesRead 3; BytesWritten 3; RemainingCapacity 15; BufferSize 0].

Definition byte_stream_one_write : M string Z :=
  suite strerror gai_strerror
    [write_end_pop_test; write_pop_end_test; write_pop2_end_test].

(** ** byte_stream_two_writes.cc *)

Definition write_write_end_pop_pop_test : test_case T := test "write-write-end-pop-pop" 15 [
    Write (bytes "cat") None; InputEnded false; BufferEmpty false; Eof false; BytesRead 0;
    BytesWritten 3; RemainingCapacity 12; BufferSize 3; Peek (bytes "cat"); Write (bytes "tac") None;
    InputEnded false; BufferEmpty false; Eof false; BytesRead 0; BytesWritten 6; RemainingCapacity 9;
    BufferSize 6; Peek (bytes "cattac"); EndInput; InputEnded true; BufferEmpty false; Eof false;
    BytesRead 0; BytesWritten 6; RemainingCapacity 9; BufferSize 6; Peek (bytes "cattac"); Pop 2;
    InputEnded true; BufferEmpty false; Eof false; BytesRead 2; BytesWritten 6; RemainingCapacity 11;
    BufferSize 4; Peek (bytes "ttac"); Pop 4; InputEnded true; BufferEmpty true; Eof true; BytesRead 6;
    BytesWritten 6; RemainingCapacity 15; BufferSize 0].

Definition write_pop_write_end_pop_test : test_case T := test "write-pop-write-end-pop" 15 [
    Write (bytes "cat") None; InputEnded false; BufferEmpty false; Eof false; BytesRead 0;
    BytesWritten 3; RemainingCapacity 12; BufferSize 3; Peek (bytes "cat"); Pop 2; InputEnded false;
    BufferEmpty false; Eof false; BytesRead 2; BytesWritten 3; RemainingCapacity 14; BufferSize 1;
    Peek (bytes "t"); Write (bytes "tac") None; InputEnded false; BufferEmpty false; Eof false;
    BytesRead 2; BytesWritten 6; RemainingCapacity 11; BufferSize 4; Peek (bytes "ttac"); EndInput;
    InputEnded true; BufferEmpty false; Eof false; BytesRead 2; BytesWritten 6; RemainingCapacity 11;
    BufferSize 4; Peek (bytes "ttac"); Pop 4; InputEnded true; BufferEmpty true; Eof true; BytesRead 6;
    BytesWritten 6; RemainingCapacity 15; BufferSize 0].

Definition byte_stream_two_writes : M string Z :=
  suite strerror gai_strerror
    [write_write_end_pop_pop_test; write_pop_write_end_pop_test].

(** ** byte_stream_capacity.cc *)

Definition overwrite_test : test_case T := test "overwrite" 2 [
    Write (bytes "cat") (Some 2); InputEnded false; BufferEmpty false; Eof false; BytesRead 0;
    BytesWritten 2; RemainingCapacity 0; BufferSize 2; Peek (bytes "ca"); Write (bytes "t") (Some 0);
    InputEnded false; BufferEmpty false; Eof false; BytesRead 0; BytesWritten 2; RemainingCapacity 0;
    BufferSize 2; Peek (bytes "ca")].

Definition overwrite_clear_overwrite_test : test_case T := test "overwrite-clear-overwrite" 2 [
    Write (bytes "cat") (Some 2); Pop 2; Write (bytes "tac") (Some 2); InputEnded false;
    BufferEmpty false; Eof false; BytesRead 2; BytesWritten 4; RemainingCapacity 0; BufferSize 2;
    Peek (bytes "ta")].

Definition overwrite_pop_overwrite_test : test_case T := test "overwrite-pop-overwrite" 2 [
    Write (bytes "cat") (Some 2); Pop 1; Write (bytes "tac") (Some 1); InputEnded false;
    BufferEmpty false; Eof false; BytesRead 1; BytesWritten 3; RemainingCapacity 0; BufferSize 2;
    Peek (bytes "at")].

(** The body of the loop of "long-stream". *)
Definition long_stream_round : list test_step := [
    RemainingCapacity 1; BufferSize 2; Write (bytes "abc") (Some 1); RemainingCapacity 0;
    Peek (bytes "bca"); Pop 1;
    RemainingCapacity 1; BufferSize 2; Write (bytes "bca") (Some 1); RemainingCapacity 0;
    Peek (bytes "cab"); Pop 1;
    RemainingCapacity 1; BufferSize 2; Write (bytes "cab") (Some 1); RemainingCapacity 0;
    Peek (bytes "abc"); Pop 1].
Definition long_stream_test : test_case T := TestCase "long-stream" 3
  (executes strerror gai_strerror [Write (bytes "abcdef") (Some 3); Peek (bytes "abc"); Pop 1] ;;
   for_from (Z.to_nat 99997) 0 (fun _ => executes strerror gai_strerror long_stream_round) ;;
   executes strerror gai_strerror [EndInput; Peek (bytes "bc"); Pop 2; Eof true]).

Definition byte_stream_capacity : M string Z :=
  suite strerror gai_strerror
    [overwrite_test; overwrite_clear_overwrite_test; overwrite_pop_overwrite_test; long_stream_test].

(** ** byte_stream_many_writes.cc *)

Definition NREPS : Z := 1000.
Definition MIN_WRITE : Z := 10.
Definition MAX_WRITE : Z := 200.
Definition CAPACITY : Z := MAX_WRITE * NREPS.

(** [generate(d.begin(), d.end(), [&] { return 'a' + (rd() % 26); })] *)
Fixpoint random_text (n : nat) (rd : list Z) : list byte * list Z :=
  match n with
  | O => ([], rd)
  | S n => let '(x, rd) := mt_next rd in
           let '(d, rd) := random_text n rd in (byte_of (97 + x mod 26) :: d, rd)
  end.

(** The expectations of one round, after [d] has been written. *)
Definition many_writes_steps (size acc : Z) (d : list byte) : list test_step :=
  [with_bytes_written size (Write d None); InputEnded false; BufferEmpty false; Eof false; BytesRead 0;
   BytesWritten acc; RemainingCapacity (u64 (CAPACITY - acc)); BufferSize acc].

(** The body of the loop, over the harness, the generator and [acc]. *)
Definition many_writes_round : M (harness T * string * (list Z * Z)) unit := fun s =>
  let '(h, (rd, acc)) := s in
  let '(x, rd) := mt_next rd in
  let size := MIN_WRITE + x mod (MAX_WRITE - MIN_WRITE) in
  let '(d, rd) := random_text (Z.to_nat size) rd in
  let acc := u64 (acc + size) in
  let '(r, h) := executes strerror gai_strerror (many_writes_steps size acc d) h in
  (r, (h, (rd, acc))).

Definition many_writes_test (rd : list Z) : test_case T :=
  TestCase "many writes" CAPACITY (fun h =>
    let '(r, (h, _)) := for_from (Z.to_nat NREPS) 0 (fun _ => many_writes_round) (h, (rd, 0)) in (r, h)).

(** [main], over the state of the random device and standard error. *)
Definition byte_stream_many_writes {W} (open_device : M W unit) (device : M W Z) : M (W * string) Z :=
  main_of strerror gai_strerror (fun m s => (fst s, (snd s ++ m)%string))
    (rd ← on_field fst (fun w s => (w, snd s)) (get_random_generator open_device device);
     on_field snd (fun cerr s => (fst s, cerr)) (run_test (many_writes_test rd))).

End tests.

(** ** Every lawful stream passes *)

Section lawful.
Context `{ByteStreamLaws T} (strerror gai_strerror : Z -> string).
Hypothesis room : 200000 <= bs_max_cap.

Ltac each_test tac := repeat (apply List.Forall_cons; [tac|]); apply List.Forall_nil.

(** A list of steps written out: its lengths fit, and the queue passes it. *)
Ltac steps_by_evaluation :=
  apply steps_pass; [lia | each_test ltac:(vm_compute; done) | vm_compute; reflexivity].

Lemma construction_pass cerr : byte_stream_construction (T := T) strerror gai_strerror cerr = (Ok 0, cerr).
Proof. apply suite_passes. each_test steps_by_evaluation. Qed.

Lemma one_write_pass cerr : byte_stream_one_write (T := T) strerror gai_strerror cerr = (Ok 0, cerr).
Proof. apply suite_passes. each_test steps_by_evaluation. Qed.

(** The queue of "long-stream" between two rounds, whatever its counters. *)
Definition long_stream_queue (p q : Z) : astream := AStream 3 (bytes "bc") p q false false.

Lemma long_stream_round_queue p q : exists p' q',
  for_each (execute_step (T := astream)) long_stream_round (long_stream_queue p q) =
  (Ok tt, long_stream_queue p' q').
Proof. eexists _, _. lazy -[u64]. reflexivity. Qed.

Lemma long_stream_pass : passes (long_stream_test (T := T) strerror gai_strerror).
Proof.
  apply test_passes; [lia|]. intros h cerr HR. unfold mbind, M_bind.
  edestruct (executes_pass strerror gai_strerror) as (h1 & -> & HR1);
    [each_test ltac:(vm_compute; done)| |exact HR|]; [vm_compute; done|].
  destruct (for_from_inv (S := harness T * string)
    (fun _ s => snd s = cerr /\ exists p q, bs_rep (_byte_stream (fst s)) (long_stream_queue p q))
    (fun _ => executes strerror gai_strerror long_stream_round) (Z.to_nat 99997) 0 (h1, cerr))
    as ([h2 cerr2] & E2 & Ec & p & q & HR2).
  - split; [done|]. eexists _, _. exact HR1.
  - intros k [h' cerr'] _ [E (p & q & HR')]. simpl in E. subst cerr'.
    destruct (long_stream_round_queue p q) as (p' & q' & E).
    edestruct (executes_pass strerror gai_strerror long_stream_round) as (h2 & -> & HR2);
      [each_test ltac:(vm_compute; done)|by rewrite E|exact HR'|].
    rewrite E in HR2. eexists. split; [done|]. split; [done|]. by exists p', q'.
  - rewrite E2. simpl in Ec. subst cerr2.
    edestruct (executes_pass strerror gai_strerror) as (h3 & E & _);
      [| |exact HR2|exists h3; exact E]; [each_test ltac:(vm_compute; done)|vm_compute; done].
Qed.

Lemma capacity_pass cerr : byte_stream_capacity (T := T) strerror gai_strerror cerr = (Ok 0, cerr).
Proof. apply suite_passes. each_test ltac:(steps_by_evaluation || apply long_stream_pass). Qed.

Lemma two_writes_pass cerr : byte_stream_two_writes (T := T) strerror gai_strerror cerr = (Ok 0, cerr).
Proof. apply suite_passes. each_test steps_by_evaluation. Qed.


(** *** Many writes *)

Lemma random_text_length n rd : length (fst (random_text n rd)) = n.
Proof.
  revert rd. induction n as [|n IH]; intros rd; [done|]. cbn [random_text].
  destruct (mt_next rd) as [x rd1]. specialize (IH rd1). destruct (random_text n rd1). simpl in *. by rewrite IH.
Qed.

(** The queue of "many writes" between two rounds. *)
Definition many_writes_queue (data : list byte) : astream := AStream CAPACITY data (lenZ data) 0 false false.

Lemma many_writes_steps_queue data d :
  d <> [] -> lenZ data + lenZ d <= CAPACITY ->
  for_each (execute_step (T := astream)) (many_writes_steps (lenZ d) (lenZ data + lenZ d) d) (many_writes_queue data) =
  (Ok tt, many_writes_queue (data ++ d)).
Proof.
  intros Hd Hroom. pose proof (lenZ_nonneg data). pose proof (lenZ_nonneg d).
  assert (Hw : a_write d (many_writes_queue data) = many_writes_queue (data ++ d)).
  { unfold a_write, many_writes_queue, a_room. cbn. rewrite Z.min_l, lenZ_app by lia.
    rewrite take_ge by (unfold lenZ; lia). rewrite u64_small; [done|]. unfold CAPACITY, MAX_WRITE, NREPS in *. lia. }
  assert (Hne : a_empty (many_writes_queue (data ++ d)) = false).
  { destruct data; [|done]. by destruct d. }
  unfold many_writes_steps. cbn [for_each execute_step with_bytes_written]. run.
  unfold size_of at 1. run. cbn [bs_do queue_impl a_step fst snd]. rewrite Hw.
  change (a_room (many_writes_queue data)) with (CAPACITY - lenZ data). rewrite Z.min_l, Z.eqb_refl by lia. cbn [negb].
  rewrite !queue_expects_bool by (cbn [a_step]; rewrite ?Hne; reflexivity).
  rewrite !queue_expects_size; [done|..]; cbn [a_step]; f_equal; f_equal; rewrite <- ?lenZ_app; try done.
  unfold CAPACITY, MAX_WRITE, NREPS in *. rewrite u64_small; [done|]. rewrite lenZ_app. lia.
Qed.

Definition many_writes_inv (cerr : string) (k : Z) (s : harness T * string * (list Z * Z)) : Prop :=
  let '((h, cerr'), (_, acc)) := s in
  cerr' = cerr /\ exists data, bs_rep (_byte_stream h) (many_writes_queue data) /\
    acc = lenZ data /\ acc <= MAX_WRITE * k.

Lemma many_writes_round_inv cerr k s :
  0 <= k < NREPS -> many_writes_inv cerr k s ->
  exists s', many_writes_round (T := T) strerror gai_strerror s = (Ok tt, s') /\ many_writes_inv cerr (k + 1) s'.
Proof.
  unfold MAX_WRITE, NREPS. intros Hk. destruct s as [[h cerr'] [rd acc]]. intros (-> & data & HR & -> & Hacc).
  unfold many_writes_round. destruct (mt_next rd) as [x rd1].
  pose proof (Z.mod_pos_bound x (MAX_WRITE - MIN_WRITE) ltac:(done)) as Hx.
  set (size := MIN_WRITE + _). assert (Hsize : 10 <= size < 200) by (unfold size, MIN_WRITE, MAX_WRITE in *; lia).
  pose proof (random_text_length (Z.to_nat size) rd1) as Hd. destruct (random_text _ rd1) as [d rd2]. simpl in Hd.
  assert (HdZ : lenZ d = size) by (unfold lenZ; lia). pose proof (lenZ_nonneg data).
  change MAX_WRITE with 200 in Hacc. rewrite u64_small by lia. rewrite <- HdZ.
  assert (Hq : for_each (execute_step (T := astream)) (many_writes_steps (lenZ d) (lenZ data + lenZ d) d)
    (many_writes_queue data) = (Ok tt, many_writes_queue (data ++ d))).
  { apply many_writes_steps_queue; [intros ->; rewrite lenZ_nil in HdZ; lia|]. change CAPACITY with 200000. lia. }
  edestruct (executes_pass strerror gai_strerror) as (h' & -> & HR'); [|by rewrite Hq|exact HR|];
    [each_test ltac:(exact I)|]. rewrite Hq in HR'.
  eexists. split; [done|]. split; [done|]. exists (data ++ d). rewrite lenZ_app. repeat split; try done.
  change MAX_WRITE with 200. lia.
Qed.

Lemma many_writes_pass rd : passes (many_writes_test (T := T) strerror gai_strerror rd).
Proof.
  apply test_passes; [unfold CAPACITY, MAX_WRITE, NREPS; lia|]. intros h cerr HR.
  edestruct (for_from_inv (many_writes_inv cerr) (fun _ => many_writes_round strerror gai_strerror)
    (Z.to_nat NREPS) 0 (h, cerr, (rd, 0))) as ([[h' cerr'] g] & E & Hinv).
  - split; [done|]. exists []. split; [exact HR|]. done.
  - intros k s Hk. apply many_writes_round_inv. unfold NREPS in *. lia.
  - destruct g, Hinv as [-> _]. exists h'. by rewrite E.
Qed.

Lemma byte_stream_many_writes_runs {W} (open_device : M W unit) (device : M W Z) w cerr :
  byte_stream_many_writes (T := T) strerror gai_strerror open_device device (w, cerr) =
  match get_random_generator open_device device w with
  | (Ok _, w) => (Ok 0, (w, cerr))
  | (Exc e, w) => (Ok 1, (w, cerr ++ "Exception: " ++ what strerror gai_strerror e ++ nl)%string)
  | (Undef u, w) => (Undef u, (w, cerr))
  | (NoFuel, w) => (NoFuel, (w, cerr))
  end.
Proof.
  unfold byte_stream_many_writes, main_of, on_field. run.
  destruct (get_random_generator open_device device w) as [[rd|e|u|] w']; try done. cbn [fst snd].
  by rewrite many_writes_pass.
Qed.

(** C18: every implementation of a byte stream that satisfies the laws of the
    abstract queue and can hold 200000 bytes passes the five test programs of
    the repository: each returns 0 and writes nothing to standard error.  The
    fifth does so for every random device that never fails, which it asks for
    624 numbers; a device that fails is reported, with status 1. *)
Theorem repository_tests_pass {W} (open_device : M W unit) (device : M W Z) (w : W) (cerr : string) :
  byte_stream_construction (T := T) strerror gai_strerror cerr = (Ok 0, cerr) /\
  byte_stream_one_write (T := T) strerror gai_strerror cerr = (Ok 0, cerr) /\
  byte_stream_two_writes (T := T) strerror gai_strerror cerr = (Ok 0, cerr) /\
  byte_stream_capacity (T := T) strerror gai_strerror cerr = (Ok 0, cerr) /\
  match open_device w with
  | (Ok _, w1) =>
      never_fails device ->
      byte_stream_many_writes (T := T) strerror gai_strerror open_device device (w, cerr) =
      (Ok 0, (drawn device 624 w1, cerr))
  | (Exc e, w1) =>
      byte_stream_many_writes (T := T) strerror gai_strerror open_device device (w, cerr) =
      (Ok 1, (w1, cerr ++ "Exception: " ++ what strerror gai_strerror e ++ nl)%string)
  | _ => True
  end.
Proof.
  repeat split; auto using construction_pass, one_write_pass, two_writes_pass, capacity_pass.
  rewrite byte_stream_many_writes_runs. unfold get_random_generator. change (Z.to_nat mt_n) with 624%nat. run.
  destruct (open_device w) as [[[]|e|u|] w1]; try done. intros Hd.
  by destruct (generate_ok device 624 w1 Hd) as (xs & -> & _).
Qed.

End lawful.

(** The repository's implementation, and a device that always answers. *)
Lemma repository_tests_pass_witness :
  200000 <= bs_max_cap (T := byte_stream) /\
  byte_stream_capacity (T := byte_stream) (fun _ => EmptyString) (fun _ => EmptyString) EmptyString =
    (Ok 0, EmptyString) /\
  byte_stream_many_writes (T := byte_stream) (fun _ => EmptyString) (fun _ => EmptyString)
    demo_open demo_device (0, EmptyString) = (Ok 0, (drawn demo_device 624 0, EmptyString)).
Proof.
  assert (Hroom : 200000 <= bs_max_cap (T := byte_stream)) by (vm_compute; discriminate).
  destruct (repository_tests_pass (T := byte_stream) (fun _ => EmptyString) (fun _ => EmptyString) Hroom
    demo_open demo_device 0 EmptyString) as (_ & _ & _ & Hc & Hm).
  exact (conj Hroom (conj Hc (Hm demo_never_fails))).
Defined.
